(* ===== verification/_CoqProject ===== *)
-Q . S2P
Prelude.v
GoStd.v
GoFlag.v
Netip.v
NetipFacts.v
Effects.v
Api.v
External.v
Ipam.v
AgentState.v
Peers.v
Resources.v
Gateway.v
Controller.v
ReferenceCluster.v
ControllerEffects.v
PassFacts.v
GatewayFacts.v
PassOutcomes.v
ReconcileFacts.v
Node.v
WgServer.v
WgServerFacts.v
Datapath.v
DatapathFacts.v
Agent.v
AgentFacts.v
SidecarPeer.v
SidecarTunnel.v
Sidecar.v
AgentMain.v
SidecarPeerFacts.v
RoutesFacts.v
SidecarFacts.v
ClientFacts.v
Rbac.v
Injection.v
InjectionFacts.v
CelFacts.v
PodFacts.v
Watches.v
Manager.v
Roles.v
Memory.v
DeepCopy.v
Admission.v
EndToEnd.v
