(* ===== verification/Prelude.v ===== *)
(** * tunnel-operator: a verification development

    This library models the Go program under [src/], a Kubernetes operator that runs a
    WireGuard gateway in the cluster and sends labelled pods through it, and proves what makes
    its parts, and the parts together, correct.

    ** The program

    - The operator ([cmd/manager], [internal/controller], [internal/resources],
      [internal/ipam]) watches Wireguards and WireguardPeers. For a Wireguard it applies a
      Service and a Deployment, admits peers, gives each an address and renders the peers
      with the gateway's key into a Secret; it publishes the gateway's address, key and local
      networks in the status of each peer.
    - The gateway's agent ([cmd/agent], [internal/agent], [internal/wireguard],
      [internal/datapath]) reads the Secret as a file, configures the WireGuard device from it,
      and keeps the firewall and the policy routing that send peers' packets into
      the tunnel of gluetun or nowhere.
    - The client ([agent client], [internal/sidecar]) runs in a pod: it registers the pod's
      key as a WireguardPeer, waits until the operator has published the gateway, and gives
      the pod a device and routes.
    - Injection ([internal/controller/injection.go], [injection_rbac.go]) puts the client into
      labelled pods with an admission policy, and binds the role it needs; the policy of
      [config/admission] refuses labelled pods that have no client.

    ** How code becomes definitions

    Pure functions are functions; fallible ones return [result] ([Ok] or an [error] with its
    text and the sentinels [errors.Is] finds in it). Code that talks to the outside is a program
    of the free monad [prog] ([Effects.v]) over the operations of its environment: the API
    server for the controllers ([KOp] in [Controller.v], [ROp] in [Rbac.v], [IOp] in
    [Injection.v]), and netlink, wgctrl, files, processes, clock and API for the agent and
    the client ([NOp] in [Node.v]); the operator's [main] is one over its calls
    into controller-runtime ([MOp] in [Manager.v]). [exec p tr a] says that [p] can perform the operations
    and receive the answers of the trace [tr], whatever the environment answers, and return
    [a]; [run] executes a program against a handler, and the witnesses do. A theorem on [exec]
    therefore covers every interleaving with other writers that shows in the answers.
    Where a theorem needs the environment to keep to its documentation, [lawful] or a [replay]
    of a law of the store, the file, the routing table or the firewall states it. What runs
    beside other code is a step relation: the work queues in [Watches.v], the wake-up channel
    in [Sidecar.v]. Where sharing of memory matters, in the generated copies, values are
    pointers into a heap ([Memory.v]).

    Third-party code is a class with what its documentation says as laws, and each class has an
    instance that the witnesses use: [WgTypes], [MetaLib], [ConditionLib], [Ipnetgen] and
    [IpnetgenSpec] ([External.v]), [OwnerLib] ([Resources.v]), [ApplyLib] and [OwnedObject]
    ([Controller.v]), [agent.StateCodec] ([AgentState.v]), [Sha256] ([Agent.v]), [WgKernel]
    ([WgServerFacts.v]), [Rpdb] ([DatapathFacts.v]), [PeerStore] ([SidecarPeerFacts.v]),
    [BindingStore] ([Rbac.v]), [JsonLib] ([Injection.v]), [ControllerRuntime] ([Watches.v]), and
    [Foreign] and [SchemeLib] ([DeepCopy.v]).

    ** The files

    - [Prelude.v]: scopes, tactics and lemmas on lists, maps and integers.
    - [GoStd.v]: errors and what is used of [strings], [strconv], [sort] and [net].
      [GoFlag.v]: the package [flag].
      [Netip.v], [NetipFacts.v]: [net/netip] on IPv4 and IPv6 texts, with the lemmas
      on IPv4 texts, prefixes and containment. [Effects.v]: programs, traces and replays.
    - [Api.v]: the custom resources of [api/v1alpha1] and the API types they use.
      [External.v]: third-party interfaces with reference instances.
    - [Ipam.v]: [internal/ipam/allocator.go]. [AgentState.v]: the state of
      [internal/agent/agent.go] and its check. [Peers.v]: [internal/controller/peers.go].
      [Resources.v]: [internal/resources]. [Gateway.v]: [internal/controller/gateway.go].
    - [Controller.v]: [wireguard_controller.go] and [apply.go] of [internal/controller].
      [ReferenceCluster.v]: an API server for the witnesses. [ControllerEffects.v]: which part
      of a reconcile may write what. [PassFacts.v]: what a pass over the peers
      guarantees. [GatewayFacts.v]: what the checks of a spec guarantee. [PassOutcomes.v]: what
      a pass achieves. [ReconcileFacts.v]: what a whole reconcile writes.
    - [Node.v]: the operations of a node. [WgServer.v]: [internal/wireguard/wireguard.go].
      [Datapath.v]: [internal/datapath]. [Agent.v]: [internal/agent] and the server part of
      [cmd/agent/main.go]. [WgServerFacts.v], [DatapathFacts.v], [AgentFacts.v]: their theorems.
    - [SidecarPeer.v]: [config.go], [key.go] and [peer.go] of [internal/sidecar].
      [SidecarTunnel.v]: [tunnel.go], [routes.go], [routes_linux.go], [apply.go] and
      [check.go]. [Sidecar.v]: [sidecar.go] and [runClient]; its Module [watch] is the
      wake-up channel as a step relation. [AgentMain.v]: [main] of [cmd/agent/main.go] on its
      command line. [SidecarPeerFacts.v], [RoutesFacts.v],
      [SidecarFacts.v], [ClientFacts.v]: their theorems.
    - [Rbac.v]: [injection_rbac.go], with its theorem. [Injection.v]: [injection.go] and
      [operatorNamespace] of [cmd/manager/main.go]. [InjectionFacts.v], [CelFacts.v]: its
      theorems. [PodFacts.v]: the rendered gateway and client pods against the programs
      that run in them. [Admission.v]: the CEL expressions of the injection policy and of
      [config/admission], and the JSON patches they make.
    - [Watches.v]: the three [SetupWithManager] methods, [CacheOptions] and the work queue.
      [Manager.v]: [cmd/manager/main.go]. [Roles.v]: the roles of [config/rbac] and the markers
      they come from.
    - [Memory.v]: the heap and the copying of slices, maps and pointers. [DeepCopy.v]:
      [zz_generated.deepcopy.go] and [groupversion_info.go].
    - [EndToEnd.v]: the theorems about the parts together.

    ** What the theorems show

    - The operator: every Secret it writes holds peers of the gateway that are admissible, with
      names, keys and addresses of their own, at usable addresses the server stores; a key
      stays with the peer it is served to; nothing is rendered from a spec that fails a
      check; ready means rolled out; no peer goes without an address while one is free;
      settled peers cause no write; every problem is recorded.
    - The agent: only valid states reach the device, and from any device the entries computed
      leave exactly the state's peers; a probe answered with 200 means the device, the
      datapath, the kernel's routing and gluetun are right; peers' packets never pass the
      blackhole rule, and the forward policy is DROP whatever fails.
    - The client: it changes only the network of a pod of its own, for a peer of its own; its
      key is stable, its registration converges and takes no one else's peer; after its
      routes are set no default route is outside the tunnel, and at every moment before the
      CNI gateway can be found again; a live session is not reset; no change of the
      peer is missed; the startup check is exact.
    - Injection: the policy follows the one default gateway, a binding always has its policy,
      the CEL text denotes exactly the rendered objects, and the role is bound exactly
      where injected pods are.
    - Admission: the mutation the operator renders puts the client first in a pod, once, and
      changes nothing else but its volumes; the backstop accepts exactly pods that have it.
    - The pods: in the gateway's pod the selectors, ports, mounts, probes and command line fit
      the agent, and a spec cannot override what gluetun's routing depends on; the
      injected container runs the client for its gateway, as the pod it is in.
    - The control loops: a key with nothing in the queue was last passed over when what the pass
      depends on was as it is now, although caches and predicates drop events. Every
      request of the operator and of the client is one its role allows. The manager starts only
      after everything that prepares it succeeded.
    - The copies the API types generate equal their originals and share no memory with them.
    - Together: the Secret an operator wrote, on a ready agent, puts exactly its peers on the
      device; and what a ready gateway publishes is a tunnel the client can bring up, whose
      own packets do not enter it.

    ** Bounds and fuel

    Recursion is structural but for three loops. [parse6_loop] of [Netip.v], the loop of Go's
    parser of IPv6 texts, runs with eight turns, since each adds two bytes of sixteen, and
    [parse6_loop_fuel] shows that more change nothing. [alloc_loop] of [Ipam.v] runs
    with one step more than there are used addresses, and [AllocateIP_first_free] shows
    that it never runs out. [waitForLink_loop] of [WgServer.v] runs with 52 turns, one for
    each 100 ms of the 5 s it waits and two more, and [waitForLink_ends] shows that a clock
    that advances as the code sleeps ends it within them. The reader of CEL texts in [CelFacts.v] belongs to the
    specification and takes any bound from the number of values on. Integers are [Z];
    ports and prefix lengths are parsed with the source's width checks, IPv4 addresses are
    below 2^32, and their arithmetic is shown to stay there.

    ** Not modelled

    - Logging, metrics, signal handling and the HTTP server of the agent: calls into
      libraries that decide nothing.
    - What controller-runtime and client-go do behind the calls of [main] of [cmd/manager]:
      leader election, certificates, the informers' connection to the server. Their effect on
      the reconcilers, which request follows which event, is in [Watches.v].
    - The stubs for platforms other than Linux, which only return an error.
    - The other YAML under [config/] (kustomize files, the CRDs generated from the types, the
      roles for users, leader election and metrics), and the third-party code behind the
      classes above. Of CEL and JSON patch only what the policies use is defined. *)

From Stdlib Require Export Ascii.
From stdpp Require Export base tactics option list sorting gmap strings pretty.
From Stdlib Require Export ZArith Lia.

#[global] Set Default Goal Selector "!".
#[global] Set Warnings "-clear-no-such-hyp".
#[global] Open Scope string_scope.
#[global] Open Scope list_scope.
#[global] Open Scope Z_scope.

Abbreviation length := List.length (only parsing).

Create Rewrite HintDb gostr.

(** ** Go errors and results *)

(** The identities [errors.Is], [apierrors.IsNotFound] and their like test. *)
Inductive errkind :=
  | NotFound | Conflict | Invalid | AlreadyExists
  | ErrWaiting | ErrNotExist
  | EINVAL | ESRCH | EOPNOTSUPP | EAFNOSUPPORT | LinkNotFound.

#[export] Instance errkind_eq_dec : EqDecision errkind.
Proof. solve_decision. Defined.

(** A Go [error]: its text and the identities found along its chain of wrapped
    errors. *)
Record error := MkError { err_text : string; err_is : list errkind }.

#[export] Instance error_eq_dec : EqDecision error.
Proof. solve_decision. Defined.

(** [errors.New]. *)
Definition errors_New (s : string) : error := MkError s [].

(** [errors.Is] against one identity. *)
Definition errors_Is (e : error) (k : errkind) : bool := bool_decide (k ∈ err_is e).

(** [fmt.Errorf] with the verb [%w] applied to [e] after the text [pre]: the
    identities of [e] are kept. *)
Definition wrapf (pre : string) (e : error) : error :=
  MkError (pre +:+ err_text e) (err_is e).

Inductive result (A : Type) :=
  | Ok (a : A)
  | Err (e : error).
Arguments Ok {_} _.
Arguments Err {_} _.

#[export] Instance result_eq_dec {A} `{EqDecision A} : EqDecision (result A).
Proof. solve_decision. Defined.

(** ** Lists *)

(** The strings that are not empty. *)
Definition nonempty (l : list string) : list string := filter (λ s, s ≠ "") l.

Lemma NoDup_nonempty_fmap {A} (f : A → string) (l : list A) :
  NoDup l → (∀ x y, x ∈ l → y ∈ l → f x ≠ "" → f x = f y → x = y) → NoDup (nonempty (f <$> l)).
Proof.
  unfold nonempty. induction 1 as [|x l Hx Hl IH]; intros Hinj; [constructor|].
  rewrite fmap_cons, filter_cons. case_decide as Hne.
  - apply NoDup_cons. split.
    + intros [_ (y & E & Hy)%list_elem_of_fmap]%list_elem_of_filter.
      apply Hx. rewrite (Hinj x y); [done|by left|by right|done|done].
    + apply IH. intros; apply Hinj; auto; by right.
  - apply IH. intros; apply Hinj; auto; by right.
Qed.

Lemma nonempty_all {A} (f : A → string) (l : list A) :
  Forall (λ x, f x ≠ "") l → nonempty (f <$> l) = f <$> l.
Proof.
  unfold nonempty. induction 1 as [|x l Hx Hl IH]; [done|].
  rewrite fmap_cons, filter_cons, decide_True by done. by rewrite IH.
Qed.

Lemma elem_of_sublist {A} (x : A) (l k : list A) : l `sublist_of` k → x ∈ l → x ∈ k.
Proof. intros Hs Hx. eapply elem_of_submseteq; [exact Hx|]. by apply sublist_submseteq. Qed.

Lemma sublist_Forall {A} (P : A → Prop) (l k : list A) : l `sublist_of` k → Forall P k → Forall P l.
Proof. rewrite !Forall_forall. intros Hs Hk x Hx. eapply Hk, elem_of_sublist; eauto. Qed.

Lemma list_filter_iff_elem {A} (P Q : A → Prop) `{!∀ x, Decision (P x), !∀ x, Decision (Q x)} (l : list A) :
  (∀ x, x ∈ l → P x ↔ Q x) → filter P l = filter Q l.
Proof.
  induction l as [|x l IH]; intros Hl; [done|]. rewrite !filter_cons.
  specialize (IH ltac:(intros y Hy; apply Hl; by right)). specialize (Hl x ltac:(left)).
  destruct (decide (P x)), (decide (Q x)); [by f_equal|tauto|tauto|done].
Qed.

Lemma NoDup_fmap_inj {A B} (f : A → B) (l : list A) x y :
  NoDup (f <$> l) → x ∈ l → y ∈ l → f x = f y → x = y.
Proof.
  intros Hnd Hx Hy Hf. apply list_elem_of_lookup in Hx as [i Hi], Hy as [j Hj].
  assert (i = j) as ->.
  { eapply (NoDup_lookup (f <$> l)); [done|..]; rewrite list_lookup_fmap; [by rewrite Hi|].
    rewrite Hj. cbn. by f_equal. }
  congruence.
Qed.

Lemma sublist_NoDup {A} (l k : list A) : l `sublist_of` k → NoDup k → NoDup l.
Proof.
  induction 1 as [|x l k H IH|x l k H IH]; intros Hnd; [constructor|..].
  - apply NoDup_cons in Hnd as [Hx Hnd]. apply NoDup_cons. split; [|auto].
    intros Hin. by apply Hx, (elem_of_sublist _ l).
  - apply NoDup_cons in Hnd as [_ Hnd]. auto.
Qed.

(** ** Tactics *)

(** Proves a decidable closed property by evaluating it. *)
Ltac by_evaluation := apply (bool_decide_unpack _); vm_compute; exact I.
