(* ===== verification/GoStd.v ===== *)
(** * The parts of Go's standard library the program computes with

    Byte strings ([string] as a sequence of bytes), [strconv], [strings] and
    the ordering of strings. Only what the sources under [src/] call is here;
    [Netip.v] holds [net/netip]. *)

From S2P Require Import Prelude.

Abbreviation char := Ascii.ascii.

(** ** Characters *)

Definition code (c : char) : Z := Z.of_N (Ascii.N_of_ascii c).

Definition in_range (lo hi : Z) (c : char) : bool := (lo <=? code c) && (code c <=? hi).

(** ['0' <= c && c <= '9'] *)
Definition is_digit (c : char) : bool := in_range 48 57 c.

Definition digit_val (c : char) : Z := code c - 48.

(** The value of a hexadecimal digit, lower or upper case. *)
Definition hex_val (c : char) : option Z :=
  if is_digit c then Some (code c - 48)
  else if in_range 97 102 c then Some (code c - 97 + 10)
  else if in_range 65 70 c then Some (code c - 65 + 10)
  else None.

Definition chr (n : Z) : char := Ascii.ascii_of_N (Z.to_N n).

Definition str1 (c : char) : string := String c EmptyString.

(** The byte 0x22, which no string literal of this development contains. *)
Definition dquote : char := chr 34.

(** ** [strings] *)

(** [len(s)] *)
Definition len (s : string) : Z := Z.of_nat (String.length s).

(** [strings.Cut(s, sep)] for a one-byte separator: the text before and after
    the first [c], or [None] when [s] holds no [c]. *)
Fixpoint cut (c : char) (s : string) : option (string * string) :=
  match s with
  | EmptyString => None
  | String d s' =>
      if decide (d = c) then Some (EmptyString, s')
      else '(a, b) ← cut c s'; Some (String d a, b)
  end.

(** [strings.Contains(s, c)] for a one-byte [c]. *)
Fixpoint contains_byte (c : char) (s : string) : bool :=
  match s with
  | EmptyString => false
  | String d s' => bool_decide (d = c) || contains_byte c s'
  end.

(** [s[:i], s[i+1:]] at [i = bytealg.LastIndexByteString(s, c)]. *)
Fixpoint cut_last (c : char) (s : string) : option (string * string) :=
  match s with
  | EmptyString => None
  | String d s' =>
      match cut_last c s' with
      | Some (a, b) => Some (String d a, b)
      | None => if decide (d = c) then Some (EmptyString, s') else None
      end
  end.

(** [strings.Join(l, sep)] *)
Fixpoint join (sep : string) (l : list string) : string :=
  match l with
  | [] => EmptyString
  | [s] => s
  | s :: l' => s +:+ sep +:+ join sep l'
  end.

(** [unicode.IsSpace] on the ASCII range. *)
Definition is_space (c : char) : bool := in_range 9 13 c || (code c =? 32).

Fixpoint trim_left (s : string) : string :=
  match s with
  | String c s' => if is_space c then trim_left s' else s
  | EmptyString => EmptyString
  end.

Fixpoint trim_right (s : string) : string :=
  match s with
  | EmptyString => EmptyString
  | String c s' =>
      match trim_right s' with
      | EmptyString => if is_space c then EmptyString else str1 c
      | t => String c t
      end
  end.

(** [strings.TrimSpace] *)
Definition TrimSpace (s : string) : string := trim_left (trim_right s).

(** ** [cmp] on strings and integers *)

(** [cmp.Compare] on strings: bytewise lexical order. *)
Fixpoint compare_string (a b : string) : comparison :=
  match a, b with
  | EmptyString, EmptyString => Eq
  | EmptyString, String _ _ => Lt
  | String _ _, EmptyString => Gt
  | String c a', String d b' =>
      match Z.compare (code c) (code d) with
      | Eq => compare_string a' b'
      | r => r
      end
  end.

(** [cmp.Or] on comparison results: the first that is not equality. *)
Definition cmp_Or (a b : comparison) : comparison :=
  match a with Eq => b | _ => a end.

(** [cmp.Or] on strings: the first that is not empty. *)
Definition cmp_Or_string (a b : string) : string :=
  match a with EmptyString => b | _ => a end.

(** ** [strconv] *)

(** [strconv.Itoa], and [fmt]'s [%d]. *)
Definition Itoa (n : Z) : string := pretty n.

(** The value of a run of decimal digits read after [acc]; [None] on any other
    byte. *)
Fixpoint decimal (acc : Z) (s : string) : option Z :=
  match s with
  | EmptyString => Some acc
  | String c s' => if is_digit c then decimal (acc * 10 + digit_val c) s' else None
  end.

(** [strconv.ParseUint(s, 10, bits)]; [None] stands for its syntax and range
    errors. *)
Definition ParseUint (s : string) (bits : Z) : option Z :=
  match s with
  | EmptyString => None
  | _ => n ← decimal 0 s; if n <? 2 ^ bits then Some n else None
  end.

(** [strconv.Atoi] for the 64-bit [int]; [None] stands for its errors. *)
Definition Atoi (s : string) : option Z :=
  match s with
  | EmptyString => None
  | String c s' =>
      if code c =? 43 then
        n ← ParseUint s' 64; if n <? 2 ^ 63 then Some n else None
      else if code c =? 45 then
        n ← ParseUint s' 64; if n <=? 2 ^ 63 then Some (- n) else None
      else n ← ParseUint s 64; if n <? 2 ^ 63 then Some n else None
  end.

Definition hex_digit (n : Z) : char := if n <? 10 then chr (48 + n) else chr (97 + n - 10).

(** One byte of [strconv.Quote]. Bytes above 0x7f are copied: the strings of
    the API objects are UTF-8 text, whose printable runes Quote copies. *)
Definition quote_byte (c : char) : string :=
  let n := code c in
  let esc k := String (chr 92) (str1 (chr k)) in
  if n =? 34 then esc 34
  else if n =? 92 then esc 92
  else if n =? 7 then esc 97
  else if n =? 8 then esc 98
  else if n =? 12 then esc 102
  else if n =? 10 then esc 110
  else if n =? 13 then esc 114
  else if n =? 9 then esc 116
  else if n =? 11 then esc 118
  else if (n <? 32) || (n =? 127) then
    String (chr 92) (String (chr 120) (String (hex_digit (n / 16)) (str1 (hex_digit (n mod 16)))))
  else str1 c.

Fixpoint quote_bytes (s : string) : string :=
  match s with
  | EmptyString => EmptyString
  | String c s' => quote_byte c +:+ quote_bytes s'
  end.

(** [strconv.Quote], and [fmt]'s [%q]. *)
Definition Quote (s : string) : string := str1 dquote +:+ quote_bytes s +:+ str1 dquote.

(** ** Lemmas *)

Lemma cut_last_Some c s a b :
  cut_last c s = Some (a, b) → s = a +:+ String c b ∧ cut_last c b = None.
Proof.
  revert a b. induction s as [|d s IH]; intros a b H; simpl in H; [done|].
  destruct (cut_last c s) as [[a' b']|] eqn:E.
  - simplify_eq. destruct (IH a' b eq_refl) as [-> ?]. done.
  - case_decide; simplify_eq. done.
Qed.

Lemma cut_last_None c s : cut_last c s = None ↔ contains_byte c s = false.
Proof.
  induction s as [|d s IH]; simpl; [done|].
  destruct (contains_byte c s), (cut_last c s) as [[]|]; case_decide; case_bool_decide;
    cbn; clear - IH H H0; intuition congruence.
Qed.

Lemma cut_last_app c a b :
  contains_byte c b = false → cut_last c (a +:+ String c b) = Some (a, b).
Proof.
  intros H. apply cut_last_None in H. induction a as [|d a IH]; simpl.
  - rewrite H. by rewrite decide_True.
  - by rewrite IH.
Qed.

Lemma compare_string_refl a : compare_string a a = Eq.
Proof. induction a; simpl; [done|]. by rewrite Z.compare_refl. Qed.

Lemma code_inj c d : code c = code d → c = d.
Proof.
  unfold code. intros H. apply (f_equal Z.to_N) in H. rewrite !N2Z.id in H.
  rewrite <-(Ascii.ascii_N_embedding c), <-(Ascii.ascii_N_embedding d). by f_equal.
Qed.

Lemma compare_string_eq a b : compare_string a b = Eq ↔ a = b.
Proof.
  split; [|intros ->; apply compare_string_refl].
  revert b. induction a as [|c a IH]; intros [|d b] H; simpl in *; try done.
  destruct (Z.compare_spec (code c) (code d)) as [E|E|E]; try done.
  apply code_inj in E. f_equal; auto.
Qed.

Lemma compare_string_antisym a b : compare_string b a = CompOpp (compare_string a b).
Proof.
  revert b. induction a as [|c a IH]; intros [|d b]; simpl; try done.
  rewrite (Z.compare_antisym (code c) (code d)).
  destruct (code c ?= code d); simpl; auto.
Qed.

Lemma compare_string_lt_trans a b c :
  compare_string a b = Lt → compare_string b c = Lt → compare_string a c = Lt.
Proof.
  revert b c. induction a as [|x a IH]; intros [|y b] [|z c] H1 H2; simpl in *; try done.
  destruct (Z.compare_spec (code x) (code y)) as [E1|E1|E1]; try done;
    destruct (Z.compare_spec (code y) (code z)) as [E2|E2|E2]; try done;
    destruct (Z.compare_spec (code x) (code z)) as [E3|E3|E3]; try done; try lia.
  eauto.
Qed.

Lemma str_app_cons d (a b : string) : String d a +:+ b = String d (a +:+ b).
Proof. reflexivity. Qed.

Lemma str_app_nil_l (b : string) : EmptyString +:+ b = b.
Proof. reflexivity. Qed.

Lemma str_app_assoc (a b c : string) : (a +:+ b) +:+ c = a +:+ (b +:+ c).
Proof. induction a as [|d a IH]; [done|]. rewrite !str_app_cons. by rewrite IH. Qed.

Lemma str_app_nil_r (a : string) : a +:+ EmptyString = a.
Proof. induction a as [|d a IH]; [done|]. rewrite !str_app_cons. by rewrite IH. Qed.

Lemma str_app_inj_l (a b c : string) : a +:+ b = a +:+ c → b = c.
Proof. apply String.app_inj. Qed.

Lemma contains_byte_app c a b :
  contains_byte c (a +:+ b) = contains_byte c a || contains_byte c b.
Proof.
  induction a as [|d a IH]; [done|]. rewrite str_app_cons. simpl.
  rewrite IH. by rewrite orb_assoc.
Qed.

#[export] Hint Rewrite str_app_cons str_app_nil_l str_app_assoc str_app_nil_r : gostr.

Lemma cut_app c a b :
  contains_byte c a = false → cut c (a +:+ String c b) = Some (a, b).
Proof.
  induction a as [|d a IH]; intros Hc.
  - rewrite str_app_nil_l. cbn. by rewrite decide_True.
  - rewrite str_app_cons. cbn in Hc |- *. destruct (bool_decide_reflect (d = c)); [done|].
    rewrite decide_False by done. cbn in Hc. by rewrite IH.
Qed.

(** Every byte-valued test can be checked by running it 256 times. *)
Lemma byte_forall (P : Z → bool) :
  forallb P (seqZ 0 256) = true → ∀ v, 0 <= v <= 255 → P v = true.
Proof.
  intros H v Hv. rewrite forallb_forall in H. apply H.
  apply list_elem_of_In, elem_of_seqZ. lia.
Qed.

Lemma is_digit_range c : is_digit c = true ↔ 48 <= code c <= 57.
Proof. unfold is_digit, in_range. rewrite andb_true_iff, !Z.leb_le. lia. Qed.

Lemma digit_val_range c : is_digit c = true → 0 <= digit_val c <= 9.
Proof. rewrite is_digit_range. unfold digit_val. lia. Qed.

Lemma chr_code c : chr (code c) = c.
Proof. unfold chr, code. rewrite N2Z.id. apply Ascii.ascii_N_embedding. Qed.

Lemma code_bounds c : 0 <= code c < 256.
Proof. unfold code. pose proof (Ascii.N_ascii_bounded c). lia. Qed.

(** A digit appended to a decimal number below 256 is a digit appended to its
    text. *)
Lemma Itoa_snoc v d :
  0 < v -> 0 <= d <= 9 -> v * 10 + d <= 255 ->
  Itoa (v * 10 + d) = Itoa v +:+ str1 (chr (48 + d)).
Proof.
  intros Hv Hd Hle.
  assert (forallb (λ v, forallb (λ d,
    (v =? 0) || (255 <? v * 10 + d) ||
    bool_decide (Itoa (v * 10 + d) = Itoa v +:+ str1 (chr (48 + d)))) (seqZ 0 10)) (seqZ 0 256) = true)
    as H by (vm_compute; reflexivity).
  pose proof (byte_forall _ H v ltac:(lia)) as H'. cbv beta in H'.
  rewrite forallb_forall in H'. specialize (H' d).
  rewrite <-list_elem_of_In, elem_of_seqZ in H'. specialize (H' ltac:(lia)).
  rewrite !orb_true_iff, Z.eqb_eq, Z.ltb_lt, bool_decide_eq_true in H'. intuition lia.
Qed.

Lemma Itoa_digit d : 0 <= d <= 9 → Itoa d = str1 (chr (48 + d)).
Proof.
  intros Hd.
  assert (forallb (λ d, (9 <? d) || bool_decide (Itoa d = str1 (chr (48 + d)))) (seqZ 0 256) = true)
    as H by (vm_compute; reflexivity).
  pose proof (byte_forall _ H d ltac:(lia)) as H'. cbv beta in H'.
  rewrite orb_true_iff, Z.ltb_lt, bool_decide_eq_true in H'. intuition lia.
Qed.

(** A number is read back from its decimal text. *)
Lemma digit_char d : (d < 10)%N → is_digit (pretty_N_char d) = true ∧ digit_val (pretty_N_char d) = Z.of_N d.
Proof.
  intros Hd. assert (d = 0 ∨ d = 1 ∨ d = 2 ∨ d = 3 ∨ d = 4 ∨ d = 5 ∨ d = 6 ∨ d = 7 ∨ d = 8 ∨ d = 9)%N as Hc by lia.
  by repeat (destruct Hc as [->|Hc]; [done|]); subst.
Qed.

Lemma decimal_pretty x s : decimal 0 (pretty_N_go x s) = decimal (Z.of_N x) s.
Proof.
  revert s. induction (N.lt_wf_0 x) as [x _ IH]; intros s. destruct (decide (x = 0%N)) as [->|Hx].
  - by rewrite pretty_N_go_0.
  - rewrite pretty_N_go_step by lia. rewrite IH by (apply N.div_lt; lia). cbn [decimal].
    destruct (digit_char (x mod 10)) as [-> ->]; [apply N.mod_lt; lia|]. pose proof (N.div_mod' x 10). f_equal. lia.
Qed.

Lemma decimal_Itoa n : 0 <= n → decimal 0 (Itoa n) = Some n.
Proof.
  intros Hn. destruct n as [|p|p]; [done| |done]. unfold Itoa, pretty, pretty_Z, pretty, pretty_positive.
  unfold pretty, pretty_N. rewrite decide_False by done. by rewrite decimal_pretty.
Qed.

Lemma Itoa_ne n : Itoa n ≠ EmptyString.
Proof.
  destruct (Z.lt_ge_cases n 0) as [Hn|Hn]; [by destruct n|].
  intros He. destruct n as [|p|p]; [done| |done].
  assert (pretty_N_go (N.pos p) "" = "") as Hp.
  { unfold Itoa, pretty, pretty_Z, pretty, pretty_positive, pretty, pretty_N in He. by rewrite decide_False in He. }
  apply (f_equal (decimal 0)) in Hp. rewrite decimal_pretty in Hp. done.
Qed.

(** Text of digits only. *)
Fixpoint all_digits (s : string) : bool :=
  match s with EmptyString => true | String c s' => is_digit c && all_digits s' end.

Lemma decimal_digits acc s n : decimal acc s = Some n → all_digits s = true.
Proof.
  revert acc. induction s as [|c s IH]; intros acc Hd; [done|]. cbn in *. destruct (is_digit c); [|done]. by eapply IH.
Qed.

Lemma Itoa_digits n : 0 <= n → all_digits (Itoa n) = true.
Proof. intros Hn. eapply decimal_digits. by apply decimal_Itoa. Qed.
