(* ===== verification/GoFlag.v ===== *)
(** * The standard library's [flag]

    Flag sets with string, integer and boolean flags, and [strconv.ParseInt] and
    [strconv.ParseBool] as their values are read. *)

From S2P Require Import Prelude GoStd.

(** ** [strconv] *)

(** [strconv.ErrSyntax] and [strconv.ErrRange]. *)
Inductive numError := ErrSyntax | ErrRange.

(** The bit that tells lower from upper case, set. *)
Definition lower (c : char) : Z := Z.lor (code c) 32.

(** The value of a digit of a base up to 36. *)
Definition digit36 (c : char) : option Z :=
  if is_digit c then Some (digit_val c)
  else if (97 <=? lower c) && (lower c <=? 122) then Some (lower c - 97 + 10)
  else None.

(** The digits of [ParseUint] with base 0, underscores skipped; the range is that of 64 bits. *)
Fixpoint digits0 (base acc : Z) (s : string) : Z + numError :=
  match s with
  | EmptyString => inl acc
  | String c s =>
      if code c =? 95 then digits0 base acc s
      else
        match digit36 c with
        | None => inr ErrSyntax
        | Some d =>
            if base <=? d then inr ErrSyntax
            else if 2 ^ 64 <=? acc * base + d then inr ErrRange
            else digits0 base (acc * base + d) s
        end
  end.

(** The base of a literal and its digits. *)
Definition base0 (s : string) : Z * string :=
  match s with
  | String z (String p ((String _ _) as t)) =>
      if negb (code z =? 48) then (10, s)
      else if lower p =? 98 then (2, t)
      else if lower p =? 111 then (8, t)
      else if lower p =? 120 then (16, t)
      else (8, String p t)
  | String z t => if code z =? 48 then (8, t) else (10, s)
  | EmptyString => (10, s)
  end.

(** [underscoreOK] once the sign and the base are read; [prev] is what came before: a
    digit or the base ([Some true]), an underscore ([Some false]), or neither. *)
Fixpoint underscores (hex : bool) (prev : option bool) (s : string) : bool :=
  match s with
  | EmptyString => negb (bool_decide (prev = Some false))
  | String c s =>
      if is_digit c || (hex && (97 <=? lower c) && (lower c <=? 102)) then underscores hex (Some true) s
      else if code c =? 95 then bool_decide (prev = Some true) && underscores hex (Some false) s
      else if bool_decide (prev = Some false) then false
      else underscores hex None s
  end.

Definition underscoreOK (s : string) : bool :=
  match s with
  | String z (String p t) =>
      if (code z =? 48) && bool_decide (lower p ∈ [98; 111; 120]) then underscores (lower p =? 120) (Some true) t
      else underscores false None s
  | _ => underscores false None s
  end.

(** [strconv.ParseUint] of base 0 and 64 bits. *)
Definition ParseUint0 (s : string) : Z + numError :=
  if decide (s = "") then inr ErrSyntax
  else
    let '(base, t) := base0 s in
    match digits0 base 0 t with
    | inr e => inr e
    | inl n => if contains_byte "_"%char t && negb (underscoreOK s) then inr ErrSyntax else inl n
    end.

(** [strconv.ParseInt] of base 0 for the 64-bit [int]. *)
Definition ParseInt0 (s : string) : Z + numError :=
  let '(neg, t) := match s with
                   | String c t => if code c =? 43 then (false, t) else if code c =? 45 then (true, t) else (false, s)
                   | EmptyString => (false, s)
                   end in
  match ParseUint0 t with
  | inr e => inr e
  | inl n =>
      if (neg : bool) then if 2 ^ 63 <? n then inr ErrRange else inl (- n)
      else if 2 ^ 63 <=? n then inr ErrRange else inl n
  end.

(** [strconv.ParseBool] *)
Definition ParseBool (s : string) : option bool :=
  if decide (s ∈ ["1"; "t"; "T"; "TRUE"; "true"; "True"]) then Some true
  else if decide (s ∈ ["0"; "f"; "F"; "FALSE"; "false"; "False"]) then Some false
  else None.

(** ** [flag] *)

(** A flag's value, the default until it is set. *)
Inductive value := VString (s : string) | VInt (n : Z) | VBool (b : bool).

(** The flags that are defined, by name. *)
Abbreviation FlagSet := (gmap string value).

(** [Value.Set] *)
Definition set_value (old : value) (s : string) : value + string :=
  match old with
  | VString _ => inl (VString s)
  | VInt _ =>
      match ParseInt0 s with
      | inl n => inl (VInt n)
      | inr ErrSyntax => inr "parse error"
      | inr ErrRange => inr "value out of range"
      end
  | VBool _ => match ParseBool s with Some b => inl (VBool b) | None => inr "parse error" end
  end.

(** What [parseOne] makes of an argument: no flag, the end of the flags, an error, or a
    name and perhaps a value. *)
Inductive shape := NoFlag | Terminator | BadSyntax | Named (name : string) (v : option string).

Definition shape_of (s : string) : shape :=
  match s with
  | String m t =>
      if negb (code m =? 45) || bool_decide (t = "") then NoFlag
      else
        let name := match t with String m' t' => if code m' =? 45 then t' else t | EmptyString => t end in
        match name with
        | EmptyString => Terminator
        | String c t' =>
            if (code c =? 45) || (code c =? 61) then BadSyntax
            else
              match cut "="%char t' with
              | Some (a, b) => Named (String c a) (Some b)
              | None => Named name None
              end
        end
  | EmptyString => NoFlag
  end.

(** How [Parse] ends: the flags and the arguments after them, [ErrHelp], or another error. *)
Inductive parsed := Parsed (fs : FlagSet) (rest : list string) | Help | Failed (e : error).

(** [FlagSet.Parse], its [parseOne] for each argument. *)
Fixpoint Parse (fs : FlagSet) (args : list string) : parsed :=
  match args with
  | [] => Parsed fs []
  | s :: rest =>
      match shape_of s with
      | NoFlag => Parsed fs args
      | Terminator => Parsed fs rest
      | BadSyntax => Failed (errors_New ("bad flag syntax: " +:+ s))
      | Named name v =>
          match fs !! name with
          | None =>
              if decide (name = "help" ∨ name = "h") then Help
              else Failed (errors_New ("flag provided but not defined: -" +:+ name))
          | Some (VBool b) =>
              match set_value (VBool b) (default "true" v) with
              | inl x => Parse (<[name := x]> fs) rest
              | inr why =>
                  Failed (errors_New ("invalid boolean value " +:+ Quote (default "true" v) +:+ " for -" +:+ name +:+ ": " +:+ why))
              end
          | Some old =>
              let invalid s why :=
                Failed (errors_New ("invalid value " +:+ Quote s +:+ " for flag -" +:+ name +:+ ": " +:+ why)) in
              match v, rest with
              | Some s, _ =>
                  match set_value old s with
                  | inl x => Parse (<[name := x]> fs) rest
                  | inr why => invalid s why
                  end
              | None, s :: rest =>
                  match set_value old s with
                  | inl x => Parse (<[name := x]> fs) rest
                  | inr why => invalid s why
                  end
              | None, [] => Failed (errors_New ("flag needs an argument: -" +:+ name))
              end
          end
      end
  end.

(** A flag's variable after [Parse]. *)
Definition string_flag (fs : FlagSet) (name : string) : string :=
  match fs !! name with Some (VString s) => s | _ => "" end.
Definition int_flag (fs : FlagSet) (name : string) : Z :=
  match fs !! name with Some (VInt n) => n | _ => 0 end.
Definition bool_flag (fs : FlagSet) (name : string) : bool :=
  match fs !! name with Some (VBool b) => b | _ => false end.
