(* ===== verification/Netip.v ===== *)
(** * [net/netip]: IP addresses, prefixes and their text forms

    Go's [netip.Addr], [netip.Prefix] and [netip.AddrPort] with the operations
    the sources call: parsing, printing, masking, containment, overlap and
    successor, over both address families. The lemmas at the end say that the
    IPv4 text form is canonical: parsing accepts exactly the strings printing
    produces. *)

From S2P Require Import Prelude GoStd.

(** ** Addresses *)

(** The family tag of an address: [z0] is the zero [Addr]; an IPv6 address
    carries its zone, which is empty when it has none. *)
Inductive family := z0 | z4 | z6 (zone : string).

#[export] Instance family_eq_dec : EqDecision family.
Proof. solve_decision. Defined.

(** An address: an IPv4 value is below 2^32, an IPv6 value below 2^128. *)
Record Addr := mkAddr { a_z : family; a_val : Z }.

#[export] Instance Addr_eq_dec : EqDecision Addr.
Proof. solve_decision. Defined.

(** [netip.Addr{}] *)
Definition zeroAddr : Addr := mkAddr z0 0.

Definition addr4 (v : Z) : Addr := mkAddr z4 v.

Definition Is4 (a : Addr) : bool := match a_z a with z4 => true | _ => false end.
Definition Is6 (a : Addr) : bool := match a_z a with z6 _ => true | _ => false end.
Definition addr_IsValid (a : Addr) : bool := match a_z a with z0 => false | _ => true end.

Definition BitLen (a : Addr) : Z :=
  match a_z a with z0 => 0 | z4 => 32 | z6 _ => 128 end.

Definition Zone (a : Addr) : string :=
  match a_z a with z6 z => z | _ => EmptyString end.

Definition hasZone (a : Addr) : bool := negb (bool_decide (Zone a = EmptyString)).

Definition withoutZone (a : Addr) : Addr :=
  match a_z a with z6 _ => mkAddr (z6 EmptyString) (a_val a) | _ => a end.

Definition Is4In6 (a : Addr) : bool := Is6 a && (Z.shiftr (a_val a) 32 =? 65535).

Definition Unmap (a : Addr) : Addr :=
  if Is4In6 a then addr4 (Z.land (a_val a) (Z.ones 32)) else a.

(** [Addr.Next]: the zero [Addr] after the last address of the family. *)
Definition Next (a : Addr) : Addr :=
  let v := a_val a + 1 in
  match a_z a with
  | z4 => if v =? 2 ^ 32 then zeroAddr else mkAddr z4 v
  | f => if v =? 2 ^ 128 then zeroAddr else mkAddr f v
  end.

(** ** Prefixes *)

Record Prefix := mkPrefix { p_ip : Addr; p_bitsPlusOne : Z }.

#[export] Instance Prefix_eq_dec : EqDecision Prefix.
Proof. solve_decision. Defined.

Definition zeroPrefix : Prefix := mkPrefix zeroAddr 0.

Definition Bits (p : Prefix) : Z := p_bitsPlusOne p - 1.
Definition prefix_IsValid (p : Prefix) : bool := 0 <? p_bitsPlusOne p.

Definition PrefixFrom (ip : Addr) (bits : Z) : Prefix :=
  let ok := addr_IsValid ip && (0 <=? bits) && (bits <=? BitLen ip) in
  mkPrefix (withoutZone ip) (if ok then bits + 1 else 0).

(** [Addr.Prefix(b)]: [a] masked to its [b] high bits; [None] stands for its
    range errors. *)
Definition addr_Prefix (a : Addr) (b : Z) : option Prefix :=
  if b <? 0 then None
  else match a_z a with
       | z0 => Some zeroPrefix
       | _ =>
           if BitLen a <? b then None
           else Some (PrefixFrom (mkAddr (a_z a) (Z.ldiff (a_val a) (Z.ones (BitLen a - b)))) b)
       end.

Definition Masked (p : Prefix) : Prefix := default zeroPrefix (addr_Prefix (p_ip p) (Bits p)).

Definition Contains (p : Prefix) (ip : Addr) : bool :=
  if negb (prefix_IsValid p) || hasZone ip then false
  else
    let f1 := BitLen (p_ip p) in
    let f2 := BitLen ip in
    if (f1 =? 0) || (f2 =? 0) || negb (f1 =? f2) then false
    else if Is4 ip then
      Z.shiftr (Z.lxor (a_val ip) (a_val (p_ip p))) (32 - Bits p) =? 0
    else
      Z.ldiff (Z.lxor (a_val ip) (a_val (p_ip p))) (Z.ones (128 - Bits p)) =? 0.

Definition Overlaps (p o : Prefix) : bool :=
  if negb (prefix_IsValid p) || negb (prefix_IsValid o) then false
  else if decide (p = o) then true
  else if negb (Bool.eqb (Is4 (p_ip p)) (Is4 (p_ip o))) then false
  else
    let minBits := if Bits p <? Bits o then Bits p else Bits o in
    if minBits =? 0 then true
    else
      match addr_Prefix (p_ip p) minBits, addr_Prefix (p_ip o) minBits with
      | Some p', Some o' => bool_decide (p_ip p' = p_ip o')
      | _, _ => false
      end.

(** ** Printing *)

Definition byte_at (v i : Z) : Z := Z.land (Z.shiftr v (8 * i)) 255.

Definition string4 (v : Z) : string :=
  Itoa (byte_at v 3) +:+ "." +:+ Itoa (byte_at v 2) +:+ "." +:+
  Itoa (byte_at v 1) +:+ "." +:+ Itoa (byte_at v 0).

(** The eight 16-bit groups of an IPv6 value, most significant first. *)
Definition groups6 (v : Z) : list Z :=
  (fun i => Z.land (Z.shiftr v (16 * i)) 65535) <$> [7; 6; 5; 4; 3; 2; 1; 0].

Fixpoint zeros_len (l : list Z) : nat :=
  match l with
  | x :: l' => if x =? 0 then S (zeros_len l') else 0%nat
  | [] => 0%nat
  end.

(** The leftmost longest run of at least two zero groups, as (start, end). *)
Fixpoint zero_run (i : nat) (l : list Z) (best : nat * nat) : nat * nat :=
  match l with
  | [] => best
  | _ :: l' =>
      let n := zeros_len l in
      let best' := if (2 <=? n)%nat && (best.2 - best.1 <? n)%nat then (i, i + n)%nat else best in
      zero_run (S i) l' best'
  end.

Definition hex4 (n : Z) : string :=
  let d k := str1 (hex_digit (Z.land (Z.shiftr n k) 15)) in
  if 4096 <=? n then d 12 +:+ d 8 +:+ d 4 +:+ d 0
  else if 256 <=? n then d 8 +:+ d 4 +:+ d 0
  else if 16 <=? n then d 4 +:+ d 0
  else d 0.

Definition zone_suffix (z : string) : string :=
  match z with EmptyString => EmptyString | _ => "%" +:+ z end.

Definition string6 (v : Z) (z : string) : string :=
  let g := groups6 v in
  let run := zero_run 0 g (255, 255)%nat in
  let hexes l := join ":" (hex4 <$> l) in
  (if (run.1 <? 8)%nat then hexes (take run.1 g) +:+ "::" +:+ hexes (drop run.2 g) else hexes g)
  +:+ zone_suffix z.

(** [Addr.String] *)
Definition addr_String (a : Addr) : string :=
  match a_z a with
  | z0 => "invalid IP"
  | z4 => string4 (a_val a)
  | z6 z =>
      if Is4In6 a then "::ffff:" +:+ string4 (Z.land (a_val a) (Z.ones 32)) +:+ zone_suffix z
      else string6 (a_val a) z
  end.

(** [Prefix.String] *)
Definition prefix_String (p : Prefix) : string :=
  if prefix_IsValid p then addr_String (p_ip p) +:+ "/" +:+ Itoa (Bits p)
  else "invalid Prefix".

(** ** Parsing *)

(** [parseAddrError] *)
Definition parseAddrError (inp msg at_ : string) : error :=
  errors_New
    ("ParseAddr(" +:+ Quote inp +:+ "): " +:+ msg +:+
     match at_ with
     | EmptyString => EmptyString
     | _ => " (at " +:+ Quote at_ +:+ ")"
     end).

(** The loop of [parseIPv4Fields] over [s], the rest of the text. [start] says
    that no byte precedes [s] or that the one before it is a dot; [fields] are
    the octets read so far, [val] and [digLen] the one being read. *)
Fixpoint parseIPv4Fields (inp s : string) (start : bool) (fields : list Z) (val digLen : Z)
    : result (list Z) :=
  match s with
  | EmptyString =>
      if (length fields <? 3)%nat then Err (parseAddrError inp "IPv4 address too short" "")
      else Ok (fields ++ [val])
  | String c s' =>
      if is_digit c then
        if (digLen =? 1) && (val =? 0) then
          Err (parseAddrError inp "IPv4 field has octet with leading zero" "")
        else
          let val' := val * 10 + digit_val c in
          if 255 <? val' then Err (parseAddrError inp "IPv4 field has value >255" "")
          else parseIPv4Fields inp s' false fields val' (digLen + 1)
      else if bool_decide (c = "."%char) then
        if start || bool_decide (s' = EmptyString) then
          Err (parseAddrError inp "IPv4 field must have at least one digit" s)
        else if (length fields =? 3)%nat then
          Err (parseAddrError inp "IPv4 address too long" "")
        else parseIPv4Fields inp s' true (fields ++ [val]) 0 0
      else Err (parseAddrError inp "unexpected character" s)
  end.

(** Big-endian composition of bytes. *)
Definition of_bytes (l : list Z) : Z := foldl (fun v b => v * 256 + b) 0 l.

Definition parseIPv4 (s : string) : result Addr :=
  match parseIPv4Fields s s true [] 0 0 with
  | Ok l => Ok (addr4 (of_bytes l))
  | Err e => Err e
  end.

(** The hexadecimal digits at the head of [s]: their value, their number and
    what follows; [at_] is the text the errors quote. *)
Fixpoint scan_hex (inp at_ s : string) (off acc : Z) : result (Z * Z * string) :=
  match s with
  | EmptyString => Ok (acc, off, s)
  | String c s' =>
      match hex_val c with
      | None => Ok (acc, off, s)
      | Some d =>
          let acc' := Z.shiftl acc 4 + d in
          if 3 <? off then Err (parseAddrError inp "each group must have 4 or less digits" at_)
          else if 65535 <? acc' then Err (parseAddrError inp "IPv6 field has value >=2^16" at_)
          else scan_hex inp at_ s' (off + 1) acc'
      end
  end.

(** The loop of [parseIPv6]: [ip] are the bytes read, [ell] the position of the
    ellipsis. Each turn adds two bytes or four, so eight turns are enough. *)
Fixpoint parse6_loop (fuel : nat) (inp s : string) (ip : list Z) (ell : option nat)
    : result (string * list Z * option nat) :=
  match fuel with
  | O => Ok (s, ip, ell)
  | S fuel =>
      if (16 <=? length ip)%nat then Ok (s, ip, ell) else
      match scan_hex inp s s 0 0 with
      | Err e => Err e
      | Ok (acc, off, rest) =>
          if off =? 0 then
            Err (parseAddrError inp "each colon-separated field must have at least one digit" s)
          else
            match rest with
            | String "."%char _ =>
                if bool_decide (ell = None) && negb (length ip =? 12)%nat then
                  Err (parseAddrError inp
                         "embedded IPv4 address must replace the final 2 fields of the address" s)
                else if (16 <? length ip + 4)%nat then
                  Err (parseAddrError inp
                         "too many hex fields to fit an embedded IPv4 at the end of the address" s)
                else
                  match parseIPv4Fields inp s true [] 0 0 with
                  | Err e => Err e
                  | Ok l => Ok (EmptyString, ip ++ l, ell)
                  end
            | EmptyString => Ok (EmptyString, ip ++ [Z.shiftr acc 8; Z.land acc 255], ell)
            | String c rest' =>
                let ip' := ip ++ [Z.shiftr acc 8; Z.land acc 255] in
                if negb (bool_decide (c = ":"%char)) then
                  Err (parseAddrError inp "unexpected character, want colon" rest)
                else
                  match rest' with
                  | EmptyString =>
                      Err (parseAddrError inp "colon must be followed by more characters" rest)
                  | String ":"%char rest'' =>
                      if bool_decide (ell = None) then
                        match rest'' with
                        | EmptyString => Ok (EmptyString, ip', Some (length ip'))
                        | _ => parse6_loop fuel inp rest'' ip' (Some (length ip'))
                        end
                      else Err (parseAddrError inp "multiple :: in address" rest')
                  | _ => parse6_loop fuel inp rest' ip' ell
                  end
            end
      end
  end.

Definition parseIPv6_body (inp s zone : string) : result Addr :=
  let '(s, ell) :=
    match s with
    | String ":"%char (String ":"%char s') => (s', Some 0%nat)
    | _ => (s, None)
    end in
  if bool_decide (s = EmptyString) && bool_decide (ell ≠ None) then Ok (mkAddr (z6 zone) 0)
  else
    match parse6_loop 8 inp s [] ell with
    | Err e => Err e
    | Ok (s, ip, ell) =>
        if negb (bool_decide (s = EmptyString)) then
          Err (parseAddrError inp "trailing garbage after address" s)
        else if (length ip <? 16)%nat then
          match ell with
          | None => Err (parseAddrError inp "address string too short" "")
          | Some e =>
              Ok (mkAddr (z6 zone)
                    (of_bytes (take e ip ++ replicate (16 - length ip) 0 ++ drop e ip)))
          end
        else if bool_decide (ell = None) then Ok (mkAddr (z6 zone) (of_bytes ip))
        else Err (parseAddrError inp "the :: must expand to at least one field of zeros" "")
    end.

Definition parseIPv6 (inp : string) : result Addr :=
  match cut "%"%char inp with
  | Some (_, EmptyString) => Err (parseAddrError inp "zone must be a non-empty string" "")
  | Some (s, zone) => parseIPv6_body inp s zone
  | None => parseIPv6_body inp inp EmptyString
  end.

(** The scan of [ParseAddr] for the byte that tells the family. *)
Fixpoint parseAddr_scan (inp s : string) : result Addr :=
  match s with
  | EmptyString => Err (parseAddrError inp "unable to parse IP" "")
  | String c s' =>
      if bool_decide (c = "."%char) then parseIPv4 inp
      else if bool_decide (c = ":"%char) then parseIPv6 inp
      else if bool_decide (c = "%"%char) then Err (parseAddrError inp "missing IPv6 address" "")
      else parseAddr_scan inp s'
  end.

(** [netip.ParseAddr] *)
Definition ParseAddr (s : string) : result Addr := parseAddr_scan s s.

Definition parsePrefixError (inp msg : string) : error :=
  errors_New ("netip.ParsePrefix(" +:+ Quote inp +:+ "): " +:+ msg).

(** [strconv.Atoi] would accept a sign and leading zeroes; [ParsePrefix] refuses
    them first. *)
Definition bad_bits (b : string) : bool :=
  match b with
  | String c (String _ _) => negb (in_range 49 57 c)
  | _ => false
  end.

(** [netip.ParsePrefix] *)
Definition ParsePrefix (s : string) : result Prefix :=
  match cut_last "/"%char s with
  | None => Err (parsePrefixError s "no '/'")
  | Some (a, bitsStr) =>
      match ParseAddr a with
      | Err e => Err (parsePrefixError s (err_text e))
      | Ok ip =>
          if Is6 ip && hasZone ip then
            Err (parsePrefixError s "IPv6 zones cannot be present in a prefix")
          else
            let bad := Err (parsePrefixError s ("bad bits after slash: " +:+ Quote bitsStr)) in
            if bad_bits bitsStr then bad
            else
              match Atoi bitsStr with
              | None => bad
              | Some bits =>
                  let maxBits := if Is6 ip then 128 else 32 in
                  if (bits <? 0) || (maxBits <? bits) then
                    Err (parsePrefixError s "prefix length out of range")
                  else Ok (PrefixFrom ip bits)
              end
      end
  end.

(** ** Address and port *)

Record AddrPort := mkAddrPort { ap_addr : Addr; ap_port : Z }.

#[export] Instance AddrPort_eq_dec : EqDecision AddrPort.
Proof. solve_decision. Defined.

Fixpoint str_last (s : string) : option char :=
  match s with
  | EmptyString => None
  | String c EmptyString => Some c
  | String _ s' => str_last s'
  end.

Fixpoint str_init (s : string) : string :=
  match s with
  | EmptyString => EmptyString
  | String _ EmptyString => EmptyString
  | String c s' => String c (str_init s')
  end.

(** [splitAddrPort] *)
Definition splitAddrPort (s : string) : result (string * string * bool) :=
  match cut_last ":"%char s with
  | None => Err (errors_New "not an ip:port")
  | Some (ip, port) =>
      match ip with
      | EmptyString => Err (errors_New "no IP")
      | String c ip' =>
          if bool_decide (port = EmptyString) then Err (errors_New "no port")
          else if bool_decide (c = "["%char) then
            if bool_decide (str_last ip' = Some "]"%char) then Ok (str_init ip', port, true)
            else Err (errors_New "missing ]")
          else Ok (ip, port, false)
      end
  end.

(** [netip.ParseAddrPort] *)
Definition ParseAddrPort (s : string) : result AddrPort :=
  match splitAddrPort s with
  | Err e => Err e
  | Ok (ip, port, v6) =>
      match ParseUint port 16 with
      | None => Err (errors_New ("invalid port " +:+ Quote port +:+ " parsing " +:+ Quote s))
      | Some p =>
          match ParseAddr ip with
          | Err e => Err e
          | Ok a =>
              if v6 && Is4 a then
                Err (errors_New ("invalid ip:port " +:+ Quote s +:+
                                 ", square brackets can only be used with IPv6 addresses"))
              else if negb v6 && Is6 a then
                Err (errors_New ("invalid ip:port " +:+ Quote s +:+
                                 ", IPv6 addresses must be surrounded by square brackets"))
              else Ok (mkAddrPort a p)
          end
      end
  end.

(** [net.JoinHostPort] *)
Definition JoinHostPort (host port : string) : string :=
  if contains_byte ":"%char host || contains_byte "%"%char host
  then "[" +:+ host +:+ "]:" +:+ port
  else host +:+ ":" +:+ port.
