(* ===== verification/NetipFacts.v ===== *)
(** * Facts about [net/netip]

    The IPv4 text form is canonical ([ParseAddr_4_canonical],
    [ParseAddr_string4]), an IPv4 prefix is an interval of addresses
    ([Contains_4]), and masking, containment and overlap are the arithmetic on
    those intervals the operator relies on. *)

From S2P Require Import Prelude GoStd Netip.

#[local] Ltac Zify.zify_post_hook ::= Z.div_mod_to_equations.

Definition octet (v : Z) : Prop := 0 <= v <= 255.
Definition u32 (v : Z) : Prop := 0 <= v < 2 ^ 32.

(** ** IPv6 texts *)

(** Eight turns are enough: more fuel changes nothing. *)
Lemma parse6_loop_fuel fuel more inp s ip ell :
  (16 <= length ip + 2 * fuel)%nat → parse6_loop (fuel + more) inp s ip ell = parse6_loop fuel inp s ip ell.
Proof.
  revert s ip ell. induction fuel as [|fuel IH]; intros s ip ell Hf.
  - destruct more as [|more]; [done|]. cbn [Nat.add parse6_loop]. destruct (Nat.leb_spec 16 (length ip)); [done|lia].
  - cbn [Nat.add parse6_loop]. destruct (16 <=? length ip)%nat; [done|].
    destruct (scan_hex inp s s 0 0) as [[[acc off] rest]|]; [|done].
    repeat (done || case_match || (rewrite IH by (rewrite length_app; cbn; lia))).
Qed.

(** ** Dotted decimal *)

(** The text of the octets already read: each followed by a dot. *)
Definition dots (l : list Z) : string := foldr (λ v t, Itoa v +:+ "." +:+ t) EmptyString l.

Lemma dots_snoc l v : dots (l ++ [v]) = dots l +:+ Itoa v +:+ ".".
Proof.
  induction l as [|x l IH]; simpl; [by rewrite str_app_nil_r|].
  rewrite IH. by autorewrite with gostr.
Qed.

(** The text of the octet being read. *)
Definition part (val digLen : Z) : string := if digLen =? 0 then EmptyString else Itoa val.

Lemma part_digit val digLen c :
  is_digit c = true → 0 <= digLen → octet val → (digLen = 0 → val = 0) →
  (val = 0 → digLen <= 1) → (digLen =? 1) && (val =? 0) = false →
  val * 10 + digit_val c <= 255 →
  part (val * 10 + digit_val c) (digLen + 1) = part val digLen +:+ str1 c.
Proof.
  intros Hc%is_digit_range HdL Hv H0 H1 Hlz Hle. unfold part, digit_val in *.
  assert (c = chr (48 + (code c - 48))) as Hchr.
  { rewrite <-(chr_code c) at 1. f_equal. lia. }
  destruct (Z.eqb_spec (digLen + 1) 0); [lia|]. destruct (Z.eqb_spec digLen 0).
  - rewrite H0 by done. change (0 * 10 + (code c - 48)) with (code c - 48).
    rewrite Itoa_digit by lia. by rewrite <-Hchr.
  - assert (val ≠ 0). { intros ->. destruct (Z.eqb_spec digLen 1); simpl in *; [done|]. lia. }
    unfold octet in Hv. rewrite Itoa_snoc by lia. by rewrite <-Hchr.
Qed.

Lemma parseIPv4Fields_canonical inp s start fields val digLen l :
  0 <= digLen → octet val → (digLen = 0 → val = 0) → (val = 0 → digLen <= 1) →
  start = bool_decide (digLen = 0) → (s = EmptyString → digLen = 0 → fields = []) →
  Forall octet fields → (length fields <= 3)%nat →
  parseIPv4Fields inp s start fields val digLen = Ok l →
  ∃ v, length l = 4%nat ∧ Forall octet l ∧ l = take 3 l ++ [v] ∧
       dots (take 3 l) +:+ Itoa v = dots fields +:+ part val digLen +:+ s.
Proof.
  revert start fields val digLen.
  induction s as [|c s IH]; intros start fields val digLen HdL Hval H0 H1 Hst Hend Hf Hlen Hp;
    cbn [parseIPv4Fields] in Hp.
  - destruct (Nat.ltb_spec (length fields) 3); [done|]. injection Hp as <-.
    exists val. rewrite length_app. cbn. split; [lia|].
    split; [apply Forall_app; auto|].
    rewrite take_app_le, take_ge by lia. split; [done|].
    unfold part. destruct (Z.eqb_spec digLen 0) as [Hz|].
    + rewrite (Hend eq_refl Hz) in H. cbn in H. lia.
    + by autorewrite with gostr.
  - destruct (is_digit c) eqn:Hc.
    + destruct ((digLen =? 1) && (val =? 0)) eqn:Hlz; [done|].
      destruct (Z.ltb_spec 255 (val * 10 + digit_val c)); [done|].
      pose proof (digit_val_range c Hc) as Hr.
      apply IH in Hp as (v & ? & ? & ? & Heq); unfold octet in *; try done; try lia.
      * exists v. split_and!; auto. rewrite Heq.
        rewrite part_digit by (auto; unfold octet; lia). by autorewrite with gostr.
      * by rewrite bool_decide_eq_false_2 by lia.
    + case_bool_decide as Hdot; [|done].
      destruct start; cbn [orb] in Hp; [done|].
      case_bool_decide as Hs; [done|].
      destruct (Nat.eqb_spec (length fields) 3); [done|].
      symmetry in Hst. apply bool_decide_eq_false in Hst.
      apply IH in Hp as (v & ? & ? & ? & Heq); unfold octet in *; try done; try lia.
      * exists v. split_and!; auto. rewrite Heq, dots_snoc. subst c. unfold part. cbn.
        destruct (Z.eqb_spec digLen 0); [lia|]. by autorewrite with gostr.
      * apply Forall_app. split; auto.
      * rewrite length_app. cbn. lia.
Qed.

(** ** Arithmetic of octets and prefixes *)

Lemma byte_at_div v i : 0 <= i → byte_at v i = (v / 2 ^ (8 * i)) mod 256.
Proof.
  intros. unfold byte_at. change 255 with (Z.ones 8). rewrite Z.land_ones by lia.
  by rewrite Z.shiftr_div_pow2 by lia.
Qed.

Lemma byte_at_octet v i : 0 <= i → octet (byte_at v i).
Proof. intros. rewrite byte_at_div by done. unfold octet. lia. Qed.

Lemma of_bytes_byte_at v :
  u32 v → of_bytes [byte_at v 3; byte_at v 2; byte_at v 1; byte_at v 0] = v.
Proof.
  unfold u32. intros Hv. rewrite !byte_at_div by lia. unfold of_bytes. simpl foldl.
  change (2 ^ (8 * 3)) with (256 * (256 * 256)). change (2 ^ (8 * 2)) with (256 * 256).
  change (2 ^ (8 * 1)) with 256. change (2 ^ (8 * 0)) with 1.
  rewrite Z.div_1_r, <-!Z.div_div by lia. lia.
Qed.

Lemma byte_at_of_bytes a b c d :
  octet a → octet b → octet c → octet d →
  u32 (of_bytes [a; b; c; d]) ∧
  byte_at (of_bytes [a; b; c; d]) 3 = a ∧ byte_at (of_bytes [a; b; c; d]) 2 = b ∧
  byte_at (of_bytes [a; b; c; d]) 1 = c ∧ byte_at (of_bytes [a; b; c; d]) 0 = d.
Proof.
  unfold octet, u32. intros. rewrite !byte_at_div by lia. unfold of_bytes. simpl foldl.
  change (2 ^ (8 * 3)) with (256 * (256 * 256)). change (2 ^ (8 * 2)) with (256 * 256).
  change (2 ^ (8 * 1)) with 256. change (2 ^ (8 * 0)) with 1.
  rewrite Z.div_1_r, <-!Z.div_div by lia. split_and!; lia.
Qed.

(** ** Parsing an address *)

Lemma parseIPv4_canonical s a :
  parseIPv4 s = Ok a → ∃ v, a = addr4 v ∧ u32 v ∧ string4 v = s.
Proof.
  unfold parseIPv4. destruct (parseIPv4Fields s s true [] 0 0) as [l|] eqn:E; [|done].
  intros [= <-].
  apply parseIPv4Fields_canonical in E as (v & Hlen & Hall & Hl & Heq);
    unfold octet; try done; try lia; [|cbn; lia].
  destruct l as [|x0 [|x1 [|x2 [|x3 [|]]]]]; try discriminate Hlen.
  cbn in Hl. simplify_eq. rewrite !Forall_cons in Hall. destruct Hall as (? & ? & ? & ? & _).
  destruct (byte_at_of_bytes x0 x1 x2 v) as (? & E3 & E2 & E1 & E0); try done.
  exists (of_bytes [x0; x1; x2; v]). split_and!; try done.
  unfold string4. rewrite E3, E2, E1, E0. cbn in Heq.
  autorewrite with gostr in *. by rewrite Heq.
Qed.

Lemma parseIPv6_Is6 s a : parseIPv6 s = Ok a → Is6 a = true.
Proof.
  assert (∀ s' z, parseIPv6_body s s' z = Ok a → Is6 a = true) as Hb.
  { intros s' z. unfold parseIPv6_body. intros H.
    repeat (case_match || simplify_eq); try done. }
  unfold parseIPv6. intros H. repeat case_match; simplify_eq; eauto.
Qed.

Lemma parseAddr_scan_cases inp s a :
  parseAddr_scan inp s = Ok a → parseIPv4 inp = Ok a ∨ parseIPv6 inp = Ok a.
Proof.
  induction s as [|c s IH]; cbn; [done|]. repeat case_bool_decide; auto. done.
Qed.

(** The text of an IPv4 address is canonical: [ParseAddr] accepts one string
    per address, the one [String] prints. *)
Lemma ParseAddr_4_canonical s a :
  ParseAddr s = Ok a → Is4 a = true → u32 (a_val a) ∧ a = addr4 (a_val a) ∧ addr_String a = s.
Proof.
  intros [H|H]%parseAddr_scan_cases H4.
  - apply parseIPv4_canonical in H as (v & -> & ? & ?). done.
  - apply parseIPv6_Is6 in H. unfold Is4, Is6 in *. by destruct (a_z a).
Qed.

(** Reading the digits of one octet. *)
Fixpoint run_digits (s : string) (val digLen : Z) : option (Z * Z) :=
  match s with
  | EmptyString => Some (val, digLen)
  | String c s' =>
      if is_digit c && negb ((digLen =? 1) && (val =? 0)) && (val * 10 + digit_val c <=? 255)
      then run_digits s' (val * 10 + digit_val c) (digLen + 1)
      else None
  end.

Lemma parseIPv4Fields_digits inp t rest start fields val digLen val' digLen' :
  run_digits t val digLen = Some (val', digLen') →
  parseIPv4Fields inp (t +:+ rest) start fields val digLen =
  parseIPv4Fields inp rest (start && bool_decide (t = EmptyString)) fields val' digLen'.
Proof.
  revert start val digLen. induction t as [|c t IH]; intros start val digLen H; cbn in H.
  - simplify_eq. rewrite str_app_nil_l, andb_true_r. done.
  - destruct (is_digit c) eqn:Hc; [|done]. cbn [andb] in H.
    destruct ((digLen =? 1) && (val =? 0)) eqn:Hz; [done|]. cbn [andb negb] in H.
    destruct (Z.leb_spec (val * 10 + digit_val c) 255); [|done].
    rewrite str_app_cons. cbn [parseIPv4Fields]. rewrite Hc, Hz.
    destruct (Z.ltb_spec 255 (val * 10 + digit_val c)); [lia|].
    rewrite (IH _ _ _ H). cbn. by rewrite andb_false_r.
Qed.

Lemma octet_digits v : octet v → ∃ n, run_digits (Itoa v) 0 0 = Some (v, n) ∧ Itoa v ≠ EmptyString.
Proof.
  intros Hv.
  assert (forallb (λ v, match run_digits (Itoa v) 0 0 with
    | Some (w, _) => (w =? v) && bool_decide (Itoa v ≠ EmptyString) | None => false end) (seqZ 0 256) = true)
    as H by (vm_compute; reflexivity).
  pose proof (byte_forall _ H v Hv) as H'. cbv beta in H'.
  destruct (run_digits (Itoa v) 0 0) as [[w n]|]; [|done].
  rewrite andb_true_iff, Z.eqb_eq, bool_decide_eq_true in H'. destruct H' as [-> ?]. eauto.
Qed.

Lemma parse_octet_dot inp v rest fields :
  octet v → (length fields < 3)%nat → rest ≠ EmptyString →
  parseIPv4Fields inp (Itoa v +:+ "." +:+ rest) true fields 0 0 =
  parseIPv4Fields inp rest true (fields ++ [v]) 0 0.
Proof.
  intros Hv Hl Hr. destruct (octet_digits v Hv) as (n & Hd & Hne).
  rewrite (parseIPv4Fields_digits _ _ _ _ _ _ _ _ _ Hd). rewrite bool_decide_eq_false_2 by done.
  change ("." +:+ rest) with (String "." rest).
  cbn [parseIPv4Fields andb orb]. rewrite (bool_decide_eq_false_2 (rest = _)) by done.
  change (is_digit ".") with false. cbn.
  destruct (Nat.eqb_spec (length fields) 3); [lia|]. done.
Qed.

Lemma octet_text_ne v rest : octet v → Itoa v +:+ rest ≠ EmptyString.
Proof. intros (n & _ & Hne)%octet_digits. by destruct (Itoa v). Qed.

Lemma parseIPv4_string4 v : u32 v → parseIPv4 (string4 v) = Ok (addr4 v).
Proof.
  intros Hv. unfold parseIPv4.
  assert (parseIPv4Fields (string4 v) (string4 v) true [] 0 0 =
          Ok [byte_at v 3; byte_at v 2; byte_at v 1; byte_at v 0]) as ->.
  { generalize (string4 v) at 1 as inp. intros inp. unfold string4.
    pose proof (byte_at_octet v 3 ltac:(lia)). pose proof (byte_at_octet v 2 ltac:(lia)).
    pose proof (byte_at_octet v 1 ltac:(lia)). pose proof (byte_at_octet v 0 ltac:(lia)).
    rewrite <-(str_app_nil_r (Itoa (byte_at v 0))).
    rewrite !parse_octet_dot by (first [by apply octet_text_ne | done | cbn; lia]).
    destruct (octet_digits (byte_at v 0)) as (n & Hd & Hne); [done|].
    rewrite (parseIPv4Fields_digits _ _ _ _ _ _ _ _ _ Hd). done. }
  by rewrite of_bytes_byte_at.
Qed.

Lemma parseAddr_scan_digits inp t rest val digLen r :
  run_digits t val digLen = Some r → parseAddr_scan inp (t +:+ rest) = parseAddr_scan inp rest.
Proof.
  revert val digLen. induction t as [|c t IH]; intros val digLen H; [done|].
  cbn in H. destruct (is_digit c) eqn:Hc; [|done]. cbn [andb] in H.
  rewrite str_app_cons. cbn [parseAddr_scan]. apply is_digit_range in Hc.
  rewrite !bool_decide_eq_false_2; [case_match; eauto; done|..];
    intros ->; unfold code in Hc; cbn in Hc; lia.
Qed.

Lemma ParseAddr_string4 v : u32 v → ParseAddr (string4 v) = Ok (addr4 v).
Proof.
  intros Hv. unfold ParseAddr.
  assert (∀ inp, parseAddr_scan inp (string4 v) = parseIPv4 inp) as ->.
  { intros inp. unfold string4. destruct (octet_digits (byte_at v 3)) as (n & Hd & _);
      [apply byte_at_octet; lia|]. by rewrite (parseAddr_scan_digits _ _ _ _ _ _ Hd). }
  by apply parseIPv4_string4.
Qed.

Lemma string4_inj v w : u32 v → u32 w → string4 v = string4 w → v = w.
Proof.
  intros Hv Hw H. pose proof (ParseAddr_string4 v Hv) as E.
  rewrite H, ParseAddr_string4 in E by done. by simplify_eq.
Qed.

(** ** IPv4 prefixes as intervals *)

(** The prefix of [b] bits around the IPv4 value [v]. *)
Definition prefix4 (v b : Z) : Prefix := mkPrefix (addr4 v) (b + 1).

Definition is_prefix4 (p : Prefix) : Prop :=
  ∃ v b, p = prefix4 v b ∧ u32 v ∧ 0 <= b <= 32.

(** The number of addresses of a prefix of [b] bits, and its first address. *)
Definition psize (b : Z) : Z := 2 ^ (32 - b).
Definition base (v b : Z) : Z := v - v mod psize b.

Lemma psize_pos b : b <= 32 → 0 < psize b.
Proof. intros. unfold psize. apply Z.pow_pos_nonneg; lia. Qed.

Lemma psize_dvd b : 0 <= b <= 32 → 2 ^ 32 = psize b * 2 ^ b.
Proof. intros. unfold psize. rewrite <-Z.pow_add_r by lia. f_equal. lia. Qed.

Lemma ldiff_base v b : 0 <= b <= 32 → Z.ldiff v (Z.ones (32 - b)) = base v b.
Proof.
  intros. rewrite Z.ldiff_ones_r by lia. unfold base, psize.
  rewrite Z.shiftl_mul_pow2, Z.shiftr_div_pow2 by lia.
  pose proof (Z.div_mod v (2 ^ (32 - b)) ltac:(lia)). lia.
Qed.

Lemma base_spec v b : 0 <= b <= 32 → base v b = psize b * (v / psize b).
Proof. intros. unfold base. pose proof (psize_pos b ltac:(lia)). lia. Qed.

Lemma base_range v b : 0 <= b <= 32 → u32 v → u32 (base v b) ∧ base v b <= v < base v b + psize b.
Proof.
  intros Hb Hv. pose proof (psize_pos b ltac:(lia)). unfold u32, base in *.
  pose proof (Z.mod_pos_bound v (psize b) ltac:(lia)).
  assert (0 <= v / psize b) by (apply Z.div_pos; lia).
  pose proof (Z.div_mod v (psize b) ltac:(lia)). nia.
Qed.

(** The whole interval of a prefix lies in the address space. *)
Lemma base_top v b : 0 <= b <= 32 → u32 v → base v b + psize b <= 2 ^ 32.
Proof.
  intros Hb Hv. rewrite base_spec by done. rewrite (psize_dvd b) by done.
  pose proof (psize_pos b ltac:(lia)). unfold u32 in Hv.
  rewrite (psize_dvd b) in Hv by done.
  assert (v / psize b < 2 ^ b) by (apply Z.div_lt_upper_bound; lia). nia.
Qed.

Lemma base_base v b : 0 <= b <= 32 → base (base v b) b = base v b.
Proof.
  intros. rewrite (base_spec (base v b)), (base_spec v) by done.
  pose proof (psize_pos b ltac:(lia)).
  rewrite (Z.mul_comm (psize b) (v / psize b)), Z.div_mul by lia. lia.
Qed.

(** Two addresses share a base exactly when one lies in the other's interval. *)
Lemma base_eq_iff v w b :
  0 <= b <= 32 → base w b = base v b ↔ base v b <= w < base v b + psize b.
Proof.
  intros Hb. pose proof (psize_pos b ltac:(lia)). rewrite !base_spec by done.
  pose proof (Z.div_mod w (psize b) ltac:(lia)).
  pose proof (Z.mod_pos_bound w (psize b) ltac:(lia)). split; [nia|]. intros ?.
  f_equal. symmetry. apply (Z.div_unique _ _ _ (w - psize b * (v / psize b))); lia.
Qed.

Lemma PrefixFrom_4 v b : 0 <= b <= 32 → PrefixFrom (addr4 v) b = prefix4 v b.
Proof.
  intros. unfold PrefixFrom, prefix4. cbn.
  destruct (Z.leb_spec 0 b), (Z.leb_spec b 32); try lia. done.
Qed.

Lemma addr_Prefix_4 v b :
  0 <= b <= 32 → addr_Prefix (addr4 v) b = Some (prefix4 (base v b) b).
Proof.
  intros. unfold addr_Prefix. destruct (Z.ltb_spec b 0); [lia|]. cbn.
  destruct (Z.ltb_spec 32 b); [lia|]. rewrite ldiff_base by lia.
  by rewrite (PrefixFrom_4 _ b) by lia.
Qed.

Lemma Bits_prefix4 v b : Bits (prefix4 v b) = b.
Proof. unfold Bits. cbn. lia. Qed.

Lemma Masked_4 v b : 0 <= b <= 32 → Masked (prefix4 v b) = prefix4 (base v b) b.
Proof. intros. unfold Masked. rewrite Bits_prefix4. cbn. by rewrite addr_Prefix_4. Qed.

Lemma prefix_IsValid_4 v b : 0 <= b → prefix_IsValid (prefix4 v b) = true.
Proof. intros. unfold prefix_IsValid. cbn. apply Z.ltb_lt. lia. Qed.

Lemma shiftr_lxor_0 a v k :
  0 <= k → Z.shiftr (Z.lxor a v) k = 0 ↔ a / 2 ^ k = v / 2 ^ k.
Proof. intros. rewrite Z.shiftr_lxor, Z.lxor_eq_0_iff, !Z.shiftr_div_pow2 by lia. done. Qed.

(** Containment in an IPv4 prefix is membership in its interval. *)
Lemma Contains_4 v b a :
  0 <= b <= 32 →
  Contains (prefix4 v b) a = true ↔
  Is4 a = true ∧ base v b <= a_val a < base v b + psize b.
Proof.
  intros Hb. unfold Contains. rewrite prefix_IsValid_4 by lia. cbn [negb orb].
  rewrite <-base_eq_iff by done. destruct a as [[| |z] w].
  - cbn. split; [done|]. by intros [? _].
  - change (hasZone (mkAddr z4 w)) with false. change (BitLen (mkAddr z4 w)) with 32.
    change (BitLen (p_ip (prefix4 v b))) with 32. change (Is4 (mkAddr z4 w)) with true.
    cbn [Z.eqb Pos.eqb orb negb a_val p_ip prefix4 addr4].
    rewrite Bits_prefix4, Z.eqb_eq, shiftr_lxor_0 by lia.
    rewrite !base_spec by done. fold (psize b). pose proof (psize_pos b ltac:(lia)).
    split; [intros ->; done|intros [_ ?]; nia].
  - change (BitLen (mkAddr (z6 z) w)) with 128. change (BitLen (p_ip (prefix4 v b))) with 32.
    destruct (hasZone _); (split; [done|]); by intros [? _].
Qed.

Lemma Contains_4_base v b a :
  0 <= b <= 32 → Contains (prefix4 (base v b) b) a = Contains (prefix4 v b) a.
Proof.
  intros Hb. apply Bool.eq_iff_eq_true. rewrite !Contains_4 by done. by rewrite base_base.
Qed.

(** Overlap of two IPv4 prefixes is a common address. *)
Lemma Overlaps_4 v b w c :
  0 <= b <= 32 → 0 <= c <= 32 → u32 v → u32 w →
  Overlaps (prefix4 v b) (prefix4 w c) = true ↔
  ∃ x, u32 x ∧ base v b <= x < base v b + psize b ∧ base w c <= x < base w c + psize c.
Proof.
  intros Hb Hc Hv Hw.
  assert (base v (Z.min b c) = base w (Z.min b c) ↔
    ∃ x, u32 x ∧ base v b <= x < base v b + psize b ∧ base w c <= x < base w c + psize c) as Hcore.
  { assert (∀ x y m d, 0 <= m <= d → d <= 32 → base x d = base y d → base x m = base y m) as Hmono.
    { intros x y m d Hm Hd. rewrite !base_spec by lia. pose proof (psize_pos d ltac:(lia)).
      intros E%Z.mul_reg_l; [|lia]. f_equal.
      assert (psize m = psize d * 2 ^ (d - m)) as ->.
      { unfold psize. rewrite <-Z.pow_add_r by lia. f_equal. lia. }
      rewrite <-!Z.div_div by lia. by rewrite E. }
    split.
    - intros E. destruct (Z.le_ge_cases b c).
      + exists w. rewrite Z.min_l in E by done. rewrite <-base_eq_iff by done.
        pose proof (base_range w c Hc Hw). split_and!; try done; lia.
      + exists v. rewrite Z.min_r in E by done. rewrite <-(base_eq_iff w) by done.
        pose proof (base_range v b Hb Hv). split_and!; try done; lia.
    - intros (x & Hx & H1 & H2). rewrite <-base_eq_iff in H1, H2 by done.
      transitivity (base x (Z.min b c)); [symmetry|].
      + by apply (Hmono _ _ _ b); [lia|lia|].
      + by apply (Hmono _ _ _ c); [lia|lia|]. }
  rewrite <-Hcore. unfold Overlaps. rewrite !prefix_IsValid_4 by lia. cbn [negb orb].
  rewrite !Bits_prefix4. case_decide as Heq.
  { split; [intros _|done]. unfold prefix4, addr4 in Heq. simplify_eq. by assert (b = c) as -> by lia. }
  cbn [p_ip prefix4 Is4 addr4 a_z Bool.eqb negb].
  assert ((if b <? c then b else c) = Z.min b c) as ->.
  { destruct (Z.ltb_spec b c); lia. }
  destruct (Z.eqb_spec (Z.min b c) 0) as [->|].
  { split; [intros _|done]. unfold base, psize. change (2 ^ (32 - 0)) with (2 ^ 32).
    unfold u32 in *. rewrite !Z.mod_small by lia. lia. }
  change (mkAddr z4 ?x) with (addr4 x). rewrite !addr_Prefix_4 by lia.
  rewrite bool_decide_eq_true. cbn. unfold addr4. split; [by intros [= ->]|by intros ->].
Qed.

(** ** Parsing a prefix *)

Lemma decimal_ge acc s n : 0 <= acc → decimal acc s = Some n →
  acc <= n ∧ (s ≠ EmptyString → acc * 10 <= n).
Proof.
  revert acc. induction s as [|c s IH]; intros acc Hacc H; cbn in H.
  - simplify_eq. split; [lia|done].
  - destruct (is_digit c) eqn:Hc; [|done]. apply digit_val_range in Hc.
    apply IH in H as [? _]; [|lia]. split; [lia|]. intros _. lia.
Qed.

Lemma Atoi_decimal c s n :
  code c ≠ 43 → code c ≠ 45 → Atoi (String c s) = Some n → decimal 0 (String c s) = Some n.
Proof.
  intros H43 H45. unfold Atoi.
  destruct (Z.eqb_spec (code c) 43); [done|]. destruct (Z.eqb_spec (code c) 45); [done|].
  unfold ParseUint. destruct (decimal 0 (String c s)) as [m|]; [|done].
  cbn. repeat (case_match; cbn; try done).
Qed.

Lemma str1_digit c : str1 (chr (48 + digit_val c)) = str1 c.
Proof.
  unfold digit_val. replace (48 + (code c - 48)) with (code c) by lia. by rewrite chr_code.
Qed.

(** A prefix length that [ParsePrefix] accepts is written in the one way
    [String] prints it. *)
Lemma bits_canonical b n :
  bad_bits b = false → Atoi b = Some n → 0 <= n <= 128 → Itoa n = b.
Proof.
  intros Hbad H Hn. destruct b as [|c [|d b]]; [done| |].
  - apply Atoi_decimal in H; [|by intros E; rewrite <-(chr_code c), E in H..].
    cbn [decimal] in H. destruct (is_digit c) eqn:Hc; [|done].
    change (0 * 10 + digit_val c) with (digit_val c) in H. simplify_eq.
    rewrite Itoa_digit, str1_digit by (by apply digit_val_range). done.
  - cbn [bad_bits] in Hbad. apply negb_false_iff in Hbad. unfold in_range in Hbad.
    rewrite andb_true_iff, !Z.leb_le in Hbad.
    apply Atoi_decimal in H; [|lia..]. cbn [decimal] in H.
    assert (is_digit c = true) as Hc by (apply is_digit_range; lia).
    rewrite Hc in H. destruct (is_digit d) eqn:Hd; [|done].
    apply digit_val_range in Hd as Hdr. change (0 * 10 + digit_val c) with (digit_val c) in H.
    assert (1 <= digit_val c <= 9) as Hcr by (unfold digit_val; lia).
    destruct b as [|e b].
    + cbn [decimal] in H. simplify_eq. by rewrite Itoa_snoc, Itoa_digit, !str1_digit by lia.
    + cbn [decimal] in H. destruct (is_digit e) eqn:He; [|done].
      apply digit_val_range in He as Her.
      destruct (decide (b = EmptyString)) as [->|Hb].
      * cbn [decimal] in H. simplify_eq.
        by rewrite (Itoa_snoc (digit_val c * 10 + digit_val d)), Itoa_snoc, Itoa_digit, !str1_digit by lia.
      * apply decimal_ge in H as [_ Hge]; [|lia]. specialize (Hge Hb). lia.
Qed.

(** The text of an IPv4 prefix. *)
Definition text4 (v b : Z) : string := string4 v +:+ "/" +:+ Itoa b.

Lemma prefix_String_4 v b : 0 <= b → prefix_String (prefix4 v b) = text4 v b.
Proof. intros. unfold prefix_String. rewrite prefix_IsValid_4, Bits_prefix4 by lia. done. Qed.

Lemma withoutZone_Is4 a : Is4 (withoutZone a) = Is4 a.
Proof. by destruct a as [[] ?]. Qed.

Lemma ParsePrefix_4 s p :
  ParsePrefix s = Ok p → Is4 (p_ip p) = true →
  ∃ v b, p = prefix4 v b ∧ u32 v ∧ 0 <= b <= 32 ∧ s = text4 v b.
Proof.
  unfold ParsePrefix. destruct (cut_last "/" s) as [[a bs]|] eqn:Hcut; [|done].
  apply cut_last_Some in Hcut as [-> _].
  destruct (ParseAddr a) as [ip|] eqn:Ha; [|done]. intros H H4.
  destruct (Is6 ip && hasZone ip); [done|]. destruct (bad_bits bs) eqn:Hbad; [done|].
  destruct (Atoi bs) as [n|] eqn:Hn; [|done].
  destruct (_ || _) eqn:Hrange; [done|]. simplify_eq.
  cbn [PrefixFrom p_ip] in H4. rewrite withoutZone_Is4 in H4.
  destruct (ParseAddr_4_canonical a ip Ha H4) as (Hv & Hip & Hs).
  rewrite Hip in Hrange. cbn in Hrange. rewrite orb_false_iff, !Z.ltb_ge in Hrange.
  exists (a_val ip), n. rewrite <-(PrefixFrom_4 _ n), <-Hip by lia. split_and!; try done; try lia.
  unfold text4. rewrite (bits_canonical bs n) by (done || lia).
  rewrite <-Hs, Hip. done.
Qed.

Lemma Atoi_bits b : 0 <= b <= 255 →
  Atoi (Itoa b) = Some b ∧ bad_bits (Itoa b) = false ∧ contains_byte "/" (Itoa b) = false.
Proof.
  intros Hb.
  assert (forallb (λ b, bool_decide (Atoi (Itoa b) = Some b) && negb (bad_bits (Itoa b)) &&
                        negb (contains_byte "/" (Itoa b))) (seqZ 0 256) = true)
    as H by (vm_compute; reflexivity).
  pose proof (byte_forall _ H b Hb) as H'. cbv beta in H'.
  rewrite !andb_true_iff, !negb_true_iff, bool_decide_eq_true in H'. tauto.
Qed.

Lemma ParsePrefix_text4 v b : u32 v → 0 <= b <= 32 → ParsePrefix (text4 v b) = Ok (prefix4 v b).
Proof.
  intros Hv Hb. destruct (Atoi_bits b ltac:(lia)) as (Hat & Hbad & Hsl).
  unfold ParsePrefix, text4. change ("/" +:+ Itoa b) with (String "/" (Itoa b)).
  rewrite cut_last_app by done. rewrite ParseAddr_string4 by done. cbn [Is6 addr4 a_z andb].
  rewrite Hbad, Hat. destruct (Z.ltb_spec b 0), (Z.ltb_spec 32 b); try lia. cbn [orb].
  by rewrite (PrefixFrom_4 v b).
Qed.

(** ** The text of an IPv4 address holds only digits and dots *)

Lemma string4_no_byte c v :
  is_digit c = false → c ≠ "."%char → contains_byte c (string4 v) = false.
Proof.
  intros Hc Hdot.
  assert (∀ w, octet w → contains_byte c (Itoa w) = false) as Ho.
  { intros w (n & Hd & _)%octet_digits. revert Hd. generalize (Itoa w), 0, 0 at 1.
    induction s as [|d s IH]; intros val dl Hd; [done|]. cbn in Hd |- *.
    destruct (is_digit d) eqn:Hdd; [|done]. cbn [andb] in Hd.
    rewrite bool_decide_eq_false_2 by (intros ->; congruence). cbn.
    destruct (negb _ && _); [by eapply IH|done]. }
  unfold string4. rewrite !contains_byte_app, !Ho by (apply byte_at_octet; lia). cbn.
  by rewrite bool_decide_eq_false_2.
Qed.
