(* ===== verification/Effects.v ===== *)
(** * Effectful code: programs over an interface of operations

    The controllers, the agent and the client talk to an API server, a kernel
    and a file system that are not under [src/]. Such code is a [prog]: a tree
    whose nodes are the operations it performs and whose branches are the
    responses it may get. Nothing is assumed about the responses: [exec p tr a]
    says that [p] can perform the operations of [tr], getting the responses
    recorded there, and return [a]; a theorem over all such traces holds
    whatever the environment does. A [handler] runs a program on a concrete
    environment, which is how the witnesses are computed. *)

From S2P Require Import Prelude.

Section prog.
Context {Op : Type} {Res : Op → Type}.

Inductive prog (A : Type) : Type :=
  | Ret (a : A)
  | Act (o : Op) (k : Res o → prog A).
Arguments Ret {_} _.
Arguments Act {_} _ _.

Fixpoint pbind {A B} (p : prog A) (f : A → prog B) : prog B :=
  match p with
  | Ret a => f a
  | Act o k => Act o (λ r, pbind (k r) f)
  end.

Definition perform (o : Op) : prog (Res o) := Act o Ret.

(** One operation with its response. *)
Definition event : Type := {o : Op & Res o}.

Fixpoint exec {A} (p : prog A) (tr : list event) (a : A) : Prop :=
  match p with
  | Ret a' => tr = [] ∧ a = a'
  | Act o k => ∃ r tr', tr = existT o r :: tr' ∧ exec (k r) tr' a
  end.

(** A concrete environment with a state of its own. *)
Definition handler (S : Type) : Type := ∀ o : Op, S → Res o * S.

Fixpoint run {A S} (h : handler S) (p : prog A) (s : S) : list event * A * S :=
  match p with
  | Ret a => ([], a, s)
  | Act o k =>
      let '(r, s') := h o s in
      let '(tr, a, s'') := run h (k r) s' in
      (existT o r :: tr, a, s'')
  end.

Lemma run_exec {A S} (h : handler S) (p : prog A) s tr a s' :
  run h p s = (tr, a, s') → exec p tr a.
Proof.
  revert s tr. induction p as [b|o k IH]; intros s tr H; cbn in H.
  - by simplify_eq.
  - destruct (h o s) as [r s1]. destruct (run h (k r) s1) as [[tr1 a1] s2] eqn:E.
    simplify_eq. cbn. eauto 10.
Qed.

(** Every result of a run is an answer of the handler. *)
Lemma run_answers {A S} (h : handler S) (p : prog A) s o r :
  existT o r ∈ (run h p s).1.1 → ∃ s', existT o r = existT o (h o s').1 :> event.
Proof.
  revert s. induction p as [a|o' k IH]; intros s Hin; cbn in Hin; [by apply not_elem_of_nil in Hin|].
  destruct (h o' s) as [r' s'] eqn:Hh. destruct (run h (k r') s') as [[tr a] s''] eqn:Hrun. cbn in Hin.
  apply elem_of_cons in Hin as [He|Hin]; [|apply (IH r' s'); by rewrite Hrun].
  exists s. pose proof He as Ho. apply (f_equal (@projT1 _ _)) in Ho. cbn in Ho. subst o'.
  by rewrite He, Hh.
Qed.

Lemma run_is_exec {A S} (h : handler S) (p : prog A) s : exec p (run h p s).1.1 (run h p s).1.2.
Proof. destruct (run h p s) as [[tr a] s'] eqn:E. by eapply run_exec. Qed.

Lemma exec_bind {A B} (p : prog A) (f : A → prog B) tr b :
  exec (pbind p f) tr b ↔
  ∃ a t1 t2, tr = t1 ++ t2 ∧ exec p t1 a ∧ exec (f a) t2 b.
Proof.
  revert tr. induction p as [a|o k IH]; intros tr; cbn.
  - split.
    + intros H. exists a, [], tr. done.
    + by intros (? & ? & ? & -> & (-> & ->) & H).
  - split.
    + intros (r & tr' & -> & (a & t1 & t2 & -> & H1 & H2)%IH).
      exists a, (existT o r :: t1), t2. eauto 10.
    + intros (a & t1 & t2 & -> & (r & t1' & -> & H1) & H2).
      exists r, (t1' ++ t2). split; [done|]. apply IH. eauto 10.
Qed.

Lemma exec_ret {A} (a b : A) tr : exec (Ret a) tr b ↔ tr = [] ∧ b = a.
Proof. done. Qed.

Lemma exec_perform o tr r : exec (perform o) tr r ↔ tr = [existT o r].
Proof.
  cbn. split.
  - by intros (r' & tr' & -> & -> & ->).
  - intros ->. exists r, []. done.
Qed.

(** Code that returns [(value, error)]: an error ends the caller too. *)
Definition bindE {A B} (p : prog (result A)) (f : A → prog (result B)) : prog (result B) :=
  pbind p (λ r, match r with Ok a => f a | Err e => Ret (Err e) end).

Lemma exec_bindE_Ok {A B} (p : prog (result A)) (f : A → prog (result B)) tr b :
  exec (bindE p f) tr (Ok b) ↔
  ∃ a t1 t2, tr = t1 ++ t2 ∧ exec p t1 (Ok a) ∧ exec (f a) t2 (Ok b).
Proof.
  unfold bindE. rewrite exec_bind. split.
  - intros ([a|e] & t1 & t2 & -> & H1 & H2); [eauto 10|]. by destruct H2.
  - intros (a & t1 & t2 & -> & H1 & H2). eauto 10.
Qed.

(** [for _, x := range l { ... }] with an early return on error: [s] is what
    the loop updates. *)
Fixpoint loopE {A S} (body : S → A → prog (result S)) (l : list A) (s : S) : prog (result S) :=
  match l with
  | [] => Ret (Ok s)
  | x :: l' => bindE (body s x) (λ s', loopE body l' s')
  end.

(** The invariant rule: [I done t s] after the elements of [done], [t] having been
    performed. *)
Lemma loopE_trace {A S} (Law : event → Prop) (I : list A → list event → S → Prop)
    (body : S → A → prog (result S)) (l : list A) s tr s' :
  (∀ pre x post t0 t s1 s2, l = pre ++ x :: post → Forall Law t → I pre t0 s1 →
     exec (body s1 x) t (Ok s2) → I (pre ++ [x]) (t0 ++ t) s2) →
  I [] [] s → Forall Law tr → exec (loopE body l s) tr (Ok s') → I l tr s'.
Proof.
  intros Hstep.
  assert (∀ suf pre t0 s tr, l = pre ++ suf → I pre t0 s → Forall Law tr →
    exec (loopE body suf s) tr (Ok s') → I l (t0 ++ tr) s') as H.
  { induction suf as [|x suf IH]; intros pre t0 s0 tr0 Hl HI HL Hex; cbn in Hex.
    - destruct Hex as [-> [= ->]]. by rewrite Hl, !app_nil_r.
    - apply exec_bindE_Ok in Hex as (s1 & t1 & t2 & -> & Hb & Hrest).
      apply Forall_app in HL as [HL1 HL2]. rewrite (app_assoc t0).
      apply (IH (pre ++ [x]) (t0 ++ t1) s1 t2); try done; [|by eapply (Hstep pre x suf t0 t1 s0 s1)].
      by rewrite <-app_assoc. }
  intros HI HL Hex. apply (H l [] [] s tr); done.
Qed.

(** The same where the invariant does not look at what was performed. *)
Lemma loopE_inv {A S} (Law : event → Prop) (I : list A → S → Prop)
    (body : S → A → prog (result S)) (l : list A) s tr s' :
  (∀ pre x post t s1 s2, l = pre ++ x :: post → Forall Law t → I pre s1 →
     exec (body s1 x) t (Ok s2) → I (pre ++ [x]) s2) →
  I [] s → Forall Law tr → exec (loopE body l s) tr (Ok s') → I l s'.
Proof.
  intros Hstep HI HL Hex. eapply (loopE_trace Law (λ pre _ s, I pre s)); eauto.
Qed.

(** A loop none of whose turns fails. *)
Lemma loopE_Ok {A S} (Law : event → Prop) (body : S → A → prog (result S)) l s tr r :
  (∀ s x t r, Forall Law t → exec (body s x) t r → ∃ s', r = Ok s') →
  Forall Law tr → exec (loopE body l s) tr r → ∃ s', r = Ok s'.
Proof.
  intros Hb. revert s tr. induction l as [|x l IH]; intros s tr HL Hex; cbn in Hex.
  - destruct Hex as [_ ->]. eauto.
  - apply exec_bind in Hex as (a & t1 & t2 & -> & H1 & H2). apply Forall_app in HL as [HL1 HL2].
    destruct (Hb _ _ _ _ HL1 H1) as [s' ->]. eauto.
Qed.

(** A loop whose turns perform nothing. *)
Lemma loopE_pure {A S} (f : S → A → S) (body : S → A → prog (result S)) l s :
  (∀ s x, x ∈ l → body s x = Ret (Ok (f s x))) → loopE body l s = Ret (Ok (foldl f s l)).
Proof.
  revert s. induction l as [|x l IH]; intros s Hb; [done|]. cbn [loopE foldl].
  rewrite Hb by (by left). apply IH. intros. apply Hb. by right.
Qed.

(** [p] performs only operations of [K]. *)
Definition emits {A} (K : Op → Prop) (p : prog A) : Prop :=
  ∀ tr a, exec p tr a → Forall (λ e : event, K (projT1 e)) tr.

Lemma emits_ret {A} K (a : A) : emits K (Ret a).
Proof. intros tr b [-> _]. constructor. Qed.

Lemma emits_perform K o : K o → emits K (perform o).
Proof. intros Ho tr a ->%exec_perform. by apply Forall_singleton. Qed.

Lemma emits_bind {A B} K (p : prog A) (f : A → prog B) :
  emits K p → (∀ a, emits K (f a)) → emits K (pbind p f).
Proof.
  intros Hp Hf tr b (a & t1 & t2 & -> & H1 & H2)%exec_bind. apply Forall_app.
  split; [by eapply Hp|by eapply Hf].
Qed.

Lemma emits_bindE {A B} K (p : prog (result A)) (f : A → prog (result B)) :
  emits K p → (∀ a, emits K (f a)) → emits K (bindE p f).
Proof. intros Hp Hf. apply emits_bind; [done|]. intros [a|e]; [done|apply emits_ret]. Qed.

Lemma emits_loopE_elem {A S} K (body : S → A → prog (result S)) l s :
  (∀ s x, x ∈ l → emits K (body s x)) → emits K (loopE body l s).
Proof.
  revert s. induction l as [|x l IH]; intros s Hb; cbn; [apply emits_ret|].
  apply emits_bindE; [apply Hb; by left|]. intros s'. apply IH. intros. apply Hb. by right.
Qed.

Lemma emits_loopE {A S} K (body : S → A → prog (result S)) l s :
  (∀ s x, emits K (body s x)) → emits K (loopE body l s).
Proof. intros Hb. apply emits_loopE_elem. auto. Qed.

Lemma emits_mono {A} (K K' : Op → Prop) (p : prog A) :
  (∀ o, K o → K' o) → emits K p → emits K' p.
Proof. intros HK Hp tr a Hex. eapply Forall_impl; [by eapply Hp|]. cbn. auto. Qed.

(** An operation outside [K] is not in a trace of [p]. *)
Lemma emits_not {A} K (p : prog A) tr a (e : event) :
  emits K p → exec p tr a → e ∈ tr → ¬ K (projT1 e) → False.
Proof. intros Hp Hex He Hn. specialize (Hp _ _ Hex). rewrite Forall_forall in Hp. by apply Hn, Hp. Qed.
End prog.

(** Shows that a program emits only what its parts do. *)
Create HintDb emits discriminated.
Ltac solve_emits :=
  repeat first
    [ progress intros
    | apply emits_ret
    | solve [auto with emits nocore]
    | match goal with
      | |- @emits _ _ _ ?K (@perform _ _ ?o) => refine (emits_perform K o _); done
      end
    | apply emits_bindE
    | apply emits_bind
    | apply emits_loopE
    | progress cbv zeta
    | case_match ].

Arguments prog : clear implicits.
Arguments prog {Op} Res A.
Arguments Ret {Op Res A} _.
Arguments Act {Op Res A} _ _.
Arguments event {Op} Res.
Arguments handler {Op} Res S.

(** ** Replays

    What a sequence of operations makes of a state, where [step] is the law of one
    operation with its response, [None] when the law excludes the response. *)

Section replay.
Context {Op : Type} {Res : Op → Type} {S : Type} (step : S → event Res → option S).

Definition replay (s : S) (tr : list (event Res)) : option S :=
  foldl (λ o e, o ≫= λ s, step s e) (Some s) tr.

Lemma replay_app s tr1 tr2 :
  replay s (tr1 ++ tr2) = replay s tr1 ≫= λ s', replay s' tr2.
Proof.
  unfold replay. rewrite foldl_app. destruct (foldl _ _ tr1) as [s'|]; [done|]. cbn.
  induction tr2; [done|]. done.
Qed.

Lemma replay_app_Some s tr1 tr2 s' :
  replay s (tr1 ++ tr2) = Some s' ↔ ∃ s1, replay s tr1 = Some s1 ∧ replay s1 tr2 = Some s'.
Proof. rewrite replay_app. apply bind_Some. Qed.

Lemma replay_cons s e tr :
  replay s (e :: tr) = step s e ≫= λ s', replay s' tr.
Proof. apply (replay_app s [e] tr). Qed.

Lemma replay_nil s : replay s [] = Some s.
Proof. done. Qed.

(** An invariant of the steps. *)
Lemma replay_inv (I : S → Prop) s tr s' :
  (∀ e s s', e ∈ tr → I s → step s e = Some s' → I s') → I s → replay s tr = Some s' → I s'.
Proof.
  revert s. induction tr as [|e tr IH]; intros s Hstep Hs Hr; [by injection Hr as <-|].
  rewrite replay_cons in Hr. apply bind_Some in Hr as (s1 & He & Hr). apply (IH s1); [|by eapply Hstep; [left|..]|done].
  intros e' x x' He'. apply Hstep. by right.
Qed.

(** [I] holds at every moment of a trace. *)
Fixpoint along (I : S → Prop) (s : S) (tr : list (event Res)) : Prop :=
  I s ∧ match tr with
        | [] => True
        | e :: tr => ∀ s', step s e = Some s' → along I s' tr
        end.

Lemma along_prefix I s t1 t2 s' : along I s (t1 ++ t2) → replay s t1 = Some s' → I s'.
Proof.
  revert s. induction t1 as [|e t1 IH]; intros s Ha Hr.
  - injection Hr as <-. by destruct t2; destruct Ha.
  - rewrite replay_cons in Hr. apply bind_Some in Hr as (s1 & He & Hr). destruct Ha as [_ Ha]. by apply (IH s1); [apply Ha|].
Qed.

(** A part of a trace that changes nothing. *)
Lemma along_idle I s t1 t2 : (∀ e s, e ∈ t1 → step s e = Some s) → along I s t2 → along I s (t1 ++ t2).
Proof.
  intros Hs Ha. induction t1 as [|e t1 IH]; [done|]. cbn. split; [by destruct t2; destruct Ha|].
  intros s'. rewrite Hs by left. intros [= <-]. apply IH. intros. apply Hs. by right.
Qed.

(** A trace none of whose events changes the state. *)
Lemma replay_idle s tr :
  (∀ e, e ∈ tr → step s e = Some s) → replay s tr = Some s.
Proof.
  induction tr as [|e tr IH]; intros Hs; [done|]. rewrite replay_cons, Hs by left. cbn. apply IH.
  intros e' He'. apply Hs. by right.
Qed.

End replay.

(** Takes an execution apart at its binds, returns and operations. *)
Ltac inv_exec :=
  repeat match goal with
  | H : exec ?p _ _ |- _ =>
      lazymatch p with
      | (let _ := _ in _) => cbv zeta in H
      | match Some _ with _ => _ end => cbv iota in H
      | match None with _ => _ end => cbv iota in H
      | match Ok _ with _ => _ end => cbv iota in H
      | match Err _ with _ => _ end => cbv iota in H
      | match (_, _) with _ => _ end => cbv iota in H
      end
  | H : exec (pbind _ _) _ _ |- _ =>
      let a := fresh "a" in let t1 := fresh "t" in let t2 := fresh "t" in
      apply exec_bind in H as (a & t1 & t2 & -> & ? & H)
  | H : exec (bindE _ _) _ (Ok _) |- _ =>
      let a := fresh "a" in let t1 := fresh "t" in let t2 := fresh "t" in
      apply exec_bindE_Ok in H as (a & t1 & t2 & -> & ? & H)
  | H : exec (Ret _) _ _ |- _ =>
      let E := fresh "E" in
      apply exec_ret in H as [? E];
      first [discriminate E | injection E; clear E; intros; subst | subst]
  | H : @exec _ _ _ (@perform _ _ _) _ _ |- _ => destruct H as (? & ? & -> & -> & <-)
  | H : Forall _ (_ ++ _) |- _ => apply Forall_app in H as [? ?]
  | H : Forall _ (_ :: _) |- _ => apply Forall_cons in H as [? ?]
  end.

(** Closes a goal about an event of a program that has returned. *)
Ltac no_events :=
  match goal with
  | Hex : exec (Ret _) ?tr _, He : _ ∈ ?tr |- _ =>
      exfalso; destruct Hex as [-> _]; by apply elem_of_nil in He
  end.

Declare Scope prog_scope.
Delimit Scope prog_scope with prog.
Notation "x <- p ;; q" := (pbind p (λ x, q))
  (at level 100, p at next level, right associativity) : prog_scope.
Notation "x <-? p ;; q" := (bindE p (λ x, q))
  (at level 100, p at next level, right associativity) : prog_scope.
