(* ===== verification/Api.v ===== *)
(** * The API objects

    The custom resources of [api/v1alpha1] ([Wireguard], [WireguardPeer]) and
    the fields of the Kubernetes objects the program reads or writes. A Go nil
    slice or map and an empty one are the same value here: every use under
    [src/] goes through [len], [range] or [slices.Equal]. *)

From S2P Require Import Prelude GoStd.

(** ** Kubernetes metadata *)

(** [types.NamespacedName] *)
Record NamespacedName := NN { nn_Namespace : string; nn_Name : string }.

#[export] Instance NamespacedName_eq_dec : EqDecision NamespacedName.
Proof. solve_decision. Defined.

#[export] Instance NamespacedName_countable : Countable NamespacedName.
Proof.
  apply (inj_countable' (λ n, (nn_Namespace n, nn_Name n)) (λ p, NN p.1 p.2)). by intros [].
Defined.

(** [NamespacedName.String] *)
Definition nn_String (n : NamespacedName) : string := nn_Namespace n +:+ "/" +:+ nn_Name n.

(** [metav1.OwnerReference] *)
Record OwnerReference := {
  or_APIVersion : string;
  or_Kind : string;
  or_Name : string;
  or_UID : string;
  or_Controller : option bool;
}.

#[export] Instance OwnerReference_eq_dec : EqDecision OwnerReference.
Proof. solve_decision. Defined.

(** [metav1.ObjectMeta]; times are instants in nanoseconds, 0 the zero time. *)
Record ObjectMeta := {
  Name : string;
  Namespace : string;
  UID : string;
  ResourceVersion : string;
  Generation : Z;
  CreationTimestamp : Z;
  Labels : gmap string string;
  Annotations : gmap string string;
  OwnerReferences : list OwnerReference;
}.

#[export] Instance ObjectMeta_eq_dec : EqDecision ObjectMeta.
Proof. solve_decision. Defined.

(** [metav1.ObjectMeta{Name: n, Namespace: ns}] *)
Definition meta_of (n ns : string) : ObjectMeta :=
  {| Name := n; Namespace := ns; UID := ""; ResourceVersion := ""; Generation := 0;
     CreationTimestamp := 0; Labels := ∅; Annotations := ∅; OwnerReferences := [] |}.

(** [client.ObjectKeyFromObject] on the metadata of an object. *)
Definition key_of (m : ObjectMeta) : NamespacedName := NN (Namespace m) (Name m).

(** [metav1.ConditionStatus] *)
Definition ConditionTrue : string := "True".
Definition ConditionFalse : string := "False".

(** [metav1.Condition] *)
Record Condition := {
  c_Type : string;
  c_Status : string;
  c_ObservedGeneration : Z;
  c_LastTransitionTime : Z;
  c_Reason : string;
  c_Message : string;
}.

#[export] Instance Condition_eq_dec : EqDecision Condition.
Proof. solve_decision. Defined.

Definition with_transition (t : Z) (c : Condition) : Condition :=
  {| c_Type := c_Type c; c_Status := c_Status c; c_ObservedGeneration := c_ObservedGeneration c;
     c_LastTransitionTime := t; c_Reason := c_Reason c; c_Message := c_Message c |}.

Definition with_generation (g : Z) (c : Condition) : Condition :=
  {| c_Type := c_Type c; c_Status := c_Status c; c_ObservedGeneration := g;
     c_LastTransitionTime := c_LastTransitionTime c; c_Reason := c_Reason c;
     c_Message := c_Message c |}.

(** ** Pod specification fragments *)

(** [corev1.Toleration] *)
Record Toleration := {
  t_Key : string; t_Operator : string; t_Value : string; t_Effect : string;
  t_TolerationSeconds : option Z;
}.

#[export] Instance Toleration_eq_dec : EqDecision Toleration.
Proof. solve_decision. Defined.

(** [corev1.ResourceRequirements]: quantities by resource name. *)
Record ResourceRequirements := {
  rr_Limits : gmap string string; rr_Requests : gmap string string;
}.

#[export] Instance ResourceRequirements_eq_dec : EqDecision ResourceRequirements.
Proof. solve_decision. Defined.

Definition noResources : ResourceRequirements := {| rr_Limits := ∅; rr_Requests := ∅ |}.

(** [corev1.EnvVar]: a literal value, or the downward-API field it is read from. *)
Record EnvVar := { ev_Name : string; ev_Value : string; ev_FieldRef : option string }.

#[export] Instance EnvVar_eq_dec : EqDecision EnvVar.
Proof. solve_decision. Defined.

(** [corev1.EnvFromSource] *)
Record EnvFromSource := {
  ef_Prefix : string;
  ef_SecretRef : option string;     (* SecretRef.Name *)
  ef_ConfigMapRef : option string;  (* ConfigMapRef.Name *)
}.

#[export] Instance EnvFromSource_eq_dec : EqDecision EnvFromSource.
Proof. solve_decision. Defined.

(** ** [api/v1alpha1] *)

(** [GroupVersion] *)
Definition GroupVersion : string * string := ("vpn.tunnel-operator.io", "v1alpha1").

Module v1alpha1.
Definition Pending : string := "pending".
Definition Error : string := "error".
Definition Ready : string := "ready".

Definition FromAll : string := "All".
Definition FromSame : string := "Same".
End v1alpha1.

Record AllowedNamespaces := { From_ : string }.

#[export] Instance AllowedNamespaces_eq_dec : EqDecision AllowedNamespaces.
Proof. solve_decision. Defined.

Record GluetunSpec := {
  g_Env : list EnvVar;
  g_EnvFrom : list EnvFromSource;
  g_Resources : ResourceRequirements;
}.

#[export] Instance GluetunSpec_eq_dec : EqDecision GluetunSpec.
Proof. solve_decision. Defined.

(** [v1alpha1.GluetunSpec{}] *)
Definition zeroGluetun : GluetunSpec :=
  {| g_Env := []; g_EnvFrom := []; g_Resources := noResources |}.

Record WireguardSpec := {
  PeerCIDR : string;
  LocalCIDRs : list string;
  Gluetun : GluetunSpec;
  NodeSelector : gmap string string;
  Tolerations : list Toleration;
  Agent : ResourceRequirements;  (* WireguardPodSpec.Resources *)
  AllowedNamespaces_ : option AllowedNamespaces;
}.

#[export] Instance WireguardSpec_eq_dec : EqDecision WireguardSpec.
Proof. solve_decision. Defined.

Record WireguardStatus := {
  ws_Status : string;
  ws_Message : string;
  ws_Endpoint : string;
  ws_PublicKey : string;
  ws_Conditions : list Condition;
}.

#[export] Instance WireguardStatus_eq_dec : EqDecision WireguardStatus.
Proof. solve_decision. Defined.

Definition zeroWireguardStatus : WireguardStatus :=
  {| ws_Status := ""; ws_Message := ""; ws_Endpoint := ""; ws_PublicKey := "";
     ws_Conditions := [] |}.

Record Wireguard := {
  wg_meta : ObjectMeta;
  wg_Spec : WireguardSpec;
  wg_Status : WireguardStatus;
}.

#[export] Instance Wireguard_eq_dec : EqDecision Wireguard.
Proof. solve_decision. Defined.

Record WireguardPeerSpec := {
  PublicKey : string;
  WireguardRef : string;
  WireguardNamespace : string;
}.

#[export] Instance WireguardPeerSpec_eq_dec : EqDecision WireguardPeerSpec.
Proof. solve_decision. Defined.

Record WireguardPeerStatus := {
  ps_Status : string;
  ps_Message : string;
  ps_Address : string;
  ps_Endpoint : string;
  ps_ServerPublicKey : string;
  ps_LocalCIDRs : list string;
  ps_Conditions : list Condition;
}.

#[export] Instance WireguardPeerStatus_eq_dec : EqDecision WireguardPeerStatus.
Proof. solve_decision. Defined.

(** [v1alpha1.WireguardPeerStatus{Address: a}] *)
Definition status_of (a : string) : WireguardPeerStatus :=
  {| ps_Status := ""; ps_Message := ""; ps_Address := a; ps_Endpoint := "";
     ps_ServerPublicKey := ""; ps_LocalCIDRs := []; ps_Conditions := [] |}.

Record WireguardPeer := {
  wp_meta : ObjectMeta;
  wp_Spec : WireguardPeerSpec;
  wp_Status : WireguardPeerStatus;
}.

#[export] Instance WireguardPeer_eq_dec : EqDecision WireguardPeer.
Proof. solve_decision. Defined.

(** Field shorthands for the peers the controller handles most. *)
Definition peer_Name (p : WireguardPeer) : string := Name (wp_meta p).
Definition peer_Namespace (p : WireguardPeer) : string := Namespace (wp_meta p).
Definition peer_Key (p : WireguardPeer) : string := PublicKey (wp_Spec p).
Definition peer_Address (p : WireguardPeer) : string := ps_Address (wp_Status p).

Definition set_peer_Status (p : WireguardPeer) (s : WireguardPeerStatus) : WireguardPeer :=
  {| wp_meta := wp_meta p; wp_Spec := wp_Spec p; wp_Status := s |}.

(** [peer.Status.Address = a] *)
Definition set_Address (p : WireguardPeer) (a : string) : WireguardPeer :=
  let s := wp_Status p in
  set_peer_Status p
    {| ps_Status := ps_Status s; ps_Message := ps_Message s; ps_Address := a;
       ps_Endpoint := ps_Endpoint s; ps_ServerPublicKey := ps_ServerPublicKey s;
       ps_LocalCIDRs := ps_LocalCIDRs s; ps_Conditions := ps_Conditions s |}.
