(* ===== verification/External.v ===== *)
(** * Packages outside [src/]

    What the program uses of third-party Go packages, as classes: the functions
    it calls and the documented behaviour it relies on. Theorems are proved
    against the classes; [Module Reference] gives one instance of each, with
    the documented behaviour, for computing concrete runs. *)

From S2P Require Import Prelude GoStd Netip NetipFacts Api.

(** ** [golang.zx2c4.com/wireguard/wgctrl/wgtypes] *)

(** [ParseKey] parses what [Key.String] prints, the base64 text of 32 bytes. *)
Class WgTypes := {
  Key : Type;
  Key_eq_dec :: EqDecision Key;
  ParseKey : string → result Key;
  Key_String : Key → string;
  Key_PublicKey : Key → Key;
  ParseKey_String : ∀ k, ParseKey (Key_String k) = Ok k;
  Key_String_len : ∀ k, len (Key_String k) = 44;
  Key_String_trimmed : ∀ k, TrimSpace (Key_String k) = Key_String k;
}.

(** ** [k8s.io/apimachinery/pkg/apis/meta/v1]: owners *)

(** [GetControllerOf] returns the owner that is the object's managing controller. *)
Class MetaLib := {
  GetControllerOf : ObjectMeta → option OwnerReference;
  GetControllerOf_spec : ∀ m,
    GetControllerOf m = List.find (λ r, bool_decide (or_Controller r = Some true)) (OwnerReferences m);
}.

(** ** [k8s.io/apimachinery/pkg/api/meta]: status conditions *)

(** [SetStatusCondition] takes the time it reads from the clock as its first
    argument. *)
Class ConditionLib := {
  FindStatusCondition : list Condition → string → option Condition;
  SetStatusCondition : Z → list Condition → Condition → list Condition;
  RemoveStatusCondition : list Condition → string → list Condition;
  Find_Set_eq : ∀ now l c, ∃ t,
    FindStatusCondition (SetStatusCondition now l c) (c_Type c) = Some (with_transition t c);
  Find_Set_ne : ∀ now l c ty, ty ≠ c_Type c →
    FindStatusCondition (SetStatusCondition now l c) ty = FindStatusCondition l ty;
  Find_Remove_eq : ∀ l ty, FindStatusCondition (RemoveStatusCondition l ty) ty = None;
  Find_Remove_ne : ∀ l ty ty', ty' ≠ ty →
    FindStatusCondition (RemoveStatusCondition l ty) ty' = FindStatusCondition l ty';
}.

(** ** [github.com/korylprince/ipnetgen] *)

(** A generator is advanced by [Next]. On an IPv4 prefix it yields the addresses
    of the prefix, from the network address up, then nil for ever. *)
Class Ipnetgen := {
  IPNetGenerator : Type;
  ipnetgen_New : string → result IPNetGenerator;
  ipnetgen_Next : IPNetGenerator → option Addr * IPNetGenerator;
}.

Section ipnetgen.
Context `{Ipnetgen}.

(** The generator after [k] calls of [Next]. *)
Fixpoint nexts (k : nat) (g : IPNetGenerator) : IPNetGenerator :=
  match k with
  | O => g
  | S k => nexts k (ipnetgen_Next g).2
  end.
End ipnetgen.

Class IpnetgenSpec `{Ipnetgen} := {
  ipnetgen_4 : ∀ v b, u32 v → 0 <= b <= 32 →
    ∃ g, ipnetgen_New (text4 v b) = Ok g ∧
      ∀ k, (ipnetgen_Next (nexts k g)).1 =
        if Z.of_nat k <? psize b then Some (addr4 (base v b + Z.of_nat k)) else None;
}.

(** ** Reference instances *)

Module Reference.
(** A key is any text of 44 bytes, printed as itself. *)
Definition key_text : Type := {s : string | bool_decide (len s = 44 ∧ TrimSpace s = s) = true}.

Definition parse_key (s : string) : result key_text :=
  match decide (bool_decide (len s = 44 ∧ TrimSpace s = s) = true) with
  | left H => Ok (s ↾ H)
  | right _ => Err (errors_New "wgtypes: incorrect key size")
  end.

#[local] Instance wgtypes : WgTypes.
Proof.
  refine {| Key := key_text; ParseKey := parse_key; Key_String := proj1_sig;
            Key_PublicKey := λ k, k |}.
  - intros [s Hs]. unfold parse_key. cbn [proj1_sig].
    destruct (decide (bool_decide (len s = 44 ∧ TrimSpace s = s) = true)) as [H|H]; [|done].
    do 2 f_equal. apply (proof_irrel _ _).
  - intros [s Hs]. cbn. by apply bool_decide_eq_true in Hs as [? _].
  - intros [s Hs]. cbn. by apply bool_decide_eq_true in Hs as [_ ?].
Defined.

#[local] Instance metalib : MetaLib.
Proof. by refine {| GetControllerOf m :=
  List.find (λ r, bool_decide (or_Controller r = Some true)) (OwnerReferences m) |}. Defined.

Fixpoint find (l : list Condition) (ty : string) : option Condition :=
  match l with
  | [] => None
  | c :: l' => if decide (c_Type c = ty) then Some c else find l' ty
  end.

Fixpoint set (now : Z) (l : list Condition) (c : Condition) : list Condition :=
  match l with
  | [] => [if c_LastTransitionTime c =? 0 then with_transition now c else c]
  | d :: l' =>
      if decide (c_Type d = c_Type c) then
        (if decide (c_Status d = c_Status c)
         then with_transition (c_LastTransitionTime d) c
         else if c_LastTransitionTime c =? 0 then with_transition now c else c) :: l'
      else d :: set now l' c
  end.

Definition remove (l : list Condition) (ty : string) : list Condition :=
  filter (λ c, c_Type c ≠ ty) l.

Lemma with_transition_id c : with_transition (c_LastTransitionTime c) c = c.
Proof. by destruct c. Qed.

#[local] Instance conditions : ConditionLib.
Proof.
  refine {| FindStatusCondition := find; SetStatusCondition := set;
            RemoveStatusCondition := remove |}.
  - intros now l c.
    assert (∃ t, (if c_LastTransitionTime c =? 0 then with_transition now c else c)
                 = with_transition t c) as [t Ht].
    { destruct (_ =? 0); [by eexists|]. exists (c_LastTransitionTime c).
      by rewrite with_transition_id. }
    induction l as [|d l IH]; cbn.
    + rewrite Ht. exists t. cbn. by rewrite decide_True.
    + destruct (decide (c_Type d = c_Type c)) as [E|E]; cbn.
      * destruct (decide (c_Status d = c_Status c)); [|rewrite Ht];
          (eexists; cbn; by rewrite decide_True).
      * rewrite decide_False by done. done.
  - intros now l c ty Hty. induction l as [|d l IH]; cbn.
    + destruct (_ =? 0); cbn; by rewrite decide_False by done.
    + destruct (decide (c_Type d = c_Type c)) as [E|E]; cbn.
      * destruct (decide (c_Status d = c_Status c)); [|destruct (_ =? 0)]; cbn;
          (rewrite !decide_False by congruence; done).
      * destruct (decide (c_Type d = ty)); done.
  - intros l ty. induction l as [|d l IH]; [done|]. unfold remove in *.
    rewrite filter_cons. case_decide; [|done]. cbn. by rewrite decide_False.
  - intros l ty ty' Hne. induction l as [|d l IH]; [done|]. unfold remove in *.
    rewrite filter_cons. case_decide as Hd; cbn.
    + by rewrite IH.
    + rewrite IH. rewrite decide_False; [done|]. congruence.
Defined.

(** A generator is what is left of an interval of IPv4 values. *)
#[local] Instance ipnetgen : Ipnetgen := {|
  IPNetGenerator := Z * Z;
  ipnetgen_New s :=
    match ParsePrefix s with
    | Ok p => if Is4 (p_ip p)
              then Ok (a_val (p_ip (Masked p)), a_val (p_ip (Masked p)) + psize (Bits p))
              else Err (errors_New "only IPv4 is generated here")
    | Err e => Err e
    end;
  ipnetgen_Next g := if g.1 <? g.2 then (Some (addr4 g.1), (g.1 + 1, g.2)) else (None, g);
|}.

Lemma nexts_interval k a n : 0 <= n →
  nexts k (a, a + n) = (a + Z.min (Z.of_nat k) n, a + n).
Proof.
  revert a n. induction k as [|k IH]; intros a n Hn; cbn.
  - f_equal. lia.
  - destruct (Z.ltb_spec a (a + n)); cbn.
    + replace (a + n) with ((a + 1) + (n - 1)) by lia. rewrite IH by lia. f_equal; lia.
    + rewrite IH by lia. f_equal. lia.
Qed.

#[local] Instance ipnetgen_spec : IpnetgenSpec.
Proof.
  constructor. intros v b Hv Hb. cbn [ipnetgen_New ipnetgen ipnetgen_Next].
  rewrite ParsePrefix_text4 by done. rewrite Masked_4, Bits_prefix4 by done. cbn [prefix4 addr4 p_ip a_val Is4 a_z].
  eexists. split; [done|]. intros k. pose proof (psize_pos b ltac:(lia)).
  rewrite nexts_interval by lia. cbn [fst snd].
  destruct (Z.ltb_spec (Z.of_nat k) (psize b)).
  - rewrite Z.min_l by lia. destruct (Z.ltb_spec (base v b + Z.of_nat k) (base v b + psize b)); [done|lia].
  - rewrite Z.min_r by lia. destruct (Z.ltb_spec (base v b + psize b) (base v b + psize b)); [lia|done].
Qed.
End Reference.
