(* ===== verification/Ipam.v ===== *)
(** * Address allocation ([internal/ipam/allocator.go])

    [AllocateIP] walks the addresses of a prefix and returns the first whose
    text is not in the list of used ones. The generator it walks is the
    third-party [ipnetgen], a parameter. The loop stops after at most one more
    call of [Next] than there are used addresses ([alloc_loop_total]), which is
    the fuel [AllocateIP] runs it with. *)

From S2P Require Import Prelude GoStd Netip NetipFacts Api External.

Definition DefaultPeerCIDR4 : string := "10.8.0.0/24".

(** [Allocator.isUsed] *)
Definition isUsed (ip : string) (usedIPs : list string) : bool := bool_decide (ip ∈ usedIPs).

(** [deriveReservedIPs] *)
Definition deriveReservedIPs (cidr : string) : list string :=
  if decide (cidr = "") then []
  else
    match ParsePrefix cidr with
    | Err _ => []
    | Ok prefix =>
        let prefix := Masked prefix in
        let network := p_ip prefix in
        let gateway := Next network in
        [addr_String network; addr_String gateway]
    end.

(** [Allocator.GetUsedIPs] *)
Definition GetUsedIPs (cidr : string) (peers : list WireguardPeer) : list string :=
  foldl (λ usedIPs peer,
           if decide (peer_Address peer = "") then usedIPs else usedIPs ++ [peer_Address peer])
    (deriveReservedIPs cidr) peers.

Section allocator.
Context `{Ipnetgen}.

(** The loop of [AllocateIP]: [Some (Some ip)] when it finds a free address,
    [Some None] when the generator ends, [None] when [fuel] runs out. *)
Fixpoint alloc_loop (fuel : nat) (gen : IPNetGenerator) (usedIPs : list string)
    : option (option string) :=
  match fuel with
  | O => None
  | S fuel =>
      match ipnetgen_Next gen with
      | (None, _) => Some None
      | (Some ip, gen') =>
          let ipStr := addr_String ip in
          if negb (isUsed ipStr usedIPs) then Some (Some ipStr)
          else alloc_loop fuel gen' usedIPs
      end
  end.

Definition noAvailable (cidr : string) : error :=
  errors_New ("no available IP found in " +:+ cidr).

(** [Allocator.AllocateIP] with [fuel] turns of its loop. *)
Definition AllocateIP_fuel (fuel : nat) (cidr : string) (usedIPs : list string)
    : option (result string) :=
  match ipnetgen_New cidr with
  | Err e => Some (Err (wrapf ("failed to parse CIDR " +:+ cidr +:+ ": ") e))
  | Ok gen =>
      r ← alloc_loop fuel gen usedIPs;
      Some (match r with Some ip => Ok ip | None => Err (noAvailable cidr) end)
  end.

(** [Allocator.AllocateIP] *)
Definition AllocateIP (cidr : string) (usedIPs : list string) : result string :=
  default (Err (noAvailable cidr)) (AllocateIP_fuel (S (length usedIPs)) cidr usedIPs).
End allocator.

(** ** Correctness *)

Section facts.
Context `{IpnetgenSpec}.

Lemma nexts_succ k g : (ipnetgen_Next (nexts k g)).2 = nexts (S k) g.
Proof. revert g. induction k as [|k IH]; intros g; [done|]. cbn. apply IH. Qed.

Section loop.
Context (v b : Z) (g : IPNetGenerator) (usedIPs : list string).
Hypothesis Hnext : ∀ k, (ipnetgen_Next (nexts k g)).1 =
  if Z.of_nat k <? psize b then Some (addr4 (base v b + Z.of_nat k)) else None.
Hypothesis Hv : u32 v.
Hypothesis Hb : 0 <= b <= 32.

(** The text of the [k]-th address of the prefix. *)
Let nth_ip (k : nat) : string := string4 (base v b + Z.of_nat k).

Lemma nth_ip_inj j k : Z.of_nat j < psize b → Z.of_nat k < psize b → nth_ip j = nth_ip k → j = k.
Proof.
  intros Hj Hk E. pose proof (base_top v b Hb Hv). pose proof (base_range v b Hb Hv) as [[? _] _].
  apply string4_inj in E; unfold u32 in *; lia.
Qed.

(** All of the first [n] addresses are used. *)
Definition used_below (n : nat) : Prop := ∀ j, (j < n)%nat → Z.of_nat j < psize b → nth_ip j ∈ usedIPs.

Lemma alloc_loop_spec fuel i :
  used_below i →
  match alloc_loop fuel (nexts i g) usedIPs with
  | Some (Some ip) =>
      ∃ k, Z.of_nat k < psize b ∧ ip = nth_ip k ∧ (ip ∉ usedIPs) ∧ used_below k
  | Some None => ∀ k, Z.of_nat k < psize b → nth_ip k ∈ usedIPs
  | None => Z.of_nat (i + fuel) <= Z.max (Z.of_nat i) (psize b) ∧ used_below (i + fuel)
  end.
Proof.
  revert i. induction fuel as [|fuel IH]; intros i Hi; cbn.
  { replace (i + 0)%nat with i by lia. split; [lia|done]. }
  destruct (ipnetgen_Next (nexts i g)) as [o g'] eqn:E.
  pose proof (nexts_succ i g) as Hg'. rewrite E in Hg'. cbn [snd] in Hg'. subst g'.
  pose proof (Hnext i) as Hi'. rewrite E in Hi'. cbn [fst] in Hi'. subst o.
  destruct (Z.ltb_spec (Z.of_nat i) (psize b)) as [Hlt|Hge].
  - unfold isUsed. change (addr_String (addr4 ?x)) with (string4 x). fold (nth_ip i).
    destruct (bool_decide (nth_ip i ∈ usedIPs)) eqn:Hu; cbn [negb].
    + apply bool_decide_eq_true in Hu.
      assert (used_below (S i)) as Hi1.
      { intros j Hj Hjp. destruct (decide (j = i)) as [->|]; [done|]. apply Hi; lia. }
      specialize (IH (S i) Hi1). replace (i + S fuel)%nat with (S i + fuel)%nat by lia.
      destruct (alloc_loop fuel (nexts (S i) g) usedIPs) as [[ip|]|]; try done.
      destruct IH as [? ?]. split; [lia|done].
    + apply bool_decide_eq_false in Hu. exists i. done.
  - intros k Hk. apply Hi; lia.
Qed.

(** The loop ends within one turn more than there are used addresses. *)
Lemma alloc_loop_total fuel :
  (length usedIPs < fuel)%nat → alloc_loop fuel g usedIPs ≠ None.
Proof.
  intros Hfuel E. pose proof (alloc_loop_spec fuel 0) as Hs. cbn [nexts] in Hs.
  rewrite E in Hs. destruct Hs as [Hmax Hused]; [intros j Hj; lia|].
  pose proof (psize_pos b ltac:(lia)). rewrite Nat.add_0_l in *.
  assert ((length (nth_ip <$> seq 0 fuel) <= length usedIPs)%nat) as Hlen.
  { apply NoDup_incl_length.
    - apply NoDup_ListNoDup, NoDup_fmap_2_strong; [|apply NoDup_seq].
      intros x y Hx%elem_of_seq Hy%elem_of_seq. apply nth_ip_inj; lia.
    - intros x Hx%list_elem_of_In. apply list_elem_of_fmap in Hx as (j & -> & Hj%elem_of_seq).
      apply list_elem_of_In, Hused; lia. }
  rewrite length_fmap, length_seq in Hlen. lia.
Qed.

Lemma alloc_loop_fuel fuel fuel' r :
  alloc_loop fuel g usedIPs = Some r → (fuel <= fuel')%nat → alloc_loop fuel' g usedIPs = Some r.
Proof.
  clear Hnext. revert fuel' g. induction fuel as [|fuel IH]; intros fuel' g0 E Hle; [done|].
  destruct fuel' as [|fuel']; [lia|]. cbn in *.
  destruct (ipnetgen_Next g0) as [[ip|] g']; [|done].
  destruct (negb _); [done|]. apply IH; [done|lia].
Qed.
End loop.

(** What [AllocateIP] returns on an IPv4 prefix. *)
Definition allocates (v b : Z) (usedIPs : list string) (r : result string) : Prop :=
  (∃ k, Z.of_nat k < psize b ∧ r = Ok (string4 (base v b + Z.of_nat k)) ∧
        (string4 (base v b + Z.of_nat k) ∉ usedIPs) ∧
        (∀ j, (j < k)%nat → string4 (base v b + Z.of_nat j) ∈ usedIPs)) ∨
  (r = Err (noAvailable (text4 v b)) ∧
   ∀ k, Z.of_nat k < psize b → string4 (base v b + Z.of_nat k) ∈ usedIPs).

Lemma AllocateIP_cases v b usedIPs fuel :
  u32 v → 0 <= b <= 32 → (length usedIPs < fuel)%nat →
  ∃ r, AllocateIP_fuel fuel (text4 v b) usedIPs = Some r ∧ allocates v b usedIPs r.
Proof.
  intros Hv Hb Hfuel. destruct (ipnetgen_4 v b Hv Hb) as (g & Hg & Hnext).
  unfold AllocateIP_fuel. rewrite Hg.
  pose proof (alloc_loop_total v b g usedIPs Hnext Hv Hb fuel Hfuel) as Htot.
  pose proof (alloc_loop_spec v b g usedIPs Hnext fuel 0) as Hs. cbn [nexts] in Hs.
  destruct (alloc_loop fuel g usedIPs) as [r|]; [|done]. eexists. split; [done|].
  specialize (Hs ltac:(intros j Hj; lia)). destruct r as [ip|].
  - left. destruct Hs as (k & Hk & -> & Hni & Hused). exists k. split_and!; try done.
    intros j Hj. apply Hused; lia.
  - right. done.
Qed.

Lemma AllocateIP_spec v b usedIPs :
  u32 v → 0 <= b <= 32 → allocates v b usedIPs (AllocateIP (text4 v b) usedIPs).
Proof.
  intros Hv Hb. unfold AllocateIP.
  destruct (AllocateIP_cases v b usedIPs (S (length usedIPs))) as (r & -> & Hr); auto.
Qed.
End facts.

(** C38: on an IPv4 prefix [AllocateIP] returns the first address of the prefix
    that is not used, and fails exactly when every one is; any number of loop
    turns above the number of used addresses gives that result, so the loop
    always ends. *)
Theorem AllocateIP_first_free `{IpnetgenSpec} v b usedIPs :
  u32 v → 0 <= b <= 32 →
  allocates v b usedIPs (AllocateIP (text4 v b) usedIPs) ∧
  ∀ fuel, (length usedIPs < fuel)%nat →
    AllocateIP_fuel fuel (text4 v b) usedIPs = Some (AllocateIP (text4 v b) usedIPs).
Proof.
  intros Hv Hb. split; [by apply AllocateIP_spec|]. intros fuel Hf. unfold AllocateIP.
  destruct (AllocateIP_cases v b usedIPs (S (length usedIPs))) as (r & E & _); auto.
  rewrite E. revert E. unfold AllocateIP_fuel. destruct (ipnetgen_New _) as [g|e]; [|done].
  destruct (alloc_loop (S _) g usedIPs) as [o|] eqn:Eo; cbn; [|done]. intros [= <-].
  rewrite (alloc_loop_fuel g usedIPs _ fuel _ Eo); [done|lia].
Qed.

Lemma AllocateIP_first_free_witness :
  @AllocateIP Reference.ipnetgen "10.8.0.0/24" ["10.8.0.0"; "10.8.0.1"; "10.8.0.2"] = Ok "10.8.0.3" ∧
  @AllocateIP_fuel Reference.ipnetgen 4 "10.8.0.0/24" ["10.8.0.0"; "10.8.0.1"; "10.8.0.2"] =
    Some (Ok "10.8.0.3").
Proof.
  split; [by vm_compute|].
  apply (@AllocateIP_first_free Reference.ipnetgen Reference.ipnetgen_spec 168296448 24
           ["10.8.0.0"; "10.8.0.1"; "10.8.0.2"]); unfold u32; cbn; lia.
Defined.
