(* ===== verification/AgentState.v ===== *)
(** * The agent's desired state ([internal/agent/agent.go])

    The controller renders a [State] into the gateway's Secret; the agent reads
    it back from the mounted file. *)

From S2P Require Import Prelude GoStd Api Ipam.

Module agent.
Record State := {
  Server : Wireguard;
  ServerPrivateKey : string;
  Peers : list WireguardPeer;
}.

#[global] Instance State_eq_dec : EqDecision State.
Proof. solve_decision. Defined.

(** [agent.PeerCIDR] *)
Definition PeerCIDR (state : State) : string :=
  if decide (PeerCIDR (wg_Spec (Server state)) = "") then DefaultPeerCIDR4
  else PeerCIDR (wg_Spec (Server state)).

(** The loop of [IsStateValid] over the peers, from index [i]. *)
Fixpoint peers_problem (i : Z) (peers : list WireguardPeer) : option error :=
  match peers with
  | [] => None
  | peer :: peers' =>
      if decide (peer_Address peer = "") then
        Some (errors_New ("peer with index " +:+ Itoa i +:+ " does not have the address defined"))
      else if decide (peer_Key peer = "") then
        Some (errors_New ("peer with index " +:+ Itoa i +:+ " does not have a public key defined"))
      else peers_problem (i + 1) peers'
  end.

(** [agent.IsStateValid]; [None] is a nil error. *)
Definition IsStateValid (state : State) : option error :=
  if decide (ServerPrivateKey state = "") then
    Some (errors_New "server private key is not defined")
  else if decide (len (ServerPrivateKey state) = 44) then peers_problem 0 (Peers state)
  else Some (errors_New "server private key should be of length 44").

Lemma peers_problem_None i peers :
  peers_problem i peers = None ↔
  Forall (λ p, peer_Address p ≠ "" ∧ peer_Key p ≠ "") peers.
Proof.
  revert i. induction peers as [|p peers IH]; intros i; cbn.
  { split; [constructor|done]. }
  rewrite Forall_cons. repeat case_decide; [by intuition|by intuition|].
  rewrite IH. by intuition.
Qed.

(** The agent accepts a state exactly when its key has 44 bytes and every peer
    carries an address and a key. *)
Lemma IsStateValid_None state :
  IsStateValid state = None ↔
  len (ServerPrivateKey state) = 44 ∧
  Forall (λ p, peer_Address p ≠ "" ∧ peer_Key p ≠ "") (Peers state).
Proof.
  unfold IsStateValid. rewrite <-(peers_problem_None 0).
  destruct (decide (ServerPrivateKey state = "")) as [E|].
  - split; [done|]. rewrite E. by intros [? _].
  - destruct (decide _); [naive_solver|]. split; [done|]. by intros [? _].
Qed.

(** [encoding/json] on a [State]. The encoding is decided by the [MarshalJSON]
    methods and field tags of the Kubernetes types it embeds, which are not under
    [src/]. [transportable] are the states the encoding loses nothing of: those
    whose texts are valid UTF-8. *)
Class StateCodec := {
  Marshal : State → result string;
  Unmarshal : string → result State;
  transportable : State → Prop;
  Unmarshal_Marshal : ∀ s b, transportable s → Marshal s = Ok b → Unmarshal b = Ok s;
}.
End agent.
