(* ===== verification/Peers.v ===== *)
(** * Peer admission and rendering ([internal/controller/peers.go])

    The pure decisions the controller takes about the peers of one gateway:
    which it can admit, which of two peers keeps a shared address or key, and
    what of the admitted ones reaches the agent's [state.json]. *)

From S2P Require Import Prelude GoStd Netip NetipFacts Api External Ipam AgentState.

Definition ConditionReady : string := "Ready".
Definition ConditionProgressing : string := "Progressing".
Definition ConditionDegraded : string := "Degraded".

Definition ReasonPublicKeyMissing : string := "PublicKeyMissing".
Definition ReasonWireguardNotFound : string := "WireguardNotFound".
Definition ReasonNamespaceNotAllowed : string := "NamespaceNotAllowed".
Definition ReasonAddressPoolExhausted : string := "AddressPoolExhausted".
Definition ReasonInvalidPublicKey : string := "InvalidPublicKey".
Definition ReasonAddressConflict : string := "AddressConflict".
Definition ReasonPublicKeyConflict : string := "PublicKeyConflict".

(** ** Not-ready records *)

Record notReady := {
  nr_Status : string;
  nr_Message : string;
  nr_Reason : string;
  nr_ConditionMessage : string;
}.

#[export] Instance notReady_eq_dec : EqDecision notReady.
Proof. solve_decision. Defined.

Definition publicKeyMissing : notReady := {|
  nr_Status := v1alpha1.Pending;
  nr_Message := "Waiting for spec.publicKey";
  nr_Reason := ReasonPublicKeyMissing;
  nr_ConditionMessage := "spec.publicKey is empty, so the server cannot admit this peer";
|}.

Definition invalidPublicKey : notReady := {|
  nr_Status := v1alpha1.Error;
  nr_Message := "spec.publicKey is not a valid WireGuard key";
  nr_Reason := ReasonInvalidPublicKey;
  nr_ConditionMessage :=
    "spec.publicKey is not a base64-encoded 32-byte WireGuard key, so the server cannot admit this peer";
|}.

(** [gatewayKey] *)
Definition gatewayKey (peer : WireguardPeer) : NamespacedName :=
  NN (cmp_Or_string (WireguardNamespace (wp_Spec peer)) (peer_Namespace peer))
     (WireguardRef (wp_Spec peer)).

(** [namespaceNotAllowed]; [None] is the false it returns for an admitted peer. *)
Definition namespaceNotAllowed (wg : Wireguard) (peer : WireguardPeer) : option notReady :=
  let ns := Namespace (wg_meta wg) in
  let nm := Name (wg_meta wg) in
  match AllowedNamespaces_ (wg_Spec wg) with
  | None => None
  | Some allowed =>
      if decide (From_ allowed ≠ v1alpha1.FromSame ∨ peer_Namespace peer = ns) then None
      else Some {|
        nr_Status := v1alpha1.Error;
        nr_Message := "Wireguard " +:+ ns +:+ "/" +:+ nm +:+
          " does not accept peers from namespace " +:+ peer_Namespace peer;
        nr_Reason := ReasonNamespaceNotAllowed;
        nr_ConditionMessage := "Wireguard " +:+ ns +:+ "/" +:+ nm +:+
          " sets spec.allowedNamespaces.from to Same, so it admits only peers in namespace " +:+ ns;
      |}
  end.

(** [validatePeerCIDR]; [None] is a nil error. *)
Definition validatePeerCIDR (cidr : string) : option error :=
  match ParsePrefix cidr with
  | Err e => Some (wrapf ("peerCIDR " +:+ Quote cidr +:+ " is not a CIDR: ") e)
  | Ok p =>
      if negb (Is4 (p_ip p)) then
        Some (errors_New ("peerCIDR " +:+ Quote cidr +:+ " is not an IPv4 prefix"))
      else if decide (p ≠ Masked p) then
        Some (errors_New ("peerCIDR " +:+ Quote cidr +:+ " has host bits set; use " +:+
                          prefix_String (Masked p)))
      else if 30 <? Bits p then
        Some (errors_New ("peerCIDR " +:+ Quote cidr +:+
                          " leaves no address for a peer; use /30 or shorter"))
      else None
  end.

(** [wireguardNotFound] *)
Definition wireguardNotFound (ref namespace : string) : notReady := {|
  nr_Status := v1alpha1.Pending;
  nr_Message := "Waiting for wireguard resource '" +:+ ref +:+ "' to be created";
  nr_Reason := ReasonWireguardNotFound;
  nr_ConditionMessage := "no Wireguard named " +:+ ref +:+ " exists in namespace " +:+ namespace;
|}.

(** [addressPoolExhausted] *)
Definition addressPoolExhausted (cidr : string) : notReady := {|
  nr_Status := v1alpha1.Pending;
  nr_Message := "No free address in " +:+ cidr;
  nr_Reason := ReasonAddressPoolExhausted;
  nr_ConditionMessage := "peerCIDR " +:+ cidr +:+ " has no free address for this peer";
|}.

(** [addressConflict] *)
Definition addressConflict (address winner : string) : notReady :=
  let msg := "Address " +:+ address +:+ " is held by peer " +:+ winner +:+
             "; waiting for a new address" in
  {| nr_Status := v1alpha1.Pending; nr_Message := msg;
     nr_Reason := ReasonAddressConflict; nr_ConditionMessage := msg |}.

(** [publicKeyConflict] *)
Definition publicKeyConflict (winner : string) : notReady := {|
  nr_Status := v1alpha1.Pending;
  nr_Message := "Public key is held by peer " +:+ winner +:+ "; waiting for it to be released";
  nr_Reason := ReasonPublicKeyConflict;
  nr_ConditionMessage := "spec.publicKey is already held by peer " +:+ winner +:+
    " of this Wireguard, so this peer cannot be admitted";
|}.

(** [addressUsable] *)
Definition addressUsable (addr cidr4 : string) : bool :=
  match ParseAddr addr with
  | Err _ => false
  | Ok a =>
      match ParsePrefix cidr4 with
      | Err _ => false
      | Ok p =>
          let p := Masked p in
          Contains p a && bool_decide (a ≠ p_ip p) && bool_decide (a ≠ Next (p_ip p))
      end
  end.

(** ** Conflicts *)

Record conflictLoser := { cl_Peer : WireguardPeer; cl_Winner : string }.

(** [older] *)
Definition older (a b : WireguardPeer) : bool :=
  match cmp_Or (Z.compare (CreationTimestamp (wp_meta a)) (CreationTimestamp (wp_meta b)))
          (cmp_Or (compare_string (peer_Name a) (peer_Name b))
             (compare_string (peer_Namespace a) (peer_Namespace b)))
  with
  | Lt => true
  | _ => false
  end.

(** A pointer to the element [i] of the slice of peers: its index, which is its
    identity, and the peer it points to. *)
Abbreviation ptr := (nat * WireguardPeer)%type.

Section dedupe.
(** The contended field, and whether a pointer's peer takes it from another's. *)
Context (field : WireguardPeer → string) (beats : WireguardPeer → WireguardPeer → bool).

Definition holder_step (holder : gmap string ptr) (p : ptr) : gmap string ptr :=
  let v := field p.2 in
  if decide (v = "") then holder
  else
    match holder !! v with
    | None => <[v := p]> holder
    | Some h => if beats p.2 h.2 then <[v := p]> holder else holder
    end.

(** The first loop: the holder of each value. *)
Definition holders (peers : list WireguardPeer) : gmap string ptr :=
  foldl holder_step ∅ (imap pair peers).

Definition split_step (holder : gmap string ptr)
    (acc : list WireguardPeer * list conflictLoser) (p : ptr)
    : list WireguardPeer * list conflictLoser :=
  let '(keep, losers) := acc in
  match holder !! field p.2 with
  | None => (keep ++ [p.2], losers)
  | Some h =>
      if decide (h.1 = p.1) then (keep ++ [p.2], losers)
      else (keep, losers ++ [{| cl_Peer := p.2;
                                cl_Winner := nn_String (key_of (wp_meta h.2)) |}])
  end.

(** The second loop: who keeps its state and who gives the value up. *)
Definition dedupe (peers : list WireguardPeer) : list WireguardPeer * list conflictLoser :=
  foldl (split_step (holders peers)) ([], []) (imap pair peers).
End dedupe.

(** [dedupeAddresses] *)
Definition dedupeAddresses (peers : list WireguardPeer)
    : list WireguardPeer * list conflictLoser :=
  dedupe peer_Address older peers.

(** The closure [listed] of [dedupePublicKeys]; a missing entry of a Go map reads
    as the empty string. *)
Definition listed (current : gmap NamespacedName string) (p : WireguardPeer) : bool :=
  bool_decide (default "" (current !! key_of (wp_meta p)) = peer_Key p).

(** The closure [beats] of [dedupePublicKeys]. *)
Definition key_beats (current : gmap NamespacedName string) (a b : WireguardPeer) : bool :=
  if Bool.eqb (listed current a) (listed current b) then older a b else listed current a.

(** [dedupePublicKeys] *)
Definition dedupePublicKeys (peers : list WireguardPeer) (current : gmap NamespacedName string)
    : list WireguardPeer * list conflictLoser :=
  dedupe peer_Key (key_beats current) peers.

(** ** Rendering *)

(** What [desiredState] keeps of a peer. *)
Definition renderPeer (peer : WireguardPeer) : WireguardPeer := {|
  wp_meta := meta_of (peer_Name peer) (peer_Namespace peer);
  wp_Spec := {| PublicKey := peer_Key peer; WireguardRef := WireguardRef (wp_Spec peer);
                WireguardNamespace := "" |};
  wp_Status := status_of (peer_Address peer);
|}.

(** The comparison [desiredState] sorts by: name, then namespace. *)
Definition peer_cmp (a b : WireguardPeer) : comparison :=
  cmp_Or (compare_string (peer_Name a) (peer_Name b))
         (compare_string (peer_Namespace a) (peer_Namespace b)).

Definition peer_le (a b : WireguardPeer) : Prop := peer_cmp a b ≠ Gt.

#[export] Instance peer_le_dec : RelDecision peer_le.
Proof. intros a b. unfold peer_le. apply _. Defined.

(** [desiredState] *)
Definition desiredState (wg : Wireguard) (privateKey : string) (peers : list WireguardPeer)
    : agent.State :=
  let s := wg_Spec wg in
  let spec := {| PeerCIDR := PeerCIDR s; LocalCIDRs := LocalCIDRs s; Gluetun := zeroGluetun;
                 NodeSelector := NodeSelector s; Tolerations := Tolerations s; Agent := Agent s;
                 AllowedNamespaces_ := AllowedNamespaces_ s |} in
  let rendered := renderPeer <$> peers in
  {| agent.Server := {| wg_meta := meta_of (Name (wg_meta wg)) (Namespace (wg_meta wg));
                        wg_Spec := spec; wg_Status := zeroWireguardStatus |};
     agent.ServerPrivateKey := privateKey;
     agent.Peers := merge_sort peer_le rendered |}.

(** [skipPeerWrite] on a non-nil error. *)
Definition skipPeerWrite (err : error) : bool :=
  errors_Is err Conflict || errors_Is err NotFound.

Section conditions.
Context `{ConditionLib}.

(** [peerStatusMatches] *)
Definition peerStatusMatches (peer : WireguardPeer) (nr : notReady) : bool :=
  let s := wp_Status peer in
  bool_decide (ps_Status s = nr_Status nr) &&
  bool_decide (ps_Address s = "") &&
  bool_decide (ps_Endpoint s = "") &&
  bool_decide (ps_ServerPublicKey s = "") &&
  bool_decide (ps_LocalCIDRs s = []) &&
  bool_decide (ps_Message s = nr_Message nr) &&
  match FindStatusCondition (ps_Conditions s) ConditionReady with
  | None => false
  | Some c =>
      bool_decide (c_Status c = ConditionFalse) &&
      bool_decide (c_Reason c = nr_Reason nr) &&
      bool_decide (c_Message c = nr_ConditionMessage nr) &&
      bool_decide (c_ObservedGeneration c = Generation (wp_meta peer))
  end.
End conditions.

Section keys.
Context `{WgTypes}.

(** [admissionProblem]; [None] is the false it returns for an admissible peer. *)
Definition admissionProblem (peer : WireguardPeer) : option notReady :=
  let key := peer_Key peer in
  if decide (key = "") then Some publicKeyMissing
  else
    match ParseKey key with
    | Err _ => Some invalidPublicKey
    | Ok parsed => if decide (Key_String parsed = key) then None else Some invalidPublicKey
    end.
End keys.

(** ** Facts about the order of peers *)

Definition cmp_lt (c : comparison) : bool := match c with Lt => true | _ => false end.

Lemma older_irrefl a : older a a = false.
Proof. unfold older. by rewrite Z.compare_refl, !compare_string_refl. Qed.

Lemma older_trans a b c : older a b = true → older b c = true → older a c = true.
Proof.
  unfold older, cmp_Or. intros H1 H2.
  destruct (Z.compare_spec (CreationTimestamp (wp_meta a)) (CreationTimestamp (wp_meta b))) as [E1|E1|E1];
  destruct (Z.compare_spec (CreationTimestamp (wp_meta b)) (CreationTimestamp (wp_meta c))) as [E2|E2|E2];
  destruct (Z.compare_spec (CreationTimestamp (wp_meta a)) (CreationTimestamp (wp_meta c))) as [E3|E3|E3];
    try done; try lia.
  clear -H1 H2.
  destruct (compare_string (peer_Name a) (peer_Name b)) eqn:N1; try done;
  destruct (compare_string (peer_Name b) (peer_Name c)) eqn:N2; try done.
  - apply compare_string_eq in N1, N2. rewrite N1, N2, compare_string_refl.
    destruct (compare_string (peer_Namespace a) (peer_Namespace b)) eqn:M1; try done;
    destruct (compare_string (peer_Namespace b) (peer_Namespace c)) eqn:M2; try done.
    by rewrite (compare_string_lt_trans _ _ _ M1 M2).
  - apply compare_string_eq in N1. by rewrite N1, N2.
  - apply compare_string_eq in N2. by rewrite <-N2, N1.
  - by rewrite (compare_string_lt_trans _ _ _ N1 N2).
Qed.

Lemma key_beats_irrefl current a : key_beats current a a = false.
Proof. unfold key_beats. rewrite Bool.eqb_reflx. apply older_irrefl. Qed.

Lemma key_beats_trans current a b c :
  key_beats current a b = true → key_beats current b c = true → key_beats current a c = true.
Proof.
  unfold key_beats.
  destruct (listed current a), (listed current b), (listed current c); cbn; try done;
    apply older_trans.
Qed.

(** ** Facts about [dedupe] *)

Section dedupe_facts.
Context (field : WireguardPeer → string) (beats : WireguardPeer → WireguardPeer → bool).
Hypothesis beats_irrefl : ∀ a, beats a a = false.
Hypothesis beats_trans : ∀ a b c, beats a b = true → beats b c = true → beats a c = true.

(** [h] holds [v] among [l]: no other holder of [v] takes it from [h]. *)
Definition holds (l : list ptr) (v : string) (h : ptr) : Prop :=
  h ∈ l ∧ field h.2 = v ∧ ∀ q, q ∈ l → field q.2 = v → beats q.2 h.2 = false.

Definition holder_inv (l : list ptr) (m : gmap string ptr) : Prop :=
  ∀ v, match m !! v with
       | None => v = "" ∨ ∀ q, q ∈ l → field q.2 ≠ v
       | Some h => v ≠ "" ∧ holds l v h
       end.

Lemma holder_step_inv l m p :
  holder_inv l m → holder_inv (l ++ [p]) (holder_step field beats m p).
Proof.
  intros Hinv v. unfold holder_step. case_decide as He.
  { specialize (Hinv v). destruct (m !! v) as [h|].
    - destruct Hinv as (Hv & Hh & Hf & Hb). split; [done|]. split; [apply elem_of_app; by left|]. split; [done|].
      intros q [Hq|Hq%list_elem_of_singleton]%elem_of_app Hfq; [eauto|]. subst q. congruence.
    - destruct Hinv as [->|Hn]; [by left|]. destruct (decide (v = "")); [by left|]. right.
      intros q [Hq|Hq%list_elem_of_singleton]%elem_of_app; [eauto|]. subst q. congruence. }
  destruct (decide (v = field p.2)) as [->|Hne].
  - pose proof (Hinv (field p.2)) as Hp. destruct (m !! field p.2) as [h|] eqn:Em.
    + destruct Hp as (Hv & Hh & Hf & Hb). destruct (beats p.2 h.2) eqn:Hbeats.
      * rewrite lookup_insert_eq. split; [done|]. split; [apply elem_of_app; right; by left|]. split; [done|].
        intros q [Hq|Hq%list_elem_of_singleton]%elem_of_app Hfq; [|by subst].
        destruct (beats q.2 p.2) eqn:Hqp; [|done].
        rewrite <-(Hb q Hq Hfq). symmetry. eauto.
      * rewrite Em. split; [done|]. split; [apply elem_of_app; by left|]. split; [done|].
        intros q [Hq|Hq%list_elem_of_singleton]%elem_of_app Hfq; [eauto|]. by subst.
    + rewrite lookup_insert_eq. split; [done|]. split; [apply elem_of_app; right; by left|]. split; [done|].
      destruct Hp as [|Hn]; [done|].
      intros q [Hq|Hq%list_elem_of_singleton]%elem_of_app Hfq; [|by subst]. by destruct (Hn q Hq).
  - assert (∀ m', m' = m ∨ m' = <[field p.2 := p]> m → m' !! v = m !! v) as Hm'.
    { intros m' [->| ->]; [done|]. by rewrite lookup_insert_ne. }
    rewrite Hm' by (repeat case_match; auto). specialize (Hinv v). destruct (m !! v) as [h|].
    + destruct Hinv as (Hv & Hh & Hf & Hb). split; [done|]. split; [apply elem_of_app; by left|]. split; [done|].
      intros q [Hq|Hq%list_elem_of_singleton]%elem_of_app Hfq; [eauto|]. by subst.
    + destruct Hinv as [->|Hn]; [by left|]. right.
      intros q [Hq|Hq%list_elem_of_singleton]%elem_of_app; [eauto|]. by subst.
Qed.

Lemma foldl_holder_inv l : holder_inv l (foldl (holder_step field beats) ∅ l).
Proof.
  induction l as [|p l IH] using rev_ind.
  - intros v. cbn. rewrite lookup_empty. right. intros q Hq. by apply elem_of_nil in Hq.
  - rewrite foldl_app. by apply holder_step_inv.
Qed.

Context (peers : list WireguardPeer).
#[local] Abbreviation m := (holders field beats peers).

(** A pointer whose peer keeps its state. *)
Definition kept (p : ptr) : Prop :=
  match m !! field p.2 with None => True | Some h => h.1 = p.1 end.

#[export] Instance kept_dec p : Decision (kept p).
Proof. unfold kept. case_match; apply _. Defined.

Definition loser_of (p : ptr) : conflictLoser :=
  {| cl_Peer := p.2;
     cl_Winner := match m !! field p.2 with
                  | Some h => nn_String (key_of (wp_meta h.2)) | None => "" end |}.

Lemma split_fold l keep losers :
  foldl (split_step field m) (keep, losers) l =
  (keep ++ (filter kept l).*2, losers ++ (loser_of <$> filter (λ p, ¬ kept p) l)).
Proof.
  revert keep losers. induction l as [|p l IH]; intros keep losers.
  { cbn. by rewrite !app_nil_r. }
  cbn [foldl]. rewrite !filter_cons. unfold split_step at 2.
  destruct (decide (kept p)) as [Hk|Hk].
  - rewrite (decide_False (P := ¬ kept p)) by tauto. unfold kept in Hk.
    assert (match m !! field p.2 with
            | None => (keep ++ [p.2], losers)
            | Some h => if decide (h.1 = p.1) then (keep ++ [p.2], losers)
                else (keep, losers ++ [{| cl_Peer := p.2;
                                          cl_Winner := nn_String (key_of (wp_meta h.2)) |}])
            end = (keep ++ [p.2], losers)) as ->.
    { destruct (m !! field p.2); [|done]. by rewrite decide_True. }
    rewrite IH. cbn. by rewrite <-app_assoc.
  - rewrite (decide_True (P := ¬ kept p)) by tauto. rewrite fmap_cons.
    unfold loser_of at 1. unfold kept in Hk. destruct (m !! field p.2) as [h|]; [|done].
    rewrite decide_False by done. rewrite IH. by rewrite <-app_assoc.
Qed.

Lemma dedupe_eq :
  dedupe field beats peers =
  ((filter kept (imap pair peers)).*2, loser_of <$> filter (λ p, ¬ kept p) (imap pair peers)).
Proof. unfold dedupe. by rewrite split_fold. Qed.

Lemma imap_snd : (imap pair peers).*2 = peers.
Proof. rewrite fmap_imap. cbn. rewrite (imap_const id). apply list_fmap_id. Qed.

Lemma imap_NoDup_fst : NoDup (imap pair peers).*1.
Proof.
  rewrite fmap_imap. assert (imap (λ n, fst ∘ pair n) peers = id <$> seq 0 (length peers)) as ->.
  { exact (imap_seq_0 peers id). }
  rewrite list_fmap_id. apply NoDup_seq.
Qed.

Lemma imap_ptr_eq p q : p ∈ imap pair peers → q ∈ imap pair peers → p.1 = q.1 → p = q.
Proof.
  intros Hp Hq E. apply list_elem_of_lookup in Hp as [i Hi], Hq as [j Hj].
  rewrite list_lookup_imap in Hi, Hj.
  destruct (peers !! i) eqn:Ei; [|done]. destruct (peers !! j) eqn:Ej; [|done].
  cbn in *. simplify_eq. cbn in E. congruence.
Qed.

Lemma holders_spec v :
  match m !! v with
  | None => v = "" ∨ ∀ q, q ∈ imap pair peers → field q.2 ≠ v
  | Some h => v ≠ "" ∧ holds (imap pair peers) v h
  end.
Proof. apply (foldl_holder_inv (imap pair peers) v). Qed.

(** A kept peer with a value is that value's holder. *)
Lemma kept_holder p :
  p ∈ imap pair peers → kept p → field p.2 ≠ "" → m !! field p.2 = Some p.
Proof.
  unfold kept. intros Hp Hk Hne. pose proof (holders_spec (field p.2)) as Hs.
  destruct (m !! field p.2) as [h|].
  - destruct Hs as (_ & Hh & _). f_equal. by apply imap_ptr_eq.
  - destruct Hs as [?|Hn]; [done|]. by destruct (Hn p Hp).
Qed.
End dedupe_facts.

(** What [dedupe] promises of a field and of the order that decides who keeps it. *)
Record dedupe_spec (field : WireguardPeer → string) (beats : WireguardPeer → WireguardPeer → bool)
    (peers keep : list WireguardPeer) (losers : list conflictLoser) : Prop := {
  (** the kept peers are in input order *)
  ds_sublist : keep `sublist_of` peers;
  (** every peer is kept or loses, once *)
  ds_partition : keep ++ (cl_Peer <$> losers) ≡ₚ peers;
  (** no value is kept twice *)
  ds_unique : NoDup (nonempty (field <$> keep));
  (** a loser names a kept peer that holds its value *)
  ds_loser : ∀ l, l ∈ losers → ∃ w, w ∈ keep ∧ field w ≠ "" ∧
    field w = field (cl_Peer l) ∧ cl_Winner l = nn_String (key_of (wp_meta w));
  (** no contender takes the value from the peer that keeps it *)
  ds_best : ∀ w q, w ∈ keep → q ∈ peers → field w ≠ "" → field q = field w → beats q w = false;
}.

Lemma dedupe_ok field beats peers :
  (∀ a, beats a a = false) →
  (∀ a b c, beats a b = true → beats b c = true → beats a c = true) →
  dedupe_spec field beats peers (dedupe field beats peers).1 (dedupe field beats peers).2.
Proof.
  intros Hirr Htr. rewrite dedupe_eq. cbn [fst snd].
  set (L := imap pair peers).
  assert (∀ p, p ∈ filter (kept field beats peers) L → field p.2 ≠ "" → holders field beats peers !! field p.2 = Some p) as Hhold.
  { intros p [Hk Hp]%list_elem_of_filter Hne. by apply kept_holder. }
  assert (∀ w, w ∈ (filter (kept field beats peers) L).*2 → ∃ p, w = p.2 ∧ p ∈ filter (kept field beats peers) L) as Hw.
  { intros w (p & -> & Hp)%list_elem_of_fmap. eauto. }
  split.
  - enough ((filter (kept field beats peers) L).*2 `sublist_of` L.*2) as Hsub.
    { unfold L in Hsub at 2. by rewrite imap_snd in Hsub. }
    apply fmap_sublist, sublist_filter.
  - enough ((filter (kept field beats peers) L).*2 ++
            (filter (λ p, ¬ kept field beats peers p) L).*2 ≡ₚ L.*2) as Hperm.
    { unfold L in Hperm at 3. rewrite imap_snd in Hperm. by rewrite <-list_fmap_compose. }
    rewrite <-(fmap_app snd). apply fmap_Permutation, filter_app_complement.
  - rewrite <-list_fmap_compose. apply NoDup_nonempty_fmap.
    + apply NoDup_filter, (NoDup_fmap_1 fst), imap_NoDup_fst.
    + cbn. intros p q Hp Hq Hne E. apply Hhold in Hp; [|done].
      apply Hhold in Hq; [|congruence]. rewrite E, Hq in Hp. by simplify_eq.
  - intros l (p & -> & Hp)%list_elem_of_fmap. apply list_elem_of_filter in Hp as [Hnk Hp].
    pose proof (holders_spec field beats Hirr Htr peers (field p.2)) as Hs.
    unfold kept in Hnk. unfold loser_of. cbn [cl_Peer cl_Winner].
    destruct (holders field beats peers !! field p.2) as [h|] eqn:Eh; [|done].
    destruct Hs as (Hne & Hh & Hf & _). exists h.2. split_and!; try done; [|congruence].
    apply list_elem_of_fmap. exists h. split; [done|]. apply list_elem_of_filter. split; [|done].
    unfold kept. by rewrite Hf, Eh.
  - intros w q (p & -> & Hp)%Hw Hq Hne E.
    pose proof (Hhold p Hp Hne) as Hh. pose proof (holders_spec field beats Hirr Htr peers (field p.2)) as Hs.
    rewrite Hh in Hs. destruct Hs as (_ & _ & _ & Hbest).
    assert (q ∈ (imap pair peers).*2) as Hq2 by (by rewrite imap_snd). clear Hq. rename Hq2 into Hq.
    apply list_elem_of_fmap in Hq as (q' & -> & Hq'). by apply Hbest.
Qed.

Lemma dedupeAddresses_ok peers :
  dedupe_spec peer_Address older peers (dedupeAddresses peers).1 (dedupeAddresses peers).2.
Proof. apply dedupe_ok; [apply older_irrefl|apply older_trans]. Qed.

Lemma dedupePublicKeys_ok peers current :
  dedupe_spec peer_Key (key_beats current) peers
    (dedupePublicKeys peers current).1 (dedupePublicKeys peers current).2.
Proof. apply dedupe_ok; [apply key_beats_irrefl|apply key_beats_trans]. Qed.

(** ** Facts about addresses *)

(** [validatePeerCIDR] accepts exactly the texts of IPv4 prefixes of at most 30
    bits with no host bits. *)
Lemma validatePeerCIDR_None cidr :
  validatePeerCIDR cidr = None ↔
  ∃ v b, cidr = text4 v b ∧ u32 v ∧ 0 <= b <= 30 ∧ base v b = v.
Proof.
  unfold validatePeerCIDR. split.
  - destruct (ParsePrefix cidr) as [p|e] eqn:E; [|done].
    destruct (Is4 (p_ip p)) eqn:H4; cbn [negb]; [|done].
    apply ParsePrefix_4 in E as (v & b & -> & Hv & Hb & ->); [|done].
    rewrite Masked_4, Bits_prefix4 by done. case_decide as Hd; [done|].
    destruct (Z.ltb_spec 30 b); [done|]. intros _. exists v, b. split_and!; try done; [lia|].
    unfold prefix4, addr4 in Hd. by injection Hd as <-.
  - intros (v & b & -> & Hv & Hb & Hbase). rewrite ParsePrefix_text4 by (done || lia).
    cbn [prefix4 addr4 p_ip Is4 a_z negb]. change (mkPrefix (addr4 v) (b + 1)) with (prefix4 v b).
    rewrite Masked_4, Bits_prefix4, Hbase by lia. rewrite decide_False by tauto.
    destruct (Z.ltb_spec 30 b); [lia|done].
Qed.

Lemma psize_30 b : b <= 30 → 4 <= psize b.
Proof. intros. unfold psize. change 4 with (2 ^ 2). apply Z.pow_le_mono_r; lia. Qed.

Section in_prefix.
Context (v b : Z).
Hypothesis Hv : u32 v.
Hypothesis Hb : 0 <= b <= 30.

Lemma base_in k : 0 <= k < psize b → u32 (base v b + k).
Proof.
  intros. pose proof (base_top v b ltac:(lia) Hv). pose proof (base_range v b ltac:(lia) Hv).
  unfold u32 in *. lia.
Qed.

Lemma Next_base : Next (addr4 (base v b)) = addr4 (base v b + 1).
Proof.
  pose proof (psize_30 b ltac:(lia)). pose proof (base_in 1 ltac:(lia)) as Hin. unfold u32 in Hin.
  unfold Next. cbn [a_z a_val addr4].
  destruct (Z.eqb_spec (base v b + 1) (2 ^ 32)); [lia|done].
Qed.

Lemma deriveReservedIPs_4 :
  deriveReservedIPs (text4 v b) = [string4 (base v b); string4 (base v b + 1)].
Proof.
  unfold deriveReservedIPs. rewrite decide_False.
  - rewrite ParsePrefix_text4, Masked_4 by (done || lia). cbn [prefix4 p_ip].
    by rewrite Next_base.
  - intros E. pose proof (ParsePrefix_text4 v b Hv ltac:(lia)) as H. by rewrite E in H.
Qed.

(** An address is usable on a prefix exactly when it is the canonical text of
    one of its addresses past the first two. *)
Lemma addressUsable_4 addr :
  addressUsable addr (text4 v b) = true ↔
  ∃ k, 2 <= k < psize b ∧ addr = string4 (base v b + k).
Proof.
  unfold addressUsable. rewrite ParsePrefix_text4, Masked_4 by (done || lia).
  cbn [prefix4 p_ip]. rewrite Next_base. split.
  - destruct (ParseAddr addr) as [a|] eqn:Ha; [|done].
    rewrite !andb_true_iff, !bool_decide_eq_true. intros [[Hc H0] H1].
    change (mkPrefix (addr4 ?x) (b + 1)) with (prefix4 x b) in Hc.
    rewrite Contains_4, base_base in Hc by lia. destruct Hc as [H4 Hr].
    destruct (ParseAddr_4_canonical _ _ Ha H4) as (_ & Ha4 & <-). rewrite Ha4 in H0, H1 |- *.
    exists (a_val a - base v b). split.
    + assert (a_val a ≠ base v b) by (intros E; by rewrite E in H0).
      assert (a_val a ≠ base v b + 1) by (intros E; by rewrite E in H1). lia.
    + cbn. f_equal. lia.
  - intros (k & Hk & ->). rewrite ParseAddr_string4 by (apply base_in; lia).
    rewrite !andb_true_iff, !bool_decide_eq_true.
    change (mkPrefix (addr4 ?x) (b + 1)) with (prefix4 x b).
    rewrite Contains_4, base_base by lia. cbn. split_and!; try done; try lia;
      unfold addr4; intros E; simplify_eq; lia.
Qed.

(** What [AllocateIP] hands out is usable and free, when the reserved addresses
    are among the used ones. *)
Lemma AllocateIP_usable `{IpnetgenSpec} usedIPs ip :
  deriveReservedIPs (text4 v b) ⊆ usedIPs →
  AllocateIP (text4 v b) usedIPs = Ok ip →
  addressUsable ip (text4 v b) = true ∧ ip ∉ usedIPs.
Proof.
  intros Hres E. rewrite deriveReservedIPs_4 in Hres.
  destruct (AllocateIP_spec v b usedIPs Hv ltac:(lia)) as [(k & Hk & Hok & Hni & _)|[Herr _]].
  - rewrite E in Hok. simplify_eq. split; [|done]. apply addressUsable_4.
    exists (Z.of_nat k). split; [|done]. split; [|lia].
    destruct k as [|[|k]]; [exfalso..|lia]; apply Hni, Hres.
    + rewrite Z.add_0_r. by left.
    + right. by left.
  - by rewrite E in Herr.
Qed.
End in_prefix.

(** ** Facts about the rendered state *)

Lemma compare_string_total a b : compare_string a b ≠ Gt ∨ compare_string b a ≠ Gt.
Proof. rewrite (compare_string_antisym a b). destruct (compare_string a b); cbn; auto. Qed.

Lemma cmp_Or_antisym a b c d :
  b = CompOpp a → d = CompOpp c → cmp_Or b d = CompOpp (cmp_Or a c).
Proof. intros -> ->. by destruct a. Qed.

Lemma peer_cmp_antisym a b : peer_cmp b a = CompOpp (peer_cmp a b).
Proof. apply cmp_Or_antisym; apply compare_string_antisym. Qed.

Lemma peer_cmp_eq a b : peer_cmp a b = Eq ↔ key_of (wp_meta a) = key_of (wp_meta b).
Proof.
  unfold peer_cmp, key_of, peer_Name, peer_Namespace. split.
  - destruct (compare_string (Name _) _) eqn:E; try done. cbn. intros E'.
    apply compare_string_eq in E, E'. by rewrite E, E'.
  - intros [= E1 E2]. by rewrite E1, E2, !compare_string_refl.
Qed.

Lemma peer_cmp_lt_trans a b c : peer_cmp a b = Lt → peer_cmp b c = Lt → peer_cmp a c = Lt.
Proof.
  unfold peer_cmp, cmp_Or. intros H1 H2.
  destruct (compare_string (peer_Name a) (peer_Name b)) eqn:N1; try done;
  destruct (compare_string (peer_Name b) (peer_Name c)) eqn:N2; try done.
  - apply compare_string_eq in N1, N2. rewrite N1, N2, compare_string_refl.
    eapply compare_string_lt_trans; eauto.
  - apply compare_string_eq in N1. by rewrite N1, N2.
  - apply compare_string_eq in N2. by rewrite <-N2, N1.
  - by rewrite (compare_string_lt_trans _ _ _ N1 N2).
Qed.

Lemma peer_cmp_eq_l a b c : peer_cmp a b = Eq → peer_cmp a c = peer_cmp b c.
Proof.
  rewrite peer_cmp_eq. unfold peer_cmp, key_of, peer_Name, peer_Namespace.
  intros [= E1 E2]. by rewrite E1, E2.
Qed.

#[export] Instance peer_le_total : Total peer_le.
Proof. intros a b. unfold peer_le. rewrite (peer_cmp_antisym a b). destruct (peer_cmp a b); cbn; auto. Qed.

#[export] Instance peer_le_trans : Transitive peer_le.
Proof.
  intros a b c Hab Hbc. unfold peer_le in *. destruct (peer_cmp a b) eqn:E1; [| |done].
  - by rewrite (peer_cmp_eq_l _ _ c E1).
  - destruct (peer_cmp b c) eqn:E2; [| |done].
    + apply peer_cmp_eq in E2. rewrite <-peer_cmp_eq in E2.
      rewrite (peer_cmp_antisym c a). pose proof (peer_cmp_antisym b c) as Hcb. rewrite E2 in Hcb.
      rewrite (peer_cmp_eq_l c b a) by done. rewrite (peer_cmp_antisym a b), E1. done.
    + by rewrite (peer_cmp_lt_trans _ _ _ E1 E2).
Qed.

Lemma renderPeer_key p : key_of (wp_meta (renderPeer p)) = key_of (wp_meta p).
Proof. by destruct p as [[]]. Qed.

(** Two lists of peers that render to the same set give the same state, whatever
    their order, as long as no two peers share a name and namespace. *)
Lemma desiredState_perm wg k peers peers' :
  (renderPeer <$> peers) ≡ₚ (renderPeer <$> peers') →
  NoDup ((λ p, key_of (wp_meta p)) <$> peers) →
  desiredState wg k peers = desiredState wg k peers'.
Proof.
  intros Hperm Hnd. unfold desiredState. f_equal.
  apply (StronglySorted_unique_strong peer_le); try apply StronglySorted_merge_sort; try apply _.
  - intros x y Hx Hy Hxy Hyx. rewrite merge_sort_Permutation in Hx, Hy.
    rewrite <-Hperm in Hy. apply list_elem_of_fmap in Hx as (p & -> & Hp), Hy as (q & -> & Hq).
    assert (key_of (wp_meta p) = key_of (wp_meta q)) as Hkey.
    { rewrite <-(renderPeer_key p), <-(renderPeer_key q). apply peer_cmp_eq.
      unfold peer_le in *. rewrite (peer_cmp_antisym (renderPeer p)) in Hyx.
      by destruct (peer_cmp (renderPeer p) (renderPeer q)). }
    apply list_elem_of_lookup in Hp as [i Hi], Hq as [j Hj].
    assert (i = j) as ->; [|congruence].
    eapply NoDup_lookup; [exact Hnd|rewrite list_lookup_fmap, Hi; done|].
    rewrite list_lookup_fmap, Hj. cbn. by rewrite Hkey.
  - by rewrite !merge_sort_Permutation.
Qed.

(** ** Properties *)

(** C39: [dedupePublicKeys] keeps one holder per key, in input order, and every other
    contender loses to it by name; the holder is one the server's current state
    lists under the key if there is such a contender, so a newcomer never takes a
    key that is being served, and otherwise one no contender is older than. *)
Theorem dedupePublicKeys_spec peers current :
  dedupe_spec peer_Key (key_beats current) peers
    (dedupePublicKeys peers current).1 (dedupePublicKeys peers current).2 ∧
  ∀ w q, w ∈ (dedupePublicKeys peers current).1 → q ∈ peers → peer_Key w ≠ "" →
    peer_Key q = peer_Key w →
    (listed current q = true → listed current w = true) ∧
    (listed current q = listed current w → older q w = false).
Proof.
  pose proof (dedupePublicKeys_ok peers current) as Hok. split; [done|].
  intros w q Hw Hq Hne E. pose proof (ds_best _ _ _ _ _ Hok w q Hw Hq Hne E) as Hb.
  unfold key_beats in Hb. destruct (listed current q), (listed current w); done.
Qed.

(** [dedupeAddresses] keeps one holder per address, in input order, and every
    other contender loses to it by name; no contender is older than the holder. *)
Lemma dedupeAddresses_spec peers :
  dedupe_spec peer_Address older peers (dedupeAddresses peers).1 (dedupeAddresses peers).2.
Proof. apply dedupeAddresses_ok. Qed.

(** [validatePeerCIDR] accepts exactly the canonical texts of IPv4 prefixes of at
    most 30 bits: no host bits, no leading zeros, at least two addresses past the
    network's and the gateway's. *)
Lemma validatePeerCIDR_accepts cidr :
  validatePeerCIDR cidr = None ↔
  ∃ v b, cidr = text4 v b ∧ u32 v ∧ 0 <= b <= 30 ∧ base v b = v.
Proof. apply validatePeerCIDR_None. Qed.

(** C40: on a prefix [validatePeerCIDR] accepts, an address is usable exactly when it is
    the canonical text of an address of the prefix other than the first two, which
    are what [AllocateIP] can return when the reserved addresses are used. *)
Theorem addressUsable_iff v b addr :
  u32 v → 0 <= b <= 30 →
  (addressUsable addr (text4 v b) = true ↔
   ∃ k, 2 <= k < psize b ∧ addr = string4 (base v b + k)).
Proof. intros. by apply addressUsable_4. Qed.

Lemma addressUsable_iff_witness :
  addressUsable "10.8.0.77" "10.8.0.0/24" = true ↔
  ∃ k, 2 <= k < psize 24 ∧ "10.8.0.77" = string4 (base 168296448 24 + k).
Proof. apply (addressUsable_iff 168296448 24 "10.8.0.77"); [unfold u32; lia|lia]. Defined.

(** the state rendered for a set of peers does not depend on the order they are
    given in, nor on anything of them but name, namespace, key, gateway name and
    address: lists that render to the same entries give the same state, so the
    Secret is rewritten only when an entry changes. *)
Lemma desiredState_canonical wg k peers peers' :
  (renderPeer <$> peers) ≡ₚ (renderPeer <$> peers') →
  NoDup ((λ p, key_of (wp_meta p)) <$> peers) →
  desiredState wg k peers = desiredState wg k peers'.
Proof. apply desiredState_perm. Qed.

(** A peer and a server for the witness. *)
Definition sample_peer (n ns key addr : string) : WireguardPeer :=
  {| wp_meta := meta_of n ns;
     wp_Spec := {| PublicKey := key; WireguardRef := "gw"; WireguardNamespace := "" |};
     wp_Status := status_of addr |}.

Definition sample_server : Wireguard :=
  {| wg_meta := meta_of "gw" "vpn";
     wg_Spec := {| PeerCIDR := ""; LocalCIDRs := []; Gluetun := zeroGluetun; NodeSelector := ∅;
                   Tolerations := []; Agent := noResources; AllowedNamespaces_ := None |};
     wg_Status := zeroWireguardStatus |}.

Lemma desiredState_canonical_witness :
  desiredState sample_server "k" [sample_peer "b" "apps" "B" "10.8.0.3"; sample_peer "a" "vpn" "A" "10.8.0.2"] =
  desiredState sample_server "k" [sample_peer "a" "vpn" "A" "10.8.0.2"; sample_peer "b" "apps" "B" "10.8.0.3"].
Proof.
  apply desiredState_canonical.
  - exact (perm_swap _ _ []).
  - by_evaluation.
Defined.
