(* ===== verification/Resources.v ===== *)
(** * Owned resources ([internal/resources])

    The constants of the package and the builders of the Secret, the Service and
    the Deployment of a gateway. [ctrl.SetControllerReference] is third-party
    code: a parameter of the builders, which may fail and otherwise changes the
    owner references only. *)

From S2P Require Import Prelude GoStd Api.

(** ** Constants *)

Definition EgressInterface : string := "tun0".
Definition WgInterface : string := "wg0".
Definition TunnelMTU : Z := 1320.
Definition Keepalive : Z := 25 * 1000000000.
Definition GluetunHealthAddress : string := "127.0.0.1:9999".
Definition GluetunImage : string :=
  "ghcr.io/qdm12/gluetun:v3.41.3@sha256:fa19cc76b2af13d57a8d3dc3066f2ada061b1c761b8aecf989b3877c0486e027".
Definition gluetunRuleTable : Z := 51820.
Definition PeerTable : Z := 51821.
Definition PeerRulePref : Z := 90.
Definition BlackholeTable : Z := 51822.
Definition BlackholePref : Z := 102.
Definition PeerProbeAddress : string := "192.0.2.1".
Definition WireguardPort : Z := 51820.
Definition HTTPPort : Z := 8080.
Definition UserspaceImplementation : string := "wireguard-go".

Definition LabelEnabled : string := "tunnel-operator.io/enabled".
Definition LabelComponent : string := "tunnel-operator.io/component".
Definition ComponentGateway : string := "gateway".
Definition SidecarContainer : string := "wg-client".
Definition AnnotationDefault : string := "tunnel-operator.io/default".
Definition LabelManagedBy : string := "app.kubernetes.io/managed-by".
Definition ManagedByValue : string := "tunnel-operator".
Definition VolumeKey : string := "wg-key".
Definition VolumeToken : string := "wg-token".
Definition ClientRoleName : string := "tunnel-operator-client".

(** [ReservedGluetunEnv] *)
Definition env (n v : string) : EnvVar := {| ev_Name := n; ev_Value := v; ev_FieldRef := None |}.

Definition ReservedGluetunEnv (localCIDRs : list string) : list EnvVar := [
  env "VPN_TYPE" "wireguard";
  env "VPN_INTERFACE" EgressInterface;
  env "FIREWALL_ENABLED_DISABLING_IT_SHOOTS_YOU_IN_YOUR_FOOT" "on";
  env "FIREWALL_INPUT_PORTS" (Itoa WireguardPort +:+ "," +:+ Itoa HTTPPort);
  env "FIREWALL_OUTBOUND_SUBNETS" (join "," localCIDRs);
  env "HEALTH_SERVER_ADDRESS" GluetunHealthAddress;
  env "WIREGUARD_MTU" (Itoa TunnelMTU)
].

(** ** Kubernetes objects the builders render *)

Record SecurityContext := {
  sc_Privileged : option bool;
  sc_ReadOnlyRootFilesystem : option bool;
  sc_AllowPrivilegeEscalation : option bool;
  sc_CapabilitiesAdd : list string;
}.

Inductive ProbeHandler :=
  | HTTPGet (port : Z) (path : string)
  | TCPSocket (port : Z)
  | Exec (command : list string).

Record Probe := {
  pr_Handler : ProbeHandler;
  pr_TimeoutSeconds : Z;
  pr_PeriodSeconds : Z;
  pr_FailureThreshold : Z;
}.

Record ContainerPort := { cp_Name : string; cp_ContainerPort : Z; cp_Protocol : string }.

Record VolumeMount := { vm_Name : string; vm_MountPath : string; vm_ReadOnly : bool }.

Record Container := {
  co_Name : string;
  co_Image : string;
  co_ImagePullPolicy : string;
  co_RestartPolicy : option string;
  co_Command : list string;
  co_Args : list string;
  co_Env : list EnvVar;
  co_EnvFrom : list EnvFromSource;
  co_Resources : ResourceRequirements;
  co_Ports : list ContainerPort;
  co_VolumeMounts : list VolumeMount;
  co_SecurityContext : SecurityContext;
  co_ReadinessProbe : option Probe;
  co_LivenessProbe : option Probe;
  co_StartupProbe : option Probe;
  co_PostStart : option (list string);  (* Lifecycle.PostStart.Exec.Command *)
}.

Inductive VolumeProjection :=
  | ProjectedToken (path : string)
  | ProjectedConfigMap (name key path : string)
  | ProjectedDownward (path field : string).

Inductive VolumeSource :=
  | EmptyDir (medium : string)
  | SecretVolume (secretName : string)
  | Projected (sources : list VolumeProjection).

Record Volume := { v_Name : string; v_Source : VolumeSource }.

Record PodSpec := {
  po_NodeSelector : gmap string string;
  po_Tolerations : list Toleration;
  po_SeccompProfile : string;
  po_AutomountServiceAccountToken : option bool;
  po_Volumes : list Volume;
  po_InitContainers : list Container;
  po_Containers : list Container;
}.

Record DeploymentSpec := {
  ds_Replicas : option Z;
  ds_StrategyType : string;
  ds_RollingUpdate : bool;  (* spec.strategy.rollingUpdate is set *)
  ds_Selector : gmap string string;
  ds_TemplateLabels : gmap string string;
  ds_Template : PodSpec;
}.

Record DeploymentStatus := {
  dst_ObservedGeneration : Z;
  dst_ReadyReplicas : Z;
  dst_UpdatedReplicas : Z;
}.

Record Deployment := {
  dep_meta : ObjectMeta;
  dep_Spec : DeploymentSpec;
  dep_Status : DeploymentStatus;
}.

Record ServicePort := { sp_Name : string; sp_Protocol : string; sp_Port : Z; sp_TargetPort : Z }.

Record Service := {
  svc_meta : ObjectMeta;
  svc_Selector : gmap string string;
  svc_Ports : list ServicePort;
  svc_Type : string;
  svc_ClusterIP : string;
}.

(** [corev1.Secret]: its data by key. *)
Record Secret := { sec_meta : ObjectMeta; sec_Data : gmap string string }.

(** [secret.Data[k]] as a string: a missing key reads as nil, the empty text. *)
Definition data (s : Secret) (k : string) : string := default "" (sec_Data s !! k).

(** ** Builders *)

(** [LabelsForWireguard] *)
Definition LabelsForWireguard (name : string) : gmap string string :=
  {[ "app" := "wireguard"; "instance" := name ]}.

Definition labelled_meta (name ns : string) (labels : gmap string string) : ObjectMeta :=
  {| Name := name; Namespace := ns; UID := ""; ResourceVersion := ""; Generation := 0;
     CreationTimestamp := 0; Labels := labels; Annotations := ∅; OwnerReferences := [] |}.

Definition set_owners (m : ObjectMeta) (o : list OwnerReference) : ObjectMeta :=
  {| Name := Name m; Namespace := Namespace m; UID := UID m; ResourceVersion := ResourceVersion m;
     Generation := Generation m; CreationTimestamp := CreationTimestamp m; Labels := Labels m;
     Annotations := Annotations m; OwnerReferences := o |}.

(** [sigs.k8s.io/controller-runtime]: [SetControllerReference(owner, obj, scheme)]
    gives the object's new owner references, or fails. *)
Class OwnerLib := {
  SetControllerReference : ObjectMeta → ObjectMeta → result (list OwnerReference);
}.

Section builders.
Context `{OwnerLib}.

(** [SetOwnerReference] *)
Definition SetOwnerReference (owner obj : ObjectMeta) : result ObjectMeta :=
  match SetControllerReference owner obj with
  | Ok o => Ok (set_owners obj o)
  | Err e => Err e
  end.

(** [SecretBuilder.ForWireguard] *)
Definition secret_ForWireguard (wg : Wireguard) (state privateKey publicKey : string)
    : result Secret :=
  let name := Name (wg_meta wg) in
  let m := labelled_meta name (Namespace (wg_meta wg)) (LabelsForWireguard name) in
  match SetOwnerReference (wg_meta wg) m with
  | Err e => Err e
  | Ok m =>
      Ok {| sec_meta := m;
            sec_Data := {[ "state.json" := state; "privateKey" := privateKey;
                           "publicKey" := publicKey ]} |}
  end.

(** [ServiceBuilder.ForWireguard] *)
Definition service_ForWireguard (wg : Wireguard) : result Service :=
  let name := Name (wg_meta wg) in
  let labels := LabelsForWireguard name in
  let m := labelled_meta (name +:+ "-svc") (Namespace (wg_meta wg)) labels in
  match SetOwnerReference (wg_meta wg) m with
  | Err e => Err e
  | Ok m =>
      Ok {| svc_meta := m;
            svc_Selector := labels;
            svc_Ports := [{| sp_Name := "wireguard"; sp_Protocol := "UDP";
                             sp_Port := WireguardPort; sp_TargetPort := WireguardPort |}];
            svc_Type := "ClusterIP";
            svc_ClusterIP := "" |}
  end.

(** [DeploymentBuilder]: the image and pull policy it was made with. *)
Context (agentImage agentImagePullPolicy : string).

(** [agentContainer] *)
Definition agentContainer (wg : Wireguard) (readOnlyRootFilesystem allowPrivilegeEscalation : bool)
    : Container := {|
  co_Name := "agent";
  co_Image := agentImage;
  co_ImagePullPolicy := agentImagePullPolicy;
  co_RestartPolicy := None;
  co_Command := ["agent"; "--v"; "11"; "--wg-iface"; WgInterface;
                 "--wg-listen-port"; Itoa WireguardPort;
                 "--state"; "/tmp/wireguard/state.json";
                 "--wg-userspace-implementation-fallback"; UserspaceImplementation];
  co_Args := [];
  co_Env := [];
  co_EnvFrom := [];
  co_Resources := Agent (wg_Spec wg);
  co_Ports := [{| cp_Name := "wireguard"; cp_ContainerPort := WireguardPort; cp_Protocol := "UDP" |};
               {| cp_Name := "http"; cp_ContainerPort := HTTPPort; cp_Protocol := "TCP" |}];
  co_VolumeMounts := [{| vm_Name := "socket"; vm_MountPath := "/var/run/wireguard/"; vm_ReadOnly := false |};
                      {| vm_Name := "config"; vm_MountPath := "/tmp/wireguard/"; vm_ReadOnly := false |}];
  co_SecurityContext := {| sc_Privileged := None;
                           sc_ReadOnlyRootFilesystem := Some readOnlyRootFilesystem;
                           sc_AllowPrivilegeEscalation := Some allowPrivilegeEscalation;
                           sc_CapabilitiesAdd := ["NET_ADMIN"] |};
  co_ReadinessProbe := Some {| pr_Handler := HTTPGet HTTPPort "/health"; pr_TimeoutSeconds := 5;
                               pr_PeriodSeconds := 0; pr_FailureThreshold := 0 |};
  co_LivenessProbe := Some {| pr_Handler := TCPSocket HTTPPort; pr_TimeoutSeconds := 0;
                              pr_PeriodSeconds := 5; pr_FailureThreshold := 0 |};
  co_StartupProbe := None;
  co_PostStart := None;
|}.

(** [gluetunContainer] *)
Definition gluetunContainer (wg : Wireguard) : Container := {|
  co_Name := "gluetun";
  co_Image := GluetunImage;
  co_ImagePullPolicy := "";
  co_RestartPolicy := None;
  co_Command := [];
  co_Args := [];
  co_Env := ReservedGluetunEnv (LocalCIDRs (wg_Spec wg)) ++ g_Env (Gluetun (wg_Spec wg));
  co_EnvFrom := g_EnvFrom (Gluetun (wg_Spec wg));
  co_Resources := g_Resources (Gluetun (wg_Spec wg));
  co_Ports := [];
  co_VolumeMounts := [];
  co_SecurityContext := {| sc_Privileged := None; sc_ReadOnlyRootFilesystem := None;
                           sc_AllowPrivilegeEscalation := None;
                           sc_CapabilitiesAdd := ["NET_ADMIN"] |};
  co_ReadinessProbe := None;
  co_LivenessProbe := None;
  co_StartupProbe := None;
  co_PostStart := Some ["/bin/sh"; "-c";
    "(ip rule del table " +:+ Itoa gluetunRuleTable +:+ "; ip -6 rule del table " +:+
    Itoa gluetunRuleTable +:+ ") || true"];
|}.

(** [ipForwardInitContainer] *)
Definition ipForwardInitContainer : Container := {|
  co_Name := "sysctl";
  co_Image := agentImage;
  co_ImagePullPolicy := agentImagePullPolicy;
  co_RestartPolicy := None;
  co_Command := ["/bin/sh"];
  co_Args := ["-c"; "echo 1 > /proc/sys/net/ipv4/ip_forward"];
  co_Env := [];
  co_EnvFrom := [];
  co_Resources := noResources;
  co_Ports := [];
  co_VolumeMounts := [];
  co_SecurityContext := {| sc_Privileged := Some true; sc_ReadOnlyRootFilesystem := None;
                           sc_AllowPrivilegeEscalation := None; sc_CapabilitiesAdd := [] |};
  co_ReadinessProbe := None;
  co_LivenessProbe := None;
  co_StartupProbe := None;
  co_PostStart := None;
|}.

(** [DeploymentBuilder.ForWireguard] *)
Definition deployment_ForWireguard (wg : Wireguard) : result Deployment :=
  let name := Name (wg_meta wg) in
  let ls := LabelsForWireguard name in
  let podLabels := <[LabelComponent := ComponentGateway]> ls in
  let m := labelled_meta (name +:+ "-dep") (Namespace (wg_meta wg)) ls in
  match SetOwnerReference (wg_meta wg) m with
  | Err e => Err e
  | Ok m =>
      Ok {| dep_meta := m;
            dep_Spec := {|
              ds_Replicas := Some 1;
              ds_StrategyType := "Recreate";
              ds_RollingUpdate := false;
              ds_Selector := ls;
              ds_TemplateLabels := podLabels;
              ds_Template := {|
                po_NodeSelector := NodeSelector (wg_Spec wg);
                po_Tolerations := Tolerations (wg_Spec wg);
                po_SeccompProfile := "RuntimeDefault";
                po_AutomountServiceAccountToken := Some false;
                po_Volumes := [{| v_Name := "socket"; v_Source := EmptyDir "" |};
                               {| v_Name := "config"; v_Source := SecretVolume name |}];
                po_InitContainers := [ipForwardInitContainer];
                po_Containers := [agentContainer wg true false; gluetunContainer wg];
              |};
            |};
            dep_Status := {| dst_ObservedGeneration := 0; dst_ReadyReplicas := 0;
                             dst_UpdatedReplicas := 0 |} |}
  end.
End builders.
