(* ===== verification/Gateway.v ===== *)
(** * Gateway validation ([internal/controller/gateway.go])

    The checks a [Wireguard]'s spec must pass before it is rendered, and the
    test of a Deployment's rollout. *)

From S2P Require Import Prelude GoStd Netip NetipFacts Api Ipam AgentState Peers Resources.

Definition ReasonInvalidPeerCIDR : string := "InvalidPeerCIDR".
Definition ReasonProbeAddressInPeerCIDR : string := "ProbeAddressInPeerCIDR".
Definition ReasonInvalidLocalCIDRs : string := "InvalidLocalCIDRs".
Definition ReasonPeerCIDROverlapsLocalCIDRs : string := "PeerCIDROverlapsLocalCIDRs".
Definition ReasonProbeAddressInLocalCIDRs : string := "ProbeAddressInLocalCIDRs".
Definition ReasonClusterIPOutsideLocalCIDRs : string := "ClusterIPOutsideLocalCIDRs".
Definition ReasonReservedGluetunEnv : string := "ReservedGluetunEnv".
Definition ReasonDeploymentNotReady : string := "DeploymentNotReady".

(** [p, _ := netip.ParsePrefix(s)]: the zero Prefix when [s] does not parse. *)
Definition parsed (s : string) : Prefix :=
  match ParsePrefix s with Ok p => p | Err _ => zeroPrefix end.

(** The loop of [validateLocalCIDRs] from index [i]. *)
Fixpoint validateLocalCIDRs_from (i : Z) (cidrs : list string) : option error :=
  match cidrs with
  | [] => None
  | c :: cidrs' =>
      let entry := "localCIDRs[" +:+ Itoa i +:+ "] " +:+ Quote c in
      match ParsePrefix c with
      | Err e => Some (wrapf (entry +:+ " is not a CIDR: ") e)
      | Ok p =>
          if negb (Is4 (p_ip p)) then Some (errors_New (entry +:+ " is not an IPv4 prefix"))
          else if decide (p ≠ Masked p) then
            Some (errors_New (entry +:+ " has host bits set; use " +:+ prefix_String (Masked p)))
          else validateLocalCIDRs_from (i + 1) cidrs'
      end
  end.

(** [validateLocalCIDRs]; [None] is a nil error. *)
Definition validateLocalCIDRs (cidrs : list string) : option error := validateLocalCIDRs_from 0 cidrs.

Fixpoint peerCIDROverlap_from (i : Z) (peerCIDR : string) (localCIDRs : list string) : option error :=
  match localCIDRs with
  | [] => None
  | c :: localCIDRs' =>
      if Overlaps (parsed peerCIDR) (parsed c) then
        Some (errors_New ("peerCIDR " +:+ peerCIDR +:+ " overlaps localCIDRs[" +:+ Itoa i +:+ "] " +:+
                          c +:+ "; peer addresses must lie outside the cluster's networks"))
      else peerCIDROverlap_from (i + 1) peerCIDR localCIDRs'
  end.

(** [peerCIDROverlap] *)
Definition peerCIDROverlap (peerCIDR : string) (localCIDRs : list string) : option error :=
  peerCIDROverlap_from 0 peerCIDR localCIDRs.

(** [probeAddr]: [netip.MustParseAddr(resources.PeerProbeAddress)] *)
Definition probeAddr : Addr :=
  match ParseAddr PeerProbeAddress with Ok a => a | Err _ => zeroAddr end.

Definition probe_text : string :=
  ", the address the gateway's readiness check routes through the tunnel; it is reserved for documentation (RFC 5737), so ".

Fixpoint probeAddressInLocalCIDRs_from (i : Z) (localCIDRs : list string) : option error :=
  match localCIDRs with
  | [] => None
  | c :: localCIDRs' =>
      if Contains (parsed c) probeAddr then
        Some (errors_New ("localCIDRs[" +:+ Itoa i +:+ "] " +:+ c +:+ " contains " +:+ PeerProbeAddress +:+
                          probe_text +:+ "no cluster network should hold it"))
      else probeAddressInLocalCIDRs_from (i + 1) localCIDRs'
  end.

(** [probeAddressInLocalCIDRs] *)
Definition probeAddressInLocalCIDRs (localCIDRs : list string) : option error :=
  probeAddressInLocalCIDRs_from 0 localCIDRs.

(** [probeAddressInPeerCIDR] *)
Definition probeAddressInPeerCIDR (peerCIDR : string) : option error :=
  if Contains (parsed peerCIDR) probeAddr then
    Some (errors_New ("peerCIDR " +:+ peerCIDR +:+ " contains " +:+ PeerProbeAddress +:+ probe_text +:+
                      "choose a peer range that does not hold it"))
  else None.

(** [clusterIPOutside] *)
Definition clusterIPOutside (service clusterIP : string) (localCIDRs : list string) : option error :=
  let inside :=
    match ParseAddr clusterIP with
    | Err _ => false
    | Ok ip =>
        existsb (λ c, match ParsePrefix c with Ok p => Contains p ip | Err _ => false end) localCIDRs
    end in
  if inside then None
  else Some (errors_New ("Service " +:+ service +:+ " has ClusterIP " +:+ clusterIP +:+
    ", which is in no localCIDRs entry; add the cluster's Service CIDR to localCIDRs")).

(** [isReservedGluetunEnv] *)
Definition isReservedGluetunEnv (name : string) : bool :=
  existsb (λ e, bool_decide (ev_Name e = name)) (ReservedGluetunEnv []).

(** [reservedInEnv] *)
Fixpoint reservedInEnv (env : list EnvVar) : string :=
  match env with
  | [] => ""
  | e :: env' => if isReservedGluetunEnv (ev_Name e) then ev_Name e else reservedInEnv env'
  end.

Definition string_le (a b : string) : Prop := compare_string a b ≠ Gt.

#[export] Instance string_le_dec : RelDecision string_le.
Proof. intros a b. unfold string_le. apply _. Defined.

#[export] Instance string_le_trans : Transitive string_le.
Proof.
  intros a b c. unfold string_le. intros H1 H2 H3.
  destruct (compare_string a b) eqn:E1; [|..|done].
  - apply compare_string_eq in E1. by rewrite E1 in H3.
  - destruct (compare_string b c) eqn:E2; [| |done].
    + apply compare_string_eq in E2. rewrite <- E2 in H3. congruence.
    + pose proof (compare_string_lt_trans _ _ _ E1 E2). congruence.
Qed.

#[export] Instance string_le_total : Total string_le.
Proof.
  intros a b. unfold string_le. rewrite (compare_string_antisym a b). destruct (compare_string a b); cbn; auto.
Qed.

#[export] Instance string_le_antisymm : AntiSymm (=) string_le.
Proof.
  intros a b. unfold string_le. rewrite (compare_string_antisym a b).
  destruct (compare_string a b) eqn:E; cbn; [|done..]. intros _ _. by apply compare_string_eq.
Qed.

Fixpoint reservedInKeys_sorted (prefix : string) (keys : list string) : string :=
  match keys with
  | [] => ""
  | k :: keys' =>
      if isReservedGluetunEnv (prefix +:+ k) then prefix +:+ k else reservedInKeys_sorted prefix keys'
  end.

(** [reservedInKeys]: the keys in sorted order. *)
Definition reservedInKeys (prefix : string) (keys : list string) : string :=
  reservedInKeys_sorted prefix (merge_sort string_le keys).

(** [rolloutProblem] *)
Definition rolloutProblem (dep : Deployment) : string :=
  let st := dep_Status dep in
  let name := Name (dep_meta dep) in
  if dst_ObservedGeneration st <? Generation (dep_meta dep) then
    "Deployment " +:+ name +:+ " is not rolled out: generation " +:+ Itoa (Generation (dep_meta dep)) +:+
    " not yet observed"
  else
    let want := default 1 (ds_Replicas (dep_Spec dep)) in
    let ready := dst_ReadyReplicas st in
    let updated := dst_UpdatedReplicas st in
    if negb (ready =? want) || negb (updated =? want) then
      "Deployment " +:+ name +:+ " is not rolled out: " +:+ Itoa ready +:+ "/" +:+ Itoa want +:+
      " ready, " +:+ Itoa updated +:+ "/" +:+ Itoa want +:+ " updated"
    else "".
