(* ===== verification/Controller.v ===== *)
(** * The Wireguard controller ([internal/controller/wireguard_controller.go],
    [apply.go])

    Every method of [WireguardReconciler] that reads or writes the cluster, as a
    program over the API operations [KOp]. The API server, the clock and the
    random source answer them; nothing is assumed of the answers here. *)

From S2P Require Import Prelude GoStd Netip Effects Api External Ipam AgentState Peers Resources Gateway.

#[local] Open Scope prog_scope.

(** ** The API *)

(** [apiutil], [csaupgrade] and the unstructured converter: what [applyOwned]
    calls of them. A [Live] object is what the migration reads of the stored
    one, its [managedFields] and [resourceVersion]. *)
Class ApplyLib := {
  Unstructured : Type;
  Live : Type;
  UpgradeManagedFieldsPatch : Live → list string → string → result (option string);
}.

(** An object type the operator applies. *)
Class OwnedObject `{ApplyLib} (T : Type) := {
  GoType : string;  (* what the verb %T prints *)
  obj_meta : T → ObjectMeta;
  GVKForObject : T → result string;  (* the Kind *)
  ToUnstructured : T → result Unstructured;
  FromUnstructured : Unstructured → T → result T;
}.

(** [corev1.Pod]: its metadata, all the controller reads and changes of it. *)
Record Pod := { pod_meta : ObjectMeta }.

(** The requests the controller makes. [NowFormat layout] is
    [time.Now().Format(layout)]. *)
Inductive KOp `{WgTypes, ApplyLib} : Type :=
  | GetWireguard (k : NamespacedName)
  | GetSecret (k : NamespacedName)
  | GetDeployment (k : NamespacedName)
  | GetLive (kind : string) (k : NamespacedName)
  | ListPeers
  | UpdatePeerStatus (p : WireguardPeer)
  | UpdateWireguardStatus (w : Wireguard)
  | UpdateSecret (s : Secret)
  | CreateSecret (s : Secret)
  | ListPods (namespace : string) (labels : gmap string string)
  | UpdatePod (p : Pod)
  | PatchLive (l : Live) (jsonPatch : string)
  | PatchDeployment (d : Deployment) (mergePatch : string)
  | Apply (u : Unstructured) (fieldOwner : string) (force : bool)
  | GeneratePrivateKey
  | Now
  | NowFormat (layout : string).

(** Their responses; a write that only reports success or failure gives
    [option error], [None] being nil. A successful status update or apply also
    gives the object the server returns. *)
Definition KRes `{WgTypes, ApplyLib} (o : KOp) : Type :=
  match o with
  | GetWireguard _ => result Wireguard
  | GetSecret _ => result Secret
  | GetDeployment _ => result Deployment
  | GetLive _ _ => result Live
  | ListPeers => result (list WireguardPeer)
  | UpdatePeerStatus _ => result WireguardPeer
  | ListPods _ _ => result (list Pod)
  | Apply _ _ _ => result Unstructured
  | GeneratePrivateKey => result Key
  | Now => Z
  | NowFormat _ => string
  | _ => option error
  end.

Definition FieldManager : string := "tunnel-operator".
Definition legacyFieldManagers : list string := ["manager"].

Record serverIdentity := { id_Endpoint : string; id_PublicKey : string }.

(** [metav1.Condition{Type: ty, Status: st, Reason: r, Message: m, ObservedGeneration: g}] *)
Definition condition (ty st r m : string) (g : Z) : Condition :=
  {| c_Type := ty; c_Status := st; c_ObservedGeneration := g; c_LastTransitionTime := 0;
     c_Reason := r; c_Message := m |}.

(** [effectivePeerCIDR4] *)
Definition effectivePeerCIDR4 (wg : Wireguard) : string :=
  if decide (PeerCIDR (wg_Spec wg) ≠ "") then PeerCIDR (wg_Spec wg) else DefaultPeerCIDR4.

(** [peer.Status] with its readiness fields or its identity fields replaced. *)
Definition set_readiness (s : WireguardPeerStatus) (st msg : string) (cs : list Condition)
    : WireguardPeerStatus :=
  {| ps_Status := st; ps_Message := msg; ps_Address := ps_Address s; ps_Endpoint := ps_Endpoint s;
     ps_ServerPublicKey := ps_ServerPublicKey s; ps_LocalCIDRs := ps_LocalCIDRs s;
     ps_Conditions := cs |}.

Definition set_identity (s : WireguardPeerStatus) (id : serverIdentity) (local : list string)
    : WireguardPeerStatus :=
  {| ps_Status := ps_Status s; ps_Message := ps_Message s; ps_Address := ps_Address s;
     ps_Endpoint := id_Endpoint id; ps_ServerPublicKey := id_PublicKey id; ps_LocalCIDRs := local;
     ps_Conditions := ps_Conditions s |}.

Section controller.
Context `{WgTypes, ConditionLib, Ipnetgen, OwnerLib, ApplyLib}.
Context `{!OwnedObject Service, !OwnedObject Deployment, !agent.StateCodec}.
Context (AgentImage AgentImagePullPolicy : string).

Abbreviation M := (prog KRes).

(** ** Peers *)

(** [getWireguardPeers] *)
Definition getWireguardPeers (req : NamespacedName) : M (result (list WireguardPeer)) :=
  peers <-? perform ListPeers ;;
  Ret (Ok (filter (λ peer, gatewayKey peer = req) peers)).

(** What [admittedKeys] makes of the peers of a state: a later one of a key
    overwrites an earlier one. *)
Definition state_keys (peers : list WireguardPeer) : gmap NamespacedName string :=
  foldl (λ keys p, <[key_of (wp_meta p) := peer_Key p]> keys) ∅ peers.

(** [admittedKeys] *)
Definition admittedKeys (wg : Wireguard) : M (result (gmap NamespacedName string)) :=
  r <- perform (GetSecret (key_of (wg_meta wg))) ;;
  match r with
  | Err e => Ret (if errors_Is e NotFound then Ok ∅ else Err e)
  | Ok secret =>
      match agent.Unmarshal (data secret "state.json") with
      | Err _ => Ret (Ok ∅)
      | Ok state => Ret (Ok (state_keys (agent.Peers state)))
      end
  end.

(** [markPeerNotReady] *)
Definition markPeerNotReady (peer : WireguardPeer) (nr : notReady) : M (option error) :=
  if peerStatusMatches peer nr then Ret None
  else
    now <- perform Now ;;
    let cs := SetStatusCondition now (ps_Conditions (wp_Status peer))
                (condition ConditionReady ConditionFalse (nr_Reason nr) (nr_ConditionMessage nr)
                   (Generation (wp_meta peer))) in
    let st := {| ps_Status := nr_Status nr; ps_Message := nr_Message nr; ps_Address := "";
                 ps_Endpoint := ""; ps_ServerPublicKey := ""; ps_LocalCIDRs := [];
                 ps_Conditions := cs |} in
    r <- perform (UpdatePeerStatus (set_peer_Status peer st)) ;;
    match r with
    | Ok _ => Ret None
    | Err e => if errors_Is e Invalid then Ret None else Ret (Some e)
    end.

(** [err != nil && !skipPeerWrite(err)] ends the caller with the error. *)
Definition unless_skipped (p : M (option error)) : M (result unit) :=
  r <- p ;;
  match r with
  | Some e => if skipPeerWrite e then Ret (Ok ()) else Ret (Err e)
  | None => Ret (Ok ())
  end.

(** [admitPeers] *)
Definition admitPeers (wg : Wireguard) (peers : list WireguardPeer)
    : M (result (list WireguardPeer)) :=
  loopE (λ admitted peer,
    let problem := match namespaceNotAllowed wg peer with
                   | Some nr => Some nr
                   | None => admissionProblem peer
                   end in
    match problem with
    | None => Ret (Ok (admitted ++ [peer]))
    | Some nr => _ <-? unless_skipped (markPeerNotReady peer nr) ;; Ret (Ok admitted)
    end) peers [].

(** [releaseLosers] *)
Definition releaseLosers (losers : list conflictLoser) (conflict : conflictLoser → notReady)
    : M (result unit) :=
  loopE (λ _ l, unless_skipped (markPeerNotReady (cl_Peer l) (conflict l))) losers ().

(** The status write of [allocatePeers] that readies a peer. *)
Definition readied (peer : WireguardPeer) : WireguardPeer :=
  let s := wp_Status peer in
  set_peer_Status peer
    (set_readiness s v1alpha1.Ready "Peer configured"
       (RemoveStatusCondition (ps_Conditions s) ConditionReady)).

(** The end of one turn of the loop of [allocatePeers]: ready the peer. *)
Definition readyPeer (isNew : bool) (peer : WireguardPeer) (used : list string)
    (allocated : list WireguardPeer) : M (result (list string * list WireguardPeer)) :=
  r <- perform (UpdatePeerStatus (readied peer)) ;;
  match r with
  | Ok written => Ret (Ok (used, allocated ++ [written]))
  | Err e =>
      if negb (skipPeerWrite e) then Ret (Err e)
      else if negb isNew then Ret (Ok (used, allocated ++ [readied peer]))
      else Ret (Ok (used, allocated))
  end.

(** One turn of the loop of [allocatePeers]. *)
Definition allocatePeer (cidr4 : string) (acc : list string * list WireguardPeer)
    (peer : WireguardPeer) : M (result (list string * list WireguardPeer)) :=
  let '(used, allocated) := acc in
  if decide (peer_Address peer = "") then
    match AllocateIP cidr4 used with
    | Err _ =>
        _ <-? unless_skipped (markPeerNotReady peer (addressPoolExhausted cidr4)) ;;
        Ret (Ok (used, allocated))
    | Ok ip => readyPeer true (set_Address peer ip) (used ++ [ip]) allocated
    end
  else if bool_decide (ps_Status (wp_Status peer) = v1alpha1.Ready) &&
          bool_decide (FindStatusCondition (ps_Conditions (wp_Status peer)) ConditionReady = None)
  then Ret (Ok (used, allocated ++ [peer]))
  else readyPeer false peer used allocated.

(** [allocatePeers] *)
Definition allocatePeers (cidr4 : string) (peers : list WireguardPeer)
    : M (result (list WireguardPeer)) :=
  acc <-? loopE (allocatePeer cidr4) peers (GetUsedIPs cidr4 peers, []) ;;
  Ret (Ok acc.2).

(** The loop of [reconcilePeers] that clears unusable addresses. *)
Definition clearUnusable (cidr4 : string) (peer : WireguardPeer) : WireguardPeer :=
  if bool_decide (peer_Address peer ≠ "") && negb (addressUsable (peer_Address peer) cidr4)
  then set_Address peer "" else peer.

(** [reconcilePeers] *)
Definition reconcilePeers (req : NamespacedName) (wg : Wireguard)
    : M (result (list WireguardPeer)) :=
  current <-? admittedKeys wg ;;
  peers <-? getWireguardPeers req ;;
  admitted <-? admitPeers wg peers ;;
  let '(admitted, keyLosers) := dedupePublicKeys admitted current in
  _ <-? releaseLosers keyLosers (λ l, publicKeyConflict (cl_Winner l)) ;;
  let cidr4 := effectivePeerCIDR4 wg in
  let admitted := clearUnusable cidr4 <$> admitted in
  let '(keep, losers) := dedupeAddresses admitted in
  _ <-? releaseLosers losers (λ l, addressConflict (peer_Address (cl_Peer l)) (cl_Winner l)) ;;
  allocatePeers cidr4 keep.

(** [syncPeerIdentity] *)
Definition syncPeerIdentity (wg : Wireguard) (id : serverIdentity) (peers : list WireguardPeer)
    : M (result unit) :=
  loopE (λ _ peer,
    let s := wp_Status peer in
    let local := LocalCIDRs (wg_Spec wg) in
    if bool_decide (ps_Endpoint s = id_Endpoint id) &&
       bool_decide (ps_ServerPublicKey s = id_PublicKey id) &&
       bool_decide (ps_LocalCIDRs s = local)
    then Ret (Ok ())
    else
      r <- perform (UpdatePeerStatus (set_peer_Status peer (set_identity s id local))) ;;
      match r with
      | Ok _ => Ret (Ok ())
      | Err e => if skipPeerWrite e then Ret (Ok ()) else Ret (Err e)
      end) peers ().

(** The error of a call that gives nothing else. *)
Definition error_of (r : result unit) : option error :=
  match r with Ok _ => None | Err e => Some e end.

(** [markPeersWireguardNotFound] *)
Definition markPeersWireguardNotFound (req : NamespacedName) : M (option error) :=
  r <- (peers <-? getWireguardPeers req ;;
        let nr := wireguardNotFound (nn_Name req) (nn_Namespace req) in
        loopE (λ _ peer, unless_skipped (markPeerNotReady peer nr)) peers ()) ;;
  Ret (error_of r).

(** ** Status *)

(** What [updateStatus] writes over the status it read: [cond] with the
    generation of [wg], Degraded cleared by a Ready condition, the summary
    fields and, when given, the identity. [now] and [now'] are the times
    [SetStatusCondition] may read. *)
Definition statusWith (cond : Condition) (identity : option serverIdentity) (now now' : Z)
    (s : WireguardStatus) : WireguardStatus :=
  let cs := SetStatusCondition now (ws_Conditions s) cond in
  let cs := if decide (c_Type cond = ConditionReady) then
              SetStatusCondition now' cs
                (condition ConditionDegraded ConditionFalse "Reconciled"
                   "All owned resources applied" (c_ObservedGeneration cond))
            else cs in
  let summary :=
    if decide (c_Type cond = ConditionReady) then
      (if decide (c_Status cond = ConditionTrue) then v1alpha1.Ready else v1alpha1.Pending)
    else if decide (c_Type cond = ConditionDegraded) then v1alpha1.Error
    else v1alpha1.Pending in
  {| ws_Status := summary;
     ws_Message := c_Message cond;
     ws_Endpoint := match identity with Some i => id_Endpoint i | None => ws_Endpoint s end;
     ws_PublicKey := match identity with Some i => id_PublicKey i | None => ws_PublicKey s end;
     ws_Conditions := cs |}.

(** [updateStatus] *)
Definition updateStatus (wg : Wireguard) (cond : Condition) (identity : option serverIdentity)
    : M (option error) :=
  r <- perform (GetWireguard (key_of (wg_meta wg))) ;;
  match r with
  | Err e => Ret (if errors_Is e NotFound then None else Some e)
  | Ok latest =>
      cond <- (if c_LastTransitionTime cond =? 0
               then now <- perform Now ;; Ret (with_transition now cond)
               else Ret cond) ;;
      let cond := with_generation (Generation (wg_meta wg)) cond in
      now <- perform Now ;;
      now' <- perform Now ;;
      let written := {| wg_meta := wg_meta latest; wg_Spec := wg_Spec latest;
                        wg_Status := statusWith cond identity now now' (wg_Status latest) |} in
      w <- perform (UpdateWireguardStatus written) ;;
      match w with
      | Some e => Ret (if errors_Is e NotFound || errors_Is e Conflict then None else Some e)
      | None => Ret None
      end
  end.

(** [failDegraded]; a [ctrl.Result] is its [RequeueAfter]. *)
Definition failDegraded (wg : Wireguard) (err : error) (reason : string) : M (Z * option error) :=
  _ <- updateStatus wg (condition ConditionDegraded ConditionTrue reason (err_text err) 0) None ;;
  Ret (0, Some err).

(** ** Owned objects *)

(** [applyOwned]; on success the object the server returned. *)
Definition applyOwned {T} `{!OwnedObject T} (obj : T) : M (result T) :=
  match GVKForObject obj with
  | Err e => Ret (Err (wrapf ("resolve GVK for " +:+ GoType (T := T) +:+ ": ") e))
  | Ok kind =>
      let key := key_of (obj_meta obj) in
      let at_key := kind +:+ " " +:+ nn_String key in
      _ <-? (r <- perform (GetLive kind key) ;;
             match r with
             | Err e =>
                 if errors_Is e NotFound then Ret (Ok ())
                 else Ret (Err (wrapf ("read " +:+ at_key +:+ " for field-manager migration: ") e))
             | Ok live =>
                 match UpgradeManagedFieldsPatch live legacyFieldManagers FieldManager with
                 | Err e =>
                     Ret (Err (wrapf ("compute field-manager migration for " +:+ at_key +:+ ": ") e))
                 | Ok None => Ret (Ok ())
                 | Ok (Some patch) =>
                     w <- perform (PatchLive live patch) ;;
                     match w with
                     | Some e => Ret (Err (wrapf ("migrate field managers on " +:+ at_key +:+ ": ") e))
                     | None => Ret (Ok ())
                     end
                 end
             end) ;;
      match ToUnstructured obj with
      | Err e => Ret (Err (wrapf ("convert " +:+ at_key +:+ ": ") e))
      | Ok u =>
          a <- perform (Apply u FieldManager true) ;;
          match a with
          | Err e => Ret (Err (wrapf ("apply " +:+ at_key +:+ ": ") e))
          | Ok u' =>
              match FromUnstructured u' obj with
              | Err e => Ret (Err (wrapf ("decode applied " +:+ at_key +:+ ": ") e))
              | Ok obj' => Ret (Ok obj')
              end
          end
      end
  end.

Definition clearRollingUpdate : string :=
  "{" +:+ Quote "spec" +:+ ":{" +:+ Quote "strategy" +:+ ":{" +:+ Quote "type" +:+ ":" +:+
  Quote "Recreate" +:+ "," +:+ Quote "rollingUpdate" +:+ ":null}}}".

(** [applyDeployment] *)
Definition applyDeployment (dep : Deployment) : M (result Deployment) :=
  let key := key_of (dep_meta dep) in
  r <- perform (GetDeployment key) ;;
  _ <-? match r with
        | Err e =>
            if errors_Is e NotFound then Ret (Ok ())
            else Ret (Err (wrapf ("read Deployment " +:+ nn_String key +:+
                                  " for the strategy migration: ") e))
        | Ok live =>
            if ds_RollingUpdate (dep_Spec live) then
              w <- perform (PatchDeployment live clearRollingUpdate) ;;
              match w with
              | Some e => Ret (Err (wrapf ("clear rollingUpdate on Deployment " +:+ nn_String key +:+ ": ") e))
              | None => Ret (Ok ())
              end
            else Ret (Ok ())
        end ;;
  applyOwned dep.

(** ** The spec *)

(** The loop of [specProblem] over [spec.gluetun.envFrom], from index [i]. *)
Fixpoint envFromProblem (namespace : string) (i : Z) (srcs : list EnvFromSource)
    : M (result (string * string)) :=
  match srcs with
  | [] => Ret (Ok ("", ""))
  | src :: srcs' =>
      match ef_SecretRef src with
      | None => envFromProblem namespace (i + 1) srcs'
      | Some name =>
          r <- perform (GetSecret (NN namespace name)) ;;
          match r with
          | Err e =>
              if errors_Is e NotFound then envFromProblem namespace (i + 1) srcs'
              else Ret (Err (wrapf ("read Secret " +:+ name +:+ " referenced by spec.gluetun.envFrom[" +:+
                                    Itoa i +:+ "]: ") e))
          | Ok secret =>
              let found := reservedInKeys (ef_Prefix src) (map_to_list (sec_Data secret)).*1 in
              if decide (found ≠ "") then
                Ret (Ok (ReasonReservedGluetunEnv,
                         "Secret " +:+ name +:+ ", referenced by spec.gluetun.envFrom[" +:+ Itoa i +:+
                         "], sets " +:+ found +:+ ", which the operator renders"))
              else envFromProblem namespace (i + 1) srcs'
          end
      end
  end.

(** The checks of [specProblem] that read nothing: the reason and message of the
    first that fails. *)
Definition specProblem_pure (wg : Wireguard) : option (string * string) :=
  let s := wg_Spec wg in
  let cidr := effectivePeerCIDR4 wg in
  match validatePeerCIDR cidr with
  | Some e => Some (ReasonInvalidPeerCIDR, err_text e)
  | None =>
  match probeAddressInPeerCIDR cidr with
  | Some e => Some (ReasonProbeAddressInPeerCIDR, err_text e)
  | None =>
  match validateLocalCIDRs (LocalCIDRs s) with
  | Some e => Some (ReasonInvalidLocalCIDRs, err_text e)
  | None =>
  match peerCIDROverlap cidr (LocalCIDRs s) with
  | Some e => Some (ReasonPeerCIDROverlapsLocalCIDRs, err_text e)
  | None =>
  match probeAddressInLocalCIDRs (LocalCIDRs s) with
  | Some e => Some (ReasonProbeAddressInLocalCIDRs, err_text e)
  | None =>
  let name := reservedInEnv (g_Env (Gluetun s)) in
  if decide (name ≠ "") then
    Some (ReasonReservedGluetunEnv,
          "spec.gluetun.env sets " +:+ name +:+ ", which the operator renders")
  else None
  end end end end end.

(** [specProblem]: the reason and message, both empty when there is no problem. *)
Definition specProblem (wg : Wireguard) : M (result (string * string)) :=
  match specProblem_pure wg with
  | Some p => Ret (Ok p)
  | None => envFromProblem (Namespace (wg_meta wg)) 0 (g_EnvFrom (Gluetun (wg_Spec wg)))
  end.

(** ** Reconcile *)

Definition pod_with (k v : string) (p : Pod) : Pod :=
  let m := pod_meta p in
  {| pod_meta := {| Name := Name m; Namespace := Namespace m; UID := UID m;
       ResourceVersion := ResourceVersion m; Generation := Generation m;
       CreationTimestamp := CreationTimestamp m; Labels := Labels m;
       Annotations := <[k := v]> (Annotations m); OwnerReferences := OwnerReferences m |} |}.

(** The loop of [Reconcile] over the gateway's pods. *)
Definition touchPods (pods : list Pod) : M (result unit) :=
  loopE (λ _ pod,
    now <- perform (NowFormat "2006-01-02T15-04-05") ;;
    w <- perform (UpdatePod (pod_with "wgConfigLastUpdated" now pod)) ;;
    match w with
    | Some e => if errors_Is e Conflict then Ret (Ok ()) else Ret (Err e)
    | None => Ret (Ok ())
    end) pods ().

(** The branch of [Reconcile] for an existing Secret. *)
Definition refreshSecret (wg : Wireguard) (secret : Secret) (admitted : list WireguardPeer)
    : M (result unit) :=
  let privateKey := data secret "privateKey" in
  match agent.Marshal (desiredState wg privateKey admitted) with
  | Err e => Ret (Err e)
  | Ok b =>
      if decide (b = data secret "state.json") then Ret (Ok ())
      else
        match secret_ForWireguard wg b privateKey (data secret "publicKey") with
        | Err e => Ret (Err e)
        | Ok updated =>
            w <- perform (UpdateSecret updated) ;;
            match w with
            | Some e => Ret (Err e)
            | None =>
                pods <-? perform (ListPods (Namespace (wg_meta wg))
                           {[ "app" := "wireguard"; "instance" := Name (wg_meta wg) ]}) ;;
                touchPods pods
            end
        end
  end.

(** The branch of [Reconcile] for a Secret that does not exist yet. *)
Definition createSecret (wg : Wireguard) (admitted : list WireguardPeer) : M (result unit) :=
  key <-? perform GeneratePrivateKey ;;
  let privateKey := Key_String key in
  let publicKey := Key_String (Key_PublicKey key) in
  match agent.Marshal (desiredState wg privateKey admitted) with
  | Err e => Ret (Err e)
  | Ok b =>
      match secret_ForWireguard wg b privateKey publicKey with
      | Err e => Ret (Err e)
      | Ok secret =>
          w <- perform (CreateSecret secret) ;;
          match w with
          | Some e => Ret (Err e)
          | None => Ret (Ok ())
          end
      end
  end.

Definition minute : Z := 60 * 1000000000.

(** The end of [Reconcile]: the Deployment, the peers' identity, the status. *)
Definition reconcileDeployment (wg : Wireguard) (clusterIP publicKey : string)
    (admitted : list WireguardPeer) : M (Z * option error) :=
  match deployment_ForWireguard AgentImage AgentImagePullPolicy wg with
  | Err e => failDegraded wg e "DeploymentBuildFailed"
  | Ok desiredDep =>
      r <- applyDeployment desiredDep ;;
      match r with
      | Err e => failDegraded wg e "DeploymentApplyFailed"
      | Ok dep =>
          let identity := {| id_Endpoint := JoinHostPort clusterIP (Itoa WireguardPort);
                             id_PublicKey := publicKey |} in
          s <- syncPeerIdentity wg identity admitted ;;
          match s with
          | Err e => Ret (0, Some e)
          | Ok _ =>
              let msg := rolloutProblem dep in
              e <- (if decide (msg ≠ "") then
                      updateStatus wg (condition ConditionReady ConditionFalse
                                         ReasonDeploymentNotReady msg 0) (Some identity)
                    else
                      updateStatus wg (condition ConditionReady ConditionTrue "Active"
                                         "VPN is active!" 0) (Some identity)) ;;
              Ret (0, e)
          end
      end
  end.

(** The middle of [Reconcile]: the peers and the Secret, once the Service is
    applied with [clusterIP]. *)
Definition reconcileSecret (req : NamespacedName) (wg : Wireguard) (clusterIP : string)
    : M (Z * option error) :=
  p <- reconcilePeers req wg ;;
  match p with
  | Err e => Ret (0, Some e)
  | Ok admitted =>
      g <- perform (GetSecret (key_of (wg_meta wg))) ;;
      match g with
      | Ok secret =>
          r <- refreshSecret wg secret admitted ;;
          match r with
          | Err e => Ret (0, Some e)
          | Ok _ => reconcileDeployment wg clusterIP (data secret "publicKey") admitted
          end
      | Err e =>
          if errors_Is e NotFound then r <- createSecret wg admitted ;; Ret (0, error_of r)
          else Ret (0, Some e)
      end
  end.

(** [Reconcile] from the Service on, for a spec it can render. *)
Definition reconcileService (req : NamespacedName) (wg : Wireguard) : M (Z * option error) :=
  match service_ForWireguard wg with
  | Err e => failDegraded wg e "ServiceBuildFailed"
  | Ok desiredSvc =>
      r <- applyOwned desiredSvc ;;
      match r with
      | Err e => failDegraded wg e "ServiceApplyFailed"
      | Ok svc =>
          match clusterIPOutside (Name (svc_meta svc)) (svc_ClusterIP svc) (LocalCIDRs (wg_Spec wg)) with
          | Some e =>
              u <- updateStatus wg (condition ConditionDegraded ConditionTrue
                                      ReasonClusterIPOutsideLocalCIDRs (err_text e) 0) None ;;
              Ret (minute, u)
          | None => reconcileSecret req wg (svc_ClusterIP svc)
          end
      end
  end.

(** [WireguardReconciler.Reconcile]: the [RequeueAfter] and the error. *)
Definition Reconcile (req : NamespacedName) : M (Z * option error) :=
  r <- perform (GetWireguard req) ;;
  match r with
  | Err e =>
      if errors_Is e NotFound then u <- markPeersWireguardNotFound req ;; Ret (0, u)
      else Ret (0, Some e)
  | Ok wg =>
      if decide (ws_Status (wg_Status wg) = "") then
        u <- updateStatus wg (condition ConditionProgressing ConditionTrue "FetchingStatus"
                                "Fetching Wireguard status" 0) None ;;
        Ret (0, u)
      else
        p <- specProblem wg ;;
        match p with
        | Err e => Ret (0, Some e)
        | Ok (reason, msg) =>
            if decide (reason ≠ "") then
              u <- updateStatus wg (condition ConditionDegraded ConditionTrue reason msg 0) None ;;
              Ret (minute, u)
            else reconcileService req wg
        end
  end.
End controller.
