(* ===== verification/ReferenceCluster.v ===== *)
(** * A concrete cluster

    Instances of the controller's parameters and one cluster, for computing whole
    reconciles: a gateway [vpn/gw] that has a Secret and four peers. [alice]
    holds a key and an address; [bob] is new; [mallory] copies the key of
    [alice], and [carol] the address, so both must lose. *)

From S2P Require Import Prelude GoStd Netip Effects Api External Ipam AgentState Peers Resources Gateway Controller.

Module RefCluster.

#[export] Existing Instances Reference.wgtypes Reference.conditions Reference.ipnetgen
  Reference.ipnetgen_spec.

#[export] Instance owners : OwnerLib := {|
  SetControllerReference owner obj :=
    if decide (Namespace owner = Namespace obj) then
      Ok [{| or_APIVersion := "vpn.tunnel-operator.io/v1alpha1"; or_Kind := "Wireguard";
             or_Name := Name owner; or_UID := UID owner; or_Controller := Some true |}]
    else Err (errors_New "cross-namespace owner references are disallowed");
|}.

#[export] Instance applylib : ApplyLib := {|
  Unstructured := Service + Deployment;
  Live := bool;  (* written by the legacy manager *)
  UpgradeManagedFieldsPatch live _ _ := Ok (if live then Some "[]" else None);
|}.

#[export] Instance owned_service : OwnedObject Service := {|
  GoType := "*v1.Service";
  obj_meta := svc_meta;
  GVKForObject _ := Ok "Service";
  ToUnstructured s := Ok (inl s);
  FromUnstructured u _ := match u with inl s => Ok s | inr _ => Err (errors_New "not a Service") end;
|}.

#[export] Instance owned_deployment : OwnedObject Deployment := {|
  GoType := "*v1.Deployment";
  obj_meta := dep_meta;
  GVKForObject _ := Ok "Deployment";
  ToUnstructured d := Ok (inr d);
  FromUnstructured u _ := match u with inr d => Ok d | inl _ => Err (errors_New "not a Deployment") end;
|}.

Definition keyA : string := "AAAAAAAAAAAAAAAAAAAAAAAAAAAAAAAAAAAAAAAAAAA=".
Definition keyB : string := "BBBBBBBBBBBBBBBBBBBBBBBBBBBBBBBBBBBBBBBBBBA=".
Definition keyC : string := "CCCCCCCCCCCCCCCCCCCCCCCCCCCCCCCCCCCCCCCCCCA=".
Definition keyS : string := "SSSSSSSSSSSSSSSSSSSSSSSSSSSSSSSSSSSSSSSSSSA=".
Definition keyP : string := "PPPPPPPPPPPPPPPPPPPPPPPPPPPPPPPPPPPPPPPPPPA=".

Definition meta (n ns : string) (created : Z) : ObjectMeta :=
  {| Name := n; Namespace := ns; UID := n; ResourceVersion := "1"; Generation := 3;
     CreationTimestamp := created; Labels := ∅; Annotations := ∅; OwnerReferences := [] |}.

Definition gw : Wireguard := {|
  wg_meta := meta "gw" "vpn" 1;
  wg_Spec := {| PeerCIDR := ""; LocalCIDRs := ["10.96.0.0/12"]; Gluetun := zeroGluetun;
                NodeSelector := ∅; Tolerations := []; Agent := noResources;
                AllowedNamespaces_ := None |};
  wg_Status := {| ws_Status := v1alpha1.Pending; ws_Message := ""; ws_Endpoint := "";
                  ws_PublicKey := ""; ws_Conditions := [] |};
|}.

Definition peer (n ns : string) (created : Z) (key ref_ns st addr : string) : WireguardPeer := {|
  wp_meta := meta n ns created;
  wp_Spec := {| PublicKey := key; WireguardRef := "gw"; WireguardNamespace := ref_ns |};
  wp_Status := {| ps_Status := st; ps_Message := ""; ps_Address := addr; ps_Endpoint := "";
                  ps_ServerPublicKey := ""; ps_LocalCIDRs := []; ps_Conditions := [] |};
|}.

Definition alice : WireguardPeer := peer "alice" "vpn" 10 keyA "" v1alpha1.Ready "10.8.0.2".
Definition bob : WireguardPeer := peer "bob" "apps" 20 keyB "vpn" "" "".
Definition mallory : WireguardPeer := peer "mallory" "apps" 30 keyA "vpn" "" "".
Definition carol : WireguardPeer := peer "carol" "vpn" 40 keyC "" v1alpha1.Ready "10.8.0.2".

(** [bob] as the pass readies it. *)
Definition bob_ready : WireguardPeer := readied (set_Address bob "10.8.0.3").

(** The state a pass renders. *)
Definition rendered : agent.State := desiredState gw keyS [alice; bob_ready].

#[export] Instance codec : agent.StateCodec.
Proof.
  refine {| agent.Marshal s := if decide (s = rendered) then Ok "rendered" else Ok "another";
            agent.Unmarshal b := if decide (b = "rendered") then Ok rendered
                                 else Err (errors_New "unexpected end of JSON input");
            agent.transportable s := s = rendered |}.
  intros s b -> E. destruct (decide (rendered = rendered)) as [_|Hne]; [|by destruct Hne].
  injection E as <-. by rewrite decide_True.
Defined.

Definition secret : Secret :=
  {| sec_meta := meta "gw" "vpn" 2;
     sec_Data := {[ "state.json" := "old"; "privateKey" := keyS; "publicKey" := keyP ]} |}.

Definition notFound : error := MkError "not found" [NotFound].

(** The cluster's answers; it holds the peers [ps], and every write succeeds. *)
Definition cluster (ps : list WireguardPeer) : handler KRes unit :=
  λ o s,
    (match o return KRes o with
     | GetWireguard k => if decide (k = NN "vpn" "gw") then Ok gw else Err notFound
     | GetSecret k => if decide (k = NN "vpn" "gw") then Ok secret else Err notFound
     | GetDeployment _ => Err notFound
     | GetLive _ _ => Err notFound
     | ListPeers => Ok ps
     | UpdatePeerStatus p => Ok p
     | UpdateWireguardStatus _ => None
     | UpdateSecret _ => None
     | CreateSecret _ => None
     | ListPods _ _ => Ok [{| pod_meta := meta "gw-dep-0" "vpn" 3 |}]
     | UpdatePod _ => None
     | PatchLive _ _ => None
     | PatchDeployment _ _ => None
     | Apply (inl svc) _ _ =>
         Ok (inl {| svc_meta := svc_meta svc; svc_Selector := svc_Selector svc;
                    svc_Ports := svc_Ports svc; svc_Type := svc_Type svc;
                    svc_ClusterIP := "10.96.0.10" |})
     | Apply (inr d) _ _ =>
         Ok (inr {| dep_meta := dep_meta d; dep_Spec := dep_Spec d;
                    dep_Status := {| dst_ObservedGeneration := 1; dst_ReadyReplicas := 1;
                                     dst_UpdatedReplicas := 1 |} |})
     | GeneratePrivateKey => Err (errors_New "not used")
     | Now => 1000
     | NowFormat _ => "2026-01-01T00-00-00"
     end, s).

Definition req : NamespacedName := NN "vpn" "gw".

(** A reconcile of the gateway: what it performs and what it returns. *)
Definition reconciled := run (cluster [alice; bob; mallory; carol]) (Reconcile "agent:1" "Always" req) ().
Definition trace : list (event KRes) := reconciled.1.1.

Lemma trace_exec : exec (Reconcile "agent:1" "Always" req) trace reconciled.1.2.
Proof. apply run_is_exec. Qed.

(** A pass over its peers. *)
Definition pass := run (cluster [alice; bob; mallory; carol]) (reconcilePeers req gw) ().

Lemma pass_exec : exec (reconcilePeers req gw) pass.1.1 pass.1.2.
Proof. apply run_is_exec. Qed.

End RefCluster.
