(* ===== verification/ControllerEffects.v ===== *)
(** * The Wireguard controller: what each part may touch

    Every operation has an [effect]; the lemmas bound the effects of each method,
    and [not_emitted] uses them to discard impossible events. *)

From S2P Require Import Prelude GoStd Netip Effects Api External Ipam AgentState Peers Resources Gateway Controller.

Create HintDb emits_base discriminated.

Section effects.
Context `{WgTypes, ConditionLib, Ipnetgen, OwnerLib, ApplyLib}.
Context `{!OwnedObject Service, !OwnedObject Deployment, !agent.StateCodec}.

(** What an operation touches. *)
Inductive effect := Reads | ReadsLive | WritesPeer | WritesStatus | WritesSecret | WritesPod | WritesOwned.

#[export] Instance effect_eq_dec : EqDecision effect.
Proof. solve_decision. Defined.

Definition effect_of (o : KOp) : effect :=
  match o with
  | UpdatePeerStatus _ => WritesPeer
  | UpdateWireguardStatus _ => WritesStatus
  | UpdateSecret _ | CreateSecret _ => WritesSecret
  | UpdatePod _ => WritesPod
  | GetLive _ _ => ReadsLive
  | PatchLive _ _ | PatchDeployment _ _ | Apply _ _ _ => WritesOwned
  | _ => Reads
  end.

Definition may (l : list effect) (o : KOp) : Prop := bool_decide (effect_of o ∈ l) = true.

Lemma emits_may {A} l l' (p : prog KRes A) :
  emits (may l) p → forallb (λ k, bool_decide (k ∈ l')) l = true → emits (may l') p.
Proof.
  intros Hp Hl. eapply emits_mono; [|exact Hp]. unfold may. intros o.
  rewrite forallb_forall in Hl. rewrite !bool_decide_eq_true. intros Ho.
  specialize (Hl (effect_of o)). rewrite bool_decide_eq_true in Hl. by apply Hl, list_elem_of_In.
Qed.

#[local] Hint Extern 0 (emits (may _) _) =>
  (eapply emits_may; [solve [auto with emits_base nocore]|reflexivity]) : emits.

Lemma emits_updateStatus wg c i : emits (may [Reads; WritesStatus]) (updateStatus wg c i).
Proof. unfold updateStatus. solve_emits. Qed.
#[local] Hint Resolve emits_updateStatus : emits_base.

Lemma emits_failDegraded wg e r : emits (may [Reads; WritesStatus]) (failDegraded wg e r).
Proof. unfold failDegraded. solve_emits. Qed.
#[local] Hint Resolve emits_failDegraded : emits_base.

Lemma emits_markPeerNotReady p nr : emits (may [Reads; WritesPeer]) (markPeerNotReady p nr).
Proof. unfold markPeerNotReady. solve_emits. Qed.

Lemma emits_unless_skipped K p : emits K p → emits K (unless_skipped p).
Proof. intros. unfold unless_skipped. solve_emits. Qed.

Lemma emits_mark p nr : emits (may [Reads; WritesPeer]) (unless_skipped (markPeerNotReady p nr)).
Proof. apply emits_unless_skipped, emits_markPeerNotReady. Qed.
#[local] Hint Resolve emits_mark : emits_base.

Lemma emits_reconcilePeers req wg : emits (may [Reads; WritesPeer]) (reconcilePeers req wg).
Proof.
  unfold reconcilePeers, admittedKeys, getWireguardPeers, admitPeers, releaseLosers, allocatePeers,
    allocatePeer, readyPeer. solve_emits.
Qed.
#[local] Hint Resolve emits_reconcilePeers : emits_base.

Lemma emits_syncPeerIdentity wg i l : emits (may [Reads; WritesPeer]) (syncPeerIdentity wg i l).
Proof. unfold syncPeerIdentity. solve_emits. Qed.
#[local] Hint Resolve emits_syncPeerIdentity : emits_base.

Lemma emits_markPeersWireguardNotFound req :
  emits (may [Reads; WritesPeer]) (markPeersWireguardNotFound req).
Proof. unfold markPeersWireguardNotFound, getWireguardPeers. solve_emits. Qed.
#[local] Hint Resolve emits_markPeersWireguardNotFound : emits_base.

Lemma emits_applyOwned {T} `{!OwnedObject T} (x : T) : emits (may [Reads; ReadsLive; WritesOwned]) (applyOwned x).
Proof. unfold applyOwned. solve_emits. Qed.
#[local] Hint Resolve emits_applyOwned : emits_base.

Lemma emits_applyDeployment d : emits (may [Reads; ReadsLive; WritesOwned]) (applyDeployment d).
Proof. unfold applyDeployment. solve_emits. Qed.
#[local] Hint Resolve emits_applyDeployment : emits_base.

Lemma emits_envFromProblem ns i l : emits (may [Reads]) (envFromProblem ns i l).
Proof. revert i. induction l as [|src l IH]; intros i; cbn [envFromProblem]; solve_emits. Qed.
#[local] Hint Resolve emits_envFromProblem : emits_base.

Lemma emits_specProblem wg : emits (may [Reads]) (specProblem wg).
Proof. unfold specProblem. solve_emits. Qed.
#[local] Hint Resolve emits_specProblem : emits_base.

Lemma emits_refreshSecret wg s l : emits (may [Reads; WritesSecret; WritesPod]) (refreshSecret wg s l).
Proof. unfold refreshSecret, touchPods. solve_emits. Qed.
#[local] Hint Resolve emits_refreshSecret : emits_base.

Lemma emits_createSecret wg l : emits (may [Reads; WritesSecret]) (createSecret wg l).
Proof. unfold createSecret. solve_emits. Qed.
#[local] Hint Resolve emits_createSecret : emits_base.

Lemma emits_reconcileDeployment img pull wg ip k l :
  emits (may [Reads; ReadsLive; WritesPeer; WritesStatus; WritesOwned]) (reconcileDeployment img pull wg ip k l).
Proof. unfold reconcileDeployment. solve_emits. Qed.
#[local] Hint Resolve emits_reconcileDeployment : emits_base.
End effects.

#[export] Hint Resolve
  emits_updateStatus emits_failDegraded emits_mark emits_reconcilePeers emits_syncPeerIdentity emits_markPeersWireguardNotFound emits_applyOwned emits_applyDeployment emits_envFromProblem emits_specProblem emits_refreshSecret emits_createSecret emits_reconcileDeployment : emits_base.
#[export] Hint Extern 0 (emits (may _) _) =>
  (eapply emits_may; [solve [auto with emits_base nocore]|reflexivity]) : emits.

(** Sees that an event is not in the trace of a program that never emits it. *)
Ltac not_emitted :=
  match goal with
  | Hex : exec ?p ?tr _, He : ?e ∈ ?tr |- _ =>
      exfalso; refine (emits_not (may _) p tr _ e _ Hex He _);
      [solve [auto with emits_base nocore]|];
      unfold may in *; cbn [projT1 effect_of] in *;
      first [discriminate | destruct (effect_of (projT1 e)); discriminate]
  end.
