(* ===== verification/PassFacts.v ===== *)
(** * A pass over the peers: safety

    What [reconcilePeers] returns, whatever the API server answers, as long as the
    answers are [lawful]: the server returns what a status update wrote, and
    lists no two objects of one name. Then what reaches the agent from it. *)

From S2P Require Import Prelude GoStd Netip NetipFacts Effects Api External Ipam AgentState Peers Resources Gateway Controller ReferenceCluster.

Section facts.
Context `{WgTypes, ConditionLib, Ipnetgen, OwnerLib, ApplyLib}.
Context `{!OwnedObject Service, !OwnedObject Deployment, !agent.StateCodec}.

(** An operation with its response. *)
#[local] Abbreviation ev := (@existT KOp KRes).

(** ** Lawful responses *)

(** What identifies a peer and decides its admission: a status write changes
    none of it. *)
Definition ident (p : WireguardPeer) : WireguardPeerSpec * NamespacedName :=
  (wp_Spec p, key_of (wp_meta p)).

(** The API server's side of the contract: a successful status update gives back
    the object with the address that was written, and a list holds one object
    per name. *)
Definition lawful (e : event KRes) : Prop :=
  match e with
  | existT (UpdatePeerStatus p) (Ok p') => ident p' = ident p ∧ peer_Address p' = peer_Address p
  | existT ListPeers (Ok l) => NoDup (key_of ∘ wp_meta <$> l)
  | _ => True
  end.

Lemma ident_set_Address p a : ident (set_Address p a) = ident p.
Proof. done. Qed.

Lemma ident_readied p : ident (readied p) = ident p.
Proof. done. Qed.

Lemma ident_clearUnusable cidr p : ident (clearUnusable cidr p) = ident p.
Proof. unfold clearUnusable. by case_match. Qed.

Lemma peer_Key_ident p q : ident p = ident q → peer_Key p = peer_Key q.
Proof. unfold ident, peer_Key. by intros [= -> _]. Qed.

(** ** Admission *)

(** A peer [wg] serves under the request [req], as far as its spec decides. *)
Definition admissible (wg : Wireguard) (p : WireguardPeer) : Prop :=
  namespaceNotAllowed wg p = None ∧ admissionProblem p = None.

#[export] Instance admissible_dec wg p : Decision (admissible wg p).
Proof. unfold admissible. apply _. Defined.

Lemma admissible_ident wg p q : ident p = ident q → admissible wg p → admissible wg q.
Proof.
  unfold admissible, namespaceNotAllowed, admissionProblem, ident, key_of, peer_Key, peer_Namespace.
  by intros [= -> -> _].
Qed.

Lemma gatewayKey_ident p q : ident p = ident q → gatewayKey p = gatewayKey q.
Proof. unfold gatewayKey, ident, key_of, peer_Namespace. by intros [= -> -> _]. Qed.

Lemma admissible_key wg p : admissible wg p → peer_Key p ≠ "".
Proof. intros [_ Ha] E. unfold admissionProblem in Ha. by rewrite decide_True in Ha. Qed.

Lemma getWireguardPeers_exec req tr l :
  exec (getWireguardPeers req) tr (Ok l) →
  ∃ ls, tr = [ev ListPeers (Ok ls)] ∧ l = filter (λ p, gatewayKey p = req) ls.
Proof. unfold getWireguardPeers. intros Hex. inv_exec. eauto. Qed.

(** [admitPeers] returns exactly the admissible peers, in order. *)
Lemma admitPeers_exec wg peers tr l :
  exec (admitPeers wg peers) tr (Ok l) → l = filter (admissible wg) peers.
Proof.
  intros Hex.
  eapply (loopE_inv (λ _, True) (λ pre acc, acc = filter (admissible wg) pre)) in Hex;
    [done|..|by apply Forall_true]; [|done].
  clear tr Hex. intros pre x post t acc acc' _ _ -> Hex. rewrite filter_app.
  rewrite filter_cons, filter_nil.
  destruct (namespaceNotAllowed wg x) as [nr|] eqn:En.
  { inv_exec. rewrite decide_False by (intros [? _]; congruence). by rewrite app_nil_r. }
  destruct (admissionProblem x) as [nr|] eqn:Ea; inv_exec.
  - rewrite decide_False by (intros [_ ?]; congruence). by rewrite app_nil_r.
  - by rewrite decide_True by done.
Qed.

(** ** Allocation *)

Lemma elem_of_GetUsedIPs cidr peers x :
  x ∈ GetUsedIPs cidr peers ↔ x ∈ deriveReservedIPs cidr ∨ x ∈ nonempty (peer_Address <$> peers).
Proof.
  unfold GetUsedIPs, nonempty. generalize (deriveReservedIPs cidr) as used.
  induction peers as [|p peers IH]; intros used; cbn [foldl fmap list_fmap].
  - rewrite filter_nil, elem_of_nil. tauto.
  - rewrite IH, filter_cons. case_decide as He.
    + rewrite decide_False by tauto. done.
    + rewrite decide_True by done. rewrite elem_of_app, list_elem_of_singleton, elem_of_cons. tauto.
Qed.

(** Where a returned peer's address is stored: in the list the pass read, or by a
    status write of the pass. *)
Definition persisted (peers : list WireguardPeer) (tr : list (event KRes)) (p : WireguardPeer) : Prop :=
  (∃ q, q ∈ peers ∧ ident q = ident p ∧ peer_Address q = peer_Address p) ∨
  (∃ q, ev (UpdatePeerStatus q) (Ok p) ∈ tr).

Section allocation.
Context `{!IpnetgenSpec} (v b : Z) (peers : list WireguardPeer).
Hypothesis Hv : u32 v.
Hypothesis Hb : 0 <= b <= 30.
Hypothesis Hunique : NoDup (nonempty (peer_Address <$> peers)).
Hypothesis Husable :
  Forall (λ p, peer_Address p ≠ "" → addressUsable (peer_Address p) (text4 v b) = true) peers.

(** What holds after the peers of [pre]. *)
Record alloc_inv (pre : list WireguardPeer) (tr : list (event KRes))
    (acc : list string * list WireguardPeer) : Prop := {
  ai_used : GetUsedIPs (text4 v b) peers ⊆ acc.1;
  ai_in_used : (peer_Address <$> acc.2) ⊆ acc.1;
  ai_ident : (ident <$> acc.2) `sublist_of` (ident <$> pre);
  ai_NoDup : NoDup (peer_Address <$> acc.2);
  ai_usable : Forall (λ p, addressUsable (peer_Address p) (text4 v b) = true) acc.2;
  ai_origin : Forall (λ p, peer_Address p ∈ nonempty (peer_Address <$> pre) ∨
                           peer_Address p ∉ GetUsedIPs (text4 v b) peers) acc.2;
  ai_persisted : Forall (persisted peers tr) acc.2;
}.

Lemma persisted_app t t' p : persisted peers t p → persisted peers (t ++ t') p.
Proof. intros [?|[q Hq]]; [by left|]. right. exists q. apply elem_of_app. by left. Qed.

Lemma nonempty_app_l (l k : list string) x : x ∈ nonempty l → x ∈ nonempty (l ++ k).
Proof. unfold nonempty. rewrite filter_app, elem_of_app. by left. Qed.

(** A turn that returns no peer. *)
Lemma alloc_inv_skip pre x t0 t used used' allocated :
  alloc_inv pre t0 (used, allocated) → used ⊆ used' →
  alloc_inv (pre ++ [x]) (t0 ++ t) (used', allocated).
Proof.
  intros [Hu Hin Hid Hnd Hus Hor Hp] Hsub. cbn in *. split; cbn.
  - set_solver.
  - set_solver.
  - rewrite fmap_app. by apply sublist_inserts_r.
  - done.
  - done.
  - eapply Forall_impl; [exact Hor|]. cbn. intros p [?|?]; [|by right]. left.
    rewrite fmap_app. by apply nonempty_app_l.
  - eapply Forall_impl; [exact Hp|]. intros. by apply persisted_app.
Qed.

(** A turn that returns [y], which stands for the peer [x]. *)
Lemma alloc_inv_push pre x y t0 t used allocated :
  alloc_inv (pre ++ [x]) (t0 ++ t) (used, allocated) →
  (ident <$> allocated) `sublist_of` (ident <$> pre) →
  ident y = ident x → peer_Address y ∈ used → (peer_Address y ∉ peer_Address <$> allocated) →
  addressUsable (peer_Address y) (text4 v b) = true →
  (peer_Address y ∈ nonempty (peer_Address <$> pre ++ [x]) ∨
   peer_Address y ∉ GetUsedIPs (text4 v b) peers) →
  persisted peers (t0 ++ t) y →
  alloc_inv (pre ++ [x]) (t0 ++ t) (used, allocated ++ [y]).
Proof.
  intros [Hu Hin _ Hnd Hus Hor Hp] Hid Hy Hyin Hynot Hyus Hyor Hyp. cbn in *.
  split; cbn; rewrite ?Forall_app, ?Forall_singleton; try done.
  - rewrite fmap_app. cbn. set_solver.
  - rewrite !fmap_app. cbn. rewrite Hy. by apply sublist_app.
  - rewrite fmap_app. cbn. apply NoDup_app. split_and!; [done| |apply NoDup_singleton].
    intros a Ha ->%list_elem_of_singleton. done.
Qed.

(** The address a peer of the list holds is not one already returned. *)
Lemma alloc_inv_old pre x post t used allocated :
  peers = pre ++ x :: post → alloc_inv pre t (used, allocated) → peer_Address x ≠ "" →
  peer_Address x ∈ used ∧ peer_Address x ∉ peer_Address <$> allocated.
Proof.
  intros Hl [Hu Hin Hid Hnd Hus Hor Hp] Hne. cbn in *.
  assert (peer_Address x ∈ GetUsedIPs (text4 v b) peers) as Hx.
  { apply elem_of_GetUsedIPs. right. apply list_elem_of_filter. split; [done|].
    apply list_elem_of_fmap. exists x. split; [done|]. rewrite Hl. apply elem_of_app. right. by left. }
  split; [by apply Hu|]. intros (p & E & Hpin)%list_elem_of_fmap.
  rewrite Forall_forall in Hor. destruct (Hor p Hpin) as [Hpre|Hnot]; [|by rewrite <-E in Hnot].
  rewrite <-E in Hpre. revert Hunique. rewrite Hl. unfold nonempty in *.
  rewrite fmap_app, filter_app, fmap_cons, filter_cons, decide_True by done.
  intros (_ & Hdis & _)%NoDup_app. apply (Hdis _ Hpre). by left.
Qed.

Lemma alloc_inv_in_pre pre x :
  peer_Address x ≠ "" → peer_Address x ∈ nonempty (peer_Address <$> pre ++ [x]).
Proof.
  intros Hne. apply list_elem_of_filter. split; [done|]. rewrite fmap_app. apply elem_of_app.
  right. by left.
Qed.

Lemma readyPeer_inv (isNew : bool) pre x y t0 t used allocated acc :
  Forall lawful t →
  alloc_inv (pre ++ [x]) (t0 ++ t) (used, allocated) →
  (ident <$> allocated) `sublist_of` (ident <$> pre) →
  ident y = ident x → peer_Address y ∈ used → (peer_Address y ∉ peer_Address <$> allocated) →
  addressUsable (peer_Address y) (text4 v b) = true →
  (peer_Address y ∈ nonempty (peer_Address <$> pre ++ [x]) ∨
   peer_Address y ∉ GetUsedIPs (text4 v b) peers) →
  (isNew = false → persisted peers (t0 ++ t) (readied y)) →
  exec (readyPeer isNew y used allocated) t (Ok acc) →
  alloc_inv (pre ++ [x]) (t0 ++ t) acc.
Proof.
  intros Hlaw Hinv Hid Hy Hin Hnot Hus Hor Hp Hex. unfold readyPeer in Hex. inv_exec.
  destruct a as [w|e]; inv_exec.
  - match goal with H : lawful _ |- _ => destruct H as [Hw Ha] end.
    rewrite ident_readied in Hw. change (peer_Address (readied y)) with (peer_Address y) in Ha.
    apply alloc_inv_push; rewrite ?Ha; try done; [congruence|].
    right. exists (readied y). apply elem_of_app. right. apply elem_of_app. left. by left.
  - destruct (skipPeerWrite e); cbn [negb] in Hex; [|inv_exec].
    destruct isNew; cbn [negb] in Hex; inv_exec; [done|].
    apply alloc_inv_push; try done. by apply Hp.
Qed.

Lemma allocatePeer_inv pre x post t0 t acc acc' :
  peers = pre ++ x :: post → Forall lawful t → alloc_inv pre t0 acc →
  exec (allocatePeer (text4 v b) acc x) t (Ok acc') → alloc_inv (pre ++ [x]) (t0 ++ t) acc'.
Proof.
  destruct acc as [used allocated]. intros Hl Hlaw Hinv Hex. unfold allocatePeer in Hex.
  assert (x ∈ peers) as Hx by (rewrite Hl; apply elem_of_app; right; by left).
  case_decide as He.
  - destruct (AllocateIP (text4 v b) used) as [ip|e] eqn:Ea.
    + destruct (AllocateIP_usable v b Hv Hb used ip) as [Hus Hni]; [|done|].
      { intros a Ha. apply (ai_used _ _ _ Hinv). apply elem_of_GetUsedIPs. by left. }
      apply (readyPeer_inv true pre x (set_Address x ip) t0 t (used ++ [ip]) allocated); try done.
      * eapply alloc_inv_skip; [exact Hinv|]. set_solver.
      * apply (ai_ident _ _ _ Hinv).
      * set_solver.
      * intros Hin. by apply Hni, (ai_in_used _ _ _ Hinv).
      * right. intros Hin. by apply Hni, (ai_used _ _ _ Hinv).
    + inv_exec. by eapply alloc_inv_skip; [exact Hinv|].
  - destruct (alloc_inv_old _ _ _ _ _ _ Hl Hinv He) as [Hin Hnot].
    assert (∀ t, alloc_inv (pre ++ [x]) (t0 ++ t) (used, allocated)) as Hinv'.
    { intros t'. by eapply alloc_inv_skip; [exact Hinv|]. }
    assert (addressUsable (peer_Address x) (text4 v b) = true) as Hus.
    { rewrite Forall_forall in Husable. by apply Husable. }
    assert (∀ t y, ident y = ident x → peer_Address y = peer_Address x → persisted peers t y) as Hp.
    { intros t' y Hy Ha. left. by exists x. }
    destruct (_ && _).
    + inv_exec. apply alloc_inv_push; try done; [apply (ai_ident _ _ _ Hinv)|left|by apply Hp].
      by apply alloc_inv_in_pre.
    + apply (readyPeer_inv false pre x x t0 t used allocated); try done; [apply (ai_ident _ _ _ Hinv)|left|].
      * by apply alloc_inv_in_pre.
      * intros _. by apply Hp.
Qed.

Lemma allocatePeers_exec tr l :
  Forall lawful tr → exec (allocatePeers (text4 v b) peers) tr (Ok l) →
  (ident <$> l) `sublist_of` (ident <$> peers) ∧ NoDup (peer_Address <$> l) ∧
  Forall (λ p, addressUsable (peer_Address p) (text4 v b) = true) l ∧ Forall (persisted peers tr) l.
Proof.
  intros Hlaw Hex. apply exec_bindE_Ok in Hex as (acc & t & t' & -> & Hloop & Hret).
  inv_exec. eapply (loopE_trace lawful alloc_inv) in Hloop as [Hu Hin Hid Hnd Hus Hor Hp]; [|..|done].
  - rewrite app_nil_r. done.
  - intros. by eapply allocatePeer_inv.
  - split; cbn; try done; try constructor. set_solver.
Qed.
End allocation.

(** ** A pass over the peers *)

(** What a gateway may serve: peers of its own, admissible, no two of one name,
    one key or one address, each at an address the allocator hands out. *)
Record servable (req : NamespacedName) (wg : Wireguard) (l : list WireguardPeer) : Prop := {
  sv_names : NoDup (key_of ∘ wp_meta <$> l);
  sv_keys : NoDup (peer_Key <$> l);
  sv_addresses : NoDup (peer_Address <$> l);
  sv_peers : Forall (λ p, gatewayKey p = req ∧ admissible wg p ∧
    addressUsable (peer_Address p) (effectivePeerCIDR4 wg) = true) l;
}.

(** The address of [p] is stored by the API server: the pass listed [p] with it,
    or [p] is the answer to one of its status writes. *)
Definition stored (tr : list (event KRes)) (p : WireguardPeer) : Prop :=
  (∃ ls q, ev ListPeers (Ok ls) ∈ tr ∧ q ∈ ls ∧ ident q = ident p ∧
           peer_Address q = peer_Address p) ∨
  (∃ q, ev (UpdatePeerStatus q) (Ok p) ∈ tr).

Lemma clearUnusable_address cidr p :
  peer_Address (clearUnusable cidr p) ≠ "" →
  clearUnusable cidr p = p ∧ addressUsable (peer_Address p) cidr = true.
Proof.
  unfold clearUnusable. destruct (bool_decide_reflect (peer_Address p ≠ "")) as [Hne|Hne]; cbn.
  - by destruct (addressUsable _ _).
  - intros Hne'. by destruct Hne.
Qed.

Lemma addressUsable_nonempty a cidr : addressUsable a cidr = true → a ≠ "".
Proof. by intros Hu ->. Qed.

(** The peers that reach the allocation, from those that were listed. *)
Lemma kept_peers wg current peers :
  let admitted := filter (admissible wg) peers in
  let keyed := (dedupePublicKeys admitted current).1 in
  let cidr4 := effectivePeerCIDR4 wg in
  let keep := (dedupeAddresses (clearUnusable cidr4 <$> keyed)).1 in
  (ident <$> keep) `sublist_of` (ident <$> peers) ∧
  Forall (admissible wg) keep ∧
  NoDup (peer_Key <$> keep) ∧
  NoDup (nonempty (peer_Address <$> keep)) ∧
  Forall (λ p, peer_Address p ≠ "" → addressUsable (peer_Address p) cidr4 = true ∧ p ∈ peers) keep.
Proof.
  intros admitted keyed cidr4 keep.
  pose proof (dedupePublicKeys_ok admitted current) as Hk. fold keyed in Hk.
  pose proof (dedupeAddresses_ok (clearUnusable cidr4 <$> keyed)) as Ha. fold keep in Ha.
  assert (keyed `sublist_of` peers) as Hsub.
  { etrans; [apply (ds_sublist _ _ _ _ _ Hk)|apply sublist_filter]. }
  assert ((ident <$> keep) `sublist_of` (ident <$> keyed)) as Hid.
  { etrans; [apply fmap_sublist, (ds_sublist _ _ _ _ _ Ha)|].
    rewrite <-list_fmap_compose. erewrite list_fmap_ext; [done|].
    intros i p _. apply ident_clearUnusable. }
  assert (Forall (admissible wg) keyed) as Hadm.
  { eapply sublist_Forall; [apply (ds_sublist _ _ _ _ _ Hk)|]. apply Forall_forall.
    by intros p [? _]%list_elem_of_filter. }
  assert (NoDup (peer_Key <$> keyed)) as Hkeys.
  { rewrite <-nonempty_all; [apply (ds_unique _ _ _ _ _ Hk)|].
    eapply Forall_impl; [exact Hadm|]. apply admissible_key. }
  split_and!.
  - etrans; [exact Hid|]. by apply fmap_sublist.
  - apply Forall_forall. intros p Hp. assert (ident p ∈ ident <$> keyed) as Hin.
    { eapply elem_of_sublist; [exact Hid|]. by apply list_elem_of_fmap_2. }
    apply list_elem_of_fmap in Hin as (q & E & Hq). rewrite Forall_forall in Hadm.
    by eapply admissible_ident; [|apply Hadm].
  - eapply sublist_NoDup; [|exact Hkeys].
    apply (fmap_sublist (PublicKey ∘ fst)) in Hid. by rewrite <-!list_fmap_compose in Hid.
  - apply (ds_unique _ _ _ _ _ Ha).
  - apply Forall_forall. intros p Hp Hne.
    assert (p ∈ clearUnusable cidr4 <$> keyed) as (q & -> & Hq)%list_elem_of_fmap.
    { eapply elem_of_sublist; [apply (ds_sublist _ _ _ _ _ Ha)|exact Hp]. }
    destruct (clearUnusable_address _ _ Hne) as [-> Hus]. split; [done|].
    by eapply elem_of_sublist.
Qed.

(** The peers an allocation returns are servable when those it was given are
    admissible peers of the gateway with keys of their own. *)
Lemma servable_sublist req wg ls keep l :
  NoDup (key_of ∘ wp_meta <$> ls) →
  (ident <$> keep) `sublist_of` (ident <$> filter (λ p, gatewayKey p = req) ls) →
  Forall (admissible wg) keep → NoDup (peer_Key <$> keep) →
  (ident <$> l) `sublist_of` (ident <$> keep) → NoDup (peer_Address <$> l) →
  Forall (λ p, addressUsable (peer_Address p) (effectivePeerCIDR4 wg) = true) l →
  servable req wg l.
Proof.
  intros Hnames Hkeep Hadm Hkeys Hl Haddr Hus.
  assert (∀ p, p ∈ l → ∃ q, q ∈ keep ∧ ident q = ident p) as Hlk.
  { intros p Hp. apply (list_elem_of_fmap_2 ident) in Hp. apply (elem_of_sublist _ _ _ Hl) in Hp.
    apply list_elem_of_fmap in Hp as (q & ? & ?). eauto. }
  assert (∀ q, q ∈ keep → gatewayKey q = req) as Hgw.
  { intros q Hq. apply (list_elem_of_fmap_2 ident) in Hq. apply (elem_of_sublist _ _ _ Hkeep) in Hq.
    apply list_elem_of_fmap in Hq as (q' & E & [<- _]%list_elem_of_filter). by apply gatewayKey_ident. }
  split; [| |done|].
  - apply (fmap_sublist snd) in Hkeep, Hl. rewrite <-!list_fmap_compose in Hkeep, Hl.
    eapply sublist_NoDup; [etrans; [exact Hl|exact Hkeep]|].
    eapply sublist_NoDup; [|exact Hnames]. apply fmap_sublist, sublist_filter.
  - apply (fmap_sublist (PublicKey ∘ fst)) in Hl. rewrite <-!list_fmap_compose in Hl.
    by eapply sublist_NoDup; [exact Hl|].
  - rewrite Forall_forall in Hadm, Hus |- *. intros p Hp. destruct (Hlk p Hp) as (q & Hq & E).
    split_and!; [by rewrite <-(gatewayKey_ident _ _ E); apply Hgw| |by apply Hus].
    by eapply admissible_ident; [exact E|apply Hadm].
Qed.

Lemma reconcilePeers_exec `{!IpnetgenSpec} req wg tr l :
  validatePeerCIDR (effectivePeerCIDR4 wg) = None → Forall lawful tr →
  exec (reconcilePeers req wg) tr (Ok l) →
  servable req wg l ∧ Forall (stored tr) l.
Proof.
  intros (v & b & Hcidr & Hv & Hb & _)%validatePeerCIDR_None Hlaw Hex. unfold reconcilePeers in Hex.
  apply exec_bindE_Ok in Hex as (current & t1 & tr1 & -> & _ & Hex).
  apply exec_bindE_Ok in Hex as (peers & t2 & tr2 & -> & Hget & Hex).
  apply exec_bindE_Ok in Hex as (adm & t3 & tr3 & -> & Hadm & Hex).
  apply admitPeers_exec in Hadm as ->.
  apply getWireguardPeers_exec in Hget as (ls & -> & Hls).
  pose proof (kept_peers wg current peers) as Hkept. cbn zeta in Hkept.
  destruct (dedupePublicKeys (filter (admissible wg) peers) current) as [keyed keyLosers]. cbn [fst] in *.
  apply exec_bindE_Ok in Hex as (? & t4 & tr4 & -> & _ & Hex). cbv zeta in Hex.
  destruct (dedupeAddresses (clearUnusable (effectivePeerCIDR4 wg) <$> keyed)) as [keep losers]. cbn [fst] in *.
  apply exec_bindE_Ok in Hex as (? & t5 & tr5 & -> & _ & Hex).
  destruct Hkept as (Hid & Hkadm & Hkeys & Haddr & Hus).
  rewrite Hcidr in Hex, Hus. inv_exec.
  destruct (allocatePeers_exec v b keep Hv Hb Haddr) with (tr := tr5) (l := l)
    as (Hlid & Hladdr & Hlus & Hlp); [|done|done|].
  { eapply Forall_impl; [exact Hus|]. intros p Hp Hne. by apply Hp. }
  split.
  - apply (servable_sublist req wg ls keep); try done; [by rewrite Hls in Hid|by rewrite Hcidr].
  - rewrite Forall_forall in Hlp, Hus, Hlus |- *. intros p Hp.
    destruct (Hlp p Hp) as [(q & Hq & Hqid & Hqa)|[q Hq]].
    + left. exists ls, q. split_and!; [rewrite elem_of_app; right; by left| |done|done].
      apply (list_elem_of_filter (λ p, gatewayKey p = req)). rewrite <-Hls.
      apply Hus; [done|]. rewrite Hqa. eapply addressUsable_nonempty. by apply Hlus.
    + right. exists q. rewrite !elem_of_app. tauto.
Qed.

(** ** The rendered state *)

Lemma desiredState_Peers wg pk l : agent.Peers (desiredState wg pk l) ≡ₚ renderPeer <$> l.
Proof. cbn [desiredState agent.Peers]. apply merge_sort_Permutation. Qed.

Lemma desiredState_valid req wg l pk :
  servable req wg l → len pk = 44 → agent.IsStateValid (desiredState wg pk l) = None.
Proof.
  intros [_ _ _ Hp] Hpk. apply agent.IsStateValid_None. split; [done|].
  rewrite desiredState_Peers. apply Forall_fmap. eapply Forall_impl; [exact Hp|].
  intros p (_ & Ha & Hu). split; [by eapply addressUsable_nonempty|by eapply admissible_key].
Qed.

Lemma state_keys_lookup l p :
  NoDup (key_of ∘ wp_meta <$> l) → p ∈ l → state_keys l !! key_of (wp_meta p) = Some (peer_Key p).
Proof.
  unfold state_keys. induction l as [|q l IH] using rev_ind; [by rewrite elem_of_nil|].
  rewrite fmap_app, foldl_app, NoDup_app. intros (Hl & Hdis & _) [Hp|Hp%list_elem_of_singleton]%elem_of_app; cbn.
  - rewrite lookup_insert_ne; [by apply IH|]. intros E.
    apply (Hdis (key_of (wp_meta q))); [|by left]. rewrite E. by apply (list_elem_of_fmap_2 (key_of ∘ wp_meta)).
  - subst q. apply lookup_insert_eq.
Qed.

Lemma state_keys_elem l k x :
  state_keys l !! k = Some x → ∃ p, p ∈ l ∧ key_of (wp_meta p) = k ∧ peer_Key p = x.
Proof.
  unfold state_keys. induction l as [|q l IH] using rev_ind; [done|].
  rewrite foldl_app. cbn. destruct (decide (key_of (wp_meta q) = k)) as [<-|Hne].
  - rewrite lookup_insert_eq. intros [= <-]. exists q. split_and!; try done. apply elem_of_app. right. by left.
  - rewrite lookup_insert_ne by done. intros (p & Hp & ? & ?)%IH. exists p.
    split_and!; try done. apply elem_of_app. by left.
Qed.

(** The keys of a rendered state are those of the peers it was rendered from. *)
Lemma state_keys_rendered_inv wg pk l k x :
  state_keys (agent.Peers (desiredState wg pk l)) !! k = Some x →
  ∃ p, p ∈ l ∧ key_of (wp_meta p) = k ∧ peer_Key p = x.
Proof.
  intros (q & Hq & Hk & Hx)%state_keys_elem. rewrite desiredState_Peers in Hq.
  apply list_elem_of_fmap in Hq as (p & -> & Hp). exists p. rewrite renderPeer_key in Hk. done.
Qed.

Lemma state_keys_rendered wg pk l p :
  NoDup (key_of ∘ wp_meta <$> l) → p ∈ l →
  state_keys (agent.Peers (desiredState wg pk l)) !! key_of (wp_meta p) = Some (peer_Key p).
Proof.
  intros Hnd Hp. rewrite <-(renderPeer_key p). apply (state_keys_lookup _ (renderPeer p)).
  - rewrite desiredState_Peers, <-list_fmap_compose.
    erewrite list_fmap_ext; [exact Hnd|]. intros i q _. apply renderPeer_key.
  - rewrite desiredState_Peers. by apply list_elem_of_fmap_2.
Qed.
End facts.

#[export] Instance lawful_dec `{WgTypes, ApplyLib} e : Decision (lawful e).
Proof. destruct e as [[] r]; cbn in *; try apply _; destruct r; apply _. Defined.

(** ** Properties *)

#[local] Existing Instances Reference.wgtypes Reference.conditions Reference.ipnetgen
  Reference.ipnetgen_spec RefCluster.owners RefCluster.applylib RefCluster.owned_service
  RefCluster.owned_deployment RefCluster.codec.

Lemma pass_lawful : Forall lawful RefCluster.pass.1.1.
Proof. by_evaluation. Qed.

(** C3: a pass over the peers of a gateway returns only servable ones (peers of the
    gateway, admissible, with names, keys and addresses of their own, each address
    one the allocator hands out), and each with an address the API server stores,
    whatever the server answers within its contract. *)
Theorem reconcilePeers_safe
    `{WgTypes, ConditionLib, IpnetgenSpec, OwnerLib, ApplyLib}
    `{!OwnedObject Service, !OwnedObject Deployment, !agent.StateCodec} req wg tr l :
  validatePeerCIDR (effectivePeerCIDR4 wg) = None → Forall lawful tr →
  exec (reconcilePeers req wg) tr (Ok l) →
  servable req wg l ∧ Forall (stored tr) l.
Proof. apply reconcilePeers_exec. Qed.

Lemma reconcilePeers_safe_witness :
  RefCluster.pass.1.2 = Ok [RefCluster.alice; RefCluster.bob_ready] ∧
  servable RefCluster.req RefCluster.gw [RefCluster.alice; RefCluster.bob_ready].
Proof.
  split; [vm_compute; reflexivity|].
  apply (reconcilePeers_safe RefCluster.req RefCluster.gw RefCluster.pass.1.1).
  - vm_compute. reflexivity.
  - apply pass_lawful.
  - apply RefCluster.pass_exec.
Defined.

Lemma sample_servable : servable RefCluster.req RefCluster.gw [RefCluster.alice; RefCluster.bob_ready].
Proof.
  eapply reconcilePeers_exec; [vm_compute; reflexivity|apply pass_lawful|].
  exact RefCluster.pass_exec.
Qed.



(** the agent accepts exactly the states with a server key of 44 bytes in which
    every peer has an address and a key; the state rendered from servable peers is
    one, and lists no key and no address twice. *)
Lemma rendered_state_is_accepted `{WgTypes} req wg l pk :
  servable req wg l → len pk = 44 →
  agent.IsStateValid (desiredState wg pk l) = None ∧
  NoDup (peer_Key <$> agent.Peers (desiredState wg pk l)) ∧
  NoDup (peer_Address <$> agent.Peers (desiredState wg pk l)).
Proof.
  intros Hs Hpk. split; [by eapply desiredState_valid|]. rewrite desiredState_Peers, <-!list_fmap_compose.
  split; [exact (sv_keys _ _ _ Hs)|exact (sv_addresses _ _ _ Hs)].
Qed.

Lemma rendered_state_is_accepted_witness :
  agent.IsStateValid (desiredState RefCluster.gw RefCluster.keyS [RefCluster.alice; RefCluster.bob_ready]) = None ∧
  NoDup (peer_Key <$> agent.Peers
    (desiredState RefCluster.gw RefCluster.keyS [RefCluster.alice; RefCluster.bob_ready])).
Proof.
  destruct (rendered_state_is_accepted RefCluster.req RefCluster.gw
    [RefCluster.alice; RefCluster.bob_ready] RefCluster.keyS) as (Hv & Hk & _).
  - apply sample_servable.
  - reflexivity.
  - exact (conj Hv Hk).
Defined.
