(* ===== verification/GatewayFacts.v ===== *)
(** * Gateway validation: correctness

    What each check of [Gateway] accepts, in terms of sets of addresses, and what
    a spec that passes them all guarantees. *)

From S2P Require Import Prelude GoStd Netip NetipFacts Api External Ipam AgentState Peers Resources Gateway Effects Controller.

Lemma specProblem_pure_reason wg reason msg :
  specProblem_pure wg = Some (reason, msg) → reason ≠ "".
Proof. unfold specProblem_pure. intros E. repeat case_match; by simplify_eq. Qed.

Lemma specProblem_pure_None wg :
  specProblem_pure wg = None →
  validatePeerCIDR (effectivePeerCIDR4 wg) = None ∧
  probeAddressInPeerCIDR (effectivePeerCIDR4 wg) = None ∧
  validateLocalCIDRs (LocalCIDRs (wg_Spec wg)) = None ∧
  peerCIDROverlap (effectivePeerCIDR4 wg) (LocalCIDRs (wg_Spec wg)) = None ∧
  probeAddressInLocalCIDRs (LocalCIDRs (wg_Spec wg)) = None ∧
  reservedInEnv (g_Env (Gluetun (wg_Spec wg))) = "".
Proof.
  unfold specProblem_pure. intros E. repeat case_match; simplify_eq. split_and!; try done.
  by apply dec_stable.
Qed.

(** [c] is the canonical text of the prefix of [b] bits at [v]. *)
Definition canonical (c : string) (v b : Z) : Prop :=
  c = text4 v b ∧ u32 v ∧ 0 <= b <= 32 ∧ base v b = v.

(** [x] is an address of the prefix of [b] bits at [v]. *)
Definition inside (v b x : Z) : Prop := v <= x < v + psize b.

Definition local_ok (c : string) : Prop := ∃ v b, canonical c v b.

Lemma parsed_canonical c v b : canonical c v b → ParsePrefix c = Ok (prefix4 v b) ∧ parsed c = prefix4 v b.
Proof.
  intros (-> & Hv & Hb & _). unfold parsed. by rewrite ParsePrefix_text4.
Qed.

Lemma validateLocalCIDRs_from_None i cidrs :
  validateLocalCIDRs_from i cidrs = None ↔ Forall local_ok cidrs.
Proof.
  revert i. induction cidrs as [|c cidrs IH]; intros i; cbn [validateLocalCIDRs_from].
  { split; [constructor|done]. }
  rewrite Forall_cons, <-(IH (i + 1)). unfold local_ok. split.
  - destruct (ParsePrefix c) as [p|] eqn:E; [|done].
    destruct (Is4 (p_ip p)) eqn:H4; cbn [negb]; [|done].
    apply ParsePrefix_4 in E as (v & b & -> & Hv & Hb & ->); [|done].
    rewrite Masked_4 by done. case_decide as Hd; [done|]. intros Hr. split; [|done].
    exists v, b. unfold prefix4, addr4 in Hd. injection Hd as Hd. done.
  - intros [(v & b & Hc) Hr]. destruct (parsed_canonical _ _ _ Hc) as [-> _].
    destruct Hc as (_ & Hv & Hb & Hbase). cbn [prefix4 addr4 p_ip Is4 a_z negb].
    change (mkPrefix (addr4 v) (b + 1)) with (prefix4 v b).
    rewrite Masked_4, Hbase by done. by rewrite decide_False by tauto.
Qed.

Lemma validateLocalCIDRs_None cidrs : validateLocalCIDRs cidrs = None ↔ Forall local_ok cidrs.
Proof. apply validateLocalCIDRs_from_None. Qed.

Lemma peerCIDROverlap_None cidr locals :
  peerCIDROverlap cidr locals = None ↔ Forall (λ c, Overlaps (parsed cidr) (parsed c) = false) locals.
Proof.
  unfold peerCIDROverlap. generalize 0 as i. induction locals as [|c locals IH]; intros i; cbn.
  { split; [constructor|done]. }
  rewrite Forall_cons. destruct (Overlaps (parsed cidr) (parsed c)); [by intuition|].
  rewrite IH. by intuition.
Qed.

Lemma probeAddressInLocalCIDRs_None locals :
  probeAddressInLocalCIDRs locals = None ↔ Forall (λ c, Contains (parsed c) probeAddr = false) locals.
Proof.
  unfold probeAddressInLocalCIDRs. generalize 0 as i. induction locals as [|c locals IH]; intros i; cbn.
  { split; [constructor|done]. }
  rewrite Forall_cons. destruct (Contains (parsed c) probeAddr); [by intuition|].
  rewrite IH. by intuition.
Qed.

(** 192.0.2.1 *)
Definition probe : Z := 3221225985.

Lemma probeAddr_4 : probeAddr = addr4 probe.
Proof. by vm_compute. Qed.

Lemma canonical_disjoint c v b c' v' b' :
  canonical c v b → canonical c' v' b' → Overlaps (parsed c) (parsed c') = false →
  ∀ x, inside v b x → inside v' b' x → False.
Proof.
  intros Hc Hc' Ho x Hx Hx'.
  destruct (parsed_canonical _ _ _ Hc) as [_ Ep], (parsed_canonical _ _ _ Hc') as [_ Ep'].
  rewrite Ep, Ep' in Ho. destruct Hc as (_ & Hv & Hb & Hbase), Hc' as (_ & Hv' & Hb' & Hbase').
  apply not_true_iff_false in Ho. apply Ho, Overlaps_4; try done.
  exists x. rewrite Hbase, Hbase'. split_and!; try apply Hx; try apply Hx'.
  pose proof (base_top v b Hb Hv). unfold inside, u32 in *. lia.
Qed.

Lemma canonical_not_probe c v b :
  canonical c v b → Contains (parsed c) probeAddr = false → ¬ inside v b probe.
Proof.
  intros Hc Hp Hin. destruct (parsed_canonical _ _ _ Hc) as [_ Ep]. destruct Hc as (_ & Hv & Hb & Hbase).
  apply not_true_iff_false in Hp. apply Hp. rewrite Ep, probeAddr_4, Contains_4 by done.
  rewrite Hbase. done.
Qed.

(** What a spec that passes every check guarantees of the networks it names. *)
Record sound_networks (wg : Wireguard) : Prop := {
  sn_peer : ∃ v b, canonical (effectivePeerCIDR4 wg) v b ∧ b <= 30 ∧ ¬ inside v b probe;
  sn_local : ∀ c, c ∈ LocalCIDRs (wg_Spec wg) → ∃ v b, canonical c v b ∧ 1 <= b ∧ ¬ inside v b probe;
  sn_disjoint : ∀ c v b v' b', c ∈ LocalCIDRs (wg_Spec wg) →
    canonical (effectivePeerCIDR4 wg) v b → canonical c v' b' →
    ∀ x, inside v b x → inside v' b' x → False;
}.

Lemma specProblem_networks wg : specProblem_pure wg = None → sound_networks wg.
Proof.
  intros (Hpeer & Hprobe & Hlocal & Hover & Hprobe' & _)%specProblem_pure_None.
  apply validatePeerCIDR_None in Hpeer as (v & b & Hc & Hv & Hb & Hbase).
  assert (canonical (effectivePeerCIDR4 wg) v b) as Hcan by (split_and!; [done|done|lia|lia|done]).
  rewrite validateLocalCIDRs_None, Forall_forall in Hlocal.
  rewrite peerCIDROverlap_None, Forall_forall in Hover.
  rewrite probeAddressInLocalCIDRs_None, Forall_forall in Hprobe'.
  split.
  - exists v, b. split_and!; [done|lia|]. eapply canonical_not_probe; [done|].
    unfold probeAddressInPeerCIDR in Hprobe. by destruct (Contains _ _).
  - intros c Hin. destruct (Hlocal c Hin) as (v' & b' & Hc'). exists v', b'. split_and!; [done| |].
    + destruct (decide (b' = 0)) as [->|]; [|destruct Hc' as (_ & _ & ? & _); lia]. exfalso.
      eapply (canonical_disjoint _ v b c v' 0); eauto.
      * instantiate (1 := v). unfold inside. pose proof (psize_pos b). lia.
      * destruct Hc' as (_ & Hv' & Hb' & Hbase'). pose proof (base_top v' 0 ltac:(lia) Hv').
        unfold inside, psize, u32 in *. change (2 ^ (32 - 0)) with (2 ^ 32). lia.
    + eapply canonical_not_probe; [done|]. by apply Hprobe'.
  - intros c v' b' v'' b'' Hin H1 H2. eapply canonical_disjoint; eauto.
Qed.
