(* ===== verification/PassOutcomes.v ===== *)
(** * A pass over the peers: what it achieves

    Besides the safety of [PassFacts]: a pass over settled peers writes
    nothing, a recorded problem is not recorded twice, and no peer goes without
    an address while one is free. *)

From S2P Require Import Prelude GoStd Netip NetipFacts Effects Api External Ipam AgentState Peers Resources Gateway Controller ReferenceCluster ControllerEffects PassFacts.

(** ** [dedupe] without contention *)

Lemma sublist_perm_eq {A} (l k : list A) : l `sublist_of` k → l ≡ₚ k → l = k.
Proof.
  intros Hs Hp%Permutation_length. induction Hs as [|x l k Hs IH|x l k Hs IH]; cbn in *; [done|..].
  - f_equal. apply IH. lia.
  - apply sublist_length in Hs. lia.
Qed.

Lemma dedupe_spec_none field beats peers keep losers :
  dedupe_spec field beats peers keep losers → NoDup (field <$> peers) → keep = peers ∧ losers = [].
Proof.
  intros [Hsub Hpart _ Hloser _] Hnd. destruct losers as [|l losers].
  - split; [|done]. apply sublist_perm_eq; [done|]. by rewrite app_nil_r in Hpart.
  - exfalso. destruct (Hloser l) as (w & Hw & _ & E & _); [by left|].
    rewrite <-Hpart, fmap_app in Hnd. apply NoDup_app in Hnd as (_ & Hdis & _).
    apply (Hdis (field w)); [by apply list_elem_of_fmap_2|]. rewrite E. by left.
Qed.

Section passes.
Context `{WgTypes, ConditionLib, Ipnetgen, OwnerLib, ApplyLib}.
Context `{!OwnedObject Service, !OwnedObject Deployment, !agent.StateCodec}.
#[local] Abbreviation ev := (@existT KOp KRes).

(** ** Not-ready records *)

(** The status [markPeerNotReady] writes: nothing of the gateway is left in it. *)
Definition released (nr : notReady) (q : WireguardPeer) : Prop :=
  ps_Status (wp_Status q) = nr_Status nr ∧ peer_Address q = "" ∧
  ps_Endpoint (wp_Status q) = "" ∧ ps_ServerPublicKey (wp_Status q) = "" ∧
  ps_LocalCIDRs (wp_Status q) = [].

Lemma markPeerNotReady_writes p nr tr r q x :
  exec (markPeerNotReady p nr) tr r → ev (UpdatePeerStatus q) x ∈ tr →
  ident q = ident p ∧ released nr q ∧ peerStatusMatches q nr = true.
Proof.
  unfold markPeerNotReady. intros Hex He. destruct (peerStatusMatches p nr); [no_events|].
  apply exec_bind in Hex as (now & t1 & t2 & -> & (? & ? & -> & -> & <-) & Hex).
  apply elem_of_app in He as [He%list_elem_of_singleton|He]; [done|]. cbv zeta in Hex.
  apply exec_bind in Hex as (y & t3 & t4 & -> & (? & ? & -> & -> & <-) & Hex).
  assert (t4 = []) as -> by (destruct y; [by destruct Hex|case_match; by destruct Hex]).
  rewrite app_nil_r in He. apply list_elem_of_singleton in He.
  apply (f_equal (@projT1 KOp KRes)) in He. cbn [projT1] in He. injection He as ->.
  split; [done|]. split; [done|].
  unfold peerStatusMatches. cbn [wp_Status set_peer_Status ps_Status ps_Address ps_Endpoint
    ps_ServerPublicKey ps_LocalCIDRs ps_Message ps_Conditions].
  rewrite !bool_decide_true by done. cbn [andb].
  destruct (Find_Set_eq now (ps_Conditions (wp_Status p))
    (condition ConditionReady ConditionFalse (nr_Reason nr) (nr_ConditionMessage nr)
       (Generation (wp_meta p)))) as [t Ht].
  change (c_Type (condition ConditionReady _ _ _ _)) with ConditionReady in Ht. rewrite Ht.
  cbn. by rewrite !bool_decide_true.
Qed.

(** ** Settled peers *)

(** A peer [allocatePeers] has nothing to write for. *)
Definition settled (wg : Wireguard) (p : WireguardPeer) : Prop :=
  admissible wg p ∧ addressUsable (peer_Address p) (effectivePeerCIDR4 wg) = true ∧
  ps_Status (wp_Status p) = v1alpha1.Ready ∧
  FindStatusCondition (ps_Conditions (wp_Status p)) ConditionReady = None.

Lemma foldl_snoc {A} (acc l : list A) : foldl (λ acc x, acc ++ [x]) acc l = acc ++ l.
Proof.
  revert acc. induction l as [|x l IH]; intros acc; cbn; [by rewrite app_nil_r|].
  rewrite IH, <-app_assoc. done.
Qed.

Lemma foldl_snoc_snd {A B} (u : B) (acc l : list A) :
  foldl (λ (acc : B * list A) x, (acc.1, acc.2 ++ [x])) (u, acc) l = (u, acc ++ l).
Proof.
  revert acc. induction l as [|x l IH]; intros acc; cbn; [by rewrite app_nil_r|].
  rewrite IH, <-app_assoc. done.
Qed.

Lemma admitPeers_settled wg peers :
  Forall (admissible wg) peers → admitPeers wg peers = Ret (Ok peers).
Proof.
  intros Ha. unfold admitPeers. rewrite (loopE_pure (λ acc x, acc ++ [x])).
  - by rewrite foldl_snoc.
  - intros acc p Hp. rewrite Forall_forall in Ha. destruct (Ha p Hp) as [-> ->]. done.
Qed.

Lemma allocatePeers_settled wg peers :
  Forall (settled wg) peers → allocatePeers (effectivePeerCIDR4 wg) peers = Ret (Ok peers).
Proof.
  intros Hs. unfold allocatePeers.
  rewrite (loopE_pure (λ acc x, (acc.1, acc.2 ++ [x]))).
  - by rewrite foldl_snoc_snd.
  - intros [used acc] p Hp. rewrite Forall_forall in Hs. destruct (Hs p Hp) as (_ & Hu & Hr & Hc).
    unfold allocatePeer. rewrite decide_False by (by eapply addressUsable_nonempty).
    by rewrite !bool_decide_true by done.
Qed.

Lemma clearUnusable_settled wg p : settled wg p → clearUnusable (effectivePeerCIDR4 wg) p = p.
Proof. intros (_ & Hu & _). unfold clearUnusable. rewrite Hu. by rewrite andb_false_r. Qed.

(** The peers the first successful list of a trace gave. *)
Fixpoint listing (tr : list (event KRes)) : option (list WireguardPeer) :=
  match tr with
  | [] => None
  | existT ListPeers (Ok ls) :: _ => Some ls
  | _ :: tr' => listing tr'
  end.

Lemma releaseLosers_nil f : releaseLosers [] f = Ret (Ok ()).
Proof. done. Qed.

Lemma admittedKeys_exec wg tr r :
  exec (admittedKeys wg) tr r → ∃ x, tr = [ev (GetSecret (key_of (wg_meta wg))) x].
Proof.
  unfold admittedKeys. intros (x & t1 & t2 & -> & (? & ? & -> & -> & <-) & Hex)%exec_bind. exists x.
  assert (t2 = []) as ->; [|done]. destruct x; [case_match|]; by destruct Hex.
Qed.

(** On settled peers with keys and addresses of their own, a pass is its reads. *)
Lemma reconcilePeers_settled req wg tr r ls :
  let peers := filter (λ p, gatewayKey p = req) ls in
  Forall (settled wg) peers → NoDup (peer_Key <$> peers) → NoDup (peer_Address <$> peers) →
  exec (reconcilePeers req wg) tr r → listing tr = Some ls →
  r = Ok peers ∧ Forall (λ e, may [Reads] (projT1 e)) tr.
Proof.
  intros peers Hs Hk Ha Hex Hls. unfold reconcilePeers in Hex.
  apply exec_bind in Hex as (c & t1 & t2 & -> & (x & ->)%admittedKeys_exec & Hex).
  destruct c as [current|err]; [|by destruct Hex as [-> _]].
  apply exec_bind in Hex as (ps & t3 & t4 & -> & Hg & Hex).
  apply exec_bind in Hg as (ls' & t5 & t6 & -> & (? & ? & -> & -> & <-) & Hg).
  destruct ls' as [ls'|err]; destruct Hg as [-> ->]; [|by destruct Hex as [-> _]].
  cbn in Hls. injection Hls as ->. fold peers in Hex.
  assert (Forall (admissible wg) peers) as Hadm.
  { eapply Forall_impl; [exact Hs|]. by intros p [? _]. }
  rewrite (admitPeers_settled wg peers Hadm) in Hex. cbn [bindE pbind] in Hex.
  destruct (dedupe_spec_none _ _ _ _ _ (dedupePublicKeys_ok peers current) Hk) as [Ek El].
  destruct (dedupePublicKeys peers current) as [keyed keyLosers]. cbn [fst snd] in Ek, El. subst.
  rewrite releaseLosers_nil in Hex. cbn [bindE pbind] in Hex. cbv zeta in Hex.
  assert (clearUnusable (effectivePeerCIDR4 wg) <$> peers = peers) as Hclear.
  { rewrite <-(list_fmap_id peers) at 2. apply list_fmap_ext. intros i p Hp.
    apply clearUnusable_settled. rewrite Forall_forall in Hs. apply Hs. by eapply list_elem_of_lookup_2. }
  rewrite Hclear in Hex.
  destruct (dedupe_spec_none _ _ _ _ _ (dedupeAddresses_ok peers) Ha) as [Ek El].
  destruct (dedupeAddresses peers) as [keep losers]. cbn [fst snd] in Ek, El. subst.
  rewrite releaseLosers_nil, (allocatePeers_settled wg peers Hs) in Hex.
  destruct Hex as [-> ->]. split; [done|]. by repeat constructor.
Qed.

(** ** Completeness of the allocation *)

(** No status write of a peer fails. *)
Definition accepted (e : event KRes) : Prop :=
  lawful e ∧ match e with existT (UpdatePeerStatus _) (Err _) => False | _ => True end.

Lemma mark_Ok p nr tr r :
  Forall accepted tr → exec (unless_skipped (markPeerNotReady p nr)) tr r → ∃ u, r = Ok u.
Proof.
  intros Hacc Hex. unfold unless_skipped, markPeerNotReady in Hex.
  apply exec_bind in Hex as (a & t1 & t2 & -> & Hm & Hex). apply Forall_app in Hacc as [Hacc _].
  assert (a = None) as ->; [|destruct Hex as [_ ->]; eauto].
  destruct (peerStatusMatches p nr); [by destruct Hm|]. cbv zeta in Hm. inv_exec.
  destruct a1 as [w|e]; [by destruct Hm|]. exfalso.
  match goal with H : accepted (existT (UpdatePeerStatus _) _) |- _ => by destruct H end.
Qed.

Lemma allocatePeer_Ok cidr acc p tr r :
  Forall accepted tr → exec (allocatePeer cidr acc p) tr r → ∃ acc', r = Ok acc'.
Proof.
  intros Hacc Hex. unfold allocatePeer in Hex. destruct acc as [used l].
  assert (∀ b q u l, exec (readyPeer b q u l) tr r → ∃ acc', r = Ok acc') as Hready.
  { intros b q u k Hq. unfold readyPeer in Hq. apply exec_bind in Hq as (w & t1 & t2 & -> & (? & ? & -> & -> & <-) & Hq).
    destruct w; [destruct Hq as [_ ->]; eauto|]. inv_exec. by destruct H5. }
  case_decide; [destruct (AllocateIP cidr used)|destruct (_ && _)]; eauto.
  - apply exec_bind in Hex as (a & t1 & t2 & -> & Hm & Hex). apply Forall_app in Hacc as [Hacc _].
    destruct (mark_Ok _ _ _ _ Hacc Hm) as [u ->]. destruct Hex as [_ ->]. eauto.
  - destruct Hex as [_ ->]. eauto.
Qed.

Section complete.
Context `{!IpnetgenSpec} (v b : Z) (peers : list WireguardPeer).
Hypothesis Hv : u32 v.
Hypothesis Hb : 0 <= b <= 30.

(** Every address of the prefix is reserved, held by a peer of the pass or given
    to one. *)
Definition exhausted (l : list WireguardPeer) : Prop :=
  ∀ k, Z.of_nat k < psize b →
    string4 (base v b + Z.of_nat k) ∈ GetUsedIPs (text4 v b) peers ++ (peer_Address <$> l).

(** [p] is among the returned peers [l], or the pool is exhausted. *)
Definition settles (l : list WireguardPeer) (p : WireguardPeer) : Prop :=
  (∃ q, q ∈ l ∧ ident q = ident p) ∨ (peer_Address p = "" ∧ exhausted l).

Lemma settles_app l k p : settles l p → settles (l ++ k) p.
Proof.
  intros [(q & Hq & E)|[Ha Hex]].
  - left. exists q. split; [|done]. apply elem_of_app. by left.
  - right. split; [done|]. intros i Hi. specialize (Hex i Hi).
    rewrite fmap_app. rewrite !elem_of_app in *. tauto.
Qed.

Definition complete_inv (pre : list WireguardPeer) (acc : list string * list WireguardPeer) : Prop :=
  acc.1 ⊆ GetUsedIPs (text4 v b) peers ++ (peer_Address <$> acc.2) ∧ Forall (settles acc.2) pre.

Lemma complete_push pre x y (used used' : list string) l :
  complete_inv pre (used, l) → ident y = ident x → used' ⊆ used ++ [peer_Address y] →
  complete_inv (pre ++ [x]) (used', l ++ [y]).
Proof.
  intros [Hu Hp] Hy Hu'. split; cbn in *.
  - rewrite fmap_app. cbn. set_solver.
  - apply Forall_app. split.
    + eapply Forall_impl; [exact Hp|]. intros p. apply settles_app.
    + apply Forall_singleton. left. exists y. split; [|done]. apply elem_of_app. right. by left.
Qed.

Lemma readyPeer_complete (isNew : bool) pre x y used used' l t acc :
  Forall accepted t → complete_inv pre (used, l) → ident y = ident x →
  used' ⊆ used ++ [peer_Address y] → exec (readyPeer isNew y used' l) t (Ok acc) →
  complete_inv (pre ++ [x]) acc.
Proof.
  intros Hacc Hinv Hy Hu Hex. unfold readyPeer in Hex.
  apply exec_bind in Hex as (w & t1 & t2 & -> & (? & ? & -> & -> & <-) & Hex).
  apply Forall_app in Hacc as [Hacc _]. apply Forall_singleton in Hacc as [Hlaw Hok].
  destruct w as [w|e]; [|done]. destruct Hex as [_ [= ->]]. destruct Hlaw as [Hid Ha].
  rewrite ident_readied in Hid. eapply complete_push; [exact Hinv|congruence|].
  by rewrite Ha.
Qed.

Lemma allocatePeer_complete pre x acc t acc' :
  Forall accepted t → complete_inv pre acc → exec (allocatePeer (text4 v b) acc x) t (Ok acc') →
  complete_inv (pre ++ [x]) acc'.
Proof.
  destruct acc as [used l]. intros Hacc Hinv Hex. unfold allocatePeer in Hex. case_decide as He.
  - destruct (AllocateIP_spec v b used Hv ltac:(lia)) as [(k & Hk & Hip & _)|[Herr Hfull]].
    + rewrite Hip in Hex. eapply readyPeer_complete; [exact Hacc|exact Hinv| | |exact Hex]; done.
    + rewrite Herr in Hex. inv_exec. destruct Hinv as [Hu Hp]. split; [done|].
      apply Forall_app. split; [done|]. apply Forall_singleton. right. split; [done|].
      intros k Hk. by apply Hu, Hfull.
  - destruct (_ && _).
    + inv_exec. eapply complete_push; [exact Hinv|done|]. set_solver.
    + eapply readyPeer_complete; [exact Hacc|exact Hinv|done| |exact Hex]. set_solver.
Qed.

Lemma allocatePeers_complete tr r :
  Forall accepted tr → exec (allocatePeers (text4 v b) peers) tr r →
  ∃ l, r = Ok l ∧ Forall (settles l) peers.
Proof.
  intros Hacc Hex. unfold allocatePeers in Hex.
  apply exec_bind in Hex as (a & t1 & t2 & -> & Hl & Hex). apply Forall_app in Hacc as [Hacc _].
  destruct (loopE_Ok accepted _ _ _ _ _ (allocatePeer_Ok (text4 v b)) Hacc Hl) as [acc ->].
  destruct Hex as [_ ->]. exists acc.2. split; [done|].
  eapply (loopE_inv accepted complete_inv) in Hl as [_ Hp]; [exact Hp|..|exact Hacc].
  - intros. by eapply allocatePeer_complete.
  - split; [set_solver|constructor].
Qed.
End complete.

(** ** What is recorded on the peers *)

(** The problem [nr] is on record for [p]: it was, or a write of [tr] records it. *)
Definition recorded (nr : notReady) (tr : list (event KRes)) (p : WireguardPeer) : Prop :=
  peerStatusMatches p nr = true ∨
  ∃ q x, ev (UpdatePeerStatus q) x ∈ tr ∧ ident q = ident p ∧ released nr q ∧
    peerStatusMatches q nr = true.

Lemma recorded_incl nr tr tr' p : tr ⊆ tr' → recorded nr tr p → recorded nr tr' p.
Proof. intros Hsub [?|(q & x & ? & ?)]; [by left|]. right. exists q, x. auto. Qed.

Lemma mark_recorded nr p tr r :
  exec (unless_skipped (markPeerNotReady p nr)) tr r → recorded nr tr p.
Proof.
  unfold unless_skipped. intros (a & t1 & t2 & -> & Hm & _)%exec_bind.
  eapply (recorded_incl _ t1); [set_solver|]. clear t2 r.
  destruct (peerStatusMatches p nr) eqn:E; [by left|right].
  pose proof Hm as Hm'. unfold markPeerNotReady in Hm. rewrite E in Hm.
  apply exec_bind in Hm as (now & t3 & t4 & -> & _ & Hm). cbv zeta in Hm.
  apply exec_bind in Hm as (x & t5 & t6 & -> & (? & ? & -> & -> & <-) & _).
  match type of Hm' with exec _ (_ ++ [existT (UpdatePeerStatus ?q) ?x] ++ _) _ =>
    exists q, x; assert (ev (UpdatePeerStatus q) x ∈ t3 ++ [ev (UpdatePeerStatus q) x] ++ t6) as He end.
  { set_solver. }
  split; [done|]. by eapply markPeerNotReady_writes.
Qed.

Lemma markPeersWireguardNotFound_recorded req tr r ls :
  Forall accepted tr → listing tr = Some ls → exec (markPeersWireguardNotFound req) tr r →
  r = None ∧
  Forall (recorded (wireguardNotFound (nn_Name req) (nn_Namespace req)) tr)
    (filter (λ p, gatewayKey p = req) ls).
Proof.
  intros Hacc Hls Hex. unfold markPeersWireguardNotFound in Hex.
  apply exec_bind in Hex as (a & t1 & t2 & -> & Ha & [-> ->]). rewrite app_nil_r in *.
  apply exec_bind in Ha as (ps & t3 & t4 & -> & Hg & Ha).
  apply exec_bind in Hg as (ls' & t5 & t6 & -> & (? & ? & -> & -> & <-) & Hg).
  destruct ls' as [ls'|err]; destruct Hg as [-> ->]; [|by destruct Ha as [-> _]].
  cbn in Hls. injection Hls as ->. cbv zeta in Ha. apply Forall_app in Hacc as [_ Hacc].
  pose proof Ha as Ha'. eapply (loopE_Ok accepted) in Ha' as [u ->]; [|..|exact Hacc].
  2: { intros. by eapply mark_Ok. }
  split; [done|].
  eapply (loopE_trace (λ _, True) (λ pre t _, Forall (recorded _ t) pre)) in Ha; [..|by apply Forall_true].
  - eapply Forall_impl; [exact Ha|]. intros p. apply recorded_incl. set_solver.
  - intros pre x post t0 t s1 s2 _ _ Hpre Hb. apply Forall_app. split.
    + eapply Forall_impl; [exact Hpre|]. intros p. apply recorded_incl. set_solver.
    + apply Forall_singleton. eapply recorded_incl; [|by eapply mark_recorded]. set_solver.
  - constructor.
Qed.

(** [p] carries what a client of [wg] needs. *)
Definition carries (wg : Wireguard) (id : serverIdentity) (p : WireguardPeer) : Prop :=
  ps_Endpoint (wp_Status p) = id_Endpoint id ∧ ps_ServerPublicKey (wp_Status p) = id_PublicKey id ∧
  ps_LocalCIDRs (wp_Status p) = LocalCIDRs (wg_Spec wg).

(** [p] carries it, or a write of [tr] gives it, changing neither the peer's address
    nor its readiness; one that failed lost to another write or found no peer. *)
Definition synced (wg : Wireguard) (id : serverIdentity) (tr : list (event KRes)) (p : WireguardPeer)
    : Prop :=
  carries wg id p ∨
  ∃ q x, ev (UpdatePeerStatus q) x ∈ tr ∧ ident q = ident p ∧ carries wg id q ∧
    peer_Address q = peer_Address p ∧ ps_Status (wp_Status q) = ps_Status (wp_Status p) ∧
    ∀ e, x = Err e → skipPeerWrite e = true.

Lemma synced_incl wg id tr tr' p : tr ⊆ tr' → synced wg id tr p → synced wg id tr' p.
Proof. intros Hsub [?|(q & x & ? & ?)]; [by left|]. right. exists q, x. auto. Qed.

Lemma syncPeerIdentity_synced wg id peers tr u :
  exec (syncPeerIdentity wg id peers) tr (Ok u) → Forall (synced wg id tr) peers.
Proof.
  intros Hex. unfold syncPeerIdentity in Hex.
  eapply (loopE_trace (λ _, True) (λ pre t _, Forall (synced wg id t) pre)) in Hex; [exact Hex|..|by apply Forall_true].
  - intros pre x post t0 t s1 s2 _ _ Hpre Hb. apply Forall_app. split.
    { eapply Forall_impl; [exact Hpre|]. intros p. apply synced_incl. set_solver. }
    apply Forall_singleton. eapply (synced_incl _ _ t); [set_solver|]. cbv zeta in Hb.
    destruct (_ && _) eqn:E.
    + left. rewrite !andb_true_iff, !bool_decide_eq_true in E. by destruct E as [[? ?] ?].
    + right. apply exec_bind in Hb as (y & t1 & t2 & -> & (? & ? & -> & -> & <-) & Hb).
      eexists _, _. split; [by left|]. split_and!; try done. intros e ->.
      by destruct (skipPeerWrite e); [|destruct Hb].
  - constructor.
Qed.

End passes.

#[export] Instance accepted_dec `{WgTypes, ApplyLib} e : Decision (accepted e).
Proof. unfold accepted. apply and_dec; [apply _|]. destruct e as [[] r]; cbn in *; try apply _; destruct r; apply _. Defined.

(** ** Properties *)

(** An operation with its response. *)
#[local] Abbreviation ev := (@existT KOp KRes).

#[local] Existing Instances Reference.wgtypes Reference.conditions Reference.ipnetgen
  Reference.ipnetgen_spec RefCluster.owners RefCluster.applylib RefCluster.owned_service
  RefCluster.owned_deployment RefCluster.codec.


Definition fair_run :=
  run (RefCluster.cluster []) (allocatePeers "10.8.0.0/30" [RefCluster.alice; RefCluster.bob]) ().


(** a pass over settled peers (admissible, at usable addresses, ready, with keys
    and addresses of their own) writes nothing and returns them as they are. *)
Lemma reconcilePeers_quiescent
    `{WgTypes, ConditionLib, Ipnetgen, OwnerLib, ApplyLib}
    `{!OwnedObject Service, !OwnedObject Deployment, !agent.StateCodec} req wg tr r ls :
  Forall (settled wg) (filter (λ p, gatewayKey p = req) ls) →
  NoDup (peer_Key <$> filter (λ p, gatewayKey p = req) ls) →
  NoDup (peer_Address <$> filter (λ p, gatewayKey p = req) ls) →
  exec (reconcilePeers req wg) tr r → listing tr = Some ls →
  r = Ok (filter (λ p, gatewayKey p = req) ls) ∧ Forall (λ e, effect_of (projT1 e) = Reads) tr.
Proof.
  intros Hs Hk Ha Hex Hl. destruct (reconcilePeers_settled req wg tr r ls Hs Hk Ha Hex Hl) as [-> Hr].
  split; [done|]. eapply Forall_impl; [exact Hr|]. intros e. unfold may.
  rewrite bool_decide_eq_true. by intros ?%list_elem_of_singleton.
Qed.

Definition settled_run :=
  run (RefCluster.cluster [RefCluster.alice; RefCluster.bob_ready]) (reconcilePeers RefCluster.req RefCluster.gw) ().

Lemma reconcilePeers_quiescent_witness :
  settled_run.1.2 = Ok [RefCluster.alice; RefCluster.bob_ready] ∧
  Forall (λ e, effect_of (projT1 e) = Reads) settled_run.1.1.
Proof.
  apply (reconcilePeers_quiescent RefCluster.req RefCluster.gw _ _ [RefCluster.alice; RefCluster.bob_ready]).
  - repeat constructor; vm_compute; reflexivity.
  - by_evaluation.
  - by_evaluation.
  - apply run_is_exec.
  - vm_compute. reflexivity.
Defined.

(** when a Wireguard does not exist, the reconcile leaves WireguardNotFound on
    record for every peer that names it, with no address, endpoint or key of the
    gateway left in its status, provided no status write is lost. *)
Lemma missing_wireguard_is_recorded
    `{WgTypes, ConditionLib, Ipnetgen, OwnerLib, ApplyLib}
    `{!OwnedObject Service, !OwnedObject Deployment, !agent.StateCodec} req tr r ls :
  Forall accepted tr → listing tr = Some ls → exec (markPeersWireguardNotFound req) tr r →
  r = None ∧
  Forall (recorded (wireguardNotFound (nn_Name req) (nn_Namespace req)) tr)
    (filter (λ p, gatewayKey p = req) ls).
Proof. apply markPeersWireguardNotFound_recorded. Qed.

Definition missing_run :=
  run (RefCluster.cluster [RefCluster.alice; RefCluster.bob]) (markPeersWireguardNotFound RefCluster.req) ().

Lemma missing_wireguard_is_recorded_witness :
  missing_run.1.2 = None ∧
  Forall (recorded (wireguardNotFound "gw" "vpn") missing_run.1.1) [RefCluster.alice; RefCluster.bob].
Proof.
  apply (missing_wireguard_is_recorded RefCluster.req _ _ [RefCluster.alice; RefCluster.bob]).
  - by_evaluation.
  - vm_compute. reflexivity.
  - apply run_is_exec.
Defined.

(** Recording a problem twice writes once: what [markPeerNotReady] writes is a
    status on which it writes nothing more. *)
Theorem not_ready_is_recorded_once
    `{WgTypes, ConditionLib, Ipnetgen, OwnerLib, ApplyLib} p nr tr r q x :
  exec (markPeerNotReady p nr) tr r → ev (UpdatePeerStatus q) x ∈ tr →
  ident q = ident p ∧ released nr q ∧ markPeerNotReady q nr = Ret None.
Proof.
  intros Hex He. destruct (markPeerNotReady_writes p nr tr r q x Hex He) as (Hid & Hrel & Hm).
  split; [done|]. split; [done|]. unfold markPeerNotReady. by rewrite Hm.
Qed.
