(* ===== verification/ReconcileFacts.v ===== *)
(** * Reconcile: correctness

    The phases of [WireguardReconciler.Reconcile], what each writes and why, and
    the theorems about the reconcile as a whole, each with a run of the cluster
    of [ReferenceCluster] that meets its hypotheses. *)

From S2P Require Import Prelude GoStd Netip NetipFacts Effects Api External Ipam AgentState Peers Resources Gateway Controller ReferenceCluster ControllerEffects PassFacts GatewayFacts PassOutcomes.

Section facts.
Context `{WgTypes, ConditionLib, Ipnetgen, OwnerLib, ApplyLib}.
Context `{!OwnedObject Service, !OwnedObject Deployment, !agent.StateCodec}.

(** An operation with its response. *)
#[local] Abbreviation ev := (@existT KOp KRes).

(** ** The phases of a reconcile *)

Context (img pull : string).

Lemma specProblem_Ok wg tr reason msg :
  exec (specProblem wg) tr (Ok (reason, msg)) → reason = "" → specProblem_pure wg = None.
Proof.
  unfold specProblem. intros Hex ->. destruct (specProblem_pure wg) as [[r m]|] eqn:E; [|done].
  destruct Hex as [_ [= <- <-]]. by destruct (specProblem_pure_reason _ _ _ E).
Qed.

Lemma Reconcile_render req tr r e :
  exec (Reconcile img pull req) tr r → e ∈ tr →
  may [WritesSecret; WritesPod; WritesOwned] (projT1 e) →
  ∃ wg t t', tr = ev (GetWireguard req) (Ok wg) :: t ++ t' ∧ specProblem_pure wg = None ∧
    exec (reconcileService img pull req wg) t' r ∧ e ∈ t'.
Proof.
  unfold Reconcile. intros Hex He Hef.
  apply exec_bind in Hex as (g & t0 & tr0 & -> & Hg & Hex).
  destruct Hg as (? & ? & -> & -> & <-).
  apply elem_of_app in He as [->%list_elem_of_singleton|He]; [discriminate|].
  destruct g as [wg|err].
  - case_decide.
    + apply exec_bind in Hex as (u & t1 & t2 & -> & Hu & [-> _]). rewrite app_nil_r in He. not_emitted.
    + apply exec_bind in Hex as (p & t1 & t2 & -> & Hp & Hex).
      apply elem_of_app in He as [He|He]; [not_emitted|].
      destruct p as [[reason msg]|err]; [|no_events].
      case_decide as Hr.
      * apply exec_bind in Hex as (u & t3 & t4 & -> & Hu & [-> _]). rewrite app_nil_r in He. not_emitted.
      * exists wg, t1, t2. split_and!; [done| |done|done].
        by eapply specProblem_Ok.
  - destruct (errors_Is err NotFound); [|no_events].
    apply exec_bind in Hex as (u & t1 & t2 & -> & Hu & [-> _]). rewrite app_nil_r in He. not_emitted.
Qed.

Lemma reconcileService_secret req wg tr r e :
  exec (reconcileService img pull req wg) tr r → e ∈ tr →
  may [WritesSecret; WritesPod] (projT1 e) →
  ∃ name ip t t', tr = t ++ t' ∧ clusterIPOutside name ip (LocalCIDRs (wg_Spec wg)) = None ∧
    exec (reconcileSecret img pull req wg ip) t' r ∧ e ∈ t'.
Proof.
  unfold reconcileService. intros Hex He Hef.
  destruct (service_ForWireguard wg) as [svc|err]; [|not_emitted].
  apply exec_bind in Hex as (a & t1 & t2 & -> & Ha & Hex).
  apply elem_of_app in He as [He|He]; [not_emitted|].
  destruct a as [svc'|err]; [|not_emitted].
  destruct (clusterIPOutside _ _ _) as [err|] eqn:Ec; [|by eauto 10].
  apply exec_bind in Hex as (u & t3 & t4 & -> & Hu & [-> _]). rewrite app_nil_r in He. not_emitted.
Qed.

(** ** Secret writes *)

Lemma secret_ForWireguard_Ok wg st pk pub s :
  secret_ForWireguard wg st pk pub = Ok s →
  key_of (sec_meta s) = key_of (wg_meta wg) ∧ data s "state.json" = st ∧
  data s "privateKey" = pk ∧ data s "publicKey" = pub.
Proof.
  unfold secret_ForWireguard, SetOwnerReference. intros E. repeat case_match; simplify_eq. done.
Qed.

(** [s] is the Secret rendered from [wg], the key [pk] and the peers [l]. *)
Definition renders (wg : Wireguard) (pk pub : string) (l : list WireguardPeer) (s : Secret) : Prop :=
  key_of (sec_meta s) = key_of (wg_meta wg) ∧
  agent.Marshal (desiredState wg pk l) = Ok (data s "state.json") ∧
  data s "privateKey" = pk ∧ data s "publicKey" = pub.

(** How a reconcile writes a Secret: it updates the one it read, keeping its keys,
    or creates one with a new key when it found none. *)
Inductive secret_write (wg : Wireguard) (l : list WireguardPeer) (tr : list (event KRes))
    : event KRes → Prop :=
  | updates old s w :
      ev (GetSecret (key_of (wg_meta wg))) (Ok old) ∈ tr →
      renders wg (data old "privateKey") (data old "publicKey") l s →
      data s "state.json" ≠ data old "state.json" →
      secret_write wg l tr (ev (UpdateSecret s) w)
  | creates e k s w :
      ev (GetSecret (key_of (wg_meta wg))) (Err e) ∈ tr → errors_Is e NotFound = true →
      ev GeneratePrivateKey (Ok k) ∈ tr →
      renders wg (Key_String k) (Key_String (Key_PublicKey k)) l s →
      secret_write wg l tr (ev (CreateSecret s) w).

Lemma touchPods_no_secret pods tr r e :
  exec (touchPods pods) tr r → e ∈ tr → may [WritesSecret] (projT1 e) → False.
Proof.
  intros Hex He Hef. refine (emits_not (may [Reads; WritesPod]) _ _ _ e _ Hex He _).
  - unfold touchPods. solve_emits.
  - unfold may in *. destruct (effect_of _); discriminate.
Qed.

Lemma refreshSecret_writes wg old l tr r tr' e :
  exec (refreshSecret wg old l) tr r → e ∈ tr → may [WritesSecret] (projT1 e) →
  ev (GetSecret (key_of (wg_meta wg))) (Ok old) ∈ tr' → secret_write wg l tr' e.
Proof.
  unfold refreshSecret. intros Hex He Hef Hold.
  destruct (agent.Marshal _) as [b|] eqn:Em; [|no_events].
  case_decide as Hb; [no_events|].
  destruct (secret_ForWireguard _ _ _ _) as [s|] eqn:Es; [|no_events].
  apply secret_ForWireguard_Ok in Es as (Hk & Hst & Hpk & Hpub).
  apply exec_bind in Hex as (w & t1 & t2 & -> & (? & ? & -> & -> & <-) & Hex).
  apply elem_of_app in He as [->%list_elem_of_singleton|He].
  { eapply updates; [done| |by rewrite Hst]. by rewrite <-Hst in Em. }
  exfalso. destruct w as [err|]; [no_events|].
  apply exec_bind in Hex as (p & t3 & t4 & -> & (? & ? & -> & -> & <-) & Hex).
  apply elem_of_app in He as [->%list_elem_of_singleton|He]; [discriminate|].
  destruct p; [by eapply touchPods_no_secret|no_events].
Qed.

Lemma createSecret_writes wg l err tr r tr' e :
  exec (createSecret wg l) tr r → e ∈ tr → may [WritesSecret] (projT1 e) → tr ⊆ tr' →
  ev (GetSecret (key_of (wg_meta wg))) (Err err) ∈ tr' → errors_Is err NotFound = true →
  secret_write wg l tr' e.
Proof.
  unfold createSecret. intros Hex He Hef Hsub Herr Hnf.
  apply exec_bind in Hex as (k & t1 & t2 & -> & (? & ? & -> & -> & <-) & Hex).
  apply elem_of_app in He as [->%list_elem_of_singleton|He]; [discriminate|].
  destruct k as [k|]; [|no_events]. cbv zeta in Hex.
  destruct (agent.Marshal _) as [b|] eqn:Em; [|no_events].
  destruct (secret_ForWireguard _ _ _ _) as [s|] eqn:Es; [|no_events].
  apply secret_ForWireguard_Ok in Es as (Hk & Hst & Hpk & Hpub).
  apply exec_bind in Hex as (w & t3 & t4 & -> & (? & ? & -> & -> & <-) & Hex).
  apply elem_of_app in He as [->%list_elem_of_singleton|He].
  { eapply creates; [done|done|apply Hsub; by left|]. by rewrite <-Hst in Em. }
  exfalso. destruct w; no_events.
Qed.

Lemma stored_incl tr tr' p : tr ⊆ tr' → stored tr p → stored tr' p.
Proof.
  intros Hsub [(ls & q & Hl & Hq & ? & ?)|(q & Hq)].
  - left. exists ls, q. split_and!; try done. by apply Hsub.
  - right. exists q. by apply Hsub.
Qed.

Lemma secret_write_incl wg l tr tr' e : tr ⊆ tr' → secret_write wg l tr e → secret_write wg l tr' e.
Proof. intros Hsub [old s w Ho|err k s w He Hn Hk]; [eapply updates|eapply creates]; eauto. Qed.

Lemma reconcileSecret_writes `{!IpnetgenSpec} req wg ip tr r e :
  validatePeerCIDR (effectivePeerCIDR4 wg) = None → Forall lawful tr →
  exec (reconcileSecret img pull req wg ip) tr r → e ∈ tr → may [WritesSecret] (projT1 e) →
  ∃ l, servable req wg l ∧ Forall (stored tr) l ∧ secret_write wg l tr e.
Proof.
  unfold reconcileSecret. intros Hcidr Hlaw Hex He Hef.
  apply exec_bind in Hex as (p & t1 & t2 & -> & Hp & Hex).
  apply elem_of_app in He as [He|He]; [not_emitted|].
  destruct p as [l|err]; [|no_events]. apply Forall_app in Hlaw as [Hlaw _].
  destruct (reconcilePeers_exec req wg t1 l Hcidr Hlaw Hp) as [Hserv Hst].
  exists l. split; [done|]. split.
  { eapply Forall_impl; [exact Hst|]. intros q. apply stored_incl. set_solver. }
  apply exec_bind in Hex as (g & t3 & t4 & -> & (? & ? & -> & -> & <-) & Hex).
  apply elem_of_app in He as [->%list_elem_of_singleton|He]; [discriminate|].
  destruct g as [old|err].
  - apply exec_bind in Hex as (x & t5 & t6 & -> & Hr & Hex).
    apply elem_of_app in He as [He|He].
    + eapply refreshSecret_writes; [exact Hr|done|done|]. set_solver.
    + destruct x; [not_emitted|no_events].
  - destruct (errors_Is err NotFound) eqn:Hn; [|no_events].
    apply exec_bind in Hex as (x & t5 & t6 & -> & Hr & [-> _]). rewrite app_nil_r in He.
    eapply createSecret_writes; [exact Hr|done|done| | |exact Hn]; set_solver.
Qed.

Lemma Reconcile_secret_write `{!IpnetgenSpec} req tr r e :
  Forall lawful tr → exec (Reconcile img pull req) tr r → e ∈ tr → may [WritesSecret] (projT1 e) →
  ∃ wg l, head tr = Some (ev (GetWireguard req) (Ok wg)) ∧ specProblem_pure wg = None ∧
    servable req wg l ∧ Forall (stored tr) l ∧ secret_write wg l tr e.
Proof.
  intros Hlaw Hex He Hef.
  apply (Reconcile_render _ _ _ e) in Hex as (wg & t & t' & -> & Hsp & Hex & He'); [|done|].
  2: { unfold may in *. by destruct (effect_of _). }
  apply (reconcileService_secret _ _ _ _ e) in Hex as (name & ip & t1 & t2 & -> & _ & Hex & He''); [|done|].
  2: { unfold may in *. by destruct (effect_of _). }
  pose proof Hsp as [Hcidr _]%specProblem_pure_None.
  rewrite Forall_cons, !Forall_app in Hlaw. destruct Hlaw as (_ & _ & _ & Hlaw).
  destruct (reconcileSecret_writes req wg ip t2 r e) as (l & Hs & Hst & Hw); [done..|].
  exists wg, l. split_and!; [done|done|done| |].
  - eapply Forall_impl; [exact Hst|]. intros q. apply stored_incl. set_solver.
  - eapply secret_write_incl; [|exact Hw]. set_solver.
Qed.

(** ** Status writes *)

(** [w] is the object [latest] with the status [updateStatus] gives it for [c]. *)
Definition status_for (wg : Wireguard) (c : Condition) (i : option serverIdentity)
    (latest w : Wireguard) : Prop :=
  ∃ t now now', w = {| wg_meta := wg_meta latest; wg_Spec := wg_Spec latest;
    wg_Status := statusWith (with_generation (Generation (wg_meta wg)) (with_transition t c)) i
                   now now' (wg_Status latest) |}.

Lemma updateStatus_writes wg ty st rs ms g i tr r w x :
  exec (updateStatus wg (condition ty st rs ms g) i) tr r → ev (UpdateWireguardStatus w) x ∈ tr →
  ∃ latest, ev (GetWireguard (key_of (wg_meta wg))) (Ok latest) ∈ tr ∧
    status_for wg (condition ty st rs ms g) i latest w.
Proof.
  unfold updateStatus. intros Hex He.
  apply exec_bind in Hex as (l & t1 & t2 & -> & (? & ? & -> & -> & <-) & Hex).
  apply elem_of_app in He as [He%list_elem_of_singleton|He]; [done|].
  destruct l as [latest|err]; [|no_events].
  exists latest. split; [apply elem_of_app; left; by left|].
  change (c_LastTransitionTime (condition ty st rs ms g) =? 0) with true in Hex. cbv iota in Hex.
  apply exec_bind in Hex as (c & t3 & t4 & -> & Hc & Hex).
  apply exec_bind in Hc as (now & t5 & t6 & -> & (? & ? & -> & -> & <-) & [-> ->]). cbv zeta in Hex.
  apply exec_bind in Hex as (now1 & t7 & t8 & -> & (? & ? & -> & -> & <-) & Hex).
  apply exec_bind in Hex as (now2 & t9 & t10 & -> & (? & ? & -> & -> & <-) & Hex).
  apply exec_bind in Hex as (y & t11 & t12 & -> & (? & ? & -> & -> & <-) & Hex).
  assert (t12 = []) as -> by (destruct y; by destruct Hex).
  rewrite !elem_of_app, !list_elem_of_singleton, !elem_of_nil in He.
  destruct He as [[He|He]|[He|[He|[He|He]]]]; try done.
  apply (f_equal (@projT1 KOp KRes)) in He. cbn [projT1] in He. injection He as ->.
  exists now, now1, now2. done.
Qed.

(** The Deployment the server answered with when it applied the one rendered from
    [wg]. *)
Definition applied (wg : Wireguard) (dep : Deployment) (tr : list (event KRes)) : Prop :=
  ∃ d u u', deployment_ForWireguard img pull wg = Ok d ∧ ToUnstructured d = Ok u ∧
    ev (Apply u FieldManager true) (Ok u') ∈ tr ∧ FromUnstructured u' d = Ok dep.

(** The gateway's Secret holds the state rendered for the peers [l]: it did when it
    was read, or it was written so. *)
Definition state_current (wg : Wireguard) (secret : Secret) (l : list WireguardPeer)
    (tr : list (event KRes)) : Prop :=
  ev (GetSecret (key_of (wg_meta wg))) (Ok secret) ∈ tr ∧
  (agent.Marshal (desiredState wg (data secret "privateKey") l) = Ok (data secret "state.json") ∨
   ∃ s, renders wg (data secret "privateKey") (data secret "publicKey") l s ∧
     ev (UpdateSecret s) None ∈ tr).

(** Why a reconcile of [wg] records a condition, and with which identity. *)
Inductive status_cause (req : NamespacedName) (wg : Wireguard) (tr : list (event KRes))
    : Condition → option serverIdentity → Prop :=
  | cause_new :
      ws_Status (wg_Status wg) = "" →
      status_cause req wg tr (condition ConditionProgressing ConditionTrue "FetchingStatus"
                                "Fetching Wireguard status" 0) None
  | cause_degraded reason msg :
      reason ≠ "" →
      status_cause req wg tr (condition ConditionDegraded ConditionTrue reason msg 0) None
  | cause_rollout dep reason msg st name ip secret l :
      specProblem_pure wg = None → clusterIPOutside name ip (LocalCIDRs (wg_Spec wg)) = None →
      (∃ t, t ⊆ tr ∧ exec (reconcilePeers req wg) t (Ok l)) →
      applied wg dep tr → state_current wg secret l tr →
      (st = ConditionTrue ↔ rolloutProblem dep = "") →
      Forall (synced wg {| id_Endpoint := JoinHostPort ip (Itoa WireguardPort);
                           id_PublicKey := data secret "publicKey" |} tr) l →
      status_cause req wg tr (condition ConditionReady st reason msg 0)
        (Some {| id_Endpoint := JoinHostPort ip (Itoa WireguardPort);
                 id_PublicKey := data secret "publicKey" |}).

(** A status write of the trace [tr] with its cause. *)
Definition caused (req : NamespacedName) (wg : Wireguard) (tr : list (event KRes)) (w : Wireguard)
    : Prop :=
  ∃ c i latest, status_cause req wg tr c i ∧
    ev (GetWireguard (key_of (wg_meta wg))) (Ok latest) ∈ tr ∧ status_for wg c i latest w.

Lemma applied_incl wg dep tr tr' : tr ⊆ tr' → applied wg dep tr → applied wg dep tr'.
Proof. intros Hsub (d & u & u' & ? & ? & ? & ?). exists d, u, u'. auto. Qed.

Lemma state_current_incl wg s l tr tr' : tr ⊆ tr' → state_current wg s l tr → state_current wg s l tr'.
Proof. intros Hsub (? & [Hs|(s' & ? & ?)]); (split; [by apply Hsub|]); [by left|right; eauto]. Qed.

Lemma caused_incl req wg tr tr' w : tr ⊆ tr' → caused req wg tr w → caused req wg tr' w.
Proof.
  intros Hsub (c & i & latest & Hc & Hg & Hw). exists c, i, latest. split_and!; [|by apply Hsub|done].
  destruct Hc as [| |dep rs ms st name ip secret l Hsp Hip (t & Ht & Hp) Hdep Hst Hr Hsy]; [by constructor..|].
  eapply cause_rollout; eauto using applied_incl, state_current_incl.
  - exists t. split; [by etrans|done].
  - eapply Forall_impl; [exact Hsy|]. intros p. by apply synced_incl.
Qed.

Lemma updateStatus_caused req wg ty st rs ms g i tr r w x tr' :
  exec (updateStatus wg (condition ty st rs ms g) i) tr r → ev (UpdateWireguardStatus w) x ∈ tr →
  tr ⊆ tr' → status_cause req wg tr' (condition ty st rs ms g) i → caused req wg tr' w.
Proof.
  intros Hex He Hsub Hc. destruct (updateStatus_writes _ _ _ _ _ _ _ _ _ _ _ Hex He) as (latest & Hl & Hw).
  exists (condition ty st rs ms g), i, latest. auto.
Qed.

Lemma failDegraded_caused req wg err reason tr r w x :
  reason ≠ "" → exec (failDegraded wg err reason) tr r → ev (UpdateWireguardStatus w) x ∈ tr →
  caused req wg tr w.
Proof.
  intros Hr Hex He. unfold failDegraded in Hex.
  apply exec_bind in Hex as (u & t1 & t2 & -> & Hu & [-> _]). rewrite app_nil_r in *.
  eapply updateStatus_caused; [exact Hu|exact He|done|by constructor].
Qed.

Lemma applyOwned_Ok {T} `{!OwnedObject T} (x y : T) tr :
  exec (applyOwned x) tr (Ok y) →
  ∃ u u', ToUnstructured x = Ok u ∧ ev (Apply u FieldManager true) (Ok u') ∈ tr ∧
    FromUnstructured u' x = Ok y.
Proof.
  unfold applyOwned. intros Hex. destruct (GVKForObject x); [|by destruct Hex].
  apply exec_bindE_Ok in Hex as (? & t1 & t2 & -> & _ & Hex).
  destruct (ToUnstructured x) as [u|]; [|by destruct Hex]. exists u.
  apply exec_bind in Hex as (ans & t3 & t4 & -> & (? & ? & -> & -> & <-) & Hex).
  destruct ans as [u'|]; [|by destruct Hex]. exists u'. split; [done|].
  split; [apply elem_of_app; right; apply elem_of_app; left; by left|].
  destruct (FromUnstructured u' x); [|by destruct Hex]. by destruct Hex as [_ [= ->]].
Qed.

Lemma applyDeployment_Ok wg d dep tr :
  deployment_ForWireguard img pull wg = Ok d → exec (applyDeployment d) tr (Ok dep) →
  applied wg dep tr.
Proof.
  intros Hd Hex. unfold applyDeployment in Hex.
  apply exec_bind in Hex as (r & t1 & t2 & -> & _ & Hex).
  apply exec_bindE_Ok in Hex as (? & t3 & t4 & -> & _ & Hex).
  apply applyOwned_Ok in Hex as (u & u' & Hu & He & Hf). exists d, u, u'. split_and!; try done.
  apply elem_of_app. right. apply elem_of_app. by right.
Qed.

Lemma refreshSecret_Ok wg secret l tr x :
  exec (refreshSecret wg secret l) tr (Ok x) →
  agent.Marshal (desiredState wg (data secret "privateKey") l) = Ok (data secret "state.json") ∨
  ∃ s, renders wg (data secret "privateKey") (data secret "publicKey") l s ∧
    ev (UpdateSecret s) None ∈ tr.
Proof.
  unfold refreshSecret. intros Hex. destruct (agent.Marshal _) as [b|] eqn:Em; [|by destruct Hex].
  case_decide as Hb; [left; by rewrite Hb|right].
  destruct (secret_ForWireguard _ _ _ _) as [s|] eqn:Es; [|by destruct Hex].
  apply secret_ForWireguard_Ok in Es as (Hk & Hst & Hpk & Hpub).
  apply exec_bind in Hex as (w & t1 & t2 & -> & (? & ? & -> & -> & <-) & Hex).
  destruct w; [by destruct Hex|]. exists s. split; [|by left].
  unfold renders. by rewrite Em, Hst.
Qed.

Lemma reconcileDeployment_caused req wg name ip secret l tr r w x tr0 :
  specProblem_pure wg = None → clusterIPOutside name ip (LocalCIDRs (wg_Spec wg)) = None →
  state_current wg secret l tr0 → (∃ t, t ⊆ tr0 ∧ exec (reconcilePeers req wg) t (Ok l)) →
  exec (reconcileDeployment img pull wg ip (data secret "publicKey") l) tr r →
  ev (UpdateWireguardStatus w) x ∈ tr → caused req wg (tr0 ++ tr) w.
Proof.
  intros Hsp Hip Hst (t & Ht & Hp) Hex He. unfold reconcileDeployment in Hex.
  destruct (deployment_ForWireguard img pull wg) as [d|err] eqn:Ed.
  2: { eapply caused_incl; [|eapply failDegraded_caused; [|exact Hex|exact He]; done]. set_solver. }
  apply exec_bind in Hex as (a & t1 & t2 & -> & Ha & Hex).
  apply elem_of_app in He as [He|He]; [not_emitted|].
  destruct a as [dep|err].
  2: { eapply caused_incl; [|eapply failDegraded_caused; [|exact Hex|exact He]; done]. set_solver. }
  cbv zeta in Hex. apply exec_bind in Hex as (y & t3 & t4 & -> & Hy & Hex).
  apply elem_of_app in He as [He|He]; [not_emitted|].
  destruct y; [|no_events].
  apply exec_bind in Hex as (z & t5 & t6 & -> & Hz & [-> _]). rewrite app_nil_r in *.
  assert (applied wg dep (tr0 ++ t1 ++ t3 ++ t5)) as Happ.
  { eapply applied_incl; [|eapply applyDeployment_Ok; [exact Ed|exact Ha]]. set_solver. }
  assert (state_current wg secret l (tr0 ++ t1 ++ t3 ++ t5)) as Hst'.
  { eapply state_current_incl; [|exact Hst]. set_solver. }
  assert (∃ t, t ⊆ tr0 ++ t1 ++ t3 ++ t5 ∧ exec (reconcilePeers req wg) t (Ok l)) as Hpass.
  { exists t. split; [set_solver|done]. }
  case_decide as Hr; (eapply updateStatus_caused; [exact Hz|exact He|set_solver|];
    eapply cause_rollout; try done;
    eapply Forall_impl; [by eapply syncPeerIdentity_synced|intros p; apply synced_incl; set_solver]).
Qed.

Lemma reconcileSecret_caused req wg name ip tr r w x :
  specProblem_pure wg = None → clusterIPOutside name ip (LocalCIDRs (wg_Spec wg)) = None →
  exec (reconcileSecret img pull req wg ip) tr r → ev (UpdateWireguardStatus w) x ∈ tr →
  caused req wg tr w.
Proof.
  intros Hsp Hip Hex He. unfold reconcileSecret in Hex.
  apply exec_bind in Hex as (p & t1 & t2 & -> & Hp & Hex).
  apply elem_of_app in He as [He|He]; [not_emitted|].
  destruct p as [l|err]; [|no_events].
  apply exec_bind in Hex as (g & t3 & t4 & -> & (? & ? & -> & -> & <-) & Hex).
  apply elem_of_app in He as [He%list_elem_of_singleton|He]; [done|].
  destruct g as [secret|err].
  - apply exec_bind in Hex as (a & t5 & t6 & -> & Ha & Hex).
    apply elem_of_app in He as [He|He]; [not_emitted|]. destruct a as [u|]; [|no_events].
    rewrite !app_assoc. eapply reconcileDeployment_caused; [done|done| | |exact Hex|exact He].
    2: { exists t1. split; [set_solver|done]. }
    split; [set_solver|]. apply refreshSecret_Ok in Ha as [?|(s & ? & ?)]; [by left|].
    right. exists s. split; [done|]. set_solver.
  - destruct (errors_Is err NotFound); [|no_events].
    apply exec_bind in Hex as (a & t5 & t6 & -> & Ha & [-> _]). rewrite app_nil_r in He. not_emitted.
Qed.

Lemma reconcileService_caused req wg tr r w x :
  specProblem_pure wg = None → exec (reconcileService img pull req wg) tr r →
  ev (UpdateWireguardStatus w) x ∈ tr → caused req wg tr w.
Proof.
  intros Hsp Hex He. unfold reconcileService in Hex.
  destruct (service_ForWireguard wg) as [svc|err].
  2: { eapply failDegraded_caused; [|exact Hex|exact He]. done. }
  apply exec_bind in Hex as (a & t1 & t2 & -> & Ha & Hex).
  apply elem_of_app in He as [He|He]; [not_emitted|].
  eapply (caused_incl _ _ t2); [set_solver|]. destruct a as [svc'|err].
  2: { eapply failDegraded_caused; [|exact Hex|exact He]. done. }
  destruct (clusterIPOutside _ _ _) as [err|] eqn:Ec.
  - apply exec_bind in Hex as (u & t3 & t4 & -> & Hu & [-> _]). rewrite app_nil_r in *.
    eapply updateStatus_caused; [exact Hu|exact He|done|by constructor].
  - by eapply reconcileSecret_caused.
Qed.

Lemma Reconcile_caused req tr r w x :
  exec (Reconcile img pull req) tr r → ev (UpdateWireguardStatus w) x ∈ tr →
  ∃ wg, head tr = Some (ev (GetWireguard req) (Ok wg)) ∧ caused req wg tr w.
Proof.
  intros Hex He. unfold Reconcile in Hex.
  apply exec_bind in Hex as (g & t0 & tr0 & -> & (? & ? & -> & -> & <-) & Hex).
  apply elem_of_app in He as [He%list_elem_of_singleton|He]; [done|].
  destruct g as [wg|err].
  - exists wg. split; [done|]. eapply (caused_incl _ _ tr0); [set_solver|]. case_decide as Hs.
    + apply exec_bind in Hex as (u & t1 & t2 & -> & Hu & [-> _]). rewrite app_nil_r in *.
      eapply updateStatus_caused; [exact Hu|exact He|done|by constructor].
    + apply exec_bind in Hex as (p & t1 & t2 & -> & Hp & Hex).
      apply elem_of_app in He as [He|He]; [not_emitted|].
      destruct p as [[reason msg]|err]; [|no_events].
      eapply (caused_incl _ _ t2); [set_solver|]. case_decide as Hr.
      * apply exec_bind in Hex as (u & t3 & t4 & -> & Hu & [-> _]). rewrite app_nil_r in *.
        eapply updateStatus_caused; [exact Hu|exact He|done|by constructor].
      * eapply reconcileService_caused; [|exact Hex|exact He]. by eapply specProblem_Ok.
  - destruct (errors_Is err NotFound); [|no_events].
    apply exec_bind in Hex as (u & t1 & t2 & -> & Hu & [-> _]). rewrite app_nil_r in He. not_emitted.
Qed.

(** ** What is recorded on the Wireguard *)

Lemma statusWith_conditions cond i now now' s :
  (c_Type cond = ConditionReady ∨ c_Type cond = ConditionDegraded ∨ c_Type cond = ConditionProgressing) →
  ∃ t, FindStatusCondition (ws_Conditions (statusWith cond i now now' s)) (c_Type cond) =
    Some (with_transition t cond).
Proof.
  intros Hty. cbn [statusWith ws_Conditions].
  destruct (Find_Set_eq now (ws_Conditions s) cond) as [t Ht]. exists t.
  case_decide as Hr; [|exact Ht]. rewrite Find_Set_ne; [exact Ht|]. by rewrite Hr.
Qed.

Lemma statusWith_summary cond i now now' s :
  (ws_Status (statusWith cond i now now' s) = v1alpha1.Ready ↔
     c_Type cond = ConditionReady ∧ c_Status cond = ConditionTrue) ∧
  (ws_Status (statusWith cond i now now' s) = v1alpha1.Error ↔ c_Type cond = ConditionDegraded).
Proof.
  cbn [statusWith ws_Status].
  destruct (decide (c_Type cond = ConditionReady)) as [->|]; [case_decide; by intuition|].
  case_decide; by intuition.
Qed.

Lemma statusWith_clears cond i now now' s :
  c_Type cond = ConditionReady →
  ∃ c, FindStatusCondition (ws_Conditions (statusWith cond i now now' s)) ConditionDegraded = Some c ∧
    c_Status c = ConditionFalse ∧ c_ObservedGeneration c = c_ObservedGeneration cond.
Proof.
  intros Hr. cbn [statusWith ws_Conditions]. rewrite decide_True by done.
  edestruct (Find_Set_eq now') as [t Ht]. eexists. split; [exact Ht|]. done.
Qed.
End facts.

(** ** Properties *)

(** An operation with its response. *)
#[local] Abbreviation ev := (@existT KOp KRes).

#[local] Existing Instances Reference.wgtypes Reference.conditions Reference.ipnetgen
  Reference.ipnetgen_spec RefCluster.owners RefCluster.applylib RefCluster.owned_service
  RefCluster.owned_deployment RefCluster.codec.

Lemma trace_lawful : Forall lawful RefCluster.trace.
Proof. by_evaluation. Qed.

Lemma trace_secret : ∃ e, e ∈ RefCluster.trace ∧ effect_of (projT1 e) = WritesSecret.
Proof. apply Exists_exists. by_evaluation. Qed.

(** The status write of the reconcile. *)
Definition ready_write (e : event KRes) : Prop :=
  match e with existT (UpdateWireguardStatus w) _ => ws_Status (wg_Status w) = v1alpha1.Ready | _ => False end.

#[local] Instance ready_write_dec e : Decision (ready_write e).
Proof. destruct e as [[] r]; cbn; apply _. Defined.

Lemma trace_ready :
  ∃ w x, ev (UpdateWireguardStatus w) x ∈ RefCluster.trace ∧ ws_Status (wg_Status w) = v1alpha1.Ready.
Proof.
  assert (∃ e, e ∈ RefCluster.trace ∧ ready_write e) as ([[] x] & He & Hw); [|try done..].
  - apply Exists_exists. by_evaluation.
  - by exists w, x.
Qed.

(** C1: every Secret a reconcile writes holds the state rendered for a servable set
    of peers: peers of this gateway, admissible, with names, keys and addresses
    of their own, each address one the allocator hands out and stored by the API
    server. The write updates the Secret that was read, keeping its key pair, or
    creates one under a new key when there was none. *)
Theorem reconcile_writes_servable_state
    `{WgTypes, ConditionLib, IpnetgenSpec, OwnerLib, ApplyLib}
    `{!OwnedObject Service, !OwnedObject Deployment, !agent.StateCodec}
    img pull req tr r e :
  Forall lawful tr → exec (Reconcile img pull req) tr r → e ∈ tr →
  effect_of (projT1 e) = WritesSecret →
  ∃ wg l, head tr = Some (ev (GetWireguard req) (Ok wg)) ∧
    servable req wg l ∧ Forall (stored tr) l ∧ secret_write wg l tr e ∧
    ∀ pk, len pk = 44 → agent.IsStateValid (desiredState wg pk l) = None.
Proof.
  intros Hlaw Hex He Hef.
  destruct (Reconcile_secret_write img pull req tr r e Hlaw Hex He) as (wg & l & Hh & _ & Hs & Hst & Hw).
  { unfold may. by rewrite Hef. }
  exists wg, l. split_and!; try done. intros pk. by eapply desiredState_valid.
Qed.

Lemma reconcile_writes_servable_state_witness :
  ∃ e wg l, e ∈ RefCluster.trace ∧ servable RefCluster.req wg l ∧ secret_write wg l RefCluster.trace e.
Proof.
  destruct trace_secret as (e & He & Hef).
  destruct (reconcile_writes_servable_state "agent:1" "Always" RefCluster.req RefCluster.trace
    RefCluster.reconciled.1.2 e) as (wg & l & _ & Hs & _ & Hw & _).
  - apply trace_lawful.
  - apply RefCluster.trace_exec.
  - exact He.
  - exact Hef.
  - exists e, wg, l. done.
Defined.



(** The status of [w] reports [c], observed at the generation [g]: the summary fields
    agree with it, and if it is a Ready condition, Degraded is cleared with it. *)
Record reports `{ConditionLib} (w : Wireguard) (g : Z) (c : Condition) : Prop := {
  rp_found : FindStatusCondition (ws_Conditions (wg_Status w)) (c_Type c) = Some c;
  rp_generation : c_ObservedGeneration c = g;
  rp_message : ws_Message (wg_Status w) = c_Message c;
  rp_ready : ws_Status (wg_Status w) = v1alpha1.Ready ↔
    c_Type c = ConditionReady ∧ c_Status c = ConditionTrue;
  rp_error : ws_Status (wg_Status w) = v1alpha1.Error ↔ c_Type c = ConditionDegraded;
  rp_cleared : c_Type c = ConditionReady → ∃ d,
    FindStatusCondition (ws_Conditions (wg_Status w)) ConditionDegraded = Some d ∧
    c_Status d = ConditionFalse ∧ c_ObservedGeneration d = g;
}.

(** Every status a reconcile writes reports the generation of the Wireguard the
    reconcile started from, never that of the copy it re-read: one condition of the
    written status was observed there, and it is the one the summary reports. A
    Ready condition, of either status, also clears Degraded. *)
Lemma reconcile_status_generation
    `{WgTypes, ConditionLib, Ipnetgen, OwnerLib, ApplyLib}
    `{!OwnedObject Service, !OwnedObject Deployment, !agent.StateCodec}
    img pull req tr r w x :
  exec (Reconcile img pull req) tr r → ev (UpdateWireguardStatus w) x ∈ tr →
  ∃ wg c, head tr = Some (ev (GetWireguard req) (Ok wg)) ∧ reports w (Generation (wg_meta wg)) c.
Proof.
  intros Hex He.
  destruct (Reconcile_caused img pull req tr r w x Hex He) as (wg & Hh & c & i & latest & Hc & _ & Hw).
  exists wg. destruct Hw as (t & now & now' & ->).
  set (c' := with_generation (Generation (wg_meta wg)) (with_transition t c)).
  assert (c_Type c = ConditionReady ∨ c_Type c = ConditionDegraded ∨ c_Type c = ConditionProgressing) as Hty.
  { destruct Hc; cbn; auto. }
  destruct (statusWith_conditions c' i now now' (wg_Status latest) Hty) as [t' Hf].
  exists (with_transition t' c'). split; [done|]. split; cbn [wg_Status]; try done.
  - apply (statusWith_summary c').
  - apply (statusWith_summary c').
  - intros Hr. exact (statusWith_clears c' i now now' (wg_Status latest) Hr).
Qed.

Lemma reconcile_status_generation_witness :
  ∃ w x wg c, ev (UpdateWireguardStatus w) x ∈ RefCluster.trace ∧ reports w (Generation (wg_meta wg)) c.
Proof.
  destruct trace_ready as (w & x & He & _).
  destruct (reconcile_status_generation "agent:1" "Always" RefCluster.req RefCluster.trace
    RefCluster.reconciled.1.2 w x) as (wg & c & _ & Hr);
    [apply RefCluster.trace_exec|exact He|].
  exists w, x, wg, c. exact (conj He Hr).
Defined.

(** The spec of [wg] passes the checks that read nothing else. *)
Definition passes_checks (wg : Wireguard) : Prop :=
  validatePeerCIDR (effectivePeerCIDR4 wg) = None ∧
  probeAddressInPeerCIDR (effectivePeerCIDR4 wg) = None ∧
  validateLocalCIDRs (LocalCIDRs (wg_Spec wg)) = None ∧
  peerCIDROverlap (effectivePeerCIDR4 wg) (LocalCIDRs (wg_Spec wg)) = None ∧
  probeAddressInLocalCIDRs (LocalCIDRs (wg_Spec wg)) = None ∧
  reservedInEnv (g_Env (Gluetun (wg_Spec wg))) = "".


