(* ===== verification/Node.v ===== *)
(** * The node: [net], netlink, WireGuard devices and files

    The values the agent and the client exchange with the kernel, what they use of
    the [net] package on them, and the operations they perform. The kernel, the
    file system and the API server answer the operations. *)

From S2P Require Import Prelude GoStd Netip Effects Api External.

(** ** [net] *)

(** [net.IPNet]. An IP of 4 or 16 bytes is the address it holds, and any other
    slice the zero [Addr], which is what [netip.AddrFromSlice] makes of it. A
    mask is its leading ones and its length in bits. *)
Record IPNet := mkIPNet { n_IP : Addr; n_ones : Z; n_bits : Z }.

#[export] Instance IPNet_eq_dec : EqDecision IPNet.
Proof. solve_decision. Defined.

(** [net.IP.String] *)
Definition ip_String (ip : Addr) : string :=
  if addr_IsValid ip then addr_String (withoutZone (Unmap ip)) else "<nil>".

(** [net.IPNet.String]: an IPv4-mapped IP counts as IPv4, with the last four bytes of
    a 16-byte mask. *)
Definition ipnet_String (n : IPNet) : string :=
  let ip := Unmap (n_IP n) in
  if negb (addr_IsValid ip) then "<nil>"
  else if n_bits n =? BitLen ip then ip_String ip +:+ "/" +:+ Itoa (n_ones n)
  else if Is4 ip && (n_bits n =? 128) then ip_String ip +:+ "/" +:+ Itoa (Z.max 0 (n_ones n - 96))
  else "<nil>".

(** [net.IP.Equal]: an IPv4 address equals its IPv6-mapped form. *)
Definition ip_Equal (a b : Addr) : bool := bool_decide (withoutZone (Unmap a) = withoutZone (Unmap b)).

(** [&net.IPNet{IP: p.Addr().AsSlice(), Mask: net.CIDRMask(p.Bits(), p.Addr().BitLen())}] *)
Definition ipNet (p : Prefix) : IPNet := mkIPNet (p_ip p) (Bits p) (BitLen (p_ip p)).

(** [net.IPv6zero] with [net.CIDRMask(0, 128)] *)
Definition default6 : IPNet := mkIPNet (mkAddr (z6 "") 0) 0 128.

(** [net.IPv4zero.To4()] with [net.CIDRMask(0, 32)] *)
Definition default4 : IPNet := mkIPNet (addr4 0) 0 32.

Definition parseCIDRError (s : string) : error := errors_New ("invalid CIDR address: " +:+ s).

(** The masked network of [net.ParseCIDR], all the sources use of it. Its mask
    length may have leading zeros, but at most 0xFFFFFF. *)
Definition ParseCIDR (s : string) : result IPNet :=
  match cut "/"%char s with
  | None => Err (parseCIDRError s)
  | Some (a, mask) =>
      match ParseAddr a with
      | Err _ => Err (parseCIDRError s)
      | Ok ip =>
          if hasZone ip then Err (parseCIDRError s)
          else
            match ParseUint mask 24 with
            | None => Err (parseCIDRError s)
            | Some n =>
                if BitLen ip <? n then Err (parseCIDRError s)
                else Ok (mkIPNet (p_ip (Masked (PrefixFrom ip n))) n (BitLen ip))
            end
      end
  end.

(** [errors.Join] of two errors that may be nil. *)
Definition errors_Join (a b : option error) : option error :=
  match a, b with
  | Some e, Some f => Some (MkError (err_text e +:+ String (chr 10) (err_text f)) (err_is e ++ err_is f))
  | Some e, None => Some e
  | None, _ => b
  end.

(** ** [github.com/vishvananda/netlink] *)

Definition SCOPE_UNIVERSE : Z := 0.
Definition SCOPE_LINK : Z := 253.
Definition RT_TABLE_MAIN : Z := 254.
Definition RTN_BLACKHOLE : Z := 6.

Record Link := { l_Index : Z; l_Name : string; l_MTU : Z }.

(** [netlink.Route]; a nil [Gw] is the zero [Addr]. *)
Record Route := {
  r_Dst : option IPNet;
  r_Gw : Addr;
  r_LinkIndex : Z;
  r_Priority : Z;
  r_Protocol : Z;
  r_Scope : Z;
  r_Table : Z;
  r_Type : Z;
}.

#[export] Instance Route_eq_dec : EqDecision Route.
Proof. solve_decision. Defined.

(** [netlink.Rule]; [ru_Other] stands for the fields the sources neither set nor
    compare, empty as [netlink.NewRule] leaves them. *)
Record Rule := {
  ru_Priority : Z;
  ru_Table : Z;
  ru_Dst : option IPNet;
  ru_IifName : string;
  ru_Family : Z;
  ru_Other : string;
}.

#[export] Instance Rule_eq_dec : EqDecision Rule.
Proof. solve_decision. Defined.

Definition FAMILY_V4 : Z := 2.

(** ** [golang.zx2c4.com/wireguard/wgctrl/wgtypes] *)

Section wgtypes.
Context `{WgTypes}.

(** [wgtypes.Peer] *)
Record WgPeer := {
  wgp_PublicKey : Key;
  wgp_Endpoint : option AddrPort;  (* [Endpoint.AddrPort()] *)
  wgp_Keepalive : Z;
  wgp_LastHandshakeTime : Z;       (* 0 is the zero time *)
  wgp_AllowedIPs : list IPNet;
}.

(** [wgtypes.Device] *)
Record Device := { dev_Name : string; dev_PrivateKey : Key; dev_Peers : list WgPeer }.

(** [wgtypes.PeerConfig] *)
Record PeerConfig := {
  pc_PublicKey : Key;
  pc_Remove : bool;
  pc_UpdateOnly : bool;
  pc_Endpoint : option AddrPort;
  pc_Keepalive : option Z;
  pc_ReplaceAllowedIPs : bool;
  pc_AllowedIPs : list IPNet;
}.

(** [wgtypes.Config] *)
Record DeviceConfig := {
  dc_PrivateKey : option Key;
  dc_ListenPort : option Z;
  dc_ReplacePeers : bool;
  dc_Peers : list PeerConfig;
}.

(** ** Operations *)

Inductive NOp : Type :=
  (* netlink *)
  | LinkByName (name : string)
  | LinkByIndex (index : Z)
  | LinkAdd (name : string) (mtu : Z) (linkType : string)
  | LinkSetMTU (l : Link) (mtu : Z)
  | LinkSetUp (l : Link)
  | AddrList (l : Link)
  | AddrDel (l : Link) (a : IPNet)
  | AddrAdd (l : Link) (a : IPNet)
  | RouteList (l : Link)
  | RouteListMain (v6 : bool)
  | RouteAdd (r : Route)
  | RouteReplace (r : Route)
  | RouteDel (r : Route)
  | RouteGet (dst : Addr)
  | RouteGetWithOptions (dst : Addr) (iif : string) (src : Addr)
  | RuleList
  | RuleDel (r : Rule)
  | RuleAdd (r : Rule)
  (* wgctrl *)
  | WgNew
  | WgClose
  | WgDevice (iface : string)
  | ConfigureDevice (iface : string) (cfg : DeviceConfig)
  (* files and processes *)
  | MkdirAll (path : string)
  | Stat (path : string)
  | Mknod (path : string)
  | StartProcess (name arg : string)
  | RunCommand (name : string) (args : list string)
  | ReadFile (path : string)
  | OpenExclusive (path : string)
  | WriteString (text : string)
  | CloseFile
  | NewWatcher
  | WatcherAdd (path : string)  (* the directory of the file *)
  (* the network, the clock, the random source *)
  | HTTPGet (url : string)
  | TimeNow
  | Sleep (d : Z)
  | GenerateKey
  (* the API server, from a client pod *)
  | GetPeer (k : NamespacedName)
  | CreatePeer (p : WireguardPeer)
  | DeletePeer (p : WireguardPeer) (uid : string)
  | InClusterConfig
  | AddToScheme
  | NewClient
  | NewCache (k : NamespacedName)  (* of the peer of that namespace and name alone *)
  | GetInformer
  | AddEventHandler
  | WaitForCacheSync  (* of the cache started before it *)
  | ContextDone.

Definition NRes (o : NOp) : Type :=
  match o with
  | LinkByName _ | LinkByIndex _ => result Link
  | AddrList _ => result (list IPNet)
  | RouteList _ | RouteListMain _ | RouteGet _ | RouteGetWithOptions _ _ _ => result (list Route)
  | RuleList => result (list Rule)
  | WgDevice _ => result Device
  | Stat _ => result (bool * bool)  (* ModeDevice, ModeCharDevice *)
  | RunCommand _ _ => string * option error  (* combined output *)
  | ReadFile _ => result string
  | HTTPGet _ => result (Z * string)  (* status code, first 512 bytes of the body *)
  | TimeNow => Z
  | Sleep _ => unit
  | GenerateKey => result Key
  | GetPeer _ => result WireguardPeer
  | WaitForCacheSync | ContextDone => bool
  | _ => option error
  end.
End wgtypes.
