(* ===== verification/WgServer.v ===== *)
(** * The WireGuard link and device ([internal/wireguard/wireguard.go])

    How the agent makes its link exist with one address, and gives the device the
    peers of the state. *)

From S2P Require Import Prelude GoStd Netip NetipFacts Effects Api External Ipam AgentState Node.

#[local] Open Scope prog_scope.

Section wireguard.
Context `{WgTypes}.

Abbreviation N := (prog NRes).

(** A call that only reports an error, as one whose error ends the caller. *)
Definition check (p : N (option error)) : N (result unit) :=
  r <- p ;; match r with Some e => Ret (Err e) | None => Ret (Ok ()) end.

(** The same with the text the caller puts before the error. *)
Definition check_wrapped (pre : string) (p : N (option error)) : N (result unit) :=
  r <- p ;; match r with Some e => Ret (Err (wrapf pre e)) | None => Ret (Ok ()) end.

(** The error of a call that gives nothing else. *)
Definition as_error (p : N (result unit)) : N (option error) :=
  r <- p ;; match r with Ok _ => Ret None | Err e => Ret (Some e) end.

Lemma exec_check p tr u : exec (check p) tr (Ok u) → exec p tr None.
Proof. unfold check. intros Hex. inv_exec. destruct a; inv_exec. by rewrite app_nil_r. Qed.

Lemma exec_check_wrapped pre p tr u : exec (check_wrapped pre p) tr (Ok u) → exec p tr None.
Proof. unfold check_wrapped. intros Hex. inv_exec. destruct a; inv_exec. by rewrite app_nil_r. Qed.

Lemma exec_as_error p tr e :
  exec (as_error p) tr e → ∃ r, exec p tr r ∧ e = match r with Ok _ => None | Err e => Some e end.
Proof. unfold as_error. intros Hex. inv_exec. exists a. destruct a; inv_exec; by rewrite app_nil_r. Qed.

Lemma exec_perform_None o (r : NRes o) tr : exec (perform o) tr r → tr = [existT o r].
Proof. intros (? & ? & -> & -> & <-). done. Qed.

Definition MTU : Z := 1420.

(** ** Addresses and routes *)

(** [syncRoute] for IPv4 *)
Definition syncRoute (iface cidr : string) (gw : Addr) : N (result unit) :=
  link <-? perform (LinkByName iface) ;;
  routes <-? perform (RouteList link) ;;
  if existsb (λ r, r_LinkIndex r =? l_Index link) routes then Ret (Ok ())
  else
    match ParseCIDR cidr with
    | Err e => Ret (Err e)
    | Ok dst =>
        check (perform (RouteAdd {| r_Dst := Some dst; r_Gw := gw; r_LinkIndex := l_Index link;
          r_Priority := 0; r_Protocol := 0; r_Scope := 0; r_Table := 0; r_Type := 0 |}))
    end.

(** [addressChanges] *)
Definition addressChanges (have : list Prefix) (want : Prefix) : list Prefix * bool :=
  (filter (λ p, p ≠ want) have, negb (bool_decide (want ∈ have))).

(** [netlinkAddr] *)
Definition netlinkAddr (p : Prefix) : IPNet := mkIPNet (p_ip p) (Bits p) 32.

(** An address of a link as [SyncAddress] reads it: [a.IP.To4()] is nil for an
    address that is not IPv4. *)
Definition linkPrefix (a : IPNet) : Prefix :=
  let ip := Unmap (n_IP a) in PrefixFrom (if Is4 ip then ip else zeroAddr) (n_ones a).

(** [SyncAddress] *)
Definition SyncAddress (iface : string) (want : Prefix) : N (result unit) :=
  link <-? perform (LinkByName iface) ;;
  r <- perform (AddrList link) ;;
  match r with
  | Err e => Ret (Err (wrapf "netlink addr list: " e))
  | Ok addresses =>
      let '(remove, add) := addressChanges (linkPrefix <$> addresses) want in
      _ <-? loopE (λ _ p, check_wrapped ("netlink addr del " +:+ prefix_String p +:+ ": ")
                            (perform (AddrDel link (netlinkAddr p)))) remove () ;;
      _ <-? (if add then check_wrapped "netlink addr add: " (perform (AddrAdd link (netlinkAddr want)))
             else Ret (Ok ())) ;;
      check (perform (LinkSetUp link))
  end.

(** ** The link *)

(** [createLinkUsingUserspaceImpl] *)
Definition createLinkUsingUserspaceImpl (iface fallback : string) : N (result unit) :=
  _ <-? check (perform (MkdirAll "/dev/net")) ;;
  s <- perform (Stat "/dev/net/tun") ;;
  _ <-? match s with
        | Err e =>
            if errors_Is e ErrNotExist then
              check_wrapped "mknod /dev/net/tun failed: " (perform (Mknod "/dev/net/tun"))
            else Ret (Err e)
        | Ok (device, charDevice) =>
            if negb device || negb charDevice then
              Ret (Err (errors_New "/dev/net/tun exists but is not a character device"))
            else Ret (Ok ())
        end ;;
  check_wrapped ("starting userspace implementation " +:+ Quote fallback +:+ " failed: ")
    (perform (StartProcess fallback iface)).

Definition millisecond : Z := 1000000.
Definition userspaceLinkTimeout : Z := 5000 * millisecond.

Definition waitTimeout (iface : string) (err : error) : error :=
  MkError ("userspace WireGuard did not create link " +:+ Quote iface +:+ " within 5s: " +:+ err_text err +:+
           "; ensure a userspace implementation (e.g., wireguard-go) is running for this interface")
    (err_is err).

(** The loop of [waitForLink], at most [fuel] turns; [None] when they run out. *)
Fixpoint waitForLink_loop (fuel : nat) (iface : string) (deadline : Z) : N (option (result unit)) :=
  match fuel with
  | O => Ret None
  | S fuel =>
      r <- perform (LinkByName iface) ;;
      match r with
      | Ok _ => Ret (Some (Ok ()))
      | Err err =>
          now <- perform TimeNow ;;
          if deadline <? now then Ret (Some (Err (waitTimeout iface err)))
          else _ <- perform (Sleep (100 * millisecond)) ;; waitForLink_loop fuel iface deadline
      end
  end.

(** The turns the loop can take before its deadline: one each 100 ms of 5 s, the one
    that starts at the deadline and the one after it. *)
Definition waitForLink_turns : nat := 52.

(** [waitForLink] with [userspaceLinkTimeout] *)
Definition waitForLink (iface : string) : N (result unit) :=
  now <- perform TimeNow ;;
  r <- waitForLink_loop waitForLink_turns iface (now + userspaceLinkTimeout) ;;
  Ret (default (Err (waitTimeout iface (errors_New "Link not found"))) r).

(** [createLinkUsingKernelModule] *)
Definition createLinkUsingKernelModule (iface : string) (mtu : Z) : N (option error) :=
  perform (LinkAdd iface mtu "wireguard").

(** The part of [SyncLink] that creates a missing link. *)
Definition createLink (iface : string) (mtu : Z) (fallback : string) : N (result unit) :=
  k <- createLinkUsingKernelModule iface mtu ;;
  match k with
  | None => Ret (Ok ())
  | Some kernelErr =>
      u <- createLinkUsingUserspaceImpl iface fallback ;;
      match u with
      | Err userspaceErr =>
          Ret (Err (default kernelErr (errors_Join (Some kernelErr) (Some userspaceErr))))
      | Ok _ => waitForLink iface
      end
  end.

(** [SyncLink] *)
Definition SyncLink (iface : string) (mtu : Z) (fallback : string) : N (result unit) :=
  r <- perform (LinkByName iface) ;;
  link <-? match r with
           | Ok link => Ret (Ok link)
           | Err err =>
               if negb (errors_Is err LinkNotFound) then Ret (Err err)
               else
                 _ <-? createLink iface mtu fallback ;;
                 r <- perform (LinkByName iface) ;;
                 match r with
                 | Ok link => Ret (Ok link)
                 | Err err => Ret (Err (wrapf ("expected link " +:+ Quote iface +:+
                                               " after creation, but not found: ") err))
                 end
           end ;;
  _ <-? (if negb (l_MTU link =? mtu) then
           check_wrapped ("set link " +:+ Quote iface +:+ " MTU to " +:+ Itoa mtu +:+ ": ")
             (perform (LinkSetMTU link mtu))
         else Ret (Ok ())) ;;
  check_wrapped ("bringing link " +:+ Quote iface +:+ " up failed: ") (perform (LinkSetUp link)).

(** ** The device *)

(** [getIP] *)
Definition getIP (ip : string) : result (list IPNet) :=
  match ParseCIDR ip with
  | Err e => Err (wrapf ("parse allowed IP " +:+ Quote ip +:+ ": ") e)
  | Ok n => Ok [n]
  end.

(** [gatewayIPFromPrefix]: the gateway's address, the only result its caller uses. *)
Definition gatewayIPFromPrefix (prefix : Prefix) : result Addr :=
  let prefix := Masked prefix in
  let addr := p_ip prefix in
  if negb (Is4 addr) then
    Err (errors_New ("unsupported address family for prefix " +:+ Quote (prefix_String prefix)))
  else
    let gw := Next addr in
    if negb (Is4 gw) then
      Err (errors_New ("failed to derive IPv4 gateway for prefix " +:+ Quote (prefix_String prefix)))
    else Ok gw.

(** [allowedIPsEqual] *)
Fixpoint allowedIPsEqual (a b : list IPNet) : bool :=
  match a, b with
  | [], [] => true
  | x :: a', y :: b' =>
      ip_Equal (n_IP x) (n_IP y) && (n_ones x =? n_ones y) && (n_bits x =? n_bits y) && allowedIPsEqual a' b'
  | _, _ => false
  end.

(** The peers of the state by key: of two with one key the later. *)
Definition peersState (peers : list WireguardPeer) : gmap string WireguardPeer :=
  foldl (λ m p, <[peer_Key p := p]> m) ∅ peers.

(** What a state's peer is allowed: its address, if it has one. *)
Definition desiredAllowed (p : WireguardPeer) : result (list IPNet) :=
  if decide (peer_Address p ≠ "") then
    match getIP (peer_Address p +:+ "/32") with
    | Err e => Err (wrapf ("peer " +:+ Quote (peer_Name p) +:+ ": ") e)
    | Ok l => Ok l
    end
  else Ok [].

(** The first loop of [createPeersConfiguration]: what to change of the peers the
    device has. *)
Fixpoint existingPeers (state : gmap string WireguardPeer) (peers : list WgPeer)
    (cfg : gmap string PeerConfig) : result (gmap string PeerConfig) :=
  match peers with
  | [] => Ok cfg
  | peer :: peers' =>
      let key := Key_String (wgp_PublicKey peer) in
      match state !! key with
      | None =>
          existingPeers state peers'
            (<[key := {| pc_PublicKey := wgp_PublicKey peer; pc_Remove := true; pc_UpdateOnly := false;
                         pc_Endpoint := None; pc_Keepalive := None; pc_ReplaceAllowedIPs := false;
                         pc_AllowedIPs := wgp_AllowedIPs peer |}]> cfg)
      | Some p =>
          match desiredAllowed p with
          | Err e => Err e
          | Ok allowed =>
              existingPeers state peers'
                (if allowedIPsEqual allowed (wgp_AllowedIPs peer) then cfg
                 else <[key := {| pc_PublicKey := wgp_PublicKey peer; pc_Remove := false;
                                  pc_UpdateOnly := true; pc_Endpoint := None; pc_Keepalive := None;
                                  pc_ReplaceAllowedIPs := true; pc_AllowedIPs := allowed |}]> cfg)
          end
      end
  end.

(** The second loop of [createPeersConfiguration]: the peers to add. *)
Fixpoint newPeers (existing : list string) (peers : list WireguardPeer) (cfg : gmap string PeerConfig)
    : result (gmap string PeerConfig) :=
  match peers with
  | [] => Ok cfg
  | peer :: peers' =>
      if decide (peer_Key peer = "") then newPeers existing peers' cfg
      else if decide (peer_Address peer = "") then newPeers existing peers' cfg
      else
        match ParseKey (peer_Key peer) with
        | Err e => Err e
        | Ok key =>
            if bool_decide (Key_String key ∈ existing) then newPeers existing peers' cfg
            else
              match getIP (peer_Address peer +:+ "/32") with
              | Err e => Err (wrapf ("peer " +:+ Quote (peer_Name peer) +:+ ": ") e)
              | Ok allowed =>
                  newPeers existing peers'
                    (<[Key_String key := {| pc_PublicKey := key; pc_Remove := false;
                         pc_UpdateOnly := false; pc_Endpoint := None; pc_Keepalive := None;
                         pc_ReplaceAllowedIPs := false; pc_AllowedIPs := allowed |}]> cfg)
              end
        end
  end.

(** [createPeersConfiguration] on the device it reads. The source collects the values
    of a map in Go's random order; this is one order, and the theorems hold of
    every one. *)
Definition peersConfiguration (state : agent.State) (device : Device) : result (list PeerConfig) :=
  match existingPeers (peersState (agent.Peers state)) (dev_Peers device) ∅ with
  | Err e => Err e
  | Ok cfg =>
      let existing := (λ p, Key_String (wgp_PublicKey p)) <$> dev_Peers device in
      match newPeers existing (agent.Peers state) cfg with
      | Err e => Err e
      | Ok cfg => Ok (map_to_list cfg).*2
      end
  end.

(** [createPeersConfiguration] *)
Definition createPeersConfiguration (state : agent.State) (iface : string)
    : N (result (list PeerConfig)) :=
  device <-? perform (WgDevice iface) ;;
  Ret (peersConfiguration state device).

(** [CreateWireguardConfiguration] *)
Definition CreateWireguardConfiguration (state : agent.State) (iface : string) (listenPort : Z)
    : N (result DeviceConfig) :=
  match ParseKey (agent.ServerPrivateKey state) with
  | Err e => Ret (Err e)
  | Ok key =>
      peers <-? createPeersConfiguration state iface ;;
      Ret (Ok {| dc_PrivateKey := Some key; dc_ListenPort := Some listenPort;
                 dc_ReplacePeers := false; dc_Peers := peers |})
  end.

(** [syncWireguard]; the deferred [Close] runs on every return after [New]. *)
Definition syncWireguard (state : agent.State) (iface : string) (listenPort : Z) : N (result unit) :=
  n <- perform WgNew ;;
  match n with
  | Some e => Ret (Err (wrapf "open wgctrl client: " e))
  | None =>
      r <- (cfg <-? CreateWireguardConfiguration state iface listenPort ;;
            check (perform (ConfigureDevice iface cfg))) ;;
      c <- perform WgClose ;;
      match errors_Join (match r with Ok _ => None | Err e => Some e end) c with
      | Some e => Ret (Err e)
      | None => Ret (Ok ())
      end
  end.

(** [Wireguard.Sync] *)
Definition Sync (iface : string) (listenPort : Z) (fallback : string) (state : agent.State)
    : N (result unit) :=
  _ <-? SyncLink iface MTU fallback ;;
  let cidr4 := agent.PeerCIDR state in
  match ParsePrefix cidr4 with
  | Err e => Ret (Err (wrapf ("failed to parse IPv4 CIDR " +:+ Quote cidr4 +:+ ": ") e))
  | Ok prefix4 =>
      match gatewayIPFromPrefix prefix4 with
      | Err e => Ret (Err e)
      | Ok gw4 =>
          _ <-? SyncAddress iface (PrefixFrom gw4 32) ;;
          _ <-? syncRoute iface cidr4 gw4 ;;
          syncWireguard state iface listenPort
      end
  end.
Lemma emits_check_wrapped K pre (p : prog NRes (option error)) : emits K p → emits K (check_wrapped pre p).
Proof. intros Hp. unfold check_wrapped. solve_emits. Qed.

Lemma emits_check K (p : prog NRes (option error)) : emits K p → emits K (check p).
Proof. intros Hp. unfold check. solve_emits. Qed.

Lemma emits_as_error K (p : prog NRes (result unit)) : emits K p → emits K (as_error p).
Proof. intros Hp. unfold as_error. solve_emits. Qed.

End wireguard.

(** [solve_emits] through them. *)
Ltac quietly := repeat first [progress solve_emits | apply emits_check | apply emits_check_wrapped].

(** [inv_exec] through [check] and [check_wrapped]. *)
Ltac inv_node :=
  repeat first
    [ progress inv_exec
    | match goal with
      | H : exec (check _) _ _ |- _ => apply exec_check in H
      | H : exec (check_wrapped _ _) _ _ |- _ => apply exec_check_wrapped in H
      | H : exec (perform _) _ None |- _ => apply exec_perform_None in H as ->
      | u : unit |- _ => destruct u
      end ].
