(* ===== verification/WgServerFacts.v ===== *)
(** * The WireGuard device: correctness

    Configuring the device with what [createPeersConfiguration] computes gives it
    exactly the peers of the state, in whatever order the entries are applied and
    without touching a peer that is already right. *)

From S2P Require Import Prelude GoStd Netip NetipFacts Effects Api External Ipam AgentState Peers ReferenceCluster Node WgServer.

(** ** Countable addresses *)

#[export] Instance family_countable : Countable family.
Proof.
  apply (inj_countable' (λ f, match f with z0 => None | z4 => Some None | z6 z => Some (Some z) end)
           (λ o, match o with None => z0 | Some None => z4 | Some (Some z) => z6 z end)).
  by intros [].
Defined.

#[export] Instance Addr_countable : Countable Addr.
Proof. apply (inj_countable' (λ a, (a_z a, a_val a)) (λ p, mkAddr p.1 p.2)). by intros []. Defined.

#[export] Instance IPNet_countable : Countable IPNet.
Proof.
  apply (inj_countable' (λ n, (n_IP n, n_ones n, n_bits n)) (λ p, mkIPNet p.1.1 p.1.2 p.2)). by intros [].
Defined.

(** ** The device *)

(** A device's peers: the networks each is allowed, by the text of its key. *)
Abbreviation Peerings := (gmap string (gset IPNet)).

Section kernel.
Context `{WgTypes}.

Definition pc_key (c : PeerConfig) : string := Key_String (pc_PublicKey c).

Definition pc_allowed (c : PeerConfig) : gset IPNet := list_to_set (pc_AllowedIPs c).

(** What WireGuard documents of configuring one peer: [Remove] deletes it; [UpdateOnly]
    leaves an absent peer absent; otherwise the peer gets the allowed networks,
    besides or instead of those it has, and every other peer loses them. *)
Class WgKernel := {
  apply_peer : Peerings → PeerConfig → Peerings;
  apply_remove : ∀ m c, pc_Remove c = true → apply_peer m c = delete (pc_key c) m;
  apply_absent : ∀ m c, pc_Remove c = false → pc_UpdateOnly c = true → m !! pc_key c = None →
    apply_peer m c = m;
  apply_self : ∀ m c, pc_Remove c = false → (pc_UpdateOnly c = false ∨ is_Some (m !! pc_key c)) →
    apply_peer m c !! pc_key c =
      Some ((if pc_ReplaceAllowedIPs c then ∅ else default ∅ (m !! pc_key c)) ∪ pc_allowed c);
  apply_other : ∀ m c k, pc_Remove c = false → (pc_UpdateOnly c = false ∨ is_Some (m !! pc_key c)) →
    k ≠ pc_key c → apply_peer m c !! k = (λ s, s ∖ pc_allowed c) <$> m !! k;
}.

(** The peers of a device as [wgctrl] lists them. *)
Definition view (dev : Device) : Peerings :=
  list_to_map ((λ p, (Key_String (wgp_PublicKey p), list_to_set (wgp_AllowedIPs p))) <$> dev_Peers dev).

(** The host network of an IPv4 address. *)
Definition host (v : Z) : IPNet := mkIPNet (addr4 v) 32 32.

(** A state as the operator renders it: canonical keys, IPv4 addresses in canonical
    form, no key and no address twice. *)
Record state_ok (peers : list WireguardPeer) : Prop := {
  so_keys : NoDup (peer_Key <$> peers);
  so_addresses : NoDup (peer_Address <$> peers);
  so_peers : ∀ p, p ∈ peers → peer_Key p ≠ "" ∧
    (∃ k, ParseKey (peer_Key p) = Ok k ∧ Key_String k = peer_Key p) ∧
    ∃ v, u32 v ∧ peer_Address p = string4 v;
}.

(** A device as the kernel lists it: one entry per key, every network in the form of
    its family. *)
Record device_ok (dev : Device) : Prop := {
  do_keys : NoDup ((λ p, Key_String (wgp_PublicKey p)) <$> dev_Peers dev);
  do_forms : ∀ p n, p ∈ dev_Peers dev → n ∈ wgp_AllowedIPs p → withoutZone (Unmap (n_IP n)) = n_IP n;
}.

(** What a peer of the state is to reach through its tunnel: its own address. *)
Definition peering (p : WireguardPeer) : gset IPNet :=
  match ParseAddr (peer_Address p) with Ok a => {[mkIPNet a 32 32]} | Err _ => ∅ end.

(** The peers a state asks for. *)
Definition wanted (peers : list WireguardPeer) : Peerings :=
  list_to_map ((λ p, (peer_Key p, peering p)) <$> peers).

(** ** Applying a list of entries *)

Section apply.
Context `{!WgKernel}.

(** What an entry leaves of its peer. *)
Definition outcome (c : PeerConfig) : option (gset IPNet) :=
  if pc_Remove c then None else Some (pc_allowed c).

(** An entry that removes its peer, replaces what it may reach, or adds it. *)
Definition applicable (m : Peerings) (c : PeerConfig) : Prop :=
  pc_Remove c = true ∨
  pc_Remove c = false ∧
    (pc_ReplaceAllowedIPs c = true ∧ is_Some (m !! pc_key c) ∨ pc_UpdateOnly c = false ∧ m !! pc_key c = None).

Lemma apply_applicable m c :
  applicable m c →
  apply_peer m c !! pc_key c = outcome c ∧
  ∀ k, k ≠ pc_key c →
    apply_peer m c !! k = if pc_Remove c then m !! k else (λ s, s ∖ pc_allowed c) <$> m !! k.
Proof.
  intros Ha. unfold outcome. destruct Ha as [Hr|[Hr Ha]]; rewrite Hr.
  - rewrite apply_remove by done. rewrite lookup_delete_eq. split; [done|].
    intros k Hk. by rewrite lookup_delete_ne.
  - assert (pc_UpdateOnly c = false ∨ is_Some (m !! pc_key c)) as Hp by tauto.
    split; [|intros k Hk; by apply apply_other].
    rewrite apply_self by done. f_equal.
    destruct Ha as [[-> _]|[_ ->]]; [|destruct (pc_ReplaceAllowedIPs c)]; by rewrite left_id_L by apply _.
Qed.

Lemma apply_applicable_other m c d :
  applicable m c → pc_key d ≠ pc_key c → applicable m d → applicable (apply_peer m c) d.
Proof.
  intros [_ Ho]%apply_applicable Hk [Hd|[Hd Hm]]; [by left|right; split; [done|]].
  rewrite Ho by done. destruct (pc_Remove c); [done|]. rewrite fmap_is_Some, fmap_None. done.
Qed.

Lemma apply_list_other l m k :
  NoDup (pc_key <$> l) → Forall (applicable m) l → k ∉ pc_key <$> l →
  (∀ c s, c ∈ l → pc_Remove c = false → m !! k = Some s → s ## pc_allowed c) →
  foldl apply_peer m l !! k = m !! k.
Proof.
  revert m. induction l as [|c l IH]; intros m Hnd Hl Hk Hdis; [done|].
  inversion_clear Hnd as [|? ? Hc Hnd']. inversion_clear Hl as [|? ? Hca Hl'].
  apply not_elem_of_cons in Hk as [Hkc Hk]. cbn.
  assert (apply_peer m c !! k = m !! k) as Heq.
  { destruct (apply_applicable _ _ Hca) as [_ ->]; [|done]. destruct (pc_Remove c) eqn:Hr; [done|].
    destruct (m !! k) as [s|] eqn:Hm; [|done]. cbn. f_equal.
    specialize (Hdis c s ltac:(left) Hr eq_refl). set_solver. }
  rewrite IH; [done|done| |done|].
  - rewrite Forall_forall in Hl' |- *. intros d Hd. apply apply_applicable_other; [done| |by apply Hl'].
    intros Hkd. apply Hc. rewrite <- Hkd. by apply list_elem_of_fmap_2.
  - intros d s Hd. rewrite Heq. apply Hdis. by right.
Qed.

Lemma apply_list_member l m c :
  NoDup (pc_key <$> l) → Forall (applicable m) l → c ∈ l →
  (∀ a b, a ∈ l → b ∈ l → pc_key a ≠ pc_key b → pc_Remove a = false → pc_Remove b = false →
     pc_allowed a ## pc_allowed b) →
  foldl apply_peer m l !! pc_key c = outcome c.
Proof.
  revert m. induction l as [|d l IH]; intros m Hnd Hl Hc Hdis; [by apply not_elem_of_nil in Hc|].
  inversion_clear Hnd as [|? ? Hd Hnd']. inversion_clear Hl as [|? ? Hda Hl']. cbn.
  assert (∀ a, a ∈ l → pc_key a ≠ pc_key d) as Hne.
  { intros a Ha Hk. apply Hd. rewrite <- Hk. by apply list_elem_of_fmap_2. }
  assert (Forall (applicable (apply_peer m d)) l) as Hl''.
  { rewrite Forall_forall in Hl' |- *. auto using apply_applicable_other. }
  apply elem_of_cons in Hc as [->|Hc].
  - destruct (apply_applicable _ _ Hda) as [Hself _]. rewrite apply_list_other; [done..|].
    intros a s Ha Hr. rewrite Hself. unfold outcome. destruct (pc_Remove d) eqn:Hrd; [done|].
    intros [= <-]. apply Hdis; [left|by right|symmetry; by apply Hne|done|done].
  - apply IH; [done..|]. intros. apply Hdis; (done || by right).
Qed.
End apply.
End kernel.

(** ** What is allowed *)

Lemma getIP_host v : u32 v → getIP (string4 v +:+ "/32") = Ok [host v].
Proof.
  intros Hv. unfold getIP, ParseCIDR. change "/32" with (String "/" "32").
  rewrite cut_app by (by apply string4_no_byte). rewrite ParseAddr_string4 by done.
  change (hasZone (addr4 v)) with false. change (ParseUint "32" 24) with (Some 32).
  change (BitLen (addr4 v) <? 32) with false. cbv iota.
  rewrite PrefixFrom_4 by lia. rewrite Masked_4 by lia.
  rewrite (base_spec v 32) by lia. unfold psize, host. do 3 f_equal.
  cbn [prefix4 p_ip]. f_equal. change (2 ^ (32 - 32)) with 1. rewrite Z.div_1_r. lia.
Qed.

Lemma peering_host p v : u32 v → peer_Address p = string4 v → peering p = {[host v]}.
Proof. intros Hv Ha. unfold peering. by rewrite Ha, ParseAddr_string4. Qed.

Lemma desiredAllowed_host p v : u32 v → peer_Address p = string4 v → desiredAllowed p = Ok [host v].
Proof.
  intros Hv Ha. unfold desiredAllowed. rewrite Ha, getIP_host by done.
  rewrite decide_True; [done|]. intros He. pose proof (ParseAddr_string4 v Hv) as Hp. by rewrite He in Hp.
Qed.

(** Comparing with one host network decides equality of what a device allows. *)
Lemma allowedIPsEqual_host v l :
  (∀ n, n ∈ l → withoutZone (Unmap (n_IP n)) = n_IP n) →
  allowedIPsEqual [host v] l = bool_decide (l = [host v]).
Proof.
  intros Hl. destruct l as [|n [|n' l]]; cbn [allowedIPsEqual].
  - by rewrite bool_decide_eq_false_2.
  - specialize (Hl n ltac:(left)). unfold ip_Equal. rewrite Hl, andb_true_r.
    change (withoutZone (Unmap (n_IP (host v)))) with (addr4 v).
    apply eq_true_iff_eq. destruct n as [ip o b]. cbn [host n_IP n_ones n_bits].
    rewrite !andb_true_iff, bool_decide_eq_true, !Z.eqb_eq, bool_decide_eq_true. unfold host.
    split; [intros [[-> <-] <-]|intros [= -> -> ->]]; done.
  - rewrite andb_false_r, bool_decide_eq_false_2; done.
Qed.

(** ** What each entry is *)

Section entries.
Context `{WgTypes}.

Definition device_key (p : WgPeer) : string := Key_String (wgp_PublicKey p).

(** The state has a peer with this key and this address. *)
Definition assigned (peers : list WireguardPeer) (k : string) (v : Z) : Prop :=
  ∃ p, p ∈ peers ∧ peer_Key p = k ∧ peer_Address p = string4 v ∧ u32 v.

(** The entry for a peer of the device: none if it is right, its removal if the state
    has no such peer, the replacement of what it may reach otherwise. *)
Definition adjusted (peers : list WireguardPeer) (peer : WgPeer) (o : option PeerConfig) : Prop :=
  match o with
  | None => ∃ v, assigned peers (device_key peer) v ∧ wgp_AllowedIPs peer = [host v]
  | Some c =>
      pc_PublicKey c = wgp_PublicKey peer ∧
      if pc_Remove c then device_key peer ∉ peer_Key <$> peers
      else pc_ReplaceAllowedIPs c = true ∧
           ∃ v, assigned peers (device_key peer) v ∧ pc_AllowedIPs c = [host v] ∧ wgp_AllowedIPs peer ≠ [host v]
  end.

(** The entry for a peer the device does not have. *)
Definition added (peers : list WireguardPeer) (k : string) (o : option PeerConfig) : Prop :=
  ∃ c v, o = Some c ∧ pc_key c = k ∧ pc_Remove c = false ∧ pc_UpdateOnly c = false ∧
    assigned peers k v ∧ pc_AllowedIPs c = [host v].

Lemma peersState_lookup peers k :
  NoDup (peer_Key <$> peers) →
  match peersState peers !! k with
  | Some p => p ∈ peers ∧ peer_Key p = k
  | None => k ∉ peer_Key <$> peers
  end.
Proof.
  unfold peersState. induction peers as [|p l IH] using rev_ind; intros Hnd.
  { cbn [foldl]. rewrite lookup_empty. apply not_elem_of_nil. }
  rewrite fmap_app in Hnd. apply NoDup_app in Hnd as (Hl & _ & _). specialize (IH Hl).
  rewrite foldl_app. cbn [foldl]. destruct (decide (peer_Key p = k)) as [<-|Hk].
  - rewrite lookup_insert_eq. split; [|done]. apply elem_of_app. right. by apply list_elem_of_singleton.
  - rewrite lookup_insert_ne by done. destruct (foldl _ _ _ !! k) as [q|].
    + destruct IH. split; [|done]. apply elem_of_app. by left.
    + rewrite fmap_app, elem_of_app. intros [?|?%list_elem_of_singleton]; [done|congruence].
Qed.

Lemma existingPeers_entries peers l cfg :
  state_ok peers → NoDup (device_key <$> l) →
  (∀ p n, p ∈ l → n ∈ wgp_AllowedIPs p → withoutZone (Unmap (n_IP n)) = n_IP n) →
  (∀ p, p ∈ l → cfg !! device_key p = None) →
  ∃ cfg', existingPeers (peersState peers) l cfg = Ok cfg' ∧
    (∀ k, k ∉ device_key <$> l → cfg' !! k = cfg !! k) ∧
    (∀ p, p ∈ l → adjusted peers p (cfg' !! device_key p)).
Proof.
  intros Hok. revert cfg. induction l as [|d l IH]; intros cfg Hnd Hf Hcfg.
  { exists cfg. split_and!; [done..|]. by intros p Hp%not_elem_of_nil. }
  cbn in Hnd. inversion_clear Hnd as [|? ? Hd Hnd'].
  assert (∃ o, existingPeers (peersState peers) (d :: l) cfg =
      existingPeers (peersState peers) l (partial_alter (λ _, o) (device_key d) cfg) ∧ adjusted peers d o)
    as (o & -> & Ho).
  { cbn. fold (device_key d). pose proof (peersState_lookup peers (device_key d) (so_keys _ Hok)) as Hs.
    destruct (peersState peers !! device_key d) as [p|]; [|by eexists (Some _)].
    destruct Hs as [Hp Hk]. destruct (so_peers _ Hok p Hp) as (_ & _ & v & Hv & Ha).
    rewrite (desiredAllowed_host p v), allowedIPsEqual_host by eauto using list_elem_of_here.
    assert (assigned peers (device_key d) v) by by exists p.
    case_bool_decide as Heq.
    - exists None. split; [|by exists v]. f_equal. symmetry. change (delete (device_key d) cfg = cfg). apply delete_id, Hcfg. by left.
    - eexists (Some _). split; [done|]. cbn. split; [done|]. split; [done|]. by exists v. }
  destruct (IH (partial_alter (λ _, o) (device_key d) cfg)) as (cfg' & -> & Hne & Hin); [done| | |].
  - intros p n Hp. apply Hf. by right.
  - intros p Hp. rewrite lookup_partial_alter_ne; [apply Hcfg; by right|].
    intros Hk. apply Hd. rewrite Hk. by apply list_elem_of_fmap_2.
  - exists cfg'. split_and!; [done| |].
    + intros k [Hk Hkl]%not_elem_of_cons. by rewrite Hne, lookup_partial_alter_ne.
    + intros p [->|Hp]%elem_of_cons; [|by apply Hin]. by rewrite Hne, lookup_partial_alter_eq.
Qed.

Lemma newPeers_entries all existing peers cfg :
  state_ok all → peers ⊆ all → NoDup (peer_Key <$> peers) →
  ∃ cfg', newPeers existing peers cfg = Ok cfg' ∧
    (∀ k, k ∉ peer_Key <$> peers ∨ k ∈ existing → cfg' !! k = cfg !! k) ∧
    (∀ k, k ∈ peer_Key <$> peers → k ∉ existing → added all k (cfg' !! k)).
Proof.
  intros Hok. revert cfg. induction peers as [|p l IH]; intros cfg Hsub Hnd.
  { exists cfg. split_and!; [done..|]. by intros k Hk%not_elem_of_nil. }
  cbn in Hnd. inversion_clear Hnd as [|? ? Hp Hnd'].
  assert (p ∈ all) as Hpa by (apply Hsub; left).
  destruct (so_peers _ Hok p Hpa) as (Hk0 & (key & Hkey & Hks) & v & Hv & Ha). cbn.
  rewrite decide_False by done.
  rewrite decide_False by (intros He; pose proof (ParseAddr_string4 v Hv) as Hpa'; by rewrite <- Ha, He in Hpa').
  rewrite Hkey, Ha, getIP_host, Hks by done. assert (l ⊆ all) by (intros q ?; apply Hsub; by right).
  case_bool_decide as Hex.
  - destruct (IH cfg) as (cfg' & -> & Hne & Hin); [done..|]. exists cfg'. split_and!; [done| |].
    + intros k Hk. apply Hne. destruct Hk as [[_ ?]%not_elem_of_cons|?]; auto.
    + intros k [->|Hk]%elem_of_cons Hke; [done|]. by apply Hin.
  - edestruct IH as (cfg' & -> & Hne & Hin); [done..|]. exists cfg'. split_and!; [done| |].
    + intros k Hk. rewrite Hne by (destruct Hk as [[_ ?]%not_elem_of_cons|?]; auto).
      rewrite lookup_insert_ne; [done|]. destruct Hk as [[? _]%not_elem_of_cons|?]; congruence.
    + intros k [->|Hk]%elem_of_cons Hke; [|by apply Hin].
      rewrite Hne by by left. rewrite lookup_insert_eq. eexists _, v. split_and!; [done..| |done].
      by exists p.
Qed.

(** Every key's entry, or that it has none. *)
Definition planned (dev : Device) (peers : list WireguardPeer) (k : string) (o : option PeerConfig) : Prop :=
  (∃ p, p ∈ dev_Peers dev ∧ device_key p = k ∧ adjusted peers p o) ∨
  (k ∉ device_key <$> dev_Peers dev) ∧
    (k ∈ peer_Key <$> peers ∧ added peers k o ∨ (k ∉ peer_Key <$> peers) ∧ o = None).

Lemma peersConfiguration_planned state dev :
  state_ok (agent.Peers state) → device_ok dev →
  ∃ cfg : gmap string PeerConfig, peersConfiguration state dev = Ok (map_to_list cfg).*2 ∧
    ∀ k, planned dev (agent.Peers state) k (cfg !! k).
Proof.
  intros Hs Hd. unfold peersConfiguration.
  destruct (existingPeers_entries (agent.Peers state) (dev_Peers dev) ∅) as (cfg & -> & Hne & Hin);
    [done|apply Hd|apply Hd|done|].
  destruct (newPeers_entries (agent.Peers state) (device_key <$> dev_Peers dev) (agent.Peers state) cfg)
    as (cfg' & Hn & Hne' & Hin'); [done|done|apply Hs|].
  fold device_key. change (λ p, Key_String (wgp_PublicKey p)) with device_key. rewrite Hn. exists cfg'. split; [done|]. intros k.
  destruct (decide (k ∈ device_key <$> dev_Peers dev)) as [Hk|Hk].
  - left. rewrite Hne' by by right. apply list_elem_of_fmap in Hk as (p & -> & Hp). eauto.
  - right. split; [done|]. destruct (decide (k ∈ peer_Key <$> agent.Peers state)) as [Hkp|Hkp]; [by auto|].
    right. split; [done|]. rewrite Hne' by by left. by rewrite Hne.
Qed.

(** ** The device after its configuration *)

Lemma view_Some dev p :
  device_ok dev → p ∈ dev_Peers dev → view dev !! device_key p = Some (list_to_set (wgp_AllowedIPs p)).
Proof.
  intros Hd Hp. apply elem_of_list_to_map_1; [|by apply (list_elem_of_fmap_2 (λ p, (device_key p, list_to_set (wgp_AllowedIPs p))))].
  rewrite <- list_fmap_compose. apply Hd.
Qed.

Lemma view_None dev k : k ∉ (device_key <$> dev_Peers dev) → view dev !! k = None.
Proof. intros Hk. apply not_elem_of_list_to_map_1. by rewrite <- list_fmap_compose. Qed.

Lemma wanted_Some peers k v : state_ok peers → assigned peers k v → wanted peers !! k = Some {[host v]}.
Proof.
  intros Hs (p & Hp & <- & Ha & Hv). rewrite <- (peering_host p v) by done.
  apply elem_of_list_to_map_1; [|by apply (list_elem_of_fmap_2 (λ p, (peer_Key p, peering p)))].
  rewrite <- list_fmap_compose. apply Hs.
Qed.

Lemma wanted_None peers k : k ∉ (peer_Key <$> peers) → wanted peers !! k = None.
Proof. intros Hk. apply not_elem_of_list_to_map_1. by rewrite <- list_fmap_compose. Qed.

(** Different peers have different addresses. *)
Lemma assigned_inj peers k k' v : state_ok peers → assigned peers k v → assigned peers k' v → k = k'.
Proof.
  intros Hs (p & Hp & <- & Ha & _) (q & Hq & <- & Hb & _). f_equal.
  apply (NoDup_fmap_inj peer_Address peers); [apply Hs|done|done|congruence].
Qed.
End entries.

Section converges.
Context `{!WgTypes, !WgKernel}.

(** The entries of a plan, in any order. *)
Definition plan (dev : Device) (peers : list WireguardPeer) (l : list PeerConfig) : Prop :=
  NoDup (pc_key <$> l) ∧ (∀ c, c ∈ l → planned dev peers (pc_key c) (Some c)) ∧
  (∀ k, k ∉ pc_key <$> l → planned dev peers k None).

Lemma planned_key dev peers k c : planned dev peers k (Some c) → pc_key c = k.
Proof.
  intros [(p & _ & <- & Hk & _)|(_ & [(_ & c' & v & [= <-] & Hk & _)|[_ ?]])]; [|done|done].
  unfold pc_key. by rewrite Hk.
Qed.

Lemma plan_of_map dev peers (cfg : gmap string PeerConfig) order :
  (∀ k, planned dev peers k (cfg !! k)) → order ≡ₚ (map_to_list cfg).*2 → plan dev peers order.
Proof.
  intros Hcfg Ho.
  assert (pc_key <$> (map_to_list cfg).*2 = (map_to_list cfg).*1) as Hkeys.
  { rewrite <- list_fmap_compose. apply list_fmap_ext. intros i [k c] Hi. cbn.
    apply list_elem_of_lookup_2, elem_of_map_to_list in Hi. specialize (Hcfg k). rewrite Hi in Hcfg.
    by eapply planned_key. }
  split_and!.
  - rewrite Ho, Hkeys. apply NoDup_fst_map_to_list.
  - intros c Hc. rewrite Ho in Hc. apply list_elem_of_fmap in Hc as ([k c'] & -> & Hc). cbn.
    apply elem_of_map_to_list in Hc. pose proof (Hcfg k) as Hk. rewrite Hc in Hk.
    by rewrite (planned_key _ _ _ _ Hk).
  - intros k Hk. rewrite Ho, Hkeys in Hk. specialize (Hcfg k). destruct (cfg !! k) as [c|] eqn:Hc; [|done].
    exfalso. apply Hk. apply elem_of_map_to_list in Hc. by apply (list_elem_of_fmap_2 fst) in Hc.
Qed.

Section plan.
Context dev peers l (Hs : state_ok peers) (Hd : device_ok dev) (Hl : plan dev peers l).

Lemma plan_applicable : Forall (applicable (view dev)) l.
Proof.
  destruct Hl as (_ & Hc & _). apply Forall_forall. intros c Hin. specialize (Hc c Hin).
  destruct Hc as [(p & Hp & Hk & _ & Ho)|(Hk & [(_ & c' & v & [= <-] & _ & Hr & Hu & _)|[_ ?]])]; [| |done].
  - unfold applicable. destruct (pc_Remove c); [by left|]. right. split; [done|]. left.
    split; [apply Ho|]. rewrite <- Hk, view_Some by done. by eexists.
  - right. split; [done|]. right. split; [done|]. by apply view_None.
Qed.

(** An entry that does not remove its peer gives it its own address. *)
Lemma plan_assigns c :
  c ∈ l → pc_Remove c = false → ∃ v, assigned peers (pc_key c) v ∧ pc_allowed c = {[host v]}.
Proof.
  destruct Hl as (_ & Hc & _). intros Hin Hr. specialize (Hc c Hin). unfold pc_allowed.
  destruct Hc as [(p & Hp & Hk & _ & Ho)|(_ & [(_ & c' & v & [= <-] & _ & _ & _ & Ha & ->)|[_ ?]])]; [| |done].
  - rewrite Hr in Ho. destruct Ho as (_ & v & Ha & -> & _). exists v. rewrite <- Hk. split; [done|set_solver].
  - exists v. split; [done|set_solver].
Qed.

Lemma plan_removes c : c ∈ l → pc_Remove c = true → pc_key c ∉ peer_Key <$> peers.
Proof.
  destruct Hl as (_ & Hc & _). intros Hin Hr. specialize (Hc c Hin).
  destruct Hc as [(p & Hp & Hk & _ & Ho)|(_ & [(_ & c' & v & [= <-] & _ & Hr' & _)|[_ ?]])]; [|congruence|done].
  rewrite Hr in Ho. by rewrite <- Hk.
Qed.

Lemma host_disjoint k k' v v' : assigned peers k v → assigned peers k' v' → k ≠ k' →
  ({[host v]} : gset IPNet) ## {[host v']}.
Proof.
  intros Ha Hb Hk. apply disjoint_singleton_l. rewrite elem_of_singleton. intros [= ->].
  by apply Hk, (assigned_inj peers _ _ v').
Qed.

Lemma plan_converges : foldl apply_peer (view dev) l = wanted peers.
Proof.
  pose proof plan_applicable as Happ. pose proof Hl as (Hnd & _ & Hrest).
  apply map_eq. intros k. destruct (decide (k ∈ pc_key <$> l)) as [Hk|Hk].
  - apply list_elem_of_fmap in Hk as (c & -> & Hc). rewrite apply_list_member; [|done..|].
    + unfold outcome. destruct (pc_Remove c) eqn:Hr.
      * symmetry. by apply wanted_None, plan_removes.
      * destruct (plan_assigns c Hc Hr) as (v & Ha & ->). by rewrite (wanted_Some _ _ v).
    + intros a b Ha Hb Hab Hra Hrb.
      destruct (plan_assigns a Ha Hra) as (v & Hv & ->), (plan_assigns b Hb Hrb) as (w & Hw & ->).
      by eapply host_disjoint.
  - destruct (Hrest k Hk) as [(p & Hp & <- & v & Ha & Hip)|(Hk' & [(_ & c & v & ? & _)|[Hkp _]])]; [|done|].
    + assert (view dev !! device_key p = Some {[host v]}) as Hv.
      { rewrite view_Some by done. f_equal. rewrite Hip. set_solver. }
      rewrite apply_list_other; [rewrite Hv; symmetry; by apply wanted_Some|done..|].
      intros c s Hc Hr. rewrite Hv. intros [= <-]. destruct (plan_assigns c Hc Hr) as (w & Hw & ->).
      eapply host_disjoint; [done..|]. intros Hkc. apply Hk. rewrite Hkc. by apply list_elem_of_fmap_2.
    + rewrite wanted_None by done. rewrite apply_list_other; [by apply view_None|done..|].
      intros c s _ _. by rewrite view_None.
Qed.

Lemma plan_untouched p v :
  p ∈ dev_Peers dev → wgp_AllowedIPs p = [host v] → assigned peers (device_key p) v →
  device_key p ∉ pc_key <$> l.
Proof.
  intros Hp Hip Ha Hin. apply list_elem_of_fmap in Hin as (c & Hk & Hc).
  destruct Hl as (_ & Hpl & _). pose proof (Hpl c Hc) as Hpc.
  destruct Hpc as [(q & Hq & Hkq & _ & Ho)|(Hn & _)].
  - assert (q = p) as ->.
    { apply (NoDup_fmap_inj device_key (dev_Peers dev)); [apply Hd|done|done|congruence]. }
    destruct (pc_Remove c).
    + destruct Ha as (r & Hr & Hkr & _). apply Ho. rewrite <- Hkr. by apply list_elem_of_fmap_2.
    + destruct Ho as (_ & w & Hw & _ & Hne). apply Hne. rewrite Hip. do 2 f_equal.
      destruct Ha as (r & Hr & Hkr & Har & Hv), Hw as (r' & Hr' & Hkr' & Har' & Hw).
      assert (r = r') as <- by (apply (NoDup_fmap_inj peer_Key peers); [apply Hs|done|done|congruence]).
      apply string4_inj; [done|done|congruence].
  - apply Hn. rewrite <- Hk. by apply list_elem_of_fmap_2.
Qed.
End plan.

(** Applying [cfg] to [dev] in any order gives the peers their addresses, each its
    own, drops every other, and has no entry for a peer that is already right. *)
Definition converges (peers : list WireguardPeer) (dev : Device) (cfg : list PeerConfig) : Prop :=
  (∀ order, order ≡ₚ cfg → foldl apply_peer (view dev) order = wanted peers) ∧
  (∀ p n, p ∈ dev_Peers dev → wgp_AllowedIPs p = [n] → wanted peers !! device_key p = Some {[n]} →
     device_key p ∉ pc_key <$> cfg).

Lemma peersConfiguration_ok state dev :
  state_ok (agent.Peers state) → device_ok dev →
  ∃ cfg, peersConfiguration state dev = Ok cfg ∧ converges (agent.Peers state) dev cfg.
Proof.
  intros Hs Hd. destruct (peersConfiguration_planned state dev Hs Hd) as (cfg & -> & Hcfg).
  eexists. split; [done|]. split.
  - intros order Ho. apply plan_converges; [done..|]. by eapply plan_of_map.
  - intros p n Hp Hip Hw.
    destruct (decide (device_key p ∈ peer_Key <$> agent.Peers state)) as [Hk|Hk];
      [|by rewrite wanted_None in Hw].
    apply list_elem_of_fmap in Hk as (q & Hkq & Hq). destruct (so_peers _ Hs q Hq) as (_ & _ & v & Hv & Ha).
    assert (assigned (agent.Peers state) (device_key p) v) as Has by by exists q.
    rewrite (wanted_Some _ _ v) in Hw by done. apply (inj Some), (inj singleton) in Hw as <-.
    eapply plan_untouched; [done|done| |done|done|done]. by eapply plan_of_map.
Qed.

(** C10: Whatever peers a device has, [createPeersConfiguration] computes without error
    a configuration that, applied in any order (Go ranges over its map in a random
    one), leaves the device with exactly the peers of the state, each allowed its own
    address, and that does not touch a peer that is already right, so its session
    is not interrupted. *)
Theorem peersConfiguration_converges state dev :
  state_ok (agent.Peers state) → device_ok dev →
  ∃ cfg, peersConfiguration state dev = Ok cfg ∧ converges (agent.Peers state) dev cfg.
Proof. apply peersConfiguration_ok. Qed.

#[local] Abbreviation ev := (@existT NOp NRes).

(** A [syncWireguard] without error. *)
Lemma syncWireguard_ok state iface port tr :
  exec (syncWireguard state iface port) tr (Ok ()) →
  ∃ dev key cfg,
    tr = [ev WgNew None; ev (WgDevice iface) (Ok dev);
          ev (ConfigureDevice iface {| dc_PrivateKey := Some key; dc_ListenPort := Some port;
                dc_ReplacePeers := false; dc_Peers := cfg |}) None;
          ev WgClose None] ∧
    ParseKey (agent.ServerPrivateKey state) = Ok key ∧ peersConfiguration state dev = Ok cfg.
Proof.
  intros Hex. unfold syncWireguard, CreateWireguardConfiguration, createPeersConfiguration in Hex.
  inv_exec. destruct a as [e|]; inv_exec. destruct a as [[]|e], a0 as [e'|]; unfold errors_Join in Hex; inv_exec.
  destruct (ParseKey (agent.ServerPrivateKey state)) as [key|e]; inv_exec. unfold check in *. inv_exec.
  destruct a as [e|]; inv_exec. by eexists _, _, _.
Qed.

(** A [syncWireguard] that returns without error opened the client, read the
    device, configured it once with the state's private key, the port, without
    [ReplacePeers], and entries that converge the device to the state's
    peers, and closed the client. *)
Theorem syncWireguard_configures state iface port tr :
  exec (syncWireguard state iface port) tr (Ok ()) →
  state_ok (agent.Peers state) →
  (∀ dev, ev (WgDevice iface) (Ok dev) ∈ tr → device_ok dev) →
  ∃ dev key cfg,
    tr = [ev WgNew None; ev (WgDevice iface) (Ok dev);
          ev (ConfigureDevice iface {| dc_PrivateKey := Some key; dc_ListenPort := Some port;
                dc_ReplacePeers := false; dc_Peers := cfg |}) None;
          ev WgClose None] ∧
    ParseKey (agent.ServerPrivateKey state) = Ok key ∧ converges (agent.Peers state) dev cfg.
Proof.
  intros (dev & key & cfg & -> & Hk & Hc)%syncWireguard_ok Hs Hd. exists dev, key, cfg.
  destruct (peersConfiguration_ok state dev Hs) as (cfg' & Hc' & Hconv); [apply Hd; set_solver|].
  rewrite Hc in Hc'. injection Hc' as <-. done.
Qed.
End converges.

(** ** The address of the link *)

Section link.
Context `{WgTypes}.
#[local] Abbreviation ev := (@existT NOp NRes).

(** The addresses of a link after the operations of a trace. *)
Definition address_step (have : list IPNet) (e : event NRes) : list IPNet :=
  match e with
  | existT (AddrDel _ a) None => filter (λ b, b ≠ a) have
  | existT (AddrAdd _ a) None => have ++ [a]
  | _ => have
  end.

Definition addresses_after (have : list IPNet) (tr : list (event NRes)) : list IPNet :=
  foldl address_step have tr.

(** An IPv4 address with its mask, as netlink lists it for [AF_INET]. *)
Definition inet_address (a : IPNet) : Prop :=
  ∃ v b, u32 v ∧ 0 <= b <= 32 ∧ a = mkIPNet (addr4 v) b 32.

Lemma netlinkAddr_linkPrefix a : inet_address a → netlinkAddr (linkPrefix a) = a.
Proof.
  intros (v & b & Hv & Hb & ->). change (netlinkAddr (PrefixFrom (addr4 v) b) = mkIPNet (addr4 v) b 32).
  rewrite PrefixFrom_4 by lia. unfold netlinkAddr. by rewrite Bits_prefix4.
Qed.

(** The deletions of [SyncAddress], and what they leave. *)
Lemma address_deletions link l tr have a :
  exec (loopE (λ _ p, check_wrapped ("netlink addr del " +:+ prefix_String p +:+ ": ")
          (perform (AddrDel link (netlinkAddr p)))) l ()) tr (Ok ()) →
  tr = (λ p, ev (AddrDel link (netlinkAddr p)) None) <$> l ∧
  (a ∈ addresses_after have tr ↔ a ∈ have ∧ (a ∉ netlinkAddr <$> l)).
Proof.
  revert have tr. induction l as [|p l IH]; intros have tr Hex.
  - inv_exec. cbn in Hex. destruct Hex as [-> _]. cbn. set_solver.
  - cbn [loopE] in Hex. inv_node.
    destruct (IH (filter (λ b, b ≠ netlinkAddr p) have) _ Hex) as [-> Hin]. split; [done|].
    cbn in Hin |- *. unfold addresses_after in Hin. rewrite Hin, list_elem_of_filter, not_elem_of_cons. tauto.
Qed.

Lemma netlinkAddr_inj v b v' b' :
  0 <= b <= 32 → 0 <= b' <= 32 →
  netlinkAddr (PrefixFrom (addr4 v) b) = netlinkAddr (PrefixFrom (addr4 v') b') →
  PrefixFrom (addr4 v) b = PrefixFrom (addr4 v') b'.
Proof.
  intros Hb Hb'. rewrite !PrefixFrom_4 by lia. unfold netlinkAddr. rewrite !Bits_prefix4.
  by intros [= -> ->].
Qed.

(** What [SyncAddress] removes is every address but the one wanted. *)
Lemma removed_addresses have v b a :
  let want := PrefixFrom (addr4 v) b in
  Forall inet_address have → 0 <= b <= 32 →
  a ∈ netlinkAddr <$> (addressChanges (linkPrefix <$> have) want).1 ↔ a ∈ have ∧ a ≠ netlinkAddr want.
Proof.
  intros want Hin Hb. cbn. rewrite list_elem_of_fmap, Forall_forall in *.
  setoid_rewrite list_elem_of_filter. setoid_rewrite list_elem_of_fmap. split.
  - intros (p & -> & Hp & c & -> & Hc). pose proof (Hin c Hc) as Hi.
    rewrite netlinkAddr_linkPrefix by done. split; [done|]. intros Hcw. apply Hp.
    destruct Hi as (v' & b' & Hv' & Hb' & ->). apply (netlinkAddr_inj v' b' v b); [lia..|].
    etrans; [|exact Hcw]. apply (netlinkAddr_linkPrefix (mkIPNet (addr4 v') b' 32)). by exists v', b'.
  - intros [Ha Hne]. exists (linkPrefix a). rewrite netlinkAddr_linkPrefix by auto. split; [done|].
    split; [|by exists a]. intros Hw. apply Hne. by rewrite <- Hw, netlinkAddr_linkPrefix by auto.
Qed.

Lemma wanted_address have v b :
  let want := PrefixFrom (addr4 v) b in
  Forall inet_address have → 0 <= b <= 32 →
  (addressChanges (linkPrefix <$> have) want).2 = negb (bool_decide (netlinkAddr want ∈ have)).
Proof.
  intros want Hin Hb. cbn. f_equal. apply bool_decide_ext. rewrite list_elem_of_fmap, Forall_forall in *. split.
  - intros (a & -> & Ha). by rewrite netlinkAddr_linkPrefix by auto.
  - intros Hw. exists (netlinkAddr want). split; [|done]. unfold want, netlinkAddr.
    rewrite !PrefixFrom_4, Bits_prefix4 by lia. symmetry. by apply PrefixFrom_4.
Qed.

Lemma SyncAddress_trace iface want tr :
  exec (SyncAddress iface want) tr (Ok ()) →
  ∃ link have,
    let '(remove, add) := addressChanges (linkPrefix <$> have) want in
    tr = [ev (LinkByName iface) (Ok link); ev (AddrList link) (Ok have)] ++
         ((λ p, ev (AddrDel link (netlinkAddr p)) None) <$> remove) ++
         (if add then [ev (AddrAdd link (netlinkAddr want)) None] else []) ++ [ev (LinkSetUp link) None] ∧
    ∀ a, a ∈ addresses_after have tr ↔
      a ∈ have ∧ (a ∉ netlinkAddr <$> remove) ∨ add = true ∧ a = netlinkAddr want.
Proof.
  intros Hex. unfold SyncAddress in Hex. inv_node. destruct a0 as [have|e]; inv_node. exists a, have.
  rewrite (surjective_pairing (addressChanges (linkPrefix <$> have) want)) in Hex |- *. inv_node.
  assert (t1 = if (addressChanges (linkPrefix <$> have) want).2 then [ev (AddrAdd a (netlinkAddr want)) None] else [])
    as -> by (destruct (_.2); by inv_node).
  destruct (address_deletions a _ t have default4 H0) as [-> _]. split; [done|]. intros c.
  destruct (address_deletions a _ _ have c H0) as [_ Hin].
  unfold addresses_after in *. cbn. rewrite !foldl_app, <- Hin.
  destruct (negb _); cbn; [rewrite elem_of_app, list_elem_of_singleton|]; intuition congruence.
Qed.

(** A [SyncAddress] that returns without error leaves the link up with [want] as its
    only IPv4 address, whatever addresses it had, and does not remove [want] when the
    link has it. *)
Lemma SyncAddress_only iface v b tr :
  let want := PrefixFrom (addr4 v) b in
  exec (SyncAddress iface want) tr (Ok ()) → 0 <= b <= 32 →
  (∀ l have, ev (AddrList l) (Ok have) ∈ tr → Forall inet_address have) →
  ∃ link have,
    ev (LinkByName iface) (Ok link) ∈ tr ∧ ev (AddrList link) (Ok have) ∈ tr ∧
    ev (LinkSetUp link) None ∈ tr ∧ (ev (AddrDel link (netlinkAddr want)) None ∉ tr) ∧
    ∀ a, a ∈ addresses_after have tr ↔ a = netlinkAddr want.
Proof.
  intros want (link & have & Htr)%SyncAddress_trace Hb Hinet. exists link, have.
  pose proof (removed_addresses have v b) as Hrem. pose proof (wanted_address have v b) as Hadd.
  cbv zeta in Hrem, Hadd. fold want in Hrem, Hadd.
  destruct (addressChanges _ _) as [remove add]. cbn [fst snd] in Hrem, Hadd.
  destruct Htr as [-> Hafter].
  assert (Forall inet_address have) as Hf by (apply (Hinet link); set_solver).
  specialize (Hadd Hf Hb). split_and!; [set_solver..| |].
  - rewrite !elem_of_app, list_elem_of_fmap.
    intros [Hin|[(p & He & Hp)|[Hin|Hin]]]; [set_solver| |destruct add; set_solver|set_solver].
    apply (f_equal (λ e : event NRes, match projT1 e with AddrDel _ n => n | _ => default4 end)) in He.
    cbn in He. assert (netlinkAddr want ∈ netlinkAddr <$> remove) as [_ Hne]%Hrem; [|done..].
    rewrite He. by apply list_elem_of_fmap_2.
  - intros a. rewrite Hafter, Hadd, Hrem by done.
    destruct (decide (a = netlinkAddr want)) as [->|Hne]; case_bool_decide; cbn; intuition congruence.
Qed.

(** ** Waiting for the link *)

(** The clock does not go back, and a sleep lets it advance. *)
Fixpoint clock (now : Z) (tr : list (event NRes)) : Prop :=
  match tr with
  | [] => True
  | existT TimeNow t :: tr => now <= t ∧ clock t tr
  | existT (Sleep d) _ :: tr => clock (now + d) tr
  | _ :: tr => clock now tr
  end.

(** The times a trace reads are past [t]. *)
Definition times_past (t : Z) (tr : list (event NRes)) : Prop :=
  Exists (λ e, match e with existT TimeNow now => t < now | _ => False end) tr.

(** A poll of a trace finds the link. *)
Definition finds_link (tr : list (event NRes)) : Prop :=
  Exists (λ e, match e with existT (LinkByName _) (Ok _) => True | _ => False end) tr.

(** Enough turns are left for the deadline to pass. *)
Lemma waitForLink_loop_ends fuel iface deadline now tr r :
  deadline < now + 100 * millisecond * (Z.of_nat fuel - 1) → 0 < Z.of_nat fuel →
  clock now tr → exec (waitForLink_loop fuel iface deadline) tr r →
  r = Some (Ok ()) ∧ finds_link tr ∨
  (∃ e, r = Some (Err (waitTimeout iface e)) ∧ times_past deadline tr ∧ ¬ finds_link tr).
Proof.
  revert now tr. induction fuel as [|fuel IH]; intros now tr Hd Hf Hc Hex; [done|].
  cbn [waitForLink_loop] in Hex. inv_exec. destruct a as [link|e]; inv_exec.
  { left. split; [done|]. by left. }
  cbn in Hc. destruct Hc as [Hnow Hc]. destruct (Z.ltb_spec deadline a) as [Hlt|Hge]; inv_exec.
  - right. exists e. split; [done|]. split; [by right; left|]. unfold finds_link. cbn. rewrite !Exists_cons, Exists_nil. tauto.
  - cbn in Hc. edestruct (IH (a + 100 * millisecond)) as [[-> Hin]|(e' & -> & Hp & Hn)];
      [| |exact Hc|exact Hex|..]; [lia|unfold millisecond in *; lia|..].
    + left. split; [done|]. by do 3 right.
    + right. exists e'. split; [done|]. split; [by do 3 right|].
      unfold finds_link in *. cbn. rewrite !Exists_cons. tauto.
Qed.

(** [waitForLink] ends: with a clock that advances at least as far as the code sleeps, at
    most [waitForLink_turns] polls find the link or see the deadline pass. It
    returns without error exactly when a poll found the link, and its
    time-out comes only after [userspaceLinkTimeout]. *)
Lemma waitForLink_ends iface now tr r :
  exec (waitForLink iface) tr r → clock now tr →
  r = Ok () ∧ finds_link tr ∨
  (∃ e start tr', r = Err (waitTimeout iface e) ∧ tr = ev TimeNow start :: tr' ∧
     times_past (start + userspaceLinkTimeout) tr' ∧ ¬ finds_link tr).
Proof.
  unfold waitForLink. intros Hex Hc. inv_exec. rewrite app_nil_r in Hc |- *. cbn in Hc. destruct Hc as [_ Hc].
  match goal with H : exec (waitForLink_loop _ _ _) _ _ |- _ => apply (waitForLink_loop_ends _ _ _ a) in H as
    [[-> Hin]|(e & -> & Hp & Hn)]; [..|done|done] end;
    [| |unfold userspaceLinkTimeout, waitForLink_turns, millisecond; lia].
  - left. split; [done|]. by right.
  - right. exists e, a. eexists. split_and!; [done|done|done|]. unfold finds_link in *. cbn. rewrite Exists_cons. tauto.
Qed.
End link.

(** ** A concrete node *)

(** ** What [SyncLink] and [SyncAddress] leave alone *)

Section link.
Context `{WgTypes}.

(** An operation that changes no route and no device, and runs no command. *)
Definition link_op (o : NOp) : Prop :=
  match o with
  | ConfigureDevice _ _ | WgDevice _ | RunCommand _ _ | RouteAdd _ | RouteReplace _ | RouteDel _ => False
  | _ => True
  end.

Lemma emits_waitForLink_loop fuel iface deadline : emits link_op (waitForLink_loop fuel iface deadline).
Proof. induction fuel as [|fuel IH]; cbn [waitForLink_loop]; solve_emits. Qed.
#[local] Hint Resolve emits_waitForLink_loop : emits.

Lemma emits_SyncLink iface mtu fallback : emits link_op (SyncLink iface mtu fallback).
Proof.
  unfold SyncLink, createLink, createLinkUsingKernelModule, createLinkUsingUserspaceImpl, waitForLink. quietly.
Qed.

Lemma emits_SyncAddress iface want : emits link_op (SyncAddress iface want).
Proof. unfold SyncAddress. quietly. Qed.

(** ** The gateway's address *)

Definition keeps_addresses (o : NOp) : Prop := match o with AddrAdd _ _ | AddrDel _ _ => False | _ => True end.

Lemma addresses_idle have (tr : list (event NRes)) :
  Forall (λ e : event NRes, keeps_addresses (projT1 e)) tr → addresses_after have tr = have.
Proof.
  unfold addresses_after. revert have. induction tr as [|e tr IH]; intros have Hf; [done|]. apply Forall_cons in Hf as [He Hf].
  cbn. destruct e as [[] x]; try done; by apply IH.
Qed.

Lemma emits_waitForLink_addresses fuel iface deadline : emits keeps_addresses (waitForLink_loop fuel iface deadline).
Proof. induction fuel as [|fuel IH]; cbn [waitForLink_loop]; solve_emits. Qed.
#[local] Hint Resolve emits_waitForLink_addresses : emits.

Lemma SyncLink_addresses iface mtu fallback : emits keeps_addresses (SyncLink iface mtu fallback).
Proof.
  unfold SyncLink, createLink, createLinkUsingKernelModule, createLinkUsingUserspaceImpl, waitForLink. quietly.
Qed.

Lemma syncRest_addresses iface cidr gw state port :
  emits keeps_addresses (bindE (syncRoute iface cidr gw) (λ _, syncWireguard state iface port)).
Proof. unfold syncRoute, syncWireguard, CreateWireguardConfiguration. quietly. Qed.


(** A link that has a route is given no other: the route to the peerCIDR is not replaced. *)
Lemma syncRoute_keeps iface cidr gw link routes tr r :
  exec (syncRoute iface cidr gw) (existT (LinkByName iface) (Ok link) :: existT (RouteList link) (Ok routes) :: tr) r →
  existsb (λ x, r_LinkIndex x =? l_Index link) routes = true → tr = [] ∧ r = Ok ().
Proof.
  unfold syncRoute, bindE. intros Hex Hroutes. apply exec_bind in Hex as (a & t1 & t2 & Ht & (x & ? & -> & -> & <-) & Hex).
  pose proof (f_equal (λ l : list (event NRes), match l with existT (LinkByName _) y :: _ => Some y | _ => None end) Ht) as Hl.
  apply (f_equal tail) in Ht. cbn in Hl, Ht. injection Hl as <-. cbv iota in Hex. subst t2.
  apply exec_bind in Hex as (b & t3 & t4 & Ht & (y & ? & -> & -> & <-) & Hex).
  pose proof (f_equal (λ l : list (event NRes), match l with existT (RouteList _) y :: _ => Some y | _ => None end) Ht) as Hr.
  apply (f_equal tail) in Ht. cbn in Hr, Ht. injection Hr as <-. cbv iota in Hex. subst t4.
  rewrite Hroutes in Hex. by apply exec_ret in Hex as [-> ->].
Qed.
End link.

Module RefNode.
#[export] Existing Instances Reference.wgtypes.

#[export] Instance kernel : WgKernel.
Proof.
  refine {| apply_peer m c :=
    if pc_Remove c then delete (pc_key c) m
    else if pc_UpdateOnly c && negb (bool_decide (is_Some (m !! pc_key c))) then m
    else <[pc_key c := (if pc_ReplaceAllowedIPs c then ∅ else default ∅ (m !! pc_key c)) ∪ pc_allowed c]>
           ((λ s, s ∖ pc_allowed c) <$> m) |}.
  - by intros m c ->.
  - intros m c -> -> ->. done.
  - intros m c -> [->|Hm]; [|rewrite (bool_decide_eq_true_2 _ Hm), andb_false_r]; cbn; by rewrite lookup_insert_eq.
  - intros m c k -> [->|Hm] Hk; [|rewrite (bool_decide_eq_true_2 _ Hm), andb_false_r]; cbn;
      by rewrite lookup_insert_ne, lookup_fmap.
Defined.

Definition key (s : string) : Key :=
  match ParseKey s with Ok k => k | Err _ => "00000000000000000000000000000000000000000000" ↾ eq_refl end.

Definition wg_peer (k : string) (l : list IPNet) : WgPeer :=
  {| wgp_PublicKey := key k; wgp_Endpoint := None; wgp_Keepalive := 0; wgp_LastHandshakeTime := 0;
     wgp_AllowedIPs := l |}.

(** The device of the gateway: [alice] is right, [carol] is to go although it holds the
    address of [bob], who is to come. *)
Definition device : Device :=
  {| dev_Name := "wg0"; dev_PrivateKey := key RefCluster.keyS;
     dev_Peers := [wg_peer RefCluster.keyC [host 168296451]; wg_peer RefCluster.keyA [host 168296450]] |}.

(** Its answers; the state is the clock. *)
Definition node : handler NRes Z :=
  λ o now,
    (match o return NRes o with
     | LinkByName n => Ok {| l_Index := 2; l_Name := n; l_MTU := 1420 |}
     | LinkByIndex _ => Err (errors_New "no such link")
     | AddrList _ => Ok [mkIPNet (addr4 168296449) 24 32; mkIPNet (addr4 167772161) 32 32]
     | RouteList _ | RouteListMain _ | RouteGet _ | RouteGetWithOptions _ _ _ => Ok []
     | RuleList => Ok []
     | WgDevice _ => Ok device
     | Stat _ => Ok (true, true)
     | RunCommand _ _ => ("", None)
     | ReadFile _ => Err (MkError "no such file" [ErrNotExist])
     | HTTPGet _ => Ok (200, "")
     | TimeNow => now
     | Sleep _ => ()
     | GenerateKey => Ok (key RefCluster.keyB)
     | GetPeer _ => Err (errors_New "not found")
     | WaitForCacheSync => true
     | ContextDone => false
     | _ => None
     end, match o with Sleep d => now + d | _ => now end).

(** The same node while the link does not exist. *)
Definition linkless : handler NRes Z :=
  λ o now, match o with
           | LinkByName n => (Err (MkError "Link not found" [LinkNotFound]), now)
           | o => node o now
           end.

Lemma rendered_peers :
  agent.Peers RefCluster.rendered = [renderPeer RefCluster.alice; renderPeer RefCluster.bob_ready].
Proof. vm_compute. reflexivity. Qed.

Lemma rendered_ok : state_ok (agent.Peers RefCluster.rendered).
Proof.
  rewrite rendered_peers. constructor; [by_evaluation|by_evaluation|].
  intros p [->|[->|[]%not_elem_of_nil]%elem_of_cons]%elem_of_cons.
  - split; [done|]. split; [exists (key RefCluster.keyA); split; reflexivity|].
    exists 168296450. split; [split; lia|reflexivity].
  - split; [done|]. split; [exists (key RefCluster.keyB); split; reflexivity|].
    exists 168296451. split; [split; lia|reflexivity].
Qed.

Lemma device_is_ok : device_ok device.
Proof.
  constructor; [by_evaluation|].
  intros p n Hp Hn. apply elem_of_cons in Hp as [->|[->|[]%not_elem_of_nil]%elem_of_cons];
    apply list_elem_of_singleton in Hn as ->; reflexivity.
Qed.

(** The result of an answer that is an [Ok]. *)
Lemma node_answers {A} (p : prog NRes A) o (r : NRes o) :
  existT o r ∈ (run node p 0).1.1 → ∃ now, existT o r = existT o (node o now).1 :> event NRes.
Proof. apply run_answers. Qed.

Lemma node_devices {A} (p : prog NRes A) iface dev :
  existT (WgDevice iface) (Ok dev) ∈ (run node p 0).1.1 → device_ok dev.
Proof.
  intros [now He]%node_answers.
  apply (f_equal (λ e : event NRes, match e with existT (WgDevice _) (Ok d) => d | _ => device end)) in He.
  cbn in He. rewrite He. apply device_is_ok.
Qed.

Lemma node_addresses {A} (p : prog NRes A) l have :
  existT (AddrList l) (Ok have) ∈ (run node p 0).1.1 → Forall inet_address have.
Proof.
  intros [now He]%node_answers.
  apply (f_equal (λ e : event NRes, match e with existT (AddrList _) (Ok d) => d | _ => [] end)) in He.
  cbn in He. rewrite He. repeat constructor; eexists _, _; (split_and!; [| | |reflexivity]); unfold u32; lia.
Qed.

Lemma linkless_clock : clock 0 (run linkless (waitForLink "wg0") 0).1.1.
Proof. vm_compute. repeat split; discriminate. Qed.
End RefNode.

#[local] Existing Instances Reference.wgtypes RefNode.kernel.

Lemma peersConfiguration_converges_witness :
  ∃ cfg, peersConfiguration RefCluster.rendered RefNode.device = Ok cfg ∧
    converges (agent.Peers RefCluster.rendered) RefNode.device cfg.
Proof.
  apply peersConfiguration_converges; [apply RefNode.rendered_ok|apply RefNode.device_is_ok].
Defined.


Lemma waitForLink_ends_witness :
  let tr := (run RefNode.linkless (waitForLink "wg0") 0).1.1 in
  let r := (run RefNode.linkless (waitForLink "wg0") 0).1.2 in
  r = Ok () ∧ finds_link tr ∨
  (∃ e start tr', r = Err (waitTimeout "wg0" e) ∧ tr = existT TimeNow start :: tr' ∧
     times_past (start + userspaceLinkTimeout) tr' ∧ ¬ finds_link tr).
Proof.
  apply (waitForLink_ends "wg0" 0).
  - exact (run_is_exec RefNode.linkless (waitForLink "wg0") 0).
  - apply RefNode.linkless_clock.
Defined.
