(* ===== verification/Datapath.v ===== *)
(** * The server pod's datapath ([internal/datapath])

    The fail-closed routing and the forwarding rules the agent asserts, and the check
    that peer traffic would reach the tunnel. *)

From S2P Require Import Prelude GoStd Netip NetipFacts Effects Api External Peers Resources Gateway Node WgServer.

#[local] Open Scope prog_scope.

(** ** [datapath.go] *)

Module datapath.
(** [rule] *)
Record rule := { table : string; chain : string; spec : list string }.

#[export] Instance rule_eq_dec : EqDecision rule.
Proof. solve_decision. Defined.

(** [rules] *)
Definition rules (peerCIDR : Prefix) : list rule :=
  let cidr := prefix_String peerCIDR in
  [ {| table := "filter"; chain := "FORWARD";
       spec := ["-i"; WgInterface; "-o"; EgressInterface; "-s"; cidr; "-j"; "ACCEPT"] |};
    {| table := "filter"; chain := "FORWARD";
       spec := ["-i"; EgressInterface; "-o"; WgInterface; "-m"; "conntrack"; "--ctstate";
                "ESTABLISHED,RELATED"; "-j"; "ACCEPT"] |};
    {| table := "mangle"; chain := "FORWARD";
       spec := ["-o"; EgressInterface; "-p"; "tcp"; "--tcp-flags"; "SYN,RST"; "SYN"; "-j"; "TCPMSS";
                "--clamp-mss-to-pmtu"] |};
    {| table := "nat"; chain := "POSTROUTING";
       spec := ["-s"; cidr; "-o"; EgressInterface; "-j"; "MASQUERADE"] |} ].

(** [Datapath]: the result of the last [Ensure]. *)
Record Datapath := { err : option error }.

(** [New] *)
Definition New : Datapath := {| err := Some (errors_New "datapath not asserted yet") |}.

(** [Err] *)
Definition Err (d : Datapath) : option error := err d.

(** [iptablesArgs] *)
Definition iptablesArgs (r : rule) (op : string) : list string :=
  ["-w"; "5"; "-t"; table r; op; chain r] ++ spec r.

(** ** [routing_linux.go] *)

(** [dstString] *)
Definition dstString (n : option IPNet) : string :=
  match n with None => "" | Some n => ipnet_String n end.

(** [ruleMatches] *)
Definition ruleMatches (have want : Rule) : bool :=
  (ru_Priority have =? ru_Priority want) && (ru_Table have =? ru_Table want) &&
  bool_decide (dstString (ru_Dst have) = dstString (ru_Dst want)) &&
  bool_decide (ru_IifName have = ru_IifName want).

(** [desiredRules] *)
Definition desiredRules (p : Prefix) : list Rule :=
  [ {| ru_Priority := PeerRulePref; ru_Table := PeerTable; ru_Dst := Some (ipNet p); ru_IifName := "";
       ru_Family := FAMILY_V4; ru_Other := "" |};
    {| ru_Priority := BlackholePref; ru_Table := BlackholeTable; ru_Dst := None; ru_IifName := WgInterface;
       ru_Family := FAMILY_V4; ru_Other := "" |} ].

Section operations.
Context `{WgTypes}.
#[local] Abbreviation N := (prog NRes).

(** [runIptables] *)
Definition runIptables (args : list string) : N (option error) :=
  r <- perform (RunCommand "iptables" args) ;;
  match r.2 with
  | Some e => Ret (Some (MkError (err_text e +:+ ": " +:+ TrimSpace r.1) (err_is e)))
  | None => Ret None
  end.

(** The body of the loop of [ensureIptables]. *)
Definition ensureIptablesRule (r : rule) : N (result unit) :=
  c <- runIptables (iptablesArgs r "-C") ;;
  match c with
  | None => Ret (Ok ())
  | Some _ =>
      check_wrapped ("iptables -t " +:+ table r +:+ " -A " +:+ chain r +:+ " " +:+ join " " (spec r) +:+ ": ")
        (runIptables (iptablesArgs r "-A"))
  end.

(** [ensureIptables] *)
Definition ensureIptables (p : Prefix) : N (result unit) :=
  _ <-? check_wrapped "iptables -P FORWARD DROP: " (runIptables ["-w"; "5"; "-P"; "FORWARD"; "DROP"]) ;;
  loopE (λ _ r, ensureIptablesRule r) (rules p) ().

(** The body of the loop of [ensureRule]. *)
Definition pruneRule (want : Rule) (found : bool) (r : Rule) : N (result bool) :=
  if negb (ru_Priority r =? ru_Priority want) then Ret (Ok found)
  else if ruleMatches r want then Ret (Ok true)
  else
    _ <-? check_wrapped ("delete ip rule pref " +:+ Itoa (ru_Priority want) +:+ ": ") (perform (RuleDel r)) ;;
    Ret (Ok found).

(** [ensureRule] *)
Definition ensureRule (want : Rule) : N (result unit) :=
  l <- perform RuleList ;;
  match l with
  | Prelude.Err e => Ret (Prelude.Err (wrapf "list ip rules: " e))
  | Ok have =>
      found <-? loopE (pruneRule want) have false ;;
      if (found : bool) then Ret (Ok ())
      else check_wrapped ("add ip rule pref " +:+ Itoa (ru_Priority want) +:+ ": ") (perform (RuleAdd want))
  end.

(** The peer route and the blackhole default of [ensureRouting]. *)
Definition peerRoute (wg : Link) (p : Prefix) : Route :=
  {| r_Dst := Some (ipNet p); r_Gw := zeroAddr; r_LinkIndex := l_Index wg; r_Priority := 0; r_Protocol := 0;
     r_Scope := SCOPE_LINK; r_Table := PeerTable; r_Type := 0 |}.

Definition blackhole : Route :=
  {| r_Dst := Some default4; r_Gw := zeroAddr; r_LinkIndex := 0; r_Priority := 0; r_Protocol := 0;
     r_Scope := 0; r_Table := BlackholeTable; r_Type := RTN_BLACKHOLE |}.

(** [ensureRouting] *)
Definition ensureRouting (p : Prefix) : N (result unit) :=
  r <- perform (LinkByName WgInterface) ;;
  match r with
  | Prelude.Err e => Ret (Prelude.Err (wrapf ("look up " +:+ WgInterface +:+ ": ") e))
  | Ok wg =>
      _ <-? check_wrapped ("replace route in table " +:+ Itoa PeerTable +:+ ": ")
              (perform (RouteReplace (peerRoute wg p))) ;;
      _ <-? check_wrapped ("replace route in table " +:+ Itoa BlackholeTable +:+ ": ")
              (perform (RouteReplace blackhole)) ;;
      loopE (λ _ want, ensureRule want) (desiredRules p) ()
  end.

(** [Ensure]: its error, and the [Datapath] that recorded it. *)
Definition Ensure (peerCIDR : string) : N (option error * Datapath) :=
  match ParsePrefix peerCIDR with
  | Prelude.Err e =>
      let err := Some (wrapf ("parse peerCIDR " +:+ Quote peerCIDR +:+ ": ") e) in
      Ret (err, {| err := err |})
  | Ok p =>
      let p := Masked p in
      routing <- as_error (ensureRouting p) ;;
      iptables <- as_error (ensureIptables p) ;;
      let err := errors_Join routing iptables in
      Ret (err, {| err := err |})
  end.

(** ** [peerpath.go], [peerpath_linux.go] *)

(** [peerProbeSource] *)
Definition peerProbeSource (p : Prefix) : result Addr :=
  let src := Next (Next (p_ip (Masked p))) in
  if negb (Contains p src) then
    Prelude.Err (errors_New ("peerCIDR " +:+ prefix_String p +:+ " has no second host for the peer-path probe"))
  else Ok src.

(** [judgePeerPath] *)
Definition judgePeerPath (probe src : Addr) (dev : result string) : option error :=
  let arriving := addr_String probe +:+ " from " +:+ addr_String src +:+ " arriving on " +:+ WgInterface in
  match dev with
  | Prelude.Err e =>
      if errors_Is e EINVAL then
        Some (errors_New ("peer path: " +:+ arriving +:+ " is blackholed (no tunnel route)"))
      else Some (wrapf ("peer path: look up " +:+ arriving +:+ ": ") e)
  | Ok dev =>
      if decide (dev ≠ EgressInterface) then
        Some (errors_New ("peer path: " +:+ arriving +:+ " routes via " +:+ dev +:+ ", not " +:+ EgressInterface))
      else None
  end.

(** [lookupPeerPath] *)
Definition lookupPeerPath (probe src : Addr) : N (result string) :=
  routes <-? perform (RouteGetWithOptions probe WgInterface src) ;;
  match routes with
  | [] => Ret (Prelude.Err (errors_New "no route returned"))
  | r :: _ =>
      let idx := r_LinkIndex r in
      l <- perform (LinkByIndex idx) ;;
      match l with
      | Prelude.Err e => Ret (Prelude.Err (wrapf ("look up link " +:+ Itoa idx +:+ ": ") e))
      | Ok link => Ret (Ok (l_Name link))
      end
  end.

(** [CheckPeerPath] *)
Definition CheckPeerPath (peerCIDR : string) : N (option error) :=
  match ParsePrefix peerCIDR with
  | Prelude.Err e => Ret (Some (wrapf ("parse peerCIDR " +:+ Quote peerCIDR +:+ ": ") e))
  | Ok p =>
      match peerProbeSource p with
      | Prelude.Err e => Ret (Some e)
      | Ok src =>
          dev <- lookupPeerPath probeAddr src ;;
          Ret (judgePeerPath probeAddr src dev)
      end
  end.
End operations.
End datapath.
