(* ===== verification/DatapathFacts.v ===== *)
(** * The datapath: correctness

    What iptables and the routing rules are after [Ensure], and that peer traffic can
    never leave the pod outside the tunnel. *)

From S2P Require Import Prelude GoStd Netip NetipFacts Effects Api External Peers Resources Gateway GatewayFacts Node WgServer WgServerFacts Datapath.

Import datapath.

(** ** What the commands do *)

(** The FORWARD policy and the rules, in order. *)
Record Firewall := { fw_policy : string; fw_rules : list rule }.

Section kernel.
Context `{WgTypes}.
#[local] Abbreviation ev := (@existT NOp NRes).

(** [iptables]: [-P] sets the policy, [-A] appends a rule, and [-C] succeeds exactly
    when the rule is there. A command that fails changes nothing. *)
Definition iptables (fw : Firewall) (args : list string) (ok : bool) : option Firewall :=
  match args with
  | [_; _; op; _; p] =>
      Some (if bool_decide (op = "-P") && ok then {| fw_policy := p; fw_rules := fw_rules fw |} else fw)
  | _ :: _ :: _ :: t :: op :: c :: s =>
      let r := {| table := t; chain := c; spec := s |} in
      if decide (op = "-C") then
        if decide (ok = bool_decide (r ∈ fw_rules fw)) then Some fw else None
      else Some (if bool_decide (op = "-A") && ok
                 then {| fw_policy := fw_policy fw; fw_rules := fw_rules fw ++ [r] |} else fw)
  | _ => Some fw
  end.

Definition fw_step (fw : Firewall) (e : event NRes) : option Firewall :=
  match e with
  | existT (RunCommand _ args) (_, err) => iptables fw args (bool_decide (err = None))
  | _ => Some fw
  end.

(** A rule as [RuleList] lists it: without its family. *)
Definition listed_rule (r : Rule) : Rule :=
  {| ru_Priority := ru_Priority r; ru_Table := ru_Table r; ru_Dst := ru_Dst r; ru_IifName := ru_IifName r;
     ru_Family := 0; ru_Other := ru_Other r |}.

Fixpoint remove_first (r : Rule) (l : list Rule) : list Rule :=
  match l with
  | [] => []
  | x :: l => if decide (x = r) then l else x :: remove_first r l
  end.

(** The ip rules: a listing gives them all, a deletion removes the first that equals its
    argument. *)
Definition rules_step (rs : list Rule) (e : event NRes) : option (list Rule) :=
  match e with
  | existT RuleList (Ok l) => if decide (l = rs) then Some rs else None
  | existT (RuleDel r) None => Some (remove_first r rs)
  | existT (RuleAdd r) None => Some (rs ++ [listed_rule r])
  | _ => Some rs
  end.

(** ** iptables *)

Lemma runIptables_exec args tr r :
  exec (runIptables args) tr r →
  ∃ out err, tr = [ev (RunCommand "iptables" args) (out, err)] ∧ (r = None ↔ err = None).
Proof.
  unfold runIptables. intros Hex. inv_exec. destruct a as [out [e|]]; cbn in Hex; destruct Hex as [-> ->]; by eexists _, _.
Qed.

(** [-C] tells whether the rule is there. *)
Lemma check_replay r fw fw' out err :
  replay fw_step fw [ev (RunCommand "iptables" (iptablesArgs r "-C")) (out, err)] = Some fw' →
  fw' = fw ∧ (err = None ↔ r ∈ fw_rules fw).
Proof.
  destruct r as [t c s]. cbn. rewrite decide_True by done. case_decide as Hd; [|done]. intros [= <-]. split; [done|].
  rewrite <- (bool_decide_eq_true (err = None)), Hd, bool_decide_eq_true. done.
Qed.

Lemma append_replay r fw out :
  replay fw_step fw [ev (RunCommand "iptables" (iptablesArgs r "-A")) (out, None)] =
    Some {| fw_policy := fw_policy fw; fw_rules := fw_rules fw ++ [r] |}.
Proof. by destruct r. Qed.

Lemma ensureIptablesRule_replay r tr fw fw' :
  exec (ensureIptablesRule r) tr (Ok ()) → replay fw_step fw tr = Some fw' →
  fw_policy fw' = fw_policy fw ∧
  fw_rules fw' = fw_rules fw ++ (if decide (r ∈ fw_rules fw) then [] else [r]).
Proof.
  unfold ensureIptablesRule. intros Hex Hfw. inv_node.
  match goal with H : exec (runIptables _) _ _ |- _ => apply runIptables_exec in H as (out & err & -> & Ha) end.
  apply replay_app_Some in Hfw as (fw1 & [-> Hc]%check_replay & Hfw). destruct a as [e|]; inv_node.
  - rewrite decide_False by (rewrite <- Hc, <- Ha; done).
    apply runIptables_exec in Hex as (out' & err' & -> & [Ha' _]). rewrite Ha' in Hfw by done.
    rewrite append_replay in Hfw. by injection Hfw as <-.
  - injection Hfw as <-. rewrite decide_True, app_nil_r by tauto. done.
Qed.

Lemma ensureIptables_rules l tr fw fw' :
  NoDup l → exec (loopE (λ _ r, ensureIptablesRule r) l ()) tr (Ok ()) → replay fw_step fw tr = Some fw' →
  fw_policy fw' = fw_policy fw ∧ fw_rules fw' = fw_rules fw ++ filter (λ r, r ∉ fw_rules fw) l.
Proof.
  revert fw tr. induction l as [|r l IH]; intros fw tr Hnd Hex Hfw.
  { destruct Hex as [-> _]. injection Hfw as <-. by rewrite app_nil_r. }
  inversion_clear Hnd as [|? ? Hr Hnd']. cbn [loopE] in Hex. inv_node.
  apply replay_app_Some in Hfw as (fw1 & Hfw1 & Hfw).
  eapply ensureIptablesRule_replay in Hfw1 as [Hp1 Hr1]; [|done].
  destruct (IH _ _ Hnd' Hex Hfw) as [-> ->]. split; [done|]. rewrite Hr1, filter_cons.
  destruct (decide (r ∈ fw_rules fw)) as [Hin|Hin].
  - rewrite decide_False by tauto. by rewrite app_nil_r.
  - rewrite decide_True, <- app_assoc by done. cbn. do 2 f_equal.
    apply list_filter_iff_elem. intros x Hx. rewrite elem_of_app, list_elem_of_singleton.
    assert (x ≠ r) by congruence. tauto.
Qed.

(** The state of iptables the datapath wants: peers forwarded into the tunnel and back,
    anything else dropped. *)
Definition forwarding (p : Prefix) (fw fw' : Firewall) : Prop :=
  fw_policy fw' = "DROP" ∧ fw_rules fw' = fw_rules fw ++ filter (λ r, r ∉ fw_rules fw) (rules p).

Lemma rules_NoDup p : NoDup (rules p).
Proof.
  unfold rules. repeat (apply NoDup_cons; split; [|]); [..|apply NoDup_nil_2];
    rewrite ?not_elem_of_cons; split_and?; try done; apply not_elem_of_nil.
Qed.

Lemma ensureIptables_replay p tr fw fw' :
  exec (ensureIptables p) tr (Ok ()) → replay fw_step fw tr = Some fw' → forwarding p fw fw'.
Proof.
  unfold ensureIptables. intros Hex Hfw. inv_node.
  match goal with H : exec (runIptables _) _ _ |- _ => apply runIptables_exec in H as (out & err & -> & [Ha _]) end.
  rewrite Ha in Hfw by done. apply replay_app_Some in Hfw as (fw1 & [= <-] & Hfw).
  eapply ensureIptables_rules in Hfw as [Hp Hr]; [|apply rules_NoDup|done]. by split.
Qed.

(** ** The ip rules *)

(** A rule at the priority of [want] that is not [want]. *)
Definition stale (want r : Rule) : Prop :=
  ru_Priority r = ru_Priority want ∧ ruleMatches r want = false.

#[export] Instance stale_dec want r : Decision (stale want r).
Proof. unfold stale. apply _. Defined.

(** [want] is there, and nothing else is at its priority. *)
Definition settled_rule (want : Rule) (rs : list Rule) : Prop :=
  (∃ r, r ∈ rs ∧ ruleMatches r want = true) ∧
  ∀ r, r ∈ rs → ru_Priority r = ru_Priority want → ruleMatches r want = true.

(** What [ensureRule] makes of the rules: the stale ones gone, [want] last if it was not
    there, everything else as it was. *)
Definition with_rule (want : Rule) (rs : list Rule) : list Rule :=
  filter (λ r, ¬ stale want r) rs ++
  (if existsb (λ r, ruleMatches r want) rs then [] else [listed_rule want]).

Lemma remove_first_app r a b : r ∉ a → remove_first r (a ++ r :: b) = a ++ b.
Proof.
  induction a as [|x a IH]; intros Hr; cbn.
  - by rewrite decide_True.
  - apply not_elem_of_cons in Hr as [Hx Hr]. rewrite decide_False by done. by rewrite IH.
Qed.

Lemma ruleMatches_priority r want : ruleMatches r want = true → ru_Priority r = ru_Priority want.
Proof. unfold ruleMatches. rewrite !andb_true_iff, Z.eqb_eq. tauto. Qed.

Lemma ruleMatches_listed want : ruleMatches (listed_rule want) want = true.
Proof. unfold ruleMatches. cbn. by rewrite !Z.eqb_refl, !bool_decide_eq_true_2. Qed.

Lemma pruneRule_replay want l kept found tr found' rs' :
  Forall (λ r, ¬ stale want r) kept →
  exec (loopE (pruneRule want) l found) tr (Ok found') →
  replay rules_step (kept ++ l) tr = Some rs' →
  rs' = kept ++ filter (λ r, ¬ stale want r) l ∧ found' = found || existsb (λ r, ruleMatches r want) l.
Proof.
  revert kept found tr. induction l as [|r l IH]; intros kept found tr Hk Hex Hrs.
  { destruct Hex as [-> [= ->]]. injection Hrs as <-. cbn. by rewrite orb_false_r. }
  cbn [loopE] in Hex. unfold pruneRule at 1 in Hex.
  rewrite filter_cons. cbn [existsb].
  assert (∀ b, ¬ stale want r → found || (ruleMatches r want || existsb (λ r, ruleMatches r want) l) =
      b || existsb (λ r, ruleMatches r want) l → exec (loopE (pruneRule want) l b) tr (Ok found') →
    rs' = kept ++ r :: filter (λ r, ¬ stale want r) l ∧
    found' = found || (ruleMatches r want || existsb (λ r, ruleMatches r want) l)) as Hkeep.
  { intros b Hs -> Hex'. change (r :: l) with ([r] ++ l) in Hrs. rewrite app_assoc in Hrs.
    destruct (IH (kept ++ [r]) b tr) as [-> ->]; [by apply Forall_app; split; [|apply Forall_singleton]|done|done|].
    by rewrite <- app_assoc. }
  destruct (Z.eqb_spec (ru_Priority r) (ru_Priority want)) as [Hp|Hp]; cbn [negb] in Hex; inv_node.
  - destruct (ruleMatches r want) eqn:Hm; inv_node.
    + rewrite decide_True by (intros [_ ?]; congruence). cbn in Hkeep.
      apply (Hkeep true); [intros [_ ?]; congruence|by rewrite orb_true_r|done].
    + rewrite decide_False by (intros Hn; by apply Hn).
      cbn [app] in Hrs. rewrite replay_cons in Hrs. cbn [rules_step mbind option_bind] in Hrs. rewrite remove_first_app in Hrs.
      * by apply (IH kept found _ Hk Hex).
      * intros Hin. rewrite Forall_forall in Hk. by apply (Hk r Hin).
  - assert (¬ stale want r) by (intros [? _]; done). rewrite decide_True by done.
    assert (ruleMatches r want = false) as Hm.
    { apply not_true_is_false. intros Hm. by apply Hp, ruleMatches_priority. }
    apply (Hkeep found); [done|by rewrite Hm|done].
Qed.

Lemma ensureRule_replay want tr rs rs' :
  exec (ensureRule want) tr (Ok ()) → replay rules_step rs tr = Some rs' → rs' = with_rule want rs.
Proof.
  unfold ensureRule. intros Hex Hrs. inv_node. destruct a as [have|e]; inv_node.
  cbn [app] in Hrs. rewrite replay_cons in Hrs. cbn [rules_step] in Hrs. case_decide as Hd; [|done]. subst have. cbn in Hrs.
  apply replay_app_Some in Hrs as (rs1 & Hrs1 & Hrs).
  eapply (pruneRule_replay want rs []) in Hrs1 as [Hr1 Hf1]; [|done|eassumption]. subst. unfold with_rule. cbn [orb app] in Hrs, Hex |- *.
  destruct (existsb _ rs); inv_node.
  - injection Hrs as <-. by rewrite app_nil_r.
  - unfold replay in Hrs. cbn in Hrs. by injection Hrs as <-.
Qed.

Lemma with_rule_settled want rs : settled_rule want (with_rule want rs).
Proof.
  unfold with_rule. split.
  - destruct (existsb _ rs) eqn:He.
    + apply existsb_exists in He as (r & Hr & Hm). exists r. split; [|done]. rewrite app_nil_r.
      apply list_elem_of_filter. split; [intros [_ ?]; congruence|by apply list_elem_of_In].
    + exists (listed_rule want). split; [set_solver|apply ruleMatches_listed].
  - intros r Hr Hp. apply elem_of_app in Hr as [[Hs _]%list_elem_of_filter|Hr].
    + destruct (ruleMatches r want) eqn:Hm; [done|]. by destruct Hs.
    + destruct (existsb _ rs); [by apply not_elem_of_nil in Hr|].
      apply list_elem_of_singleton in Hr as ->. apply ruleMatches_listed.
Qed.

Lemma with_rule_other want rs :
  filter (λ r, ru_Priority r ≠ ru_Priority want) (with_rule want rs) =
  filter (λ r, ru_Priority r ≠ ru_Priority want) rs.
Proof.
  unfold with_rule. rewrite filter_app, list_filter_filter.
  assert (filter (λ r, ru_Priority r ≠ ru_Priority want)
            (if existsb (λ r, ruleMatches r want) rs then [] else [listed_rule want]) = []) as ->.
  { destruct (existsb _ rs); [done|]. by rewrite filter_cons, decide_False by (intros Hn; by apply Hn). }
  rewrite app_nil_r. apply list_filter_iff. intros r. unfold stale. tauto.
Qed.

Lemma with_rule_keeps want want' rs :
  ru_Priority want ≠ ru_Priority want' → settled_rule want rs → settled_rule want (with_rule want' rs).
Proof.
  intros Hne [(r & Hr & Hm) Hall].
  assert (∀ x, ru_Priority x = ru_Priority want → x ∈ with_rule want' rs ↔ x ∈ rs) as Hiff.
  { intros x Hx. assert (ru_Priority x ≠ ru_Priority want') as Hx' by congruence.
    assert (x ∈ filter (λ r, ru_Priority r ≠ ru_Priority want') (with_rule want' rs) ↔
            x ∈ filter (λ r, ru_Priority r ≠ ru_Priority want') rs) as Hw by by rewrite with_rule_other.
    rewrite !list_elem_of_filter in Hw. tauto. }
  split.
  - exists r. split; [apply Hiff; [by apply ruleMatches_priority|done]|done].
  - intros x Hx Hp. apply Hall; [by apply Hiff|done].
Qed.

(** ** The whole of [Ensure] *)

Definition is_command (o : NOp) : Prop := match o with RunCommand _ _ => True | _ => False end.

Lemma emits_runIptables K args : K (RunCommand "iptables" args) → emits K (runIptables args).
Proof. intros HK. unfold runIptables. apply emits_bind; [by apply emits_perform|solve_emits]. Qed.

(** The routing pass runs no command, deletes no route and leaves the device. *)
Definition routing_op (o : NOp) : Prop := match o with RunCommand _ _ | RouteDel _ | ConfigureDevice _ _ => False | _ => True end.

Lemma emits_ensureRouting p : emits routing_op (ensureRouting p).
Proof.
  unfold ensureRouting, ensureRule, pruneRule.
  repeat first [apply emits_check_wrapped | progress solve_emits].
Qed.

(** A command on a rule. *)
Definition rule_command (o : NOp) : Prop := ∃ r op, o = RunCommand "iptables" (iptablesArgs r op).

Lemma emits_rules l : emits rule_command (loopE (λ _ r, ensureIptablesRule r) l ()).
Proof.
  apply emits_loopE. intros _ r. unfold ensureIptablesRule. apply emits_bind; [apply emits_runIptables; by eexists _, _|].
  intros [e|]; [apply emits_check_wrapped, emits_runIptables; by eexists _, _|apply emits_ret].
Qed.

(** Commands on rules leave the policy. *)
Lemma rule_commands_policy tr fw fw' :
  Forall (λ e : event NRes, rule_command (projT1 e)) tr → replay fw_step fw tr = Some fw' →
  fw_policy fw' = fw_policy fw.
Proof.
  revert fw. induction tr as [|[o r] tr IH]; intros fw Htr Hfw; [by injection Hfw as <-|].
  apply Forall_cons in Htr as [(x & op & Ho) Htr]. cbn in Ho. subst o. rewrite replay_cons in Hfw.
  apply bind_Some in Hfw as (fw1 & Hfw1 & Hfw). rewrite (IH _ Htr Hfw). clear IH Hfw.
  destruct r as [out e]. cbn in Hfw1. revert Hfw1. case_decide; [case_decide; [|done]|]; intros [= <-]; [done|].
  by destruct (_ && _).
Qed.

Lemma routing_firewall p tr r fw : exec (ensureRouting p) tr r → replay fw_step fw tr = Some fw.
Proof.
  intros Hex. apply replay_idle. intros [o x] He.
  pose proof (emits_ensureRouting p _ _ Hex) as Hem. rewrite Forall_forall in Hem.
  specialize (Hem _ He). cbn in Hem. by destruct o.
Qed.

Lemma emits_ensureIptables p : emits is_command (ensureIptables p).
Proof.
  unfold ensureIptables. apply emits_bindE; [by apply emits_check_wrapped, emits_runIptables|].
  intros _. eapply emits_mono; [|apply emits_rules]. by intros o (r & op & ->).
Qed.

Lemma iptables_rules p tr r rs : exec (ensureIptables p) tr r → replay rules_step rs tr = Some rs.
Proof.
  intros Hex. apply replay_idle. intros [o x] He.
  pose proof (emits_ensureIptables p _ _ Hex) as Hem. rewrite Forall_forall in Hem.
  specialize (Hem _ He). cbn in Hem. by destruct o.
Qed.

Lemma ensureRules_replay l tr rs rs' :
  exec (loopE (λ _ want, ensureRule want) l ()) tr (Ok ()) → replay rules_step rs tr = Some rs' →
  rs' = foldl (λ rs want, with_rule want rs) rs l.
Proof.
  revert rs tr. induction l as [|w l IH]; intros rs tr Hex Hrs.
  - destruct Hex as [-> _]. by injection Hrs.
  - cbn [loopE] in Hex. inv_node. apply replay_app_Some in Hrs as (rs1 & Hrs1 & Hrs).
    eapply ensureRule_replay in Hrs1; [|eassumption]. subst rs1. by eapply IH.
Qed.

(** The rules the datapath wants: its own are there and alone at their priorities, and
    every other is as it was. *)
Definition routing (p : Prefix) (rs rs' : list Rule) : Prop :=
  Forall (λ want, settled_rule want rs') (desiredRules p) ∧
  filter (λ r, ru_Priority r ∉ [PeerRulePref; BlackholePref]) rs' =
    filter (λ r, ru_Priority r ∉ [PeerRulePref; BlackholePref]) rs.

Lemma desired_routing p rs : routing p rs (foldl (λ rs want, with_rule want rs) rs (desiredRules p)).
Proof.
  split.
  - unfold desiredRules. cbn [foldl]. apply Forall_cons. split; [|apply Forall_singleton].
    + apply with_rule_keeps; [done|]. apply with_rule_settled.
    + apply with_rule_settled.
  - unfold desiredRules. cbn [foldl].
    assert (∀ want l, ru_Priority want ∈ [PeerRulePref; BlackholePref] →
      filter (λ r, ru_Priority r ∉ [PeerRulePref; BlackholePref]) (with_rule want l) =
      filter (λ r, ru_Priority r ∉ [PeerRulePref; BlackholePref]) l) as Hw.
    { intros want l Hp. pose proof (with_rule_other want l) as Ho.
      apply (f_equal (filter (λ r, ru_Priority r ∉ [PeerRulePref; BlackholePref]))) in Ho.
      rewrite !list_filter_filter_l in Ho by (intros r Hr Heq; apply Hr; by rewrite Heq). done. }
    rewrite !Hw; [done|cbn; set_solver..].
Qed.

Lemma ensureRouting_replay p tr rs rs' :
  exec (ensureRouting p) tr (Ok ()) → replay rules_step rs tr = Some rs' →
  routing p rs rs' ∧ ∃ wg, ev (RouteReplace (peerRoute wg p)) None ∈ tr ∧ ev (RouteReplace blackhole) None ∈ tr.
Proof.
  unfold ensureRouting. intros Hex Hrs. inv_node. destruct a as [wg|e]; inv_node.
  split; [|exists wg; set_solver]. eapply ensureRules_replay in Hex; [|exact Hrs].
  rewrite Hex. apply desired_routing.
Qed.

Lemma ensureIptables_drops p tr r :
  exec (ensureIptables p) tr r →
  ∃ out err, ev (RunCommand "iptables" ["-w"; "5"; "-P"; "FORWARD"; "DROP"]) (out, err) ∈ tr ∧
    (err ≠ None → ∃ e, r = Prelude.Err e) ∧
    (err = None → ∀ fw fw', replay fw_step fw tr = Some fw' → fw_policy fw' = "DROP").
Proof.
  unfold ensureIptables. intros (r1 & t1 & t2 & -> & Hc & Hex)%exec_bind. unfold check_wrapped in Hc. inv_exec.
  match goal with H : exec (runIptables _) _ _ |- _ => apply runIptables_exec in H as (out & err & -> & Ha) end.
  exists out, err. destruct a as [e|]; inv_exec; (split; [set_solver|]).
  - split; [eauto|]. intros He. by destruct Ha as [_ ?%(λ f, f He)].
  - split; [intros He; by destruct He, Ha; auto|]. intros -> fw fw' Hfw.
    apply replay_app_Some in Hfw as (fw1 & [= <-] & Hfw).
    by rewrite (rule_commands_policy t2 _ _ (emits_rules _ _ _ Hex) Hfw).
Qed.

Lemma Ensure_success peerCIDR tr d :
  exec (Ensure peerCIDR) tr (None, d) →
  ∃ p tr1 tr2, ParsePrefix peerCIDR = Ok p ∧ tr = tr1 ++ tr2 ∧ Err d = None ∧
    exec (ensureRouting (Masked p)) tr1 (Ok ()) ∧ exec (ensureIptables (Masked p)) tr2 (Ok ()).
Proof.
  unfold Ensure. intros Hex. destruct (ParsePrefix peerCIDR) as [p|e]; inv_exec.
  match goal with H : exec (as_error (ensureRouting _)) _ _ |- _ => apply exec_as_error in H as (r1 & Hr & ->) end.
  match goal with H : exec (as_error (ensureIptables _)) _ _ |- _ => apply exec_as_error in H as (r2 & Hi & ->) end.
  destruct r1 as [[]|e], r2 as [[]|e']; try done. eexists p, _, _. rewrite app_nil_r. done.
Qed.

(** C31: An [Ensure] that returns without error leaves FORWARD at DROP with the four rules
    of the datapath, each appended only if it was missing and no other rule touched;
    its two ip rules there and alone at their priorities, every other ip rule as it
    was; and the peer route and the blackhole default installed. [Err] then
    reports no error. *)
Theorem Ensure_asserts peerCIDR tr d fw fw' rs rs' :
  exec (Ensure peerCIDR) tr (None, d) →
  replay fw_step fw tr = Some fw' → replay rules_step rs tr = Some rs' →
  Err d = None ∧
  ∃ p wg, ParsePrefix peerCIDR = Ok p ∧ forwarding (Masked p) fw fw' ∧ routing (Masked p) rs rs' ∧
    ev (RouteReplace (peerRoute wg (Masked p))) None ∈ tr ∧ ev (RouteReplace blackhole) None ∈ tr.
Proof.
  intros (p & tr1 & tr2 & Hp & -> & Hd & Hr & Hi)%Ensure_success Hfw Hrs. split; [done|].
  rewrite replay_app, (routing_firewall _ _ _ _ Hr) in Hfw. apply replay_app_Some in Hrs as (rs1 & Hrs1 & Hrs).
  erewrite iptables_rules in Hrs by done. injection Hrs as <-.
  destruct (ensureRouting_replay _ _ _ _ Hr Hrs1) as (Hrt & wg & Hwg & Hbh). exists p, wg.
  split_and!; [done|by eapply ensureIptables_replay|done|set_solver|set_solver].
Qed.

(** C32: Whatever fails, [Ensure] of a prefix runs [iptables -P FORWARD DROP], so
    a routing failure never leaves the policy unasserted: if the command succeeds the
    policy is DROP when [Ensure] returns, and if it fails [Ensure] reports it. *)
Theorem Ensure_always_drops peerCIDR tr e d :
  (∃ p, ParsePrefix peerCIDR = Ok p) → exec (Ensure peerCIDR) tr (e, d) →
  Err d = e ∧
  ∃ out err, ev (RunCommand "iptables" ["-w"; "5"; "-P"; "FORWARD"; "DROP"]) (out, err) ∈ tr ∧
    (err ≠ None → e ≠ None) ∧
    (err = None → ∀ fw fw', replay fw_step fw tr = Some fw' → fw_policy fw' = "DROP").
Proof.
  intros [p Hp] Hex. unfold Ensure in Hex. rewrite Hp in Hex. inv_exec. split; [done|].
  match goal with H : exec (as_error (ensureRouting _)) _ _ |- _ => apply exec_as_error in H as (r1 & Hr & ->) end.
  match goal with H : exec (as_error (ensureIptables _)) _ _ |- _ => apply exec_as_error in H as (r2 & Hi & ->) end.
  destruct (ensureIptables_drops _ _ _ Hi) as (out & err & Hin & Herr & Hpol). exists out, err. split_and!.
  - set_solver.
  - intros Hne. destruct (Herr Hne) as [e ->]. by destruct r1.
  - intros He fw fw' Hfw. rewrite app_nil_r, replay_app, (routing_firewall _ _ _ _ Hr) in Hfw. by eapply Hpol.
Qed.

(** ** Failing closed *)

(** What Linux documents of policy routing: rules are consulted in the order of their
    priorities, as long as the tables of those that select the packet have no
    route for it. A rule without selectors but [iif] selects every packet that
    arrives there, and a default route is one for every packet of its family. *)
Class Rpdb := {
  Packet : Type;
  arrives_on : Packet → string;
  selects : Rule → Packet → Prop;
  routed : list (event NRes) → Z → Packet → Prop;  (* by a table, after these operations *)
  consults : list (event NRes) → list Rule → Packet → Rule → Prop;
  consults_order : ∀ tr rs k r r', consults tr rs k r → r' ∈ rs → ru_Priority r' < ru_Priority r →
    selects r' k → ¬ routed tr (ru_Table r') k;
  selects_iif : ∀ r k, ru_Dst r = None → ru_Other r = "" → ru_IifName r = arrives_on k → selects r k;
  routed_default : ∀ tr r k, ev (RouteReplace r) None ∈ tr → r_Dst r = Some default4 →
    (∀ r', ev (RouteDel r') None ∉ tr) → routed tr (r_Table r) k;
}.

Lemma ipnet_String_nonempty n : ipnet_String n ≠ "".
Proof.
  assert (∀ a b : string, a +:+ "/" +:+ b ≠ "") as Hs by (by intros [|]).
  unfold ipnet_String. repeat case_match; try done; apply Hs.
Qed.

Lemma dstString_empty n : dstString n = "" → n = None.
Proof. destruct n as [n|]; [|done]. intros []%ipnet_String_nonempty. Qed.

(** The rules the datapath adds have no selectors it does not set. *)
Lemma with_rule_plain want rs r :
  r ∈ with_rule want rs → r ∈ rs ∨ r = listed_rule want.
Proof.
  unfold with_rule. intros [[_ Hr]%list_elem_of_filter|Hr]%elem_of_app; [by left|].
  destruct (existsb _ rs); [by apply not_elem_of_nil in Hr|]. right. by apply list_elem_of_singleton.
Qed.

Lemma ensureRouting_plain p tr rs rs' r :
  exec (ensureRouting p) tr (Ok ()) → replay rules_step rs tr = Some rs' → r ∈ rs' →
  r ∈ rs ∨ ru_Other r = "".
Proof.
  unfold ensureRouting. intros Hex Hrs Hr. inv_node. destruct a as [wg|e]; inv_node.
  eapply ensureRules_replay in Hex; [|exact Hrs]. rewrite Hex in Hr. cbn in Hr.
  apply with_rule_plain in Hr as [[Hr| ->]%with_rule_plain| ->]; auto.
Qed.

Lemma Ensure_no_deletion peerCIDR tr r x : exec (Ensure peerCIDR) tr r → ev (RouteDel x) None ∉ tr.
Proof.
  intros Hex He. refine (emits_not (λ o, match o with RouteDel _ => False | _ => True end) _ _ _ _ _ Hex He id).
  unfold Ensure. destruct (ParsePrefix peerCIDR) as [p|e]; [|apply emits_ret].
  apply emits_bind; [apply emits_as_error|intros; apply emits_bind; [apply emits_as_error|solve_emits]].
  - eapply emits_mono; [|apply emits_ensureRouting]. by intros [].
  - eapply emits_mono; [|apply emits_ensureIptables]. by intros [].
Qed.


(** ** The peer path *)

Lemma Next_4 w : u32 (w + 1) → Next (addr4 w) = addr4 (w + 1).
Proof. intros Hw. unfold Next, u32 in *. cbn. destruct (Z.eqb_spec (w + 1) (2 ^ 32)); [lia|done]. Qed.

Lemma peerProbeSource_4 v b :
  u32 v → 0 <= b <= 30 → peerProbeSource (prefix4 v b) = Ok (addr4 (base v b + 2)).
Proof.
  intros Hv Hb. unfold peerProbeSource. pose proof (psize_30 b ltac:(lia)).
  pose proof (base_in v b Hv ltac:(lia) 1 ltac:(lia)). pose proof (base_in v b Hv ltac:(lia) 2 ltac:(lia)) as H2.
  rewrite Masked_4 by lia. cbn [prefix4 p_ip]. change (mkPrefix (addr4 v) (b + 1)) with (prefix4 v b).
  rewrite !Next_4 by (done || by replace (base v b + 1 + 1) with (base v b + 2) by lia).
  replace (base v b + 1 + 1) with (base v b + 2) by lia.
  assert (Contains (prefix4 v b) (addr4 (base v b + 2)) = true) as -> by (apply Contains_4; [lia|cbn; split; [done|lia]]).
  done.
Qed.

Lemma judge_ok probe src dev : judgePeerPath probe src (Ok dev) = None ↔ dev = EgressInterface.
Proof. unfold judgePeerPath. case_decide; split; intros; (done || congruence). Qed.

Lemma judge_err probe src e : judgePeerPath probe src (Prelude.Err e) ≠ None.
Proof. unfold judgePeerPath. by destruct (errors_Is e EINVAL). Qed.

(** The kernel's answer leaves through the tunnel. *)
Definition through_tunnel (answer : result (list Route)) (tr : list (event NRes)) : Prop :=
  ∃ route routes link, answer = Ok (route :: routes) ∧
    tr = [ev (LinkByIndex (r_LinkIndex route)) (Ok link)] ∧ l_Name link = EgressInterface.

(** For a peerCIDR the operator accepts, [CheckPeerPath] asks the kernel about a peer's
    address, the second host, which [addressUsable] allows and is not the server's own,
    and passes exactly when the answer's first route leaves through the tunnel. *)
Lemma CheckPeerPath_spec peerCIDR tr r :
  validatePeerCIDR peerCIDR = None → exec (CheckPeerPath peerCIDR) tr r →
  ∃ src answer tr', tr = ev (RouteGetWithOptions probeAddr WgInterface src) answer :: tr' ∧
    addressUsable (addr_String src) peerCIDR = true ∧
    (r = None ↔ through_tunnel answer tr').
Proof.
  intros (v & b & -> & Hv & Hb & Hbase)%validatePeerCIDR_None Hex.
  unfold CheckPeerPath in Hex.
  rewrite (ParsePrefix_text4 v b Hv ltac:(lia)), (peerProbeSource_4 v b Hv Hb) in Hex.
  unfold lookupPeerPath, bindE in Hex. inv_exec. pose proof (psize_30 b ltac:(lia)).
  exists (addr4 (base v b + 2)), a0, t2. split; [by rewrite app_nil_r|]. split.
  { apply addressUsable_4; [done|lia|]. exists 2. split; [lia|done]. }
  destruct a0 as [[|route routes]|e]; inv_exec; [split; [by intros []%judge_err|by intros (? & ? & ? & ? & _)]| |
    split; [by intros []%judge_err|by intros (? & ? & ? & ? & _)]].
  match goal with l : NRes (LinkByIndex _) |- _ => destruct l as [link|e] end; inv_exec.
  - rewrite judge_ok. split; [by intros; eexists _, _, _|].
    intros (route' & routes' & link' & [= <- <-] & Htr & Hn).
    apply (f_equal (λ l : list (event NRes), match l with [existT (LinkByIndex _) (Ok k)] => l_Name k | _ => "" end)) in Htr.
    cbn in Htr. congruence.
  - split; [by intros []%judge_err|]. intros (route' & routes' & link' & [= <- <-] & Htr & Hn).
    apply (f_equal (λ l : list (event NRes), match l with [existT (LinkByIndex _) (Ok k)] => true | _ => false end)) in Htr.
    done.
Qed.
End kernel.

(** ** A concrete pod *)

Module RefPod.
#[export] Existing Instances Reference.wgtypes.

Definition tun0 : Link := {| l_Index := 7; l_Name := "tun0"; l_MTU := 1320 |}.

(** A pod whose commands do what [iptables] and netlink document. *)
Definition pod : handler NRes (Firewall * list Rule) :=
  λ o s,
    match o return NRes o * (Firewall * list Rule) with
    | RunCommand _ args =>
        match iptables s.1 args true with
        | Some fw => (("", None), (fw, s.2))
        | None => (("iptables: Bad rule.", Some (errors_New "exit status 1")), s)
        end
    | RuleList => (Ok s.2, s)
    | RuleDel r => (None, (s.1, remove_first r s.2))
    | RuleAdd r => (None, (s.1, s.2 ++ [listed_rule r]))
    | RouteGetWithOptions _ _ _ =>
        (Ok [{| r_Dst := None; r_Gw := zeroAddr; r_LinkIndex := 7; r_Priority := 0; r_Protocol := 0;
                r_Scope := 0; r_Table := 51820; r_Type := 1 |}], s)
    | LinkByIndex _ => (Ok tun0, s)
    | o => ((RefNode.node o 0).1, s)
    end.

(** Before the first [Ensure]: one of the rules exists, FORWARD accepts, and an earlier
    peerCIDR has left its ip rule. *)
Definition rule_at (pref t : Z) (dst : option IPNet) : Rule :=
  {| ru_Priority := pref; ru_Table := t; ru_Dst := dst; ru_IifName := ""; ru_Family := 0; ru_Other := "" |}.

Definition fw0 : Firewall :=
  {| fw_policy := "ACCEPT"; fw_rules := take 1 (drop 1 (rules (prefix4 168296448 24))) |}.

Definition rs0 : list Rule :=
  [rule_at 90 PeerTable (Some (mkIPNet (addr4 0) 8 32)); rule_at 101 51820 None; rule_at 32766 254 None].

Definition ensured := run pod (Ensure "10.8.0.0/24") (fw0, rs0).
Definition ensured_trace : list (event NRes) := ensured.1.1.

Lemma ensured_exec : exec (Ensure "10.8.0.0/24") ensured_trace (None, {| err := None |}).
Proof.
  assert (ensured.1.2 = (None, {| err := None |})) as <- by (vm_compute; reflexivity). apply run_is_exec.
Qed.

Lemma ensured_firewall : replay fw_step fw0 ensured_trace = Some ensured.2.1.
Proof. vm_compute. reflexivity. Qed.

Lemma ensured_rules : replay rules_step rs0 ensured_trace = Some ensured.2.2.
Proof. vm_compute. reflexivity. Qed.

(** Policy routing on the packets of an interface. *)
#[export] Instance rpdb : Rpdb.
Proof.
  refine {|
    Packet := string; arrives_on k := k;
    selects r k := ru_Dst r = None ∧ ru_Other r = "" ∧ ru_IifName r = k;
    routed tr t k := ∃ r, existT (RouteReplace r) None ∈ tr ∧ r_Dst r = Some default4 ∧ r_Table r = t;
    consults tr rs k r := r ∈ rs ∧ ∀ r', r' ∈ rs → ru_Priority r' < ru_Priority r →
      ru_Dst r' = None ∧ ru_Other r' = "" ∧ ru_IifName r' = k →
      ¬ ∃ x, existT (RouteReplace x) None ∈ tr ∧ r_Dst x = Some default4 ∧ r_Table x = ru_Table r' |}.
  - intros tr rs k r r' [_ Hc]. apply Hc.
  - done.
  - intros tr r k Hr Hd _. by exists r.
Defined.

Definition blackhole_rule : Rule :=
  {| ru_Priority := BlackholePref; ru_Table := BlackholeTable; ru_Dst := None; ru_IifName := WgInterface;
     ru_Family := 0; ru_Other := "" |}.

Lemma blackhole_consulted : consults ensured_trace ensured.2.2 WgInterface blackhole_rule.
Proof.
  assert (blackhole_rule ∈ ensured.2.2) by by_evaluation. split; [done|].
  assert (Forall (λ r', ru_Priority r' < BlackholePref → ru_IifName r' ≠ WgInterface) ensured.2.2) as Hall
    by by_evaluation.
  intros r' Hr' Hlt (_ & _ & Hif). rewrite Forall_forall in Hall. by destruct (Hall r' Hr' Hlt).
Qed.
End RefPod.

#[local] Existing Instances Reference.wgtypes RefPod.rpdb.

Lemma Ensure_asserts_witness :
  Err {| err := None |} = None ∧
  ∃ p wg, ParsePrefix "10.8.0.0/24" = Ok p ∧ forwarding (Masked p) RefPod.fw0 RefPod.ensured.2.1 ∧
    routing (Masked p) RefPod.rs0 RefPod.ensured.2.2 ∧
    existT (RouteReplace (peerRoute wg (Masked p))) None ∈ RefPod.ensured_trace ∧
    existT (RouteReplace blackhole) None ∈ RefPod.ensured_trace.
Proof.
  exact (Ensure_asserts _ _ _ _ _ _ _ RefPod.ensured_exec RefPod.ensured_firewall RefPod.ensured_rules).
Defined.

Lemma Ensure_always_drops_witness :
  Err {| err := None |} = None ∧
  ∃ out err,
    existT (RunCommand "iptables" ["-w"; "5"; "-P"; "FORWARD"; "DROP"]) (out, err) ∈ RefPod.ensured_trace ∧
    (err ≠ None → None ≠ @None error) ∧
    (err = None → ∀ fw fw', replay fw_step fw RefPod.ensured_trace = Some fw' → fw_policy fw' = "DROP").
Proof.
  refine (Ensure_always_drops "10.8.0.0/24" _ None _ _ RefPod.ensured_exec).
  exists (prefix4 168296448 24). reflexivity.
Defined.


Lemma CheckPeerPath_spec_witness :
  let x := run RefPod.pod (CheckPeerPath "10.8.0.0/24") (RefPod.fw0, RefPod.rs0) in
  ∃ src answer tr', x.1.1 = existT (RouteGetWithOptions probeAddr WgInterface src) answer :: tr' ∧
    addressUsable (addr_String src) "10.8.0.0/24" = true ∧
    (x.1.2 = None ↔ through_tunnel answer tr').
Proof.
  apply (CheckPeerPath_spec "10.8.0.0/24"); [vm_compute; reflexivity|].
  exact (run_is_exec RefPod.pod (CheckPeerPath "10.8.0.0/24") (RefPod.fw0, RefPod.rs0)).
Defined.
