(* ===== verification/Agent.v ===== *)
(** * The agent ([internal/agent], [cmd/agent/main.go])

    The agent reads the state from its file when the file changes, gives it to the
    device and the datapath, re-asserts the datapath periodically and answers the
    readiness probe. *)

From S2P Require Import Prelude GoStd Netip Effects Api External Ipam AgentState Resources Node WgServer Datapath.

#[local] Open Scope prog_scope.

(** [crypto/sha256] and [encoding/hex]: the hexadecimal digest of a file's content. *)
Class Sha256 := { Sum256 : string → string }.

Section agent.
Context `{WgTypes, !agent.StateCodec, !Sha256}.
#[local] Abbreviation N := (prog NRes).

(** [GetDesiredState] *)
Definition GetDesiredState (path : string) : N (result (agent.State * string)) :=
  jsonFile <-? perform (ReadFile path) ;;
  match agent.Unmarshal jsonFile with
  | Err e => Ret (Err e)
  | Ok state => Ret (Ok (state, Sum256 jsonFile))
  end.

(** [GluetunHealthy] *)
Definition GluetunHealthy (url : string) : N (option error) :=
  r <- perform (HTTPGet url) ;;
  match r with
  | Err e => Ret (Some (wrapf ("gluetun health " +:+ url +:+ ": ") e))
  | Ok (code, body) =>
      if code =? 200 then Ret None
      else Ret (Some (errors_New ("gluetun health " +:+ url +:+ ": " +:+ Itoa code +:+ " " +:+ TrimSpace body)))
  end.

(** The flags of [main]. *)
Record Flags := { f_state : string; f_iface : string; f_fallback : string; f_listenPort : Z }.

(** What the agent's goroutines share: the datapath's last result and the digest of the
    state last seen. *)
Record Agent := { ag_dp : datapath.Datapath; ag_hash : string }.

Section main.
Context (f : Flags).

(** The callback [main] gives to [OnStateChange]. *)
Definition onFileChange (state : agent.State) (dp : datapath.Datapath) : N datapath.Datapath :=
  r <- Sync (f_iface f) (f_listenPort f) (f_fallback f) state ;;
  match r with
  | Err _ => Ret dp
  | Ok _ => e <- datapath.Ensure (agent.PeerCIDR state) ;; Ret e.2
  end.

(** [OnStateChange] up to its return: [Err] when the agent exits. *)
Definition OnStateChange : N (result Agent) :=
  w <- perform NewWatcher ;;
  match w with
  | Some e => Ret (Err e)
  | None =>
      r <- GetDesiredState (f_state f) ;;
      ag <- match r with
            | Err _ => Ret {| ag_dp := datapath.New; ag_hash := "" |}
            | Ok (state, hash) =>
                match agent.IsStateValid state with
                | Some _ => Ret {| ag_dp := datapath.New; ag_hash := hash |}
                | None =>
                    dp <- onFileChange state datapath.New ;;
                    Ret {| ag_dp := dp; ag_hash := hash |}
                end
            end ;;
      a <- perform (WatcherAdd (f_state f)) ;;
      match a with
      | Some e => Ret (Err e)
      | None => Ret (Ok ag)
      end
  end.

(** The body of [OnStateChange]'s goroutine on an event of the watcher; [changed] when it
    has [Write] or [Create]. *)
Definition onEvent (changed : bool) (ag : Agent) : N Agent :=
  if changed then
    r <- GetDesiredState (f_state f) ;;
    match r with
    | Err _ => Ret ag
    | Ok (state, newHash) =>
        if decide (newHash = ag_hash ag) then Ret ag
        else
          match agent.IsStateValid state with
          | Some _ => Ret {| ag_dp := ag_dp ag; ag_hash := newHash |}
          | None =>
              dp <- onFileChange state (ag_dp ag) ;;
              Ret {| ag_dp := dp; ag_hash := newHash |}
          end
    end
  else Ret ag.

(** The body of [reassert]'s loop. *)
Definition reassert (ag : Agent) : N Agent :=
  r <- GetDesiredState (f_state f) ;;
  match r with
  | Err _ => Ret ag
  | Ok (state, _) =>
      e <- datapath.Ensure (agent.PeerCIDR state) ;;
      Ret {| ag_dp := e.2; ag_hash := ag_hash ag |}
  end.

Definition gluetunHealthURL : string := "http://" +:+ GluetunHealthAddress +:+ "/".

(** The [/health] handler: the status code it writes. *)
Definition health (ag : Agent) : N Z :=
  r <- GetDesiredState (f_state f) ;;
  match r with
  | Err _ => Ret 503
  | Ok (state, _) =>
      match agent.IsStateValid state with
      | Some _ => Ret 503
      | None =>
          s <- Sync (f_iface f) (f_listenPort f) (f_fallback f) state ;;
          match s with
          | Err _ => Ret 503
          | Ok _ =>
              match datapath.Err (ag_dp ag) with
              | Some _ => Ret 503
              | None =>
                  p <- datapath.CheckPeerPath (agent.PeerCIDR state) ;;
                  match p with
                  | Some _ => Ret 503
                  | None =>
                      g <- GluetunHealthy gluetunHealthURL ;;
                      match g with
                      | Some _ => Ret 503
                      | None => Ret 200
                      end
                  end
              end
          end
      end
  end.

(** What wakes the agent. *)
Inductive activity := FileEvent (changed : bool) | WatcherError | Tick | Probe.

Definition react (ag : Agent) (a : activity) : N Agent :=
  match a with
  | FileEvent changed => onEvent changed ag
  | WatcherError => Ret ag
  | Tick => reassert ag
  | Probe => _ <- health ag ;; Ret ag
  end.

(** The agent over a sequence of activities, in the order they take effect. *)
Fixpoint activities (ag : Agent) (l : list activity) : N Agent :=
  match l with
  | [] => Ret ag
  | a :: l => ag' <- react ag a ;; activities ag' l
  end.

Definition main (l : list activity) : N (result Agent) :=
  ag <-? OnStateChange ;;
  ag' <- activities ag l ;;
  Ret (Ok ag').
End main.
End agent.
