(* ===== verification/AgentFacts.v ===== *)
(** * The agent: correctness

    What the agent applies, what its readiness probe answers for, and that the datapath
    it reports is one it asserted. *)

From S2P Require Import Prelude GoStd Netip NetipFacts Effects Api External Ipam AgentState Peers Resources Gateway ReferenceCluster Node WgServer WgServerFacts Datapath DatapathFacts Agent.

#[local] Abbreviation ev := (@existT NOp NRes).

Section agent_facts.
Context `{WgTypes, !agent.StateCodec, !Sha256}.

(** ** What [Sync] does *)

(** An operation other than configuring the device and running a command. *)
Definition quiet (o : NOp) : Prop :=
  match o with ConfigureDevice _ _ | RunCommand _ _ => False | _ => True end.

#[local] Hint Resolve emits_check emits_check_wrapped emits_as_error : emits.

Lemma emits_SyncLink_quiet iface mtu fallback : emits quiet (SyncLink iface mtu fallback).
Proof. eapply emits_mono, emits_SyncLink. by intros []. Qed.

Lemma emits_SyncAddress_quiet iface want : emits quiet (SyncAddress iface want).
Proof. eapply emits_mono, emits_SyncAddress. by intros []. Qed.

Lemma emits_syncRoute iface cidr gw : emits quiet (syncRoute iface cidr gw).
Proof. unfold syncRoute. quietly. Qed.

(** A configuration computed from a state and the device as it was read. *)
Definition from_state (state : agent.State) (tr : list (event NRes)) (e : event NRes) : Prop :=
  match e with
  | existT (ConfigureDevice i cfg) _ =>
      ∃ dev key, ev (WgDevice i) (Ok dev) ∈ tr ∧ ParseKey (agent.ServerPrivateKey state) = Ok key ∧
        dc_PrivateKey cfg = Some key ∧ dc_ReplacePeers cfg = false ∧
        peersConfiguration state dev = Ok (dc_Peers cfg)
  | _ => True
  end.

Lemma quiet_from_state state tr t : Forall (λ e, quiet (projT1 e)) t → Forall (from_state state tr) t.
Proof. intros Ht. eapply Forall_impl; [exact Ht|]. intros [o x]. by destruct o. Qed.

Lemma from_state_mono state tr tr' e : tr ⊆ tr' → from_state state tr e → from_state state tr' e.
Proof. intros Hsub. destruct e as [[] x]; cbn; try done. intros (dev & key & Hd & Hrest). exists dev, key. auto. Qed.

Lemma from_state_app state tr t : Forall (from_state state t) t → t ⊆ tr → Forall (from_state state tr) t.
Proof. intros Ht Hsub. eapply Forall_impl; [exact Ht|]. intros e. by apply from_state_mono. Qed.

(** A configuration that was built was built from the state and the device. *)
Lemma CreateWireguardConfiguration_ok state iface port tr cfg :
  exec (CreateWireguardConfiguration state iface port) tr (Ok cfg) →
  Forall (λ e, quiet (projT1 e)) tr ∧ ∀ x, from_state state tr (ev (ConfigureDevice iface cfg) x).
Proof.
  unfold CreateWireguardConfiguration, createPeersConfiguration. intros Hex.
  destruct (ParseKey (agent.ServerPrivateKey state)) as [key|e] eqn:Hkey; inv_exec.
  split; [by repeat constructor|]. intros x. cbn. rewrite Hkey.
  eexists _, key. split; [left|]. done.
Qed.

Lemma emits_CreateWireguardConfiguration state iface port :
  emits quiet (CreateWireguardConfiguration state iface port).
Proof. unfold CreateWireguardConfiguration, createPeersConfiguration. quietly. Qed.

Lemma syncWireguard_from_state state iface port tr r :
  exec (syncWireguard state iface port) tr r → Forall (from_state state tr) tr.
Proof.
  unfold syncWireguard. intros Hex. inv_exec. destruct a as [e|]; inv_exec; [by repeat constructor|].
  assert (Forall (from_state state t) t) as Ht.
  { match goal with X : exec (bindE _ _) t _ |- _ => apply exec_bind in X as ([cfg|e] & t3 & t4 & -> & Hc & Hd) end.
    - apply CreateWireguardConfiguration_ok in Hc as [Hq Hc]. apply Forall_app. split; [by apply quiet_from_state|].
      unfold check in Hd. inv_exec. apply Forall_cons. split; [eapply from_state_mono; [|apply Hc]; set_solver|].
      destruct a1; inv_exec; constructor.
    - inv_exec. rewrite app_nil_r. eapply quiet_from_state, emits_CreateWireguardConfiguration, Hc. }
  apply Forall_cons. split; [done|]. rewrite !Forall_app.
  split; [eapply from_state_app; [exact Ht|set_solver]|]. split; [by repeat constructor|].
  destruct (errors_Join _ _); inv_exec; constructor.
Qed.

Lemma bindE_from_state {A B} state (p : prog NRes (result A)) (q : A → prog NRes (result B)) tr r :
  emits quiet p → (∀ a t r, exec (q a) t r → Forall (from_state state t) t) →
  exec (bindE p q) tr r → Forall (from_state state tr) tr.
Proof.
  intros Hp Hq (a & t1 & t2 & -> & Hl & Hex)%exec_bind. apply Forall_app.
  split; [by eapply quiet_from_state, Hp|]. destruct a as [a|e]; [|inv_exec; constructor].
  eapply from_state_app; [by eapply Hq|set_solver].
Qed.

Lemma Sync_from_state iface port fallback state tr r :
  exec (Sync iface port fallback state) tr r → Forall (from_state state tr) tr.
Proof.
  unfold Sync. apply bindE_from_state; [apply emits_SyncLink_quiet|]. intros _ t1 r1. cbv zeta.
  destruct (ParsePrefix _); [|intros; inv_exec; constructor].
  destruct (gatewayIPFromPrefix _); [|intros; inv_exec; constructor].
  apply bindE_from_state; [apply emits_SyncAddress_quiet|]. intros _ t2 r2.
  apply bindE_from_state; [apply emits_syncRoute|]. intros _ t3 r3. apply syncWireguard_from_state.
Qed.

(** ** What the agent applies *)

(** A configuration of the device for a valid state of the agent's file. *)
Definition valid_configuration (path : string) (tr : list (event NRes)) (e : event NRes) : Prop :=
  match e with
  | existT (ConfigureDevice _ _) _ =>
      ∃ b state, ev (ReadFile path) (Ok b) ∈ tr ∧ agent.Unmarshal b = Ok state ∧
        agent.IsStateValid state = None ∧ from_state state tr e
  | _ => True
  end.

Definition valid_trace (path : string) (tr : list (event NRes)) : Prop :=
  Forall (valid_configuration path tr) tr.

Lemma valid_configuration_mono path t tr e :
  t ⊆ tr → valid_configuration path t e → valid_configuration path tr e.
Proof.
  intros Hsub. destruct e as [o x]. destruct o; try done. intros (b & state & Hb & Hu & Hv & Hf).
  exists b, state. split_and!; [auto..|]. by eapply from_state_mono.
Qed.

Lemma valid_trace_app path t1 t2 : valid_trace path t1 → valid_trace path t2 → valid_trace path (t1 ++ t2).
Proof.
  intros Ht1 Ht2. apply Forall_app. split; (eapply Forall_impl; [eassumption|]);
    intros e; apply valid_configuration_mono; set_solver.
Qed.

(** Everything but [Sync] leaves the device. *)
Definition leaves_device (o : NOp) : Prop := match o with ConfigureDevice _ _ => False | _ => True end.

Lemma leaves_valid {A} path (p : prog NRes A) tr r : emits leaves_device p → exec p tr r → valid_trace path tr.
Proof. intros Hp Hex. eapply Forall_impl; [by eapply Hp|]. intros [o x]. by destruct o. Qed.

Lemma emits_Ensure cidr : emits leaves_device (datapath.Ensure cidr).
Proof.
  unfold datapath.Ensure. destruct (ParsePrefix cidr) as [p|e]; [|apply emits_ret].
  apply emits_bind; [apply emits_as_error|intros; apply emits_bind; [apply emits_as_error|solve_emits]].
  - eapply emits_mono; [|apply emits_ensureRouting]. by intros [].
  - eapply emits_mono; [|apply emits_ensureIptables]. by intros [].
Qed.

Lemma emits_CheckPeerPath cidr : emits quiet (datapath.CheckPeerPath cidr).
Proof. unfold datapath.CheckPeerPath, datapath.lookupPeerPath. quietly. Qed.

Lemma emits_GluetunHealthy url : emits quiet (GluetunHealthy url).
Proof. unfold GluetunHealthy. quietly. Qed.

Lemma GetDesiredState_exec path tr r :
  exec (GetDesiredState path) tr r →
  ∃ x, tr = [ev (ReadFile path) x] ∧
    ∀ state hash, r = Ok (state, hash) → ∃ b, x = Ok b ∧ agent.Unmarshal b = Ok state ∧ hash = Sum256 b.
Proof.
  unfold GetDesiredState, bindE. intros Hex. inv_exec. destruct a as [b|e]; inv_exec.
  - destruct (agent.Unmarshal b) as [s|e] eqn:Hu; inv_exec; (eexists; split; [done|]); intros state hash; [|done].
    intros [= <- <-]. by exists b.
  - eexists. split; [done|]. done.
Qed.

Lemma Sync_valid path iface port fallback b state t r :
  agent.Unmarshal b = Ok state → agent.IsStateValid state = None →
  exec (Sync iface port fallback state) t r → valid_trace path (ev (ReadFile path) (Ok b) :: t).
Proof.
  intros Hu Hv Hex. apply Sync_from_state in Hex. apply Forall_cons. split; [done|].
  eapply Forall_impl; [exact Hex|]. intros [o x] Hf. destruct o; try done.
  exists b, state. split_and!; [left|done|done|]. eapply from_state_mono; [|exact Hf]. set_solver.
Qed.

(** ** The datapath it reports *)

Definition no_command (o : NOp) : Prop := match o with RunCommand _ _ => False | _ => True end.

Lemma quiet_no_command {A} (p : prog NRes A) : emits quiet p → emits no_command p.
Proof. apply emits_mono. by intros []. Qed.

Lemma emits_Sync iface port fallback state : emits no_command (Sync iface port fallback state).
Proof.
  unfold Sync, syncWireguard. apply emits_bindE; [apply quiet_no_command, emits_SyncLink_quiet|]. intros _. cbv zeta.
  destruct (ParsePrefix _); [|apply emits_ret]. destruct (gatewayIPFromPrefix _); [|apply emits_ret].
  apply emits_bindE; [apply quiet_no_command, emits_SyncAddress_quiet|]. intros _.
  apply emits_bindE; [apply quiet_no_command, emits_syncRoute|]. intros _.
  assert (emits no_command (CreateWireguardConfiguration state iface port))
    by apply quiet_no_command, emits_CreateWireguardConfiguration.
  repeat first [assumption | progress solve_emits | apply emits_check].
Qed.

(** A datapath that reports no error was asserted for the network of a state the agent
    read, and no command has run since. *)
Definition asserted (path : string) (tr : list (event NRes)) (dp : datapath.Datapath) : Prop :=
  datapath.Err dp = None →
  ∃ b state t1 t2 t3, tr = t1 ++ t2 ++ t3 ∧
    ev (ReadFile path) (Ok b) ∈ t1 ∧ agent.Unmarshal b = Ok state ∧
    exec (datapath.Ensure (agent.PeerCIDR state)) t2 (None, dp) ∧
    Forall (λ e, no_command (projT1 e)) t3.

Lemma asserted_app path tr t dp :
  asserted path tr dp → Forall (λ e : event NRes, no_command (projT1 e)) t → asserted path (tr ++ t) dp.
Proof.
  intros Ha Ht (b & state & t1 & t2 & t3 & -> & Hb & Hu & He & Hn)%Ha.
  exists b, state, t1, t2, (t3 ++ t). rewrite <- !app_assoc. split_and!; [done..|]. by apply Forall_app.
Qed.

Lemma Ensure_asserted path tr b state t e dp :
  ev (ReadFile path) (Ok b) ∈ tr → agent.Unmarshal b = Ok state →
  exec (datapath.Ensure (agent.PeerCIDR state)) t (e, dp) → asserted path (tr ++ t) dp.
Proof.
  intros Hb Hu Hex Hdp. assert (e = None) as ->.
  { unfold datapath.Ensure in Hex. destruct (ParsePrefix _); inv_exec; exact Hdp. }
  exists b, state, tr, t, []. rewrite app_nil_r. split_and!; [done..|constructor].
Qed.

(** What holds of the agent whatever wakes it. *)
Record consistent (path : string) (tr : list (event NRes)) (dp : datapath.Datapath) : Prop := {
  cs_valid : valid_trace path tr;
  cs_asserted : asserted path tr dp;
}.

Context (f : Flags).
#[local] Abbreviation path := (f_state f).

Lemma consistent_quiet {A} (p : prog NRes A) tr t r dp :
  emits quiet p → exec p t r → consistent path tr dp → consistent path (tr ++ t) dp.
Proof.
  intros Hp Hex [Hv Ha]. split.
  - apply valid_trace_app; [done|]. eapply leaves_valid; [|exact Hex]. eapply emits_mono; [|exact Hp]. by intros [].
  - apply asserted_app; [done|]. by eapply quiet_no_command.
Qed.

Lemma consistent_Sync tr b state t r dp :
  ev (ReadFile path) (Ok b) ∈ tr → agent.Unmarshal b = Ok state → agent.IsStateValid state = None →
  exec (Sync (f_iface f) (f_listenPort f) (f_fallback f) state) t r →
  consistent path tr dp → consistent path (tr ++ t) dp.
Proof.
  intros Hb Hu Hv Hex [Hval Ha]. split; [|by eapply asserted_app, emits_Sync].
  pose proof (Sync_valid path _ _ _ b state t r Hu Hv Hex) as Ht. apply Forall_cons in Ht as [_ Ht].
  apply Forall_app. split.
  - eapply Forall_impl; [exact Hval|]. intros e. apply valid_configuration_mono. set_solver.
  - eapply Forall_impl; [exact Ht|]. intros e. apply valid_configuration_mono.
    intros x [->|Hx]%elem_of_cons; apply elem_of_app; auto.
Qed.

Lemma consistent_Ensure tr b state t e dp dp' :
  ev (ReadFile path) (Ok b) ∈ tr → agent.Unmarshal b = Ok state →
  exec (datapath.Ensure (agent.PeerCIDR state)) t (e, dp') →
  consistent path tr dp → consistent path (tr ++ t) dp'.
Proof.
  intros Hb Hu Hex [Hval _]. split; [|by eapply Ensure_asserted].
  apply valid_trace_app; [done|]. by eapply leaves_valid; [apply emits_Ensure|].
Qed.

Lemma consistent_read tr t r dp :
  exec (GetDesiredState path) t r → consistent path tr dp → consistent path (tr ++ t) dp.
Proof. apply consistent_quiet. unfold GetDesiredState. quietly. Qed.

(** A state that was read. *)
Lemma read_in tr t state hash :
  exec (GetDesiredState path) t (Ok (state, hash)) →
  ∃ b, ev (ReadFile path) (Ok b) ∈ tr ++ t ∧ agent.Unmarshal b = Ok state.
Proof.
  intros (x & -> & Hx)%GetDesiredState_exec. destruct (Hx _ _ eq_refl) as (b & -> & Hu & _).
  exists b. split; [set_solver|done].
Qed.

Lemma consistent_onFileChange tr b state t dp dp' :
  ev (ReadFile path) (Ok b) ∈ tr → agent.Unmarshal b = Ok state → agent.IsStateValid state = None →
  exec (onFileChange f state dp) t dp' → consistent path tr dp → consistent path (tr ++ t) dp'.
Proof.
  intros Hb Hu Hv Hex Hc. unfold onFileChange in Hex. inv_exec.
  match goal with X : exec (Sync _ _ _ _) _ _ |- _ => eapply consistent_Sync in X; [|eassumption..] end.
  destruct a as [[]|e]; inv_exec; [|by rewrite app_nil_r]. destruct a as [e dp']. rewrite !app_nil_r, app_assoc.
  eapply consistent_Ensure; [|exact Hu|eassumption|eassumption]. set_solver.
Qed.

Lemma consistent_health ag tr t r :
  exec (health f ag) t r → consistent path tr (ag_dp ag) → consistent path (tr ++ t) (ag_dp ag).
Proof.
  intros Hex Hc. unfold health in Hex. inv_exec.
  match goal with X : exec (GetDesiredState _) _ _ |- _ => rename X into Hr end.
  pose proof (consistent_read _ _ _ _ Hr Hc) as Hc1. rewrite app_assoc.
  destruct a as [[state hash]|e]; [|inv_exec; by rewrite app_nil_r].
  destruct (read_in tr _ _ _ Hr) as (b & Hb & Hu).
  destruct (agent.IsStateValid state) eqn:Hv; [inv_exec; by rewrite app_nil_r|]. inv_exec.
  match goal with X : exec (Sync _ _ _ _) _ _ |- _ => eapply consistent_Sync in X; [|eassumption..] end.
  rewrite app_assoc. destruct a as [[]|e]; [|inv_exec; by rewrite app_nil_r].
  eapply consistent_quiet; [|exact Hex|done].
  destruct (datapath.Err (ag_dp ag)); [apply emits_ret|].
  apply emits_bind; [apply emits_CheckPeerPath|]. intros [e|]; [apply emits_ret|].
  apply emits_bind; [apply emits_GluetunHealthy|]. intros [e|]; apply emits_ret.
Qed.

Lemma consistent_react ag a tr t ag' :
  exec (react f ag a) t ag' → consistent path tr (ag_dp ag) → consistent path (tr ++ t) (ag_dp ag').
Proof.
  intros Hex Hc. destruct a as [changed| | |]; cbn [react] in Hex.
  - unfold onEvent in Hex. destruct changed; inv_exec; [|by rewrite app_nil_r].
    match goal with X : exec (GetDesiredState _) _ _ |- _ => rename X into Hr end.
    pose proof (consistent_read _ _ _ _ Hr Hc) as Hc1. rewrite app_assoc.
    destruct a as [[state hash]|e]; [|inv_exec; by rewrite app_nil_r].
    destruct (read_in tr _ _ _ Hr) as (b & Hb & Hu).
    case_decide; [inv_exec; by rewrite app_nil_r|].
    destruct (agent.IsStateValid state) eqn:Hv; inv_exec; rewrite ?app_nil_r; [done|].
    by eapply consistent_onFileChange.
  - inv_exec. by rewrite app_nil_r.
  - unfold reassert in Hex. inv_exec.
    match goal with X : exec (GetDesiredState _) _ _ |- _ => rename X into Hr end.
    pose proof (consistent_read _ _ _ _ Hr Hc) as Hc1. rewrite app_assoc.
    destruct a as [[state hash]|e]; [|inv_exec; by rewrite app_nil_r].
    destruct (read_in tr _ _ _ Hr) as (b & Hb & Hu). inv_exec. destruct a as [e dp']. rewrite app_nil_r.
    by eapply consistent_Ensure.
  - inv_exec. rewrite app_nil_r. by eapply consistent_health.
Qed.

Lemma consistent_activities ag l tr t ag' :
  exec (activities f ag l) t ag' → consistent path tr (ag_dp ag) → consistent path (tr ++ t) (ag_dp ag').
Proof.
  revert ag tr t. induction l as [|a l IH]; intros ag tr t Hex Hc; cbn [activities] in Hex.
  - inv_exec. by rewrite app_nil_r.
  - inv_exec. rewrite app_assoc. eapply IH; [exact Hex|]. by eapply consistent_react.
Qed.

Lemma consistent_OnStateChange tr ag :
  exec (OnStateChange f) tr (Ok ag) → consistent path tr (ag_dp ag).
Proof.
  intros Hex. unfold OnStateChange in Hex. inv_exec. destruct a as [e|]; inv_exec.
  assert (consistent path [ev NewWatcher None] datapath.New) as Hc0 by (split; [by repeat constructor|done]).
  match goal with X : exec (GetDesiredState _) _ _ |- _ => rename X into Hr end.
  pose proof (consistent_read _ _ _ _ Hr Hc0) as Hc1. destruct a1 as [e|]; inv_exec.
  assert (consistent path (([ev NewWatcher None] ++ t) ++ t0) (ag_dp a0)) as Hc2.
  { destruct a as [[state hash]|e]; [|inv_exec; by rewrite app_nil_r].
    destruct (read_in [ev NewWatcher None] _ _ _ Hr) as (b & Hb & Hu).
    destruct (agent.IsStateValid state) eqn:Hv; inv_exec; rewrite ?app_nil_r; [done|].
    by eapply consistent_onFileChange. }
  eapply (consistent_quiet (perform (WatcherAdd path))) in Hc2; [|by apply emits_perform|by exists None, []].
  by rewrite <- !app_assoc in Hc2.
Qed.

Lemma consistent_main l tr ag : exec (main f l) tr (Ok ag) → consistent path tr (ag_dp ag).
Proof.
  intros Hex. unfold main in Hex. inv_exec. rewrite app_nil_r.
  eapply consistent_activities; [eassumption|]. by apply consistent_OnStateChange.
Qed.

(** C21: Whatever file events, watcher errors, ticks and probes wake the agent, in whatever
    order, every configuration it gives the device is computed from the device as
    it is and a state of its file that [IsStateValid] accepts, with that state's
    private key and without replacing the peers. *)
Theorem agent_applies_valid_states l tr ag i cfg x :
  exec (main f l) tr (Ok ag) → ev (ConfigureDevice i cfg) x ∈ tr →
  ∃ b state dev key, ev (ReadFile path) (Ok b) ∈ tr ∧ agent.Unmarshal b = Ok state ∧
    agent.IsStateValid state = None ∧ ev (WgDevice i) (Ok dev) ∈ tr ∧
    ParseKey (agent.ServerPrivateKey state) = Ok key ∧ dc_PrivateKey cfg = Some key ∧
    dc_ReplacePeers cfg = false ∧ peersConfiguration state dev = Ok (dc_Peers cfg).
Proof.
  intros [Hv _]%consistent_main He. unfold valid_trace in Hv. rewrite Forall_forall in Hv.
  destruct (Hv _ He) as (b & state & Hb & Hu & Hval & dev & key & Hrest). exists b, state, dev, key. tauto.
Qed.

(** ** Readiness *)

Lemma Sync_ok iface port fallback state t :
  exec (Sync iface port fallback state) t (Ok ()) →
  ∃ t1 t2, t = t1 ++ t2 ∧ exec (syncWireguard state iface port) t2 (Ok ()).
Proof.
  unfold Sync. intros Hex. inv_exec. destruct (ParsePrefix _); inv_exec. destruct (gatewayIPFromPrefix _); inv_exec.
  eexists _, _. split; [|exact Hex]. rewrite !app_assoc. reflexivity.
Qed.

(** The device of [iface] is given exactly the peers of [state]. *)
Definition serves `{!WgKernel} (iface : string) (state : agent.State) (tr : list (event NRes)) : Prop :=
  ∃ dev cfg, ev (WgDevice iface) (Ok dev) ∈ tr ∧ ev (ConfigureDevice iface cfg) None ∈ tr ∧
    dc_ReplacePeers cfg = false ∧ converges (agent.Peers state) dev (dc_Peers cfg).

Lemma Sync_serves `{!WgKernel} iface port fallback state tr :
  exec (Sync iface port fallback state) tr (Ok ()) → state_ok (agent.Peers state) →
  (∀ dev, ev (WgDevice iface) (Ok dev) ∈ tr → device_ok dev) → serves iface state tr.
Proof.
  intros (t1 & t2 & -> & (dev & key & cfg & -> & _ & Hc)%syncWireguard_ok)%Sync_ok Hs Hd.
  destruct (peersConfiguration_ok state dev Hs) as (cfg' & Hc' & Hconv); [apply Hd; set_solver|].
  rewrite Hc in Hc'. injection Hc' as <-. exists dev.
  exists {| dc_PrivateKey := Some key; dc_ListenPort := Some port; dc_ReplacePeers := false; dc_Peers := cfg |}.
  split_and!; [set_solver|set_solver|done|done].
Qed.

Lemma GluetunHealthy_ok url t :
  exec (GluetunHealthy url) t None → ∃ body, t = [ev (HTTPGet url) (Ok (200, body))].
Proof.
  unfold GluetunHealthy. intros Hex. inv_exec. destruct a as [[code body]|e]; inv_exec.
  destruct (Z.eqb_spec code 200) as [->|]; inv_exec. by exists body.
Qed.

Lemma health_ok ag tr :
  exec (health f ag) tr 200 →
  datapath.Err (ag_dp ag) = None ∧
  ∃ b state ts tp body,
    tr = ev (ReadFile path) (Ok b) :: ts ++ tp ++ [ev (HTTPGet gluetunHealthURL) (Ok (200, body))] ∧
    agent.Unmarshal b = Ok state ∧ agent.IsStateValid state = None ∧
    exec (Sync (f_iface f) (f_listenPort f) (f_fallback f) state) ts (Ok ()) ∧
    exec (datapath.CheckPeerPath (agent.PeerCIDR state)) tp None.
Proof.
  intros Hex. unfold health in Hex. inv_exec.
  match goal with X : exec (GetDesiredState _) _ _ |- _ => apply GetDesiredState_exec in X as (x & -> & Hx) end.
  destruct a as [[state hash]|e]; [|inv_exec]. destruct (Hx _ _ eq_refl) as (b & -> & Hu & _).
  destruct (agent.IsStateValid state) eqn:Hv; [inv_exec|]. inv_exec. destruct a as [[]|e]; [|inv_exec].
  destruct (datapath.Err (ag_dp ag)) eqn:Hd; [inv_exec|]. split; [done|]. inv_exec. destruct a as [e|]; inv_exec.
  destruct a as [e|]; inv_exec.
  match goal with X : exec (GluetunHealthy _) _ _ |- _ => apply GluetunHealthy_ok in X as [body ->] end.
  exists b, state. eexists _, _, body. split_and!; [|done|done|eassumption|eassumption].
  by rewrite app_nil_r.
Qed.

End agent_facts.

(** ** A concrete agent *)

Module RefAgent.
#[export] Existing Instances Reference.wgtypes RefCluster.codec.

(** Contents are their own digests. *)
#[export] Instance sha : Sha256 := {| Sum256 b := b |}.

Definition flags : Flags :=
  {| f_state := "/tmp/wireguard/state.json"; f_iface := "wg0"; f_fallback := "wireguard-go"; f_listenPort := 51820 |}.

(** The pod with the Secret the operator rendered mounted as the agent's file. *)
Definition server : handler NRes (Firewall * list Rule) :=
  λ o s, match o with
         | ReadFile _ => (Ok "rendered", s)
         | o => RefPod.pod o s
         end.

Definition started := run server (main flags [FileEvent true; Tick; WatcherError; Probe]) (RefPod.fw0, RefPod.rs0).

Definition agent : Agent :=
  match started.1.2 with Ok ag => ag | Err _ => {| ag_dp := datapath.New; ag_hash := "" |} end.

Lemma started_exec : exec (main flags [FileEvent true; Tick; WatcherError; Probe]) started.1.1 (Ok agent).
Proof.
  assert (started.1.2 = Ok agent) as <- by (vm_compute; reflexivity). apply run_is_exec.
Qed.

Definition probed := run server (health flags agent) started.2.

Lemma probed_exec : exec (health flags agent) probed.1.1 200.
Proof.
  assert (probed.1.2 = 200) as <- by (vm_compute; reflexivity). apply run_is_exec.
Qed.

Lemma probed_devices i dev : ev (WgDevice i) (Ok dev) ∈ probed.1.1 → device_ok dev.
Proof.
  intros [s He]%run_answers.
  apply (f_equal (λ e : event NRes, match e with existT (WgDevice _) (Ok d) => d | _ => RefNode.device end)) in He.
  cbn in He. rewrite He. apply RefNode.device_is_ok.
Qed.

Lemma configured : ∃ i cfg x, ev (ConfigureDevice i cfg) x ∈ started.1.1.
Proof.
  assert (∃ e : event NRes, e ∈ started.1.1 ∧
    match e with existT (ConfigureDevice _ _) _ => true | _ => false end = true) as ([[] x] & He & Hc); [|try done..].
  - apply Exists_exists. by_evaluation.
  - by eexists _, _, _.
Qed.
End RefAgent.

#[local] Existing Instances Reference.wgtypes RefCluster.codec RefAgent.sha RefNode.kernel.

Lemma agent_applies_valid_states_witness :
  ∃ i cfg x b state dev key, ev (ConfigureDevice i cfg) x ∈ RefAgent.started.1.1 ∧
    ev (ReadFile (f_state RefAgent.flags)) (Ok b) ∈ RefAgent.started.1.1 ∧
    agent.Unmarshal b = Ok state ∧ agent.IsStateValid state = None ∧
    ev (WgDevice i) (Ok dev) ∈ RefAgent.started.1.1 ∧
    ParseKey (agent.ServerPrivateKey state) = Ok key ∧ dc_PrivateKey cfg = Some key ∧
    dc_ReplacePeers cfg = false ∧ peersConfiguration state dev = Ok (dc_Peers cfg).
Proof.
  destruct RefAgent.configured as (i & cfg & x & He).
  destruct (agent_applies_valid_states RefAgent.flags _ _ _ i cfg x RefAgent.started_exec He)
    as (b & state & dev & key & Hrest).
  exists i, cfg, x, b, state, dev, key. exact (conj He Hrest).
Defined.

