(* ===== verification/SidecarPeer.v ===== *)
(** * The client sidecar: identity ([internal/sidecar]: [config.go], [key.go], [peer.go])

    The client's configuration from its flags and environment, its private key, and the
    WireguardPeer it registers for its pod. *)

From S2P Require Import Prelude GoStd Netip Effects Api External Node WgServer.

#[local] Open Scope prog_scope.

(** ** [config.go] *)

Definition DefaultKeyPath : string := "/var/run/wireguard/key".

(** [Config] *)
Record Config := {
  cf_Wireguard : string;
  cf_WireguardNamespace : string;
  cf_KeyPath : string;
  cf_PodName : string;
  cf_PodNamespace : string;
  cf_PodUID : string;
}.

(** The [--wireguard] flag: the name and the namespace, empty for the pod's own. *)
Definition parseWireguard (wireguard : string) : result (string * string) :=
  match cut "/"%char wireguard with
  | None => Ok (wireguard, "")
  | Some (ns, n) =>
      if bool_decide (ns = "") || bool_decide (n = "") || contains_byte "/"%char n then
        Err (errors_New ("--wireguard " +:+ Quote wireguard +:+ " must be a name or namespace/name"))
      else Ok (n, ns)
  end.

Definition podEnv : list string := ["POD_NAME"; "POD_NAMESPACE"; "POD_UID"; "POD_IP"; "HOST_IP"].

(** [ConfigFromEnv] *)
Definition ConfigFromEnv (wireguard keyPath : string) (getenv : string → string) : result Config :=
  if decide (wireguard = "") then Err (errors_New "--wireguard is required")
  else
    match parseWireguard wireguard with
    | Err e => Err e
    | Ok (name, namespace) =>
        let missing := filter (λ n, getenv n = "") podEnv in
        if decide (missing ≠ []) then Err (errors_New ("missing environment: " +:+ join ", " missing))
        else if decide (getenv "POD_IP" = getenv "HOST_IP") then
          Err (errors_New ("refusing to start: POD_IP " +:+ getenv "POD_IP" +:+
            " equals HOST_IP, so the pod shares the node's network namespace and replacing its default route would cut the node off"))
        else
          Ok {| cf_Wireguard := name; cf_WireguardNamespace := namespace; cf_KeyPath := keyPath;
                cf_PodName := getenv "POD_NAME"; cf_PodNamespace := getenv "POD_NAMESPACE";
                cf_PodUID := getenv "POD_UID" |}
    end.

Section sidecar.
Context `{WgTypes, MetaLib}.
#[local] Abbreviation N := (prog NRes).

(** ** [key.go] *)

(** What [LoadOrCreateKey] does when there is no file: the key, or an error when it is
    not stored. The deferred [Close] runs once the file is open. *)
Definition createKey (path : string) : N (result Key) :=
  g <- perform GenerateKey ;;
  match g with
  | Err e => Ret (Err (wrapf "generate key: " e))
  | Ok key =>
      o <- perform (OpenExclusive path) ;;
      match o with
      | Some e => Ret (Err (wrapf ("write key " +:+ path +:+ ": ") e))
      | None =>
          w <- perform (WriteString (Key_String key)) ;;
          c <- perform CloseFile ;;
          let wrap := fmap (M := option) (wrapf ("write key " +:+ path +:+ ": ")) in
          match errors_Join (wrap w) (wrap c) with
          | Some e => Ret (Err e)
          | None => Ret (Ok key)
          end
      end
  end.

(** [LoadOrCreateKey] *)
Definition LoadOrCreateKey (path : string) : N (result Key) :=
  r <- perform (ReadFile path) ;;
  match r with
  | Ok content =>
      match ParseKey (TrimSpace content) with
      | Err e => Ret (Err (wrapf ("key file " +:+ path +:+ " holds no valid WireGuard key: ") e))
      | Ok key => Ret (Ok key)
      end
  | Err e =>
      if negb (errors_Is e ErrNotExist) then Ret (Err (wrapf ("read key " +:+ path +:+ ": ") e))
      else createKey path
  end.

(** ** [peer.go] *)

Definition zeroPeerStatus : WireguardPeerStatus :=
  {| ps_Status := ""; ps_Message := ""; ps_Address := ""; ps_Endpoint := ""; ps_ServerPublicKey := "";
     ps_LocalCIDRs := []; ps_Conditions := [] |}.

(** [peerAction] *)
Inductive peerAction := actionCreate | actionKeep | actionReplace | actionRefuse.

(** [desiredPeer] *)
Definition desiredPeer (cfg : Config) (publicKey : string) : WireguardPeer := {|
  wp_meta := {| Name := cf_PodName cfg; Namespace := cf_PodNamespace cfg; UID := ""; ResourceVersion := "";
                Generation := 0; CreationTimestamp := 0; Labels := ∅; Annotations := ∅;
                OwnerReferences := [{| or_APIVersion := "v1"; or_Kind := "Pod"; or_Name := cf_PodName cfg;
                                       or_UID := cf_PodUID cfg; or_Controller := Some true |}] |};
  wp_Spec := {| PublicKey := publicKey; WireguardRef := cf_Wireguard cfg;
                WireguardNamespace := cf_WireguardNamespace cfg |};
  wp_Status := zeroPeerStatus;
|}.

(** [decidePeer]; [want] has a controller, and without one the source panics. *)
Definition decidePeer (existing : option WireguardPeer) (want : WireguardPeer) : peerAction :=
  match existing with
  | None => actionCreate
  | Some existing =>
      match GetControllerOf (wp_meta existing) with
      | None => actionRefuse
      | Some ctl =>
          if bool_decide (or_APIVersion ctl ≠ "v1") || bool_decide (or_Kind ctl ≠ "Pod") then actionRefuse
          else if decide (Some (or_UID ctl) ≠ or_UID <$> GetControllerOf (wp_meta want)) then actionReplace
          else if bool_decide (PublicKey (wp_Spec existing) ≠ PublicKey (wp_Spec want)) ||
                  bool_decide (WireguardRef (wp_Spec existing) ≠ WireguardRef (wp_Spec want)) ||
                  bool_decide (WireguardNamespace (wp_Spec existing) ≠ WireguardNamespace (wp_Spec want))
          then actionReplace
          else actionKeep
      end
  end.

(** The create that ends [ensurePeer]. *)
Definition createPeer (named : string) (want : WireguardPeer) : N (result (option WireguardPeer)) :=
  c <- perform (CreatePeer want) ;;
  match c with
  | Some e =>
      if errors_Is e AlreadyExists then Ret (Ok None)
      else Ret (Err (wrapf ("create WireguardPeer " +:+ named +:+ ": ") e))
  | None => Ret (Ok None)
  end.

(** [ensurePeer] *)
Definition ensurePeer (cfg : Config) (publicKey : string) : N (result (option WireguardPeer)) :=
  let key := NN (cf_PodNamespace cfg) (cf_PodName cfg) in
  let named := cf_PodNamespace cfg +:+ "/" +:+ cf_PodName cfg in
  let want := desiredPeer cfg publicKey in
  let create := createPeer named want in
  g <- perform (GetPeer key) ;;
  existing <-? match g with
               | Ok p => Ret (Ok (Some p))
               | Err e => if errors_Is e NotFound then Ret (Ok None)
                          else Ret (Err (wrapf ("get WireguardPeer " +:+ named +:+ ": ") e))
               end ;;
  match decidePeer existing want, existing with
  | actionKeep, _ => Ret (Ok existing)
  | actionRefuse, _ =>
      Ret (Err (errors_New ("WireguardPeer " +:+ named +:+
        " exists and no Pod controls it, so this pod cannot register under its name")))
  | actionReplace, Some p =>
      d <- perform (DeletePeer p (UID (wp_meta p))) ;;
      match d with
      | Some e =>
          if errors_Is e NotFound || errors_Is e Conflict then create
          else Ret (Err (wrapf ("delete stale WireguardPeer " +:+ named +:+ ": ") e))
      | None => create
      end
  | _, _ => create
  end.
End sidecar.
