(* ===== verification/SidecarTunnel.v ===== *)
(** * The client sidecar: the tunnel ([internal/sidecar]: [tunnel.go], [routes.go],
    [routes_linux.go], [apply.go], [check.go])

    What the client reads of its WireguardPeer's status, the device and the routes it
    makes of it, and its startup check. *)

From S2P Require Import Prelude GoStd Netip Effects Api External Resources Node WgServer.

#[local] Open Scope prog_scope.

(** ** [tunnel.go] *)

(** [fmt.Errorf] of [errWaiting] and the text after it. *)
Definition waiting (s : string) : error := MkError ("waiting for the operator: " +:+ s) [ErrWaiting].

Section tunnel.
Context `{WgTypes, ConditionLib}.
#[local] Abbreviation N := (prog NRes).

(** [Tunnel] *)
Record Tunnel := {
  tn_Address : Prefix;
  tn_ServerKey : Key;
  tn_Endpoint : AddrPort;
  tn_LocalCIDRs : list Prefix;
}.

(** [notReadyWhy] *)
Definition notReadyWhy (peer : WireguardPeer) : string :=
  match FindStatusCondition (ps_Conditions (wp_Status peer)) "Ready" with
  | None => ""
  | Some c => " (Ready=" +:+ c_Status c +:+ " " +:+ c_Reason c +:+ ": " +:+ c_Message c +:+ ")"
  end.

(** The loop of [parseLocalCIDRs]. *)
Fixpoint parseLocalCIDRs_loop (name : string) (l : list string) : result (list Prefix) :=
  match l with
  | [] => Ok []
  | c :: l =>
      match ParsePrefix c with
      | Err e => Err (wrapf ("parse status.localCIDRs entry " +:+ Quote c +:+ " of WireguardPeer " +:+ name +:+ ": ") e)
      | Ok p =>
          if Bits p =? 0 then
            Err (errors_New ("status.localCIDRs entry " +:+ Quote c +:+ " of WireguardPeer " +:+ name +:+
                             " covers every address, so nothing would go through the tunnel"))
          else
            match parseLocalCIDRs_loop name l with
            | Err e => Err e
            | Ok cidrs => Ok (Masked p :: cidrs)
            end
      end
  end.

(** [parseLocalCIDRs] *)
Definition parseLocalCIDRs (peer : WireguardPeer) : result (list Prefix) :=
  parseLocalCIDRs_loop (peer_Name peer) (ps_LocalCIDRs (wp_Status peer)).

(** [desiredTunnel] *)
Definition desiredTunnel (peer : WireguardPeer) : result Tunnel :=
  let st := wp_Status peer in
  let name := peer_Name peer in
  if decide (ps_Address st = "") then
    Err (waiting ("WireguardPeer " +:+ name +:+ " has no status.address" +:+ notReadyWhy peer))
  else if decide (ps_Endpoint st = "") then
    Err (waiting ("WireguardPeer " +:+ name +:+ " has no status.endpoint"))
  else if decide (ps_ServerPublicKey st = "") then
    Err (waiting ("WireguardPeer " +:+ name +:+ " has no status.serverPublicKey"))
  else if decide (ps_LocalCIDRs st = []) then
    Err (waiting ("WireguardPeer " +:+ name +:+ " has no status.localCIDRs"))
  else
    match ParseAddr (ps_Address st) with
    | Err e => Err (wrapf ("parse status.address " +:+ Quote (ps_Address st) +:+ " of WireguardPeer " +:+ name +:+ ": ") e)
    | Ok addr =>
        if negb (Is4 addr) then
          Err (errors_New ("status.address " +:+ Quote (ps_Address st) +:+ " of WireguardPeer " +:+ name +:+ " is not IPv4"))
        else
          match ParseAddrPort (ps_Endpoint st) with
          | Err e => Err (wrapf ("parse status.endpoint " +:+ Quote (ps_Endpoint st) +:+ " of WireguardPeer " +:+ name +:+ ": ") e)
          | Ok endpoint =>
              match ParseKey (ps_ServerPublicKey st) with
              | Err e => Err (wrapf ("parse status.serverPublicKey of WireguardPeer " +:+ name +:+ ": ") e)
              | Ok serverKey =>
                  match parseLocalCIDRs peer with
                  | Err e => Err e
                  | Ok cidrs => Ok {| tn_Address := PrefixFrom addr 32; tn_ServerKey := serverKey;
                                      tn_Endpoint := endpoint; tn_LocalCIDRs := cidrs |}
                  end
              end
          end
    end.

(** [deviceMatches] *)
Definition deviceMatches (dev : option Device) (key : Key) (t : Tunnel) (allowed : IPNet) : bool :=
  match dev with
  | None => false
  | Some dev =>
      match dev_Peers dev with
      | [p] =>
          bool_decide (dev_PrivateKey dev = key) && bool_decide (wgp_PublicKey p = tn_ServerKey t) &&
          (wgp_Keepalive p =? Keepalive) &&
          match wgp_Endpoint p with
          | None => false
          | Some ap => bool_decide (mkAddrPort (Unmap (ap_addr ap)) (ap_port ap) = tn_Endpoint t)
          end &&
          match wgp_AllowedIPs p with
          | [n] => bool_decide (ipnet_String n = ipnet_String allowed)
          | _ => false
          end
      | _ => false
      end
  end.

(** [deviceConfig]; [None] when the device already matches. *)
Definition deviceConfig (dev : option Device) (key : Key) (t : Tunnel) : option DeviceConfig :=
  if deviceMatches dev key t default4 then None
  else Some {| dc_PrivateKey := Some key; dc_ListenPort := None; dc_ReplacePeers := true;
               dc_Peers := [{| pc_PublicKey := tn_ServerKey t; pc_Remove := false; pc_UpdateOnly := false;
                               pc_Endpoint := Some (tn_Endpoint t); pc_Keepalive := Some Keepalive;
                               pc_ReplaceAllowedIPs := true; pc_AllowedIPs := [default4] |}] |}.

Definition second : Z := 1000000000.

Definition handshakeMaxAge : Z := 180 * second.

(** [Duration.String] of whole seconds, at least one minute. *)
Definition seconds_String (s : Z) : string :=
  (if s <? 3600 then "" else Itoa (s / 3600) +:+ "h") +:+ Itoa (s mod 3600 / 60) +:+ "m" +:+ Itoa (s mod 60) +:+ "s".

(** [checkDevice]; times are nanoseconds, a handshake time of 0 the zero [Time]. *)
Definition checkDevice (dev : Device) (now : Z) : option error :=
  match dev_Peers dev with
  | [p] =>
      if wgp_LastHandshakeTime p =? 0 then
        Some (errors_New (dev_Name dev +:+ " has not completed a handshake with its peer"))
      else
        let age := now - wgp_LastHandshakeTime p in
        if handshakeMaxAge <=? age then
          Some (errors_New (dev_Name dev +:+ "'s last handshake was " +:+
            seconds_String ((age + second / 2) / second) +:+ " ago, more than 3m0s"))
        else None
  | l => Some (errors_New (dev_Name dev +:+ " has " +:+ Itoa (Z.of_nat (length l)) +:+ " peers, want 1"))
  end.

(** ** [routes.go] *)

Definition routeProtocol : Z := 151.

(** [route] *)
Record route := {
  rt_Dst : Prefix;
  rt_Gw : Addr;
  rt_LinkIndex : Z;
  rt_Priority : Z;
  rt_Protocol : Z;
  rt_Scope : Z;
}.

#[export] Instance route_eq_dec : EqDecision route.
Proof. solve_decision. Defined.

(** [routePlan] *)
Record routePlan := {
  pl_Gw : Addr;
  pl_GwLink : Z;
  pl_Local : list Prefix;
  pl_Stale : list route;
}.

(** [isDefault] *)
Definition isDefault (r : route) : bool := Bits (rt_Dst r) =? 0.

(** A default route outside wg0 via a gateway, and a route the client installed via one. *)
Definition cniDefault (wgIndex : Z) (r : route) : bool :=
  isDefault r && negb (rt_LinkIndex r =? wgIndex) && addr_IsValid (rt_Gw r).
Definition installed (r : route) : bool := (rt_Protocol r =? routeProtocol) && addr_IsValid (rt_Gw r).

(** The routes [planRoutes] finds stale. *)
Definition isStale (wgIndex : Z) (localCIDRs : list Prefix) (r : route) : bool :=
  if isDefault r then negb (rt_LinkIndex r =? wgIndex)
  else (rt_Protocol r =? routeProtocol) && negb (bool_decide (rt_Dst r ∈ localCIDRs)).

(** [planRoutes] *)
Definition planRoutes (have : list route) (wgIndex : Z) (localCIDRs : list Prefix) : result routePlan :=
  let gw := match List.find (cniDefault wgIndex) have with
            | Some r => Some r
            | None => List.find installed have
            end in
  match gw with
  | None =>
      Err (errors_New "no CNI gateway: the main table has no default route via a gateway outside wg0 and no route this client installed")
  | Some r =>
      Ok {| pl_Gw := rt_Gw r; pl_GwLink := rt_LinkIndex r; pl_Local := localCIDRs;
            pl_Stale := List.filter (isStale wgIndex localCIDRs) have |}
  end.

(** ** [routes_linux.go] *)

(** [toRoute] *)
Definition toRoute (r : Route) : route := {|
  rt_Dst := match r_Dst r with
            | None => PrefixFrom (addr4 0) 0
            | Some n => if addr_IsValid (n_IP n) then PrefixFrom (Unmap (n_IP n)) (n_ones n) else zeroPrefix
            end;
  rt_Gw := if addr_IsValid (r_Gw r) then Unmap (r_Gw r) else zeroAddr;
  rt_LinkIndex := r_LinkIndex r;
  rt_Priority := r_Priority r;
  rt_Protocol := r_Protocol r;
  rt_Scope := r_Scope r;
|}.

(** The routes [ensureRoutes] installs. *)
Definition localRoute (plan : routePlan) (p : Prefix) : Route :=
  {| r_Dst := Some (ipNet p); r_Gw := pl_Gw plan; r_LinkIndex := pl_GwLink plan; r_Priority := 0;
     r_Protocol := routeProtocol; r_Scope := SCOPE_UNIVERSE; r_Table := RT_TABLE_MAIN; r_Type := 0 |}.

Definition wgDefault (wgIndex : Z) : Route :=
  {| r_Dst := Some default4; r_Gw := zeroAddr; r_LinkIndex := wgIndex; r_Priority := 0;
     r_Protocol := routeProtocol; r_Scope := SCOPE_LINK; r_Table := RT_TABLE_MAIN; r_Type := 0 |}.

(** The route [deleteStale] asks to delete for [r]. *)
Definition deletion (r : route) : Route :=
  {| r_Dst := Some (ipNet (rt_Dst r)); r_Gw := if addr_IsValid (rt_Gw r) then rt_Gw r else zeroAddr;
     r_LinkIndex := rt_LinkIndex r; r_Priority := rt_Priority r; r_Protocol := rt_Protocol r;
     r_Scope := rt_Scope r; r_Table := RT_TABLE_MAIN; r_Type := 0 |}.

(** [deleteStale] *)
Definition deleteStale (stale : list route) : N (result unit) :=
  loopE (λ _ r,
    d <- perform (RouteDel (deletion r)) ;;
    match d with
    | Some e => if errors_Is e ESRCH then Ret (Ok ())
                else Ret (Err (wrapf ("delete route " +:+ prefix_String (rt_Dst r) +:+ ": ") e))
    | None => Ret (Ok ())
    end) stale ().

(** [noIPv6Stack] *)
Definition noIPv6Stack (e : error) : bool := errors_Is e EOPNOTSUPP || errors_Is e EAFNOSUPPORT.

(** A listed route that [deleteIPv6Defaults] deletes: not IPv4, and a default. *)
Definition ipv6Default (r : Route) : bool :=
  negb (match r_Dst r with Some n => Is4 (Unmap (n_IP n)) | None => false end || Is4 (Unmap (r_Gw r))) &&
  match r_Dst r with Some n => n_ones n =? 0 | None => true end.

Definition deletion6 (r : Route) : Route :=
  {| r_Dst := Some default6; r_Gw := r_Gw r; r_LinkIndex := r_LinkIndex r; r_Priority := r_Priority r;
     r_Protocol := 0; r_Scope := r_Scope r; r_Table := RT_TABLE_MAIN; r_Type := 0 |}.

(** [deleteIPv6Defaults] *)
Definition deleteIPv6Defaults : N (result unit) :=
  l <- perform (RouteListMain true) ;;
  match l with
  | Err e => if noIPv6Stack e then Ret (Ok ()) else Ret (Err (wrapf "list routes: " e))
  | Ok listed =>
      loopE (λ _ r,
        if ipv6Default r then
          d <- perform (RouteDel (deletion6 r)) ;;
          match d with
          | Some e => if errors_Is e ESRCH || noIPv6Stack e then Ret (Ok ())
                      else Ret (Err (wrapf "delete IPv6 default route: " e))
          | None => Ret (Ok ())
          end
        else Ret (Ok ())) listed ()
  end.

(** The routes to the local networks. *)
Definition replaceLocals (plan : routePlan) (l : list Prefix) : N (result unit) :=
  loopE (λ _ p,
    check_wrapped ("replace route " +:+ prefix_String p +:+ " via " +:+ addr_String (pl_Gw plan) +:+ ": ")
      (perform (RouteReplace (localRoute plan p)))) l ().

(** [ensureRoutes] *)
Definition ensureRoutes (wgIndex : Z) (localCIDRs : list Prefix) : N (result unit) :=
  l <- perform (RouteListMain false) ;;
  match l with
  | Err e => Ret (Err (wrapf "list routes: " e))
  | Ok listed =>
      match planRoutes (toRoute <$> listed) wgIndex localCIDRs with
      | Err e => Ret (Err e)
      | Ok plan =>
          _ <-? replaceLocals plan (pl_Local plan) ;;
          _ <-? check_wrapped "replace the default route via wg0: " (perform (RouteReplace (wgDefault wgIndex))) ;;
          _ <-? deleteStale (pl_Stale plan) ;;
          deleteIPv6Defaults
      end
  end.

(** [routesVia] *)
Definition routesVia (dst : Addr) (linkIndex : Z) : N (result bool) :=
  r <- perform (RouteGet dst) ;;
  match r with
  | Err e => Ret (Err (wrapf ("route get " +:+ addr_String dst +:+ ": ") e))
  | Ok [] => Ret (Ok false)
  | Ok (r :: _) => Ret (Ok (r_LinkIndex r =? linkIndex))
  end.

(** ** [apply.go], [check.go] *)

(** A body between [wgctrl.New] and the deferred [Close]. *)
Definition withClient (body : N (result unit)) : N (result unit) :=
  n <- perform WgNew ;;
  match n with
  | Some e => Ret (Err (wrapf "open wgctrl client: " e))
  | None =>
      r <- body ;;
      c <- perform WgClose ;;
      match c with
      | None => Ret r
      | Some cerr =>
          let cerr := wrapf "close wgctrl client: " cerr in
          Ret (Err (default cerr (errors_Join (match r with Ok _ => None | Err e => Some e end) (Some cerr))))
      end
  end.

(** The error of a call, with the text the caller puts before it. *)
Definition wrapped {A} (pre : string) (p : N (result A)) : N (result A) :=
  r <- p ;; match r with Ok a => Ret (Ok a) | Err e => Ret (Err (wrapf pre e)) end.

(** [podDatapath.Apply] *)
Definition Apply (key : Key) (t : Tunnel) : N (result unit) :=
  _ <-? wrapped "sync link: " (SyncLink WgInterface TunnelMTU UserspaceImplementation) ;;
  _ <-? wrapped "sync address: " (SyncAddress WgInterface (tn_Address t)) ;;
  withClient (
    dev <-? wrapped "read device: " (perform (WgDevice WgInterface)) ;;
    _ <-? match deviceConfig (Some dev) key t with
          | Some cfg => check_wrapped "configure device: " (perform (ConfigureDevice WgInterface cfg))
          | None => Ret (Ok ())
          end ;;
    link <-? wrapped ("look up " +:+ WgInterface +:+ ": ") (perform (LinkByName WgInterface)) ;;
    wrapped "routes: " (ensureRoutes (l_Index link) (tn_LocalCIDRs t))).

Definition probeAddress : string := "1.1.1.1".

(** [netip.AddrFrom4([4]byte{1, 1, 1, 1})] *)
Definition probeAddress4 : Addr := addr4 (of_bytes [1; 1; 1; 1]).

(** [Check] *)
Definition Check (iface : string) : N (result unit) :=
  withClient (
    dev <-? wrapped ("read device " +:+ iface +:+ ": ") (perform (WgDevice iface)) ;;
    now <- perform TimeNow ;;
    match checkDevice dev now with
    | Some e => Ret (Err e)
    | None =>
        link <-? wrapped ("look up " +:+ iface +:+ ": ") (perform (LinkByName iface)) ;;
        via <-? routesVia probeAddress4 (l_Index link) ;;
        if (via : bool) then Ret (Ok ())
        else Ret (Err (errors_New (probeAddress +:+ " does not route via " +:+ iface)))
    end).
End tunnel.
