(* ===== verification/Sidecar.v ===== *)
(** * The client sidecar: its passes ([internal/sidecar/sidecar.go], [runClient] of
    [cmd/agent/main.go])

    A pass registers the pod's WireguardPeer and applies the tunnel its status describes;
    the client runs passes until it is stopped. *)

From S2P Require Import Prelude GoStd GoFlag Netip Effects Api External Resources Node WgServer SidecarPeer SidecarTunnel.

#[local] Open Scope prog_scope.

Section sidecar.
Context `{WgTypes, MetaLib, ConditionLib}.
#[local] Abbreviation N := (prog NRes).

(** [runner.step] *)
Definition step (cfg : Config) (key : Key) : N (result unit) :=
  peer <-? ensurePeer cfg (Key_String (Key_PublicKey key)) ;;
  match peer with
  | None =>
      Ret (Err (waiting ("WireguardPeer " +:+ cf_PodNamespace cfg +:+ "/" +:+ cf_PodName cfg +:+ " registered")))
  | Some peer =>
      match desiredTunnel peer with
      | Err e => Ret (Err e)
      | Ok t => Apply key t
      end
  end.

(** What [loop] logs of a pass. *)
Inductive logged := Applied | Waiting (e : error) | Failed (e : error).

Definition outcome_of (r : result unit) : logged :=
  match r with
  | Ok _ => Applied
  | Err e => if errors_Is e ErrWaiting then Waiting e else Failed e
  end.

(** What lets a pass start. *)
Inductive wakeup := Start | Kick | Ticker.

(** [loop]: a pass for each wake-up before the process is to stop, whatever the passes
    before it returned. *)
Fixpoint loop (cfg : Config) (key : Key) (passes : list wakeup) : N (list logged) :=
  match passes with
  | [] => Ret []
  | _ :: passes =>
      r <- step cfg key ;;
      l <- loop cfg key passes ;;
      Ret (outcome_of r :: l)
  end.

(** [startWatch]: whether the cache has synced, [false] when the process is to stop
    before; the handler it adds is the subject of [watch] below. *)
Definition startWatch (cfg : Config) : N (result bool) :=
  _ <-? check_wrapped "create the cache: " (perform (NewCache (NN (cf_PodNamespace cfg) (cf_PodName cfg)))) ;;
  _ <-? check_wrapped "get the WireguardPeer informer: " (perform GetInformer) ;;
  _ <-? check_wrapped "watch WireguardPeer: " (perform AddEventHandler) ;;
  synced <- perform WaitForCacheSync ;;
  if (synced : bool) then Ret (Ok true)
  else
    stopping <- perform ContextDone ;;
    if (stopping : bool) then Ret (Ok false)
    else Ret (Err (errors_New "the watch on the WireguardPeer did not sync")).

(** [Run] *)
Definition Run (cfg : Config) (passes : list wakeup) : N (result unit) :=
  key <-? wrapped "load the private key: " (LoadOrCreateKey (cf_KeyPath cfg)) ;;
  _ <-? check_wrapped "in-cluster API config: " (perform InClusterConfig) ;;
  _ <-? check_wrapped "add v1alpha1 to the scheme: " (perform AddToScheme) ;;
  _ <-? check_wrapped "create the API client: " (perform NewClient) ;;
  synced <-? wrapped "start the watch cache: " (startWatch cfg) ;;
  if (synced : bool) then
    _ <- loop cfg key passes ;;
    Ret (Ok ())
  else Ret (Ok ()).

(** The flag set of [runClient]. *)
Definition clientFlagSet : FlagSet :=
  {[ "wireguard" := VString ""; "check" := VBool false; "v" := VInt 0 ]}.

(** The flags [runClient] reads of [args], [None] when they do not parse. *)
Definition clientFlags (args : list string) : option (string * bool) :=
  match Parse clientFlagSet args with
  | Parsed fs _ => Some (string_flag fs "wireguard", bool_flag fs "check")
  | Help | GoFlag.Failed _ => None
  end.

(** [runClient]: the exit code *)
Definition runClient (args : list string) (getenv : string → string) (passes : list wakeup) : N Z :=
  match clientFlags args with
  | None => Ret 2
  | Some (wireguardName, check) =>
      if (check : bool) then
        r <- Check WgInterface ;;
        match r with Err _ => Ret 1 | Ok _ => Ret 0 end
      else
        match ConfigFromEnv wireguardName DefaultKeyPath getenv with
        | Err _ => Ret 1
        | Ok cfg =>
            r <- Run cfg passes ;;
            match r with Err _ => Ret 1 | Ok _ => Ret 0 end
        end
  end.
End sidecar.

(** ** Wake-ups

    The watch cache stores a change before it calls the handler, whose [notify] makes a
    non-blocking send on a channel of capacity one; [loop] receives from the channel
    between its passes, and a pass reads the cache. *)

Module watch.
Inductive phase := Idle | Starting | Passing.

Record state := {
  cached : nat;       (* the version of the peer the cache holds *)
  undelivered : nat;  (* changes whose handler has not run yet *)
  kick : bool;        (* the channel holds a value *)
  at_ : phase;        (* of [loop]: in its select, before a pass's read, after it *)
  seen : nat;         (* the version the last pass read *)
}.

(** The first pass starts without a wake-up. *)
Definition init : state := {| cached := 0; undelivered := 0; kick := false; at_ := Starting; seen := 0 |}.

Inductive label := Change | Notify | Receive | Tick | Read | Finish.

Inductive step : label → state → state → Prop :=
  | change s :  (* an add, update or delete reaches the cache *)
      step Change s
        {| cached := S (cached s); undelivered := S (undelivered s); kick := kick s; at_ := at_ s; seen := seen s |}
  | notify s n :  (* the handler sends, or finds the channel full *)
      undelivered s = S n →
      step Notify s {| cached := cached s; undelivered := n; kick := true; at_ := at_ s; seen := seen s |}
  | receive s :  (* [<-kick] *)
      at_ s = Idle → kick s = true →
      step Receive s
        {| cached := cached s; undelivered := undelivered s; kick := false; at_ := Starting; seen := seen s |}
  | tick s :  (* [<-ticker.C] *)
      at_ s = Idle →
      step Tick s {| cached := cached s; undelivered := undelivered s; kick := kick s; at_ := Starting; seen := seen s |}
  | read s :  (* [ensurePeer] reads the cache *)
      at_ s = Starting →
      step Read s
        {| cached := cached s; undelivered := undelivered s; kick := kick s; at_ := Passing; seen := cached s |}
  | finish s :  (* the pass ends *)
      at_ s = Passing →
      step Finish s {| cached := cached s; undelivered := undelivered s; kick := kick s; at_ := Idle; seen := seen s |}.
End watch.
