(* ===== verification/AgentMain.v ===== *)
(** * The agent's command line ([main] of [cmd/agent/main.go])

    What the program does with its arguments: the client with [client] as the first one,
    otherwise the server, with the flags that follow. *)

From S2P Require Import Prelude GoStd GoFlag Netip Effects Api External AgentState Resources Node WgServer Datapath Agent SidecarPeer SidecarTunnel Sidecar.

#[local] Open Scope prog_scope.

(** The flags of the server. *)
Definition mainFlagSet : FlagSet :=
  {[ "state" := VString "./state.json"; "wg-iface" := VString WgInterface;
     "wg-userspace-implementation-fallback" := VString UserspaceImplementation;
     "wg-listen-port" := VInt 51820; "v" := VInt 1 ]}.

(** [flag.Parse] in [main]; the exit code where it ends the process. *)
Definition mainFlags (args : list string) : Flags + Z :=
  match Parse mainFlagSet args with
  | Parsed fs _ =>
      inl {| f_state := string_flag fs "state"; f_iface := string_flag fs "wg-iface";
             f_fallback := string_flag fs "wg-userspace-implementation-fallback";
             f_listenPort := int_flag fs "wg-listen-port" |}
  | Help => inr 0
  | GoFlag.Failed _ => inr 2
  end.

(** The address the health server listens on. *)
Definition healthAddr : string := ":8080".

Section main.
Context `{WgTypes, MetaLib, ConditionLib, !agent.StateCodec, !Sha256}.

(** [main] on [os.Args]: the exit code, with what happens while it runs, [passes] to a
    client and [l] to a server. *)
Definition agentMain (argv : list string) (getenv : string → string) (passes : list wakeup) (l : list activity)
    : prog NRes Z :=
  match argv with
  | _ :: "client" :: args => runClient args getenv passes
  | _ =>
      match mainFlags (tail argv) with
      | inr code => Ret code
      | inl f =>
          r <- main f l ;;
          match r with Err _ => Ret 1 | Ok _ => Ret 0 end
      end
  end.
End main.
