(* ===== verification/SidecarPeerFacts.v ===== *)
(** * The client sidecar's identity: correctness

    Which configurations start the client, that it keeps its key across restarts, and
    that registering its peer converges and never takes another owner's object. *)

From S2P Require Import Prelude GoStd Netip Effects Api External Node WgServer WgServerFacts ReferenceCluster DatapathFacts SidecarPeer.

(** ** The configuration *)

Lemma cut_Some c s a b : cut c s = Some (a, b) → s = a +:+ String c b ∧ contains_byte c a = false.
Proof.
  revert a. induction s as [|d s IH]; intros a; [done|]. cbn. case_decide as Hd.
  - intros [= <- <-]. by subst.
  - destruct (cut c s) as [[a' b']|]; [|done]. intros [= <- <-]. destruct (IH a' eq_refl) as [-> Ha].
    split; [done|]. cbn. by rewrite bool_decide_eq_false_2.
Qed.

Lemma cut_None c s : cut c s = None ↔ contains_byte c s = false.
Proof.
  induction s as [|d s IH]; [done|]. cbn. case_decide as Hd.
  - rewrite bool_decide_eq_true_2 by done. done.
  - rewrite bool_decide_eq_false_2 by done. cbn. rewrite <- IH. by destruct (cut c s) as [[]|].
Qed.

(** [wireguard] is a name, or a namespace and a name; an empty namespace is the pod's. *)
Definition designates (wireguard name namespace : string) : Prop :=
  (namespace = "" ∧ wireguard = name ∧ name ≠ "" ∧ contains_byte "/"%char name = false) ∨
  (namespace ≠ "" ∧ name ≠ "" ∧ wireguard = namespace +:+ "/" +:+ name ∧
   contains_byte "/"%char namespace = false ∧ contains_byte "/"%char name = false).

Lemma parseWireguard_Ok w n ns : w ≠ "" → parseWireguard w = Ok (n, ns) ↔ designates w n ns.
Proof.
  intros Hw. unfold parseWireguard, designates. destruct (cut "/"%char w) as [[a b]|] eqn:Hc.
  - pose proof (cut_Some _ _ _ _ Hc) as [-> Ha].
    split.
    + destruct (bool_decide_reflect (a = "")), (bool_decide_reflect (b = "")); try done. cbn.
      destruct (contains_byte "/"%char b) eqn:Hb; [done|]. intros [= <- <-]. right. done.
    + intros [(-> & <- & _ & Hn)|(Hns & Hn & Heq & Hcns & Hcn)].
      * by rewrite (proj2 (cut_None _ _) Hn) in Hc.
      * rewrite Heq in Hc. change ("/" +:+ n) with (String "/" n) in Hc. rewrite cut_app in Hc by done.
        injection Hc as <- <-. by rewrite !bool_decide_eq_false_2, Hcn.
  - pose proof (proj1 (cut_None _ _) Hc) as Hn. split.
    + intros [= <- <-]. by left.
    + intros [(-> & <- & _)|(Hns & _ & -> & Hcns & _)]; [done|].
      change ("/" +:+ n) with (String "/" n) in Hc. by rewrite cut_app in Hc.
Qed.

Definition config_of (keyPath : string) (getenv : string → string) (name namespace : string) : Config :=
  {| cf_Wireguard := name; cf_WireguardNamespace := namespace; cf_KeyPath := keyPath;
     cf_PodName := getenv "POD_NAME"; cf_PodNamespace := getenv "POD_NAMESPACE"; cf_PodUID := getenv "POD_UID" |}.

(** The client starts exactly with a [--wireguard] that is a name or a namespace and a
    name, all five pod variables set, and a pod address that is not the host's: a pod
    in the node's network namespace never starts it. Its configuration is then
    that name and the pod's identity. *)
Lemma ConfigFromEnv_accepts wireguard keyPath getenv cfg :
  ConfigFromEnv wireguard keyPath getenv = Ok cfg ↔
  ∃ name namespace, designates wireguard name namespace ∧
    Forall (λ n, getenv n ≠ "") podEnv ∧ getenv "POD_IP" ≠ getenv "HOST_IP" ∧
    cfg = config_of keyPath getenv name namespace.
Proof.
  unfold ConfigFromEnv. case_decide as Hw.
  { split; [done|]. intros (n & ns & Hd & _). subst. destruct Hd as [(_ & <- & Hn & _)|(_ & _ & He & _)]; [done|].
    by destruct ns. }
  assert (filter (λ n, getenv n = "") podEnv = [] ↔ Forall (λ n, getenv n ≠ "") podEnv) as Hmiss.
  { rewrite Forall_forall. split.
    - intros Hf n Hn He. assert (n ∈ filter (λ n, getenv n = "") podEnv) as Hin by by apply list_elem_of_filter.
      rewrite Hf in Hin. by apply not_elem_of_nil in Hin.
    - intros Hall. destruct (filter _ podEnv) as [|n l] eqn:Hf; [done|].
      assert (n ∈ filter (λ n, getenv n = "") podEnv) as [He Hn]%list_elem_of_filter by (rewrite Hf; left).
      by destruct (Hall n Hn). }
  destruct (parseWireguard wireguard) as [[n ns]|e] eqn:Hp.
  - apply (parseWireguard_Ok _ _ _ Hw) in Hp. case_decide as Hm; [|case_decide as Hip].
    + split; [done|]. intros (? & ? & _ & Hall & _). by apply Hmiss in Hall.
    + split; [done|]. by intros (? & ? & _ & _ & Hne & _).
    + split.
      * intros [= <-]. exists n, ns. split_and!; [done|by apply Hmiss|done|done].
      * intros (n' & ns' & Hd & _ & _ & ->). apply (parseWireguard_Ok _ _ _ Hw) in Hp, Hd. rewrite Hp in Hd. by injection Hd as <- <-.
  - split; [done|]. intros (n & ns & Hd & _). apply (parseWireguard_Ok _ _ _ Hw) in Hd. congruence.
Qed.

Section identity.
Context `{WgTypes, MetaLib}.
#[local] Abbreviation ev := (@existT NOp NRes).

(** ** The key *)

(** The key file: a read returns its text, an exclusive open creates it empty, and a
    write appends to it. A write that fails may have written a part. *)
Definition file_step (file : option string) (e : event NRes) : option (option string) :=
  match e with
  | existT (ReadFile _) (Ok text) => if decide (file = Some text) then Some file else None
  | existT (ReadFile _) (Err e) =>
      if errors_Is e ErrNotExist then if decide (file = None) then Some file else None else Some file
  | existT (OpenExclusive _) None => if decide (file = None) then Some (Some "") else None
  | existT (WriteString s) None => (λ text, Some (text +:+ s)) <$> file
  | existT (WriteString _) (Some _) => None
  | _ => Some file
  end.

Lemma createKey_stores path tr key file file' :
  exec (createKey path) tr (Ok key) → replay file_step file tr = Some file' →
  file = None ∧ file' = Some (Key_String key).
Proof.
  unfold createKey. intros Hex Hf. inv_exec. destruct a as [k|e]; inv_exec. destruct a as [e|]; inv_exec.
  destruct a as [e|], a0 as [e'|]; cbn [errors_Join fmap option_fmap option_map] in Hex; inv_exec.
  unfold replay in Hf. cbn in Hf. case_decide as Hn; [|done]. injection Hf as <-. done.
Qed.

Lemma LoadOrCreateKey_file path tr key file file' :
  exec (LoadOrCreateKey path) tr (Ok key) → replay file_step file tr = Some file' →
  (∃ text, file' = Some text ∧ ParseKey (TrimSpace text) = Ok key) ∧ (file = None ∨ file' = file).
Proof.
  unfold LoadOrCreateKey. intros Hex Hf. inv_exec. destruct a as [text|e]; cbn [app] in Hf; rewrite replay_cons in Hf; cbn in Hf.
  - case_decide as Hd; [|done]. cbn in Hf. destruct (ParseKey (TrimSpace text)) as [k|e] eqn:Hp; inv_exec.
    injection Hf as <-. eauto.
  - destruct (errors_Is e ErrNotExist); cbn [negb] in Hex; inv_exec. case_decide; [|done].
    apply (createKey_stores _ _ _ _ _ Hex) in Hf as [-> ->]. split; [|by left].
    eexists. split; [done|]. by rewrite Key_String_trimmed, ParseKey_String.
Qed.

(** C36: The client keeps its key. A load that returns a key leaves it in the file, and leaves
    a file that was there as it was; every later load that can read the file returns
    the same key and writes nothing. *)
Theorem LoadOrCreateKey_stable path tr key file file' :
  exec (LoadOrCreateKey path) tr (Ok key) → replay file_step file tr = Some file' →
  (file = None ∨ file' = file) ∧
  ∀ tr2 r2 file2, exec (LoadOrCreateKey path) tr2 r2 → replay file_step file' tr2 = Some file2 →
    file2 = file' ∧ ∃ read, tr2 = [ev (ReadFile path) read] ∧
      match read with Ok _ => r2 = Ok key | Err e => r2 = Err (wrapf ("read key " +:+ path +:+ ": ") e) end.
Proof.
  intros Hex Hf. destruct (LoadOrCreateKey_file _ _ _ _ _ Hex Hf) as [(text & -> & Hp) Hkeep]. split; [done|].
  clear Hex Hf. unfold LoadOrCreateKey. intros tr2 r2 file2 Hex Hf. inv_exec.
  destruct a as [text'|e]; cbn [app] in *; rewrite replay_cons in Hf; cbn in Hf.
  - case_decide as Hd; [|done]. injection Hd as <-. cbn in Hf. rewrite Hp in Hex. inv_exec. injection Hf as <-. split; [done|]. by eexists.
  - destruct (errors_Is e ErrNotExist); [done|]. cbn [negb] in Hex. inv_exec. injection Hf as <-. split; [done|]. by eexists.
Qed.

(** ** The registration *)

(** A Pod controls [p], and it is the pod of [cfg], with the spec the client wants. *)
Definition pod_controlled (p : WireguardPeer) : Prop :=
  match GetControllerOf (wp_meta p) with
  | Some ctl => or_APIVersion ctl = "v1" ∧ or_Kind ctl = "Pod"
  | None => False
  end.

Definition owned (cfg : Config) (publicKey : string) (p : WireguardPeer) : Prop :=
  pod_controlled p ∧ or_UID <$> GetControllerOf (wp_meta p) = Some (cf_PodUID cfg) ∧
  wp_Spec p = wp_Spec (desiredPeer cfg publicKey).

Lemma desired_controller cfg publicKey :
  GetControllerOf (wp_meta (desiredPeer cfg publicKey)) =
    Some {| or_APIVersion := "v1"; or_Kind := "Pod"; or_Name := cf_PodName cfg; or_UID := cf_PodUID cfg;
            or_Controller := Some true |}.
Proof. rewrite GetControllerOf_spec. cbn. by rewrite bool_decide_eq_true_2. Qed.

Lemma desired_owned cfg publicKey p :
  OwnerReferences (wp_meta p) = OwnerReferences (wp_meta (desiredPeer cfg publicKey)) →
  wp_Spec p = wp_Spec (desiredPeer cfg publicKey) → owned cfg publicKey p.
Proof.
  intros Ho Hs. unfold owned, pod_controlled. rewrite GetControllerOf_spec, Ho, <- GetControllerOf_spec.
  by rewrite desired_controller.
Qed.

Definition podKey (cfg : Config) : NamespacedName := NN (cf_PodNamespace cfg) (cf_PodName cfg).

(** What a create and a delete that do not fail the pass return. *)
Definition created (c : option error) (r : result (option WireguardPeer)) : Prop :=
  match c with
  | Some e => if errors_Is e AlreadyExists then r = Ok None else ∃ e', r = Err e'
  | None => r = Ok None
  end.

Definition gone (d : option error) : Prop :=
  match d with Some e => errors_Is e NotFound || errors_Is e Conflict = true | None => True end.

Lemma created_None c p : ¬ created c (Ok (Some p)).
Proof. unfold created. destruct c as [e|]; [destruct (errors_Is e AlreadyExists)|]; naive_solver. Qed.

(** The action follows from who controls the peer and from its spec. *)
Lemma decidePeer_spec cfg publicKey p :
  match decidePeer (Some p) (desiredPeer cfg publicKey) with
  | actionCreate => False
  | actionKeep => owned cfg publicKey p
  | actionReplace => pod_controlled p ∧ ¬ owned cfg publicKey p
  | actionRefuse => ¬ pod_controlled p
  end.
Proof.
  unfold decidePeer, owned, pod_controlled. rewrite desired_controller. cbn [fmap option_fmap option_map or_UID].
  destruct (GetControllerOf (wp_meta p)) as [ctl|]; [|tauto].
  destruct (bool_decide_reflect (or_APIVersion ctl ≠ "v1")) as [Ha|Ha%dec_stable],
    (bool_decide_reflect (or_Kind ctl ≠ "Pod")) as [Hk|Hk%dec_stable]; cbn [orb]; [tauto..|].
  cbn. case_decide as Hu; [naive_solver congruence|].
  destruct (wp_Spec p) as [k r ns]. cbn.
  repeat case_bool_decide; cbn; intuition congruence.
Qed.

(** The paths of a pass. [AlreadyExists] from the create and [NotFound] or [Conflict]
    from the delete are not errors. *)
Inductive pass (cfg : Config) (publicKey : string) : list (event NRes) → result (option WireguardPeer) → Prop :=
  | pass_keep p : owned cfg publicKey p → pass cfg publicKey [ev (GetPeer (podKey cfg)) (Ok p)] (Ok (Some p))
  | pass_refuse p e : ¬ pod_controlled p → pass cfg publicKey [ev (GetPeer (podKey cfg)) (Ok p)] (Err e)
  | pass_unread e e' : errors_Is e NotFound = false → pass cfg publicKey [ev (GetPeer (podKey cfg)) (Err e)] (Err e')
  | pass_create e c r : errors_Is e NotFound = true → created c r →
      pass cfg publicKey [ev (GetPeer (podKey cfg)) (Err e); ev (CreatePeer (desiredPeer cfg publicKey)) c] r
  | pass_undeleted p e e' : pod_controlled p → ¬ owned cfg publicKey p →
      pass cfg publicKey [ev (GetPeer (podKey cfg)) (Ok p); ev (DeletePeer p (UID (wp_meta p))) (Some e)] (Err e')
  | pass_replace p d c r : pod_controlled p → ¬ owned cfg publicKey p → gone d → created c r →
      pass cfg publicKey [ev (GetPeer (podKey cfg)) (Ok p); ev (DeletePeer p (UID (wp_meta p))) d;
                          ev (CreatePeer (desiredPeer cfg publicKey)) c] r.

Lemma createPeer_exec named want tr r :
  exec (createPeer named want) tr r → ∃ c, tr = [ev (CreatePeer want) c] ∧ created c r.
Proof.
  unfold createPeer, created. intros Hex. inv_exec. exists a.
  destruct a as [e|]; [destruct (errors_Is e AlreadyExists)|]; inv_exec; eauto.
Qed.

Lemma ensurePeer_paths cfg publicKey tr r : exec (ensurePeer cfg publicKey) tr r → pass cfg publicKey tr r.
Proof.
  unfold ensurePeer, bindE. intros Hex. inv_exec. destruct a as [p|e].
  - inv_exec. pose proof (decidePeer_spec cfg publicKey p) as Hd.
    destruct (decidePeer _ _); [done| | |]; inv_exec; [by apply pass_keep| |by apply pass_refuse].
    destruct Hd as [Hc Ho]. assert (∀ t, gone a → exec (createPeer (cf_PodNamespace cfg +:+ "/" +:+ cf_PodName cfg) (desiredPeer cfg publicKey)) t r →
      pass cfg publicKey (ev (GetPeer (podKey cfg)) (Ok p) :: ev (DeletePeer p (UID (wp_meta p))) a :: t) r) as Hcreate.
    { intros t Ha (c & -> & Hr)%createPeer_exec. by apply pass_replace. }
    destruct a as [e|]; [|by apply Hcreate].
    destruct (errors_Is e NotFound || errors_Is e Conflict) eqn:He; [by apply Hcreate|]. inv_exec. by apply pass_undeleted.
  - destruct (errors_Is e NotFound) eqn:He; inv_exec; [|by apply pass_unread].
    apply createPeer_exec in Hex as (c & -> & Hr). by apply pass_create.
Qed.

(** The operation of an event, and the peer it read. *)
Lemma ev_op o x (tr : list (event NRes)) : ev o x ∈ tr → o ∈ (λ e : event NRes, projT1 e) <$> tr.
Proof. intros Hin. by apply (list_elem_of_fmap_2 (λ e : event NRes, projT1 e)) in Hin. Qed.

Definition read_of (e : event NRes) : option WireguardPeer :=
  match e with existT (GetPeer _) (Ok p) => Some p | _ => None end.

(** C22: The client takes no one else's peer. It deletes only a peer it read that a Pod controls
    and that is not already this pod's, with the UID it read as a precondition; it
    refuses to register under a peer no Pod controls, and writes nothing then; it
    creates only its own peer; and a pass that returns a peer has read it, found it this
    pod's, with this pod's key and gateway, and written nothing. *)
Theorem ensurePeer_safe cfg publicKey tr r :
  exec (ensurePeer cfg publicKey) tr r →
  (∀ p uid d, ev (DeletePeer p uid) d ∈ tr →
     uid = UID (wp_meta p) ∧ pod_controlled p ∧ ¬ owned cfg publicKey p ∧ ev (GetPeer (podKey cfg)) (Ok p) ∈ tr) ∧
  (∀ q c, ev (CreatePeer q) c ∈ tr → q = desiredPeer cfg publicKey) ∧
  (∀ p, ev (GetPeer (podKey cfg)) (Ok p) ∈ tr → ¬ pod_controlled p → length tr = 1%nat ∧ ∃ e, r = Err e) ∧
  (∀ p, r = Ok (Some p) → tr = [ev (GetPeer (podKey cfg)) (Ok p)] ∧ owned cfg publicKey p).
Proof.
  intros Hp%ensurePeer_paths. split_and!.
  - intros p uid d Hin. apply ev_op in Hin. destruct Hp; cbn in Hin; set_solver.
  - intros q c Hin. apply ev_op in Hin. destruct Hp; cbn in Hin; set_solver.
  - intros p Hin Hn. assert (Some p ∈ read_of <$> tr) as Hr by by apply (list_elem_of_fmap_2 read_of) in Hin.
    destruct Hp as [p0 [Hc _]| | | | |]; cbn in Hr; set_solver.
  - intros p ->. inversion Hp; subst; [done|..]; exfalso; by eapply created_None.
Qed.

(** ** The API server's store *)

(** What the server keeps of a created peer; it fills in the rest of the metadata. *)
Class PeerStore := {
  stored : WireguardPeer → WireguardPeer;
  stored_owners : ∀ p, OwnerReferences (wp_meta (stored p)) = OwnerReferences (wp_meta p);
  stored_spec : ∀ p, wp_Spec (stored p) = wp_Spec p;
}.

(** The peer under the pod's name. A read that has caught up returns it, a create needs
    there to be none, and a delete the UID of the one there is. *)
Definition peer_step `{PeerStore} (s : option WireguardPeer) (e : event NRes) : option (option WireguardPeer) :=
  match e with
  | existT (GetPeer _) (Ok p) => if decide (s = Some p) then Some s else None
  | existT (GetPeer _) (Err e) =>
      if errors_Is e NotFound then if decide (s = None) then Some s else None else Some s
  | existT (CreatePeer q) None => if decide (s = None) then Some (Some (stored q)) else None
  | existT (CreatePeer _) (Some e) =>
      if errors_Is e AlreadyExists then if decide (s = None) then None else Some s else Some s
  | existT (DeletePeer _ uid) None => if decide (UID ∘ wp_meta <$> s = Some uid) then Some None else None
  | existT (DeletePeer _ uid) (Some e) =>
      if errors_Is e NotFound || errors_Is e Conflict then
        if decide (UID ∘ wp_meta <$> s = Some uid) then None else Some s
      else Some s
  | _ => Some s
  end.

Lemma created_replay `{PeerStore} q c r s' :
  created c (Ok r) → replay peer_step None [ev (CreatePeer q) c] = Some s' → r = None ∧ s' = Some (stored q).
Proof.
  unfold created, replay. cbn. destruct c as [e|]; [destruct (errors_Is e AlreadyExists)|]; cbn; naive_solver.
Qed.

Lemma deleted_replay `{PeerStore} p d s' :
  gone d → peer_step (Some p) (ev (DeletePeer p (UID (wp_meta p))) d) = Some s' → s' = None.
Proof.
  unfold gone. cbn. destruct d as [e|]; [intros ->|intros _]; rewrite decide_True by done; naive_solver.
Qed.

Lemma stored_owned `{PeerStore} cfg publicKey : owned cfg publicKey (stored (desiredPeer cfg publicKey)).
Proof. apply desired_owned; [apply stored_owners|apply stored_spec]. Qed.

(** A pass over a store that holds this pod's peer. *)
Lemma owned_stays `{PeerStore} cfg publicKey p tr r s' :
  owned cfg publicKey p → pass cfg publicKey tr r → replay peer_step (Some p) tr = Some s' →
  s' = Some p ∧ ((∃ e, r = Err e) ∨ r = Ok (Some p)).
Proof.
  intros Ho Hp Hs. destruct Hp as [q|q e Hc|e e' He|e c r He|q e e' Hc Hn|q d c r Hc Hn];
    rewrite replay_cons in Hs; cbn [peer_step] in Hs; try (case_decide as Hq; [injection Hq as <-|done]).
  - injection Hs as <-. by eauto.
  - by destruct Hc, Ho.
  - rewrite He in Hs. injection Hs as <-. by eauto.
  - by rewrite He in Hs.
  - done.
  - done.
Qed.

End identity.

(** ** A client pod *)

Module RefClient.
#[export] Existing Instances Reference.wgtypes Reference.metalib.

(** The server gives every peer it creates one UID. *)
#[export] Instance peers : PeerStore.
Proof.
  by refine {| stored p := {| wp_meta := {| Name := Name (wp_meta p); Namespace := Namespace (wp_meta p);
    UID := "peer-uid"; ResourceVersion := "7"; Generation := 1; CreationTimestamp := 0; Labels := ∅; Annotations := ∅;
    OwnerReferences := OwnerReferences (wp_meta p) |}; wp_Spec := wp_Spec p; wp_Status := wp_Status p |} |}.
Defined.

Definition cfg : Config :=
  {| cf_Wireguard := "gw"; cf_WireguardNamespace := "vpn"; cf_KeyPath := DefaultKeyPath;
     cf_PodName := "app"; cf_PodNamespace := "apps"; cf_PodUID := "pod-uid" |}.

(** The peer an earlier pod of the same name left. *)
Definition left_over : WireguardPeer :=
  stored (desiredPeer {| cf_Wireguard := "gw"; cf_WireguardNamespace := "vpn"; cf_KeyPath := DefaultKeyPath;
    cf_PodName := "app"; cf_PodNamespace := "apps"; cf_PodUID := "old-uid" |} RefCluster.keyA).

(** The key file and the peer under the pod's name, and the answers of the rest of the node. *)
Definition pod : handler NRes (option string * option WireguardPeer) :=
  λ o s,
    match o with
    | ReadFile _ => (match s.1 with Some t => Ok t | None => Err (MkError "no such file" [ErrNotExist]) end, s)
    | OpenExclusive _ => (None, (Some "", s.2))
    | WriteString t => (None, ((λ t', t' +:+ t) <$> s.1, s.2))
    | GetPeer _ => (match s.2 with Some p => Ok p | None => Err (MkError "not found" [NotFound]) end, s)
    | CreatePeer p => match s.2 with
                      | None => (None, (s.1, Some (stored p)))
                      | Some _ => (Some (MkError "already exists" [AlreadyExists]), s)
                      end
    | DeletePeer _ _ => (None, (s.1, None))
    | o => ((RefNode.node o 0).1, s)
    end.

Definition keyed := run pod (LoadOrCreateKey DefaultKeyPath) (None, None).
Definition registered := run pod (ensurePeer cfg RefCluster.keyB) (None, Some left_over).

Lemma keyed_exec : exec (LoadOrCreateKey DefaultKeyPath) keyed.1.1 (Ok (RefNode.key RefCluster.keyB)).
Proof.
  assert (keyed.1.2 = Ok (RefNode.key RefCluster.keyB)) as <- by reflexivity. apply run_is_exec.
Qed.

Lemma registered_exec : exec (ensurePeer cfg RefCluster.keyB) registered.1.1 (Ok None).
Proof. assert (registered.1.2 = Ok None) as <- by reflexivity. apply run_is_exec. Qed.

Lemma deletes : existT (DeletePeer left_over "peer-uid") None ∈ registered.1.1.
Proof. apply (list_elem_of_lookup_2 _ 1). reflexivity. Qed.
End RefClient.

#[local] Existing Instances Reference.wgtypes Reference.metalib RefClient.peers.

Lemma LoadOrCreateKey_stable_witness :
  replay file_step None RefClient.keyed.1.1 = Some (Some RefCluster.keyB) ∧
  ∀ tr2 r2 file2, exec (LoadOrCreateKey DefaultKeyPath) tr2 r2 →
    replay file_step (Some RefCluster.keyB) tr2 = Some file2 →
    file2 = Some RefCluster.keyB ∧ ∃ read, tr2 = [existT (ReadFile DefaultKeyPath) read] ∧
      match read with
      | Ok _ => r2 = Ok (RefNode.key RefCluster.keyB)
      | Err e => r2 = Err (wrapf ("read key " +:+ DefaultKeyPath +:+ ": ") e)
      end.
Proof.
  assert (replay file_step None RefClient.keyed.1.1 = Some (Some RefCluster.keyB)) as Hf by (vm_compute; reflexivity).
  exact (conj Hf (proj2 (LoadOrCreateKey_stable _ _ _ _ _ RefClient.keyed_exec Hf))).
Defined.

Lemma ensurePeer_safe_witness :
  pod_controlled RefClient.left_over ∧ ¬ owned RefClient.cfg RefCluster.keyB RefClient.left_over.
Proof.
  destruct (ensurePeer_safe _ _ _ _ RefClient.registered_exec) as [Hd _].
  destruct (Hd _ _ _ RefClient.deletes) as (_ & Hc & Ho & _). exact (conj Hc Ho).
Defined.

