(* ===== verification/RoutesFacts.v ===== *)
(** * The client sidecar's routes: correctness

    What the main table is after [ensureRoutes], and that the CNI gateway is never lost
    from it. *)

From S2P Require Import Prelude GoStd Netip NetipFacts Effects Api External Resources Node WgServer ReferenceCluster WgServerFacts SidecarTunnel.

Section routes.
Context `{WgTypes}.
#[local] Abbreviation ev := (@existT NOp NRes).

(** ** What netlink does to the main IPv4 table *)

Definition same_routes (l T : list route) : Prop := Forall (λ r, r ∈ T) l ∧ Forall (λ r, r ∈ l) T.

#[export] Instance same_routes_dec l T : Decision (same_routes l T).
Proof. unfold same_routes. apply _. Defined.

(** Routes of one destination and priority replace each other. *)
Definition slot (r : route) : Prefix * Z := (rt_Dst r, rt_Priority r).

(** The routes a delete of [d] may take: those with its destination and scope, and its
    gateway, link, priority and protocol where it has them. *)
Definition del_matches (d r : route) : bool :=
  bool_decide (rt_Dst r = rt_Dst d) && (rt_Scope r =? rt_Scope d) &&
  (negb (addr_IsValid (rt_Gw d)) || bool_decide (rt_Gw r = rt_Gw d)) &&
  ((rt_LinkIndex d =? 0) || (rt_LinkIndex r =? rt_LinkIndex d)) &&
  ((rt_Priority d =? 0) || (rt_Priority r =? rt_Priority d)) &&
  ((rt_Protocol d =? 0) || (rt_Protocol r =? rt_Protocol d)).

(** The one it takes, of the lowest priority value. *)
Definition victim (d : route) (T : list route) : option route :=
  List.find (λ r, del_matches d r &&
                  forallb (λ r', negb (del_matches d r') || (rt_Priority r <=? rt_Priority r')) T) T.

(** The table after an operation, as [toRoute] reads it. *)
Definition main_step (T : list route) (e : event NRes) : option (list route) :=
  match e with
  | existT (RouteListMain false) (Ok l) => if decide (same_routes (toRoute <$> l) T) then Some T else None
  | existT (RouteReplace r) None =>
      let r := toRoute r in
      if Is4 (p_ip (rt_Dst r)) then Some (r :: filter (λ r', slot r' ≠ slot r) T) else Some T
  | existT (RouteDel d) x =>
      let d := toRoute d in
      if Is4 (p_ip (rt_Dst d)) then
        match x, victim d T with
        | None, Some r => Some (filter (λ r', r' ≠ r) T)
        | None, None => None
        | Some e, v => if errors_Is e ESRCH then match v with Some _ => None | None => Some T end else Some T
        end
      else Some T
  | _ => Some T
  end.

(** ** Well-formed tables *)

(** An IPv4 route over one link. *)
Record v4_route (r : route) : Prop := {
  v4_dst : is_prefix4 (rt_Dst r);
  v4_gw : rt_Gw r = zeroAddr ∨ ∃ v, rt_Gw r = addr4 v;
  v4_link : rt_LinkIndex r ≠ 0;
  v4_priority : 0 <= rt_Priority r;
}.

Record table_ok (T : list route) : Prop := {
  table_v4 : ∀ r, r ∈ T → v4_route r;
  table_slots : ∀ r r', r ∈ T → r' ∈ T → slot r = slot r' → r = r';
}.

(** The client's routes, as the table holds them. *)
Definition local_route (gw : Addr) (link : Z) (p : Prefix) : route :=
  {| rt_Dst := p; rt_Gw := gw; rt_LinkIndex := link; rt_Priority := 0; rt_Protocol := routeProtocol;
     rt_Scope := SCOPE_UNIVERSE |}.

Definition wg_default (wgIndex : Z) : route :=
  {| rt_Dst := prefix4 0 0; rt_Gw := zeroAddr; rt_LinkIndex := wgIndex; rt_Priority := 0;
     rt_Protocol := routeProtocol; rt_Scope := SCOPE_LINK |}.

Lemma Unmap_4 v : Unmap (addr4 v) = addr4 v.
Proof. done. Qed.

Lemma v4_Is4 p : is_prefix4 p → Is4 (p_ip p) = true.
Proof. by intros (v & b & -> & _). Qed.

Lemma toRoute_dst p : is_prefix4 p → PrefixFrom (Unmap (n_IP (ipNet p))) (n_ones (ipNet p)) = p.
Proof. intros (v & b & -> & _ & Hb). cbn. rewrite Bits_prefix4. by apply PrefixFrom_4. Qed.

Lemma toRoute_gw gw : gw = zeroAddr ∨ (∃ v, gw = addr4 v) → (if addr_IsValid gw then Unmap gw else zeroAddr) = gw.
Proof. by intros [->|[v ->]]. Qed.

Lemma toRoute_deletion r : v4_route r → toRoute (deletion r) = r.
Proof.
  intros [Hd Hg _ _]. destruct r as [d g l pr pt sc]. cbn in *. unfold toRoute, deletion. cbn [r_Dst r_Gw rt_Dst rt_Gw].
  assert (addr_IsValid (n_IP (ipNet d)) = true) as -> by by destruct Hd as (v & b & -> & _).
  rewrite toRoute_dst by done. f_equal. destruct Hg as [->|[v ->]]; done.
Qed.

Lemma toRoute_local plan p :
  is_prefix4 p → pl_Gw plan = zeroAddr ∨ (∃ v, pl_Gw plan = addr4 v) →
  toRoute (localRoute plan p) = local_route (pl_Gw plan) (pl_GwLink plan) p.
Proof.
  intros Hd Hg. unfold toRoute, localRoute, local_route. cbn [r_Dst r_Gw].
  assert (addr_IsValid (n_IP (ipNet p)) = true) as -> by by destruct Hd as (v & b & -> & _).
  rewrite toRoute_dst, toRoute_gw by done. done.
Qed.

Lemma toRoute_wg wgIndex : toRoute (wgDefault wgIndex) = wg_default wgIndex.
Proof. done. Qed.

(** ** One operation *)

Lemma replace_elem T r r' x :
  main_step T (ev (RouteReplace r) None) = Some x → is_prefix4 (rt_Dst (toRoute r)) →
  r' ∈ x ↔ r' = toRoute r ∨ r' ∈ T ∧ slot r' ≠ slot (toRoute r).
Proof.
  cbn. intros Hx Hd. rewrite v4_Is4 in Hx by done. injection Hx as <-.
  rewrite elem_of_cons, list_elem_of_filter. tauto.
Qed.

Lemma replace_ok T r T' :
  main_step T (ev (RouteReplace r) None) = Some T' → v4_route (toRoute r) → table_ok T → table_ok T'.
Proof.
  intros Hs Hr [Hv Hu]. pose proof (λ r', replace_elem T r r' T' Hs (v4_dst _ Hr)) as He. split.
  - intros r' [->|[? _]]%He; [done|by apply Hv].
  - intros r1 r2 [->|[Hr1 Hn1]]%He [->|[Hr2 Hn2]]%He Heq; [done|congruence|congruence|by apply Hu].
Qed.

Lemma lowest {A} (f : A → Z) (l : list A) : l ≠ [] → ∃ x, x ∈ l ∧ ∀ y, y ∈ l → f x <= f y.
Proof.
  induction l as [|a l IH]; [done|]. intros _. destruct l as [|b l].
  - exists a. split; [by left|]. intros y ->%list_elem_of_singleton. lia.
  - destruct IH as (x & Hx & Hmin); [done|]. destruct (Z.le_gt_cases (f a) (f x)).
    + exists a. split; [by left|]. intros y [->|Hy]%elem_of_cons; [lia|]. specialize (Hmin y Hy). lia.
    + exists x. split; [by right|]. intros y [->|Hy]%elem_of_cons; [lia|by apply Hmin].
Qed.

Lemma victim_Some d T r :
  victim d T = Some r →
  r ∈ T ∧ del_matches d r = true ∧ ∀ r', r' ∈ T → del_matches d r' = true → rt_Priority r <= rt_Priority r'.
Proof.
  unfold victim. intros [Hin [Hm Hall]%andb_true_iff]%find_some. split_and!; [by apply list_elem_of_In|done|].
  intros r' Hr' Hm'. rewrite forallb_forall in Hall. specialize (Hall r' (proj1 (list_elem_of_In _ _) Hr')).
  rewrite Hm' in Hall. cbn in Hall. lia.
Qed.

Lemma victim_None d T r : victim d T = None → r ∈ T → del_matches d r = false.
Proof.
  intros Hv Hr. destruct (del_matches d r) eqn:Hm; [|done]. exfalso.
  destruct (lowest rt_Priority (filter (λ r, del_matches d r = true) T)) as (x & [Hxm Hx]%list_elem_of_filter & Hmin).
  { intros Hn. assert (r ∈ filter (λ r, del_matches d r = true) T) as Hin by by apply list_elem_of_filter.
    rewrite Hn in Hin. by apply not_elem_of_nil in Hin. }
  pose proof (find_none _ _ Hv x (proj1 (list_elem_of_In _ _) Hx)) as Hx'. cbn beta in Hx'.
  rewrite Hxm in Hx'. cbn in Hx'. apply not_true_iff_false in Hx'. apply Hx', forallb_forall.
  intros y Hy%list_elem_of_In. destruct (del_matches d y) eqn:Hmy; [|done]. cbn. apply Z.leb_le, Hmin.
  by apply list_elem_of_filter.
Qed.

Lemma matches_self r : del_matches r r = true.
Proof.
  unfold del_matches. rewrite !bool_decide_eq_true_2, !Z.eqb_refl by done. by rewrite !orb_true_r.
Qed.

(** What a delete of a route [r] leaves: [r] is gone, and so is only what matches it. *)
Lemma delete_elem T r x T' :
  main_step T (ev (RouteDel (deletion r)) x) = Some T' → v4_route r → table_ok T →
  T' ⊆ T ∧ (∀ r', r' ∈ T → r' ∉ T' → del_matches r r' = true) ∧
  (match x with Some e => errors_Is e ESRCH = true | None => True end → r ∉ T').
Proof.
  intros Hs Hr [Hv Hu]. cbn [main_step] in Hs. rewrite toRoute_deletion in Hs by done.
  rewrite v4_Is4 in Hs by apply Hr. destruct (victim r T) as [y|] eqn:Hy.
  - apply victim_Some in Hy as (Hy & Hm & Hmin). destruct x as [e|].
    + destruct (errors_Is e ESRCH); [done|]. injection Hs as <-. by split_and!.
    + injection Hs as <-. split_and!; [by intros ? [_ ?]%list_elem_of_filter| |].
      * intros r' Hr' Hn. destruct (decide (r' = y)) as [->|Hne]; [done|]. destruct Hn. by apply list_elem_of_filter.
      * intros _ [Hne HrT]%list_elem_of_filter. apply Hne, Hu; [done..|].
        specialize (Hmin r HrT (matches_self r)). unfold del_matches in Hm.
        rewrite !andb_true_iff, bool_decide_eq_true, !orb_true_iff, !Z.eqb_eq in Hm.
        pose proof (v4_priority _ Hr). pose proof (v4_priority _ (Hv y Hy)). unfold slot.
        destruct Hm as (((((-> & _) & _) & _) & Hp) & _). f_equal. lia.
  - assert (T' = T) as -> by (destruct x as [e|]; [destruct (errors_Is e ESRCH); congruence|done]).
    split_and!; [done..|]. intros _ HrT. pose proof (victim_None _ _ _ Hy HrT). by rewrite matches_self in *.
Qed.

Lemma table_ok_subset T T' : T' ⊆ T → table_ok T → table_ok T'.
Proof. intros Hs [Hv Hu]. split; [intros r Hr; by apply Hv, Hs|intros r r' Hr Hr'; by apply Hu; apply Hs]. Qed.

(** ** The phases of [ensureRoutes] *)

Lemma locals_replay plan tr T T' :
  (∀ p, p ∈ pl_Local plan → v4_route (local_route (pl_Gw plan) (pl_GwLink plan) p)) →
  exec (replaceLocals plan (pl_Local plan)) tr (Ok ()) →
  replay main_step T tr = Some T' → table_ok T →
  table_ok T' ∧ ∀ r, r ∈ T' ↔ (∃ p, p ∈ pl_Local plan ∧ r = local_route (pl_Gw plan) (pl_GwLink plan) p) ∨
    r ∈ T ∧ ∀ p, p ∈ pl_Local plan → slot r ≠ (p, 0).
Proof.
  unfold replaceLocals. generalize (pl_Local plan) as l. intros l. revert T tr. induction l as [|p l IH]; intros T tr Hl Hex Hs HT.
  { destruct Hex as [-> _]. injection Hs as <-. split; [done|]. set_solver. }
  cbn [loopE] in Hex. inv_node. cbn [app] in Hs. rewrite replay_cons in Hs. apply bind_Some in Hs as (T1 & Hs1 & Hs).
  assert (v4_route (local_route (pl_Gw plan) (pl_GwLink plan) p)) as Hp by (apply Hl; by left).
  assert (toRoute (localRoute plan p) = local_route (pl_Gw plan) (pl_GwLink plan) p) as Hto.
  { apply toRoute_local; [apply (v4_dst _ Hp)|apply (v4_gw _ Hp)]. }
  pose proof (λ r, replace_elem _ _ r _ Hs1) as He. rewrite Hto in He. specialize (λ r, He r (v4_dst _ Hp)).
  destruct (IH T1 t0) as [HT' HIH]; [intros; apply Hl; by right|done|done| |].
  { eapply replace_ok; [done|by rewrite Hto|done]. }
  split; [done|]. intros r. rewrite HIH, He. setoid_rewrite elem_of_cons.
  change (slot (local_route _ _ p)) with (p, 0). split; [naive_solver|].
  intros [(q & [->|Hq] & ->)|[HrT Hq]]; [|naive_solver..].
  destruct (decide (p ∈ l)); [naive_solver|]. right. split; [by left|]. intros q Hq [=]. naive_solver.
Qed.

Lemma deleteStale_replay stale tr T T' :
  (∀ r, r ∈ stale → v4_route r) →
  exec (deleteStale stale) tr (Ok ()) → replay main_step T tr = Some T' → table_ok T →
  T' ⊆ T ∧ (∀ r, r ∈ T → r ∉ T' → ∃ d, d ∈ stale ∧ del_matches d r = true) ∧ ∀ r, r ∈ stale → r ∉ T'.
Proof.
  unfold deleteStale. revert T tr. induction stale as [|d l IH]; intros T tr Hl Hex Hs HT.
  { destruct Hex as [-> _]. injection Hs as <-. split_and!; [done|done|]. set_solver. }
  cbn [loopE] in Hex. inv_node. rewrite <- app_assoc in Hs. cbn [app] in Hs. rewrite replay_cons in Hs.
  apply bind_Some in Hs as (T1 & Hs1 & Hs).
  destruct (delete_elem _ _ _ _ Hs1) as (Hsub1 & Hgone1 & Hd1); [apply Hl; by left|done|].
  assert (t2 = [] ∧ match a0 with Some e => errors_Is e ESRCH = true | None => True end) as [-> Ha].
  { destruct a0 as [e|]; [destruct (errors_Is e ESRCH) eqn:He|]; inv_exec; done. }
  destruct (IH T1 t0) as (Hsub & Hgone & Hst); [intros; apply Hl; by right|done|done|by eapply table_ok_subset|].
  split_and!.
  - set_solver.
  - intros r Hr Hn. destruct (decide (r ∈ T1)) as [Hr1|Hr1].
    + destruct (Hgone r Hr1 Hn) as (d' & Hd' & Hm). exists d'. split; [by right|done].
    + exists d. split; [by left|by apply Hgone1].
  - intros r [->|Hr]%elem_of_cons; [|by apply Hst]. intros Hr. by apply Hd1, Hsub.
Qed.

(** The IPv6 table is another one. *)
Definition v6_op (o : NOp) : Prop :=
  match o with RouteListMain true => True | RouteDel d => ∃ r, d = deletion6 r | _ => False end.

Lemma v6_step e T T' : v6_op (projT1 e) → main_step T e = Some T' → T' = T.
Proof.
  destruct e as [[] x]; try done; cbn [v6_op projT1].
  - destruct v6; [|done]. intros _ [= <-]. done.
  - intros [q ->] [= <-]. done.
Qed.

Lemma emits_deleteIPv6Defaults : emits v6_op deleteIPv6Defaults.
Proof.
  unfold deleteIPv6Defaults. apply emits_bind; [by apply emits_perform|]. intros [l|e]; [|solve_emits].
  apply emits_loopE. intros _ r. destruct (ipv6Default r); [|apply emits_ret].
  apply emits_bind; [apply emits_perform; by exists r|solve_emits].
Qed.

Lemma v6_replay tr T T' : Forall (λ e : event NRes, v6_op (projT1 e)) tr → replay main_step T tr = Some T' → T' = T.
Proof.
  rewrite Forall_forall. intros Htr. apply (replay_inv main_step (λ x, x = T)); [|done].
  intros e x x' He -> Hx. by eapply v6_step, Hx; apply Htr.
Qed.

(** What [deleteIPv6Defaults] takes for deleted. *)
Definition deleted6 (x : option error) : Prop :=
  match x with Some e => errors_Is e ESRCH || noIPv6Stack e = true | None => True end.

Definition no_default6 (tr : list (event NRes)) : Prop :=
  ∃ listed, ev (RouteListMain true) listed ∈ tr ∧
    match listed with
    | Ok l => ∀ r, r ∈ l → ipv6Default r = true → ∃ x, ev (RouteDel (deletion6 r)) x ∈ tr ∧ deleted6 x
    | Err e => noIPv6Stack e = true
    end.

Lemma no_default6_incl tr tr' : tr ⊆ tr' → no_default6 tr → no_default6 tr'.
Proof.
  intros Hsub (a & Ha & Hl). exists a. split; [by apply Hsub|]. destruct a as [l|e]; [|done].
  intros r Hr H6. destruct (Hl r Hr H6) as (x & Hx & Hd). exists x. split; [by apply Hsub|done].
Qed.

Lemma deleteIPv6Defaults_deletes tr : exec deleteIPv6Defaults tr (Ok ()) → no_default6 tr.
Proof.
  unfold deleteIPv6Defaults. intros Hex. inv_exec. exists a. split; [by left|].
  destruct a as [listed|e]; [|destruct (noIPv6Stack e) eqn:He; inv_exec; done].
  assert (∀ r, r ∈ listed → ipv6Default r = true → ∃ x, ev (RouteDel (deletion6 r)) x ∈ t0 ∧ deleted6 x) as Hd;
    [|intros r Hr H6; destruct (Hd r Hr H6) as (x & Hx & Hdel); exists x; split; [by right|done]].
  revert t0 Hex. induction listed as [|q l IH]; intros t Hex; [intros r Hr; by apply not_elem_of_nil in Hr|].
  cbn [loopE] in Hex. inv_exec. destruct a. intros r [->|Hr]%elem_of_cons H6.
  - rewrite H6 in H0. inv_exec. exists a. split; [by left|].
    destruct a as [e|]; [|done]. cbn. destruct (_ || _); inv_exec; done.
  - destruct (IH _ Hex r Hr H6) as (x & Hx & Hdel). exists x. split; [apply elem_of_app; by right|done].
Qed.

(** ** The plan *)

Definition locals_ok (cidrs : list Prefix) : Prop := Forall (λ p, is_prefix4 p ∧ Bits p ≠ 0) cidrs.

(** A route that holds the CNI's gateway. *)
Definition via_gateway (wgIndex : Z) (r : route) : bool := cniDefault wgIndex r || installed r.

Lemma via_gateway_valid wgIndex r : via_gateway wgIndex r = true → addr_IsValid (rt_Gw r) = true.
Proof. unfold via_gateway, cniDefault, installed. rewrite orb_true_iff, !andb_true_iff. tauto. Qed.

Lemma planRoutes_Ok have wgIndex cidrs plan :
  planRoutes have wgIndex cidrs = Ok plan →
  pl_Local plan = cidrs ∧ (∀ r, r ∈ pl_Stale plan ↔ r ∈ have ∧ isStale wgIndex cidrs r = true) ∧
  ∃ r, r ∈ have ∧ via_gateway wgIndex r = true ∧ pl_Gw plan = rt_Gw r ∧ pl_GwLink plan = rt_LinkIndex r.
Proof.
  unfold planRoutes, via_gateway. intros Hp.
  assert (∃ r, r ∈ have ∧ cniDefault wgIndex r || installed r = true ∧
    plan = {| pl_Gw := rt_Gw r; pl_GwLink := rt_LinkIndex r; pl_Local := cidrs;
              pl_Stale := List.filter (isStale wgIndex cidrs) have |}) as (r & Hr & Hv & ->).
  { destruct (List.find (cniDefault wgIndex) have) as [r|] eqn:Hf;
      [|destruct (List.find installed have) as [r|] eqn:Hf'; [|done]]; injection Hp as <-; exists r;
      first [apply find_some in Hf as [Hr Hc] | apply find_some in Hf' as [Hr Hc]]; rewrite Hc;
      (split_and!; [by apply list_elem_of_In|by rewrite ?orb_true_r|done]). }
  cbn. split_and!; [done| |by eexists]. intros x. rewrite !list_elem_of_In. apply filter_In.
Qed.

(** A delete of a stale route takes only stale routes. *)
Lemma del_matches_stale wgIndex cidrs d r :
  rt_LinkIndex d ≠ 0 → del_matches d r = true → isStale wgIndex cidrs d = true → isStale wgIndex cidrs r = true.
Proof.
  unfold del_matches, isStale, isDefault. intros Hl.
  rewrite !andb_true_iff, !orb_true_iff, bool_decide_eq_true, !Z.eqb_eq.
  intros (((((-> & _) & _) & [?|Hlink]) & _) & Hproto); [done|].
  destruct (Bits (rt_Dst d) =? 0); [by rewrite Hlink|]. intros [Hp Hn]%andb_true_iff. apply Z.eqb_eq in Hp.
  rewrite Hn, andb_true_r. apply Z.eqb_eq. destruct Hproto as [Hz|Hz]; [|congruence]. by rewrite Hp in Hz.
Qed.

Lemma wg_default_fresh wgIndex cidrs : isStale wgIndex cidrs (wg_default wgIndex) = false.
Proof. unfold isStale. cbn. by rewrite Z.eqb_refl. Qed.

Lemma local_route_fresh wgIndex cidrs gw link p :
  p ∈ cidrs → Bits p ≠ 0 → isStale wgIndex cidrs (local_route gw link p) = false.
Proof.
  intros Hp Hb. unfold isStale, isDefault. cbn. rewrite (proj2 (Z.eqb_neq _ _) Hb).
  by rewrite bool_decide_eq_true_2.
Qed.

Lemma local_route_v4 T r p :
  table_ok T → r ∈ T → is_prefix4 p → v4_route (local_route (rt_Gw r) (rt_LinkIndex r) p).
Proof. intros [Hv _] Hr Hp. destruct (Hv r Hr) as [_ Hg Hl _]. by split. Qed.

(** ** The whole pass *)

(** The table the pass makes of [T]: its default route via wg0 and no other default route,
    a route to every local network via the CNI's gateway, no route of the client's
    beside these; nothing else new, and nothing else gone. *)
Record tunnelled (wgIndex : Z) (cidrs : list Prefix) (gw : Addr) (link : Z) (T T' : list route) : Prop := {
  tun_default : wg_default wgIndex ∈ T';
  tun_only : ∀ r, r ∈ T' → isDefault r = true → rt_LinkIndex r = wgIndex;
  tun_local : ∀ p, p ∈ cidrs → local_route gw link p ∈ T';
  tun_stale : ∀ r, r ∈ T' → rt_Protocol r = routeProtocol → isDefault r = true ∨ rt_Dst r ∈ cidrs;
  tun_new : ∀ r, r ∈ T' → r ∈ T ∨ r = wg_default wgIndex ∨ ∃ p, p ∈ cidrs ∧ r = local_route gw link p;
  tun_kept : ∀ r, r ∈ T → isDefault r = false → rt_Protocol r ≠ routeProtocol →
               (∀ p, p ∈ cidrs → slot r ≠ (p, 0)) → r ∈ T';
}.

Lemma ensureRoutes_success wgIndex cidrs tr :
  exec (ensureRoutes wgIndex cidrs) tr (Ok ()) →
  ∃ listed plan t1 t2 t3,
    tr = ev (RouteListMain false) (Ok listed) :: t1 ++ ev (RouteReplace (wgDefault wgIndex)) None :: t2 ++ t3 ∧
    planRoutes (toRoute <$> listed) wgIndex cidrs = Ok plan ∧
    exec (replaceLocals plan (pl_Local plan)) t1 (Ok ()) ∧
    exec (deleteStale (pl_Stale plan)) t2 (Ok ()) ∧ exec deleteIPv6Defaults t3 (Ok ()).
Proof.
  unfold ensureRoutes. intros Hex. inv_exec. destruct a as [listed|e]; inv_exec.
  destruct (planRoutes _ _ _) as [plan|e] eqn:Hp; inv_node.
  eexists listed, plan, _, _, _. split_and!; cycle 1; [eassumption..|reflexivity].
Qed.

(** The table after the locals and the default route, [L] and [W], and after the deletions. *)
Lemma tunnelled_intro wgIndex cidrs gw link (stale : list route) T T1 T' :
  locals_ok cidrs → table_ok T →
  (∀ r, r ∈ stale ↔ r ∈ T ∧ isStale wgIndex cidrs r = true) →
  (∀ r, r ∈ T1 ↔ r = wg_default wgIndex ∨
     ((∃ p, p ∈ cidrs ∧ r = local_route gw link p) ∨ r ∈ T ∧ ∀ p, p ∈ cidrs → slot r ≠ (p, 0)) ∧ slot r ≠ (prefix4 0 0, 0)) →
  T' ⊆ T1 → (∀ r, r ∈ T1 → r ∉ T' → ∃ d, d ∈ stale ∧ del_matches d r = true) → (∀ r, r ∈ stale → r ∉ T') →
  tunnelled wgIndex cidrs gw link T T'.
Proof.
  unfold locals_ok. rewrite Forall_forall. intros Hc [Hv _] Hst HT1 Hsub Hgone Hstale.
  assert (∀ r, r ∈ T1 → isStale wgIndex cidrs r = false → r ∈ T') as Hfresh.
  { intros r Hr Hf. destruct (decide (r ∈ T')) as [|Hn]; [done|].
    destruct (Hgone r Hr Hn) as (d & [HdT Hd]%Hst & Hm). pose proof (v4_link _ (Hv d HdT)).
    rewrite (del_matches_stale _ _ d r) in Hf; done. }
  assert (∀ r, r ∈ T' → isStale wgIndex cidrs r = false) as Hnone.
  { intros r Hr. pose proof (Hsub r Hr) as [->|[[(p & Hp & ->)|[HrT _]] _]]%HT1;
      [apply wg_default_fresh|by apply local_route_fresh, Hc|].
    destruct (isStale wgIndex cidrs r) eqn:Hs; [|done]. exfalso. by apply (Hstale r); [apply Hst|]. }
  split.
  - apply Hfresh; [apply HT1; by left|apply wg_default_fresh].
  - intros r Hr Hd. specialize (Hnone r Hr). unfold isStale in Hnone. rewrite Hd in Hnone.
    by apply negb_false_iff, Z.eqb_eq in Hnone.
  - intros p Hp. destruct (Hc p Hp) as [_ Hb]. apply Hfresh; [|by apply local_route_fresh].
    apply HT1. right. split; [left; eauto|]. intros [=Hp0]. by rewrite Hp0, Bits_prefix4 in Hb.
  - intros r Hr Hp. specialize (Hnone r Hr). unfold isStale in Hnone. destruct (isDefault r); [by left|]. right.
    rewrite Hp, Z.eqb_refl in Hnone. by apply negb_false_iff, bool_decide_eq_true in Hnone.
  - intros r Hr. pose proof (Hsub r Hr) as [->|[[Hl|[HrT _]] _]]%HT1; eauto.
  - intros r Hr Hd Hp Hs. apply Hfresh.
    + apply HT1. right. split; [by right|]. intros [=Hr0]. unfold isDefault in Hd. by rewrite Hr0 in Hd.
    + unfold isStale. rewrite Hd. by rewrite (proj2 (Z.eqb_neq _ _) Hp).
Qed.

(** C5: Nothing leaves the pod outside the tunnel. After an [ensureRoutes] that returns without
    error the main table has a default route via wg0 and every default route it has is
    via wg0; each local network is routed over the gateway of a route the table had,
    the CNI's default or one an earlier pass installed; no other route of the client
    is left; and every route that is not the client's, a default, or in a local
    network's place is as it was. Every IPv6 default route that was listed has been
    deleted, or was gone, or the kernel has no IPv6. *)
Theorem ensureRoutes_tunnels wgIndex cidrs tr T T' :
  exec (ensureRoutes wgIndex cidrs) tr (Ok ()) → replay main_step T tr = Some T' →
  table_ok T → wgIndex ≠ 0 → locals_ok cidrs →
  (∃ r, r ∈ T ∧ via_gateway wgIndex r = true ∧ tunnelled wgIndex cidrs (rt_Gw r) (rt_LinkIndex r) T T') ∧
  no_default6 tr.
Proof.
  intros Hex Hs HT Hwg0 Hc. apply ensureRoutes_success in Hex as (listed & plan & t1 & t2 & t3 & -> & Hp & Hl & Hd & H6).
  split; [|apply (no_default6_incl t3); [|by apply deleteIPv6Defaults_deletes];
             intros e He; rewrite elem_of_cons, elem_of_app, elem_of_cons, elem_of_app; tauto].
  apply planRoutes_Ok in Hp as (Hloc & Hst & r & Hr & Hv & Hgw & Hlink).
  rewrite replay_cons in Hs. cbn [main_step] in Hs. case_decide as Hsame; [|done]. cbn [mbind option_bind] in Hs.
  destruct Hsame as [Hin1 Hin2]. rewrite Forall_forall in Hin1, Hin2.
  apply replay_app_Some in Hs as (T1 & Hs1 & Hs). rewrite replay_cons in Hs. apply bind_Some in Hs as (T2 & Hs2 & Hs).
  apply replay_app_Some in Hs as (T3 & Hs3 & Hs).
  apply v6_replay in Hs as ->; [|by eapply emits_deleteIPv6Defaults].
  exists r. split_and!; [by apply Hin1|done|]. assert (r ∈ T) as HrT by by apply Hin1.
  unfold locals_ok in Hc. pose proof Hc as Hc'. rewrite Forall_forall in Hc'.
  destruct (locals_replay plan t1 T T1) as [HT1 He1]; [|done..|].
  { rewrite Hloc, Hgw, Hlink. intros p Hp. eapply local_route_v4; [done..|]. by apply Hc'. }
  assert (v4_route (wg_default wgIndex)) as Hwg.
  { split; [|by left|done|done]. by exists 0, 0. }
  pose proof (λ r, replace_elem _ _ r _ Hs2) as He2. rewrite toRoute_wg in He2.
  specialize (λ r, He2 r (v4_dst _ Hwg)).
  assert (∀ d, d ∈ pl_Stale plan ↔ d ∈ T ∧ isStale wgIndex cidrs d = true) as HstT.
  { intros d. rewrite Hst. split; intros [? ?]; (split; [|done]); [by apply Hin1|by apply Hin2]. }
  destruct (deleteStale_replay (pl_Stale plan) t2 T2 T3) as (Hsub & Hgone & Hnone); [|done|done| |].
  { intros d [Hd' _]%HstT. by apply (table_v4 _ HT). }
  { by eapply replace_ok. }
  eapply (tunnelled_intro _ _ _ _ (pl_Stale plan) T T2); [done..| |done|done|done].
  intros x. rewrite He2, He1, Hloc, Hgw, Hlink. done.
Qed.

(** ** The gateway at every moment of a pass *)

(** The table holds the gateway, and no other. *)
Definition gateway_ok (wgIndex : Z) (gw : Addr) (link : Z) (T : list route) : Prop :=
  (∃ r, r ∈ T ∧ via_gateway wgIndex r = true) ∧
  ∀ r, r ∈ T → via_gateway wgIndex r = true → rt_Gw r = gw ∧ rt_LinkIndex r = link.

Lemma gateway_plan wgIndex gw link T have cidrs :
  gateway_ok wgIndex gw link T → same_routes have T →
  ∃ plan, planRoutes have wgIndex cidrs = Ok plan ∧ pl_Gw plan = gw ∧ pl_GwLink plan = link.
Proof.
  unfold same_routes. rewrite !Forall_forall. intros [(r & Hr & Hv) Hall] [Hin1 Hin2].
  destruct (planRoutes have wgIndex cidrs) as [plan|e] eqn:Hp.
  - exists plan. split; [done|]. apply planRoutes_Ok in Hp as (_ & _ & r' & Hr' & Hv' & -> & ->). by apply Hall, Hv'; apply Hin1.
  - exfalso. specialize (Hin2 r Hr). apply list_elem_of_In in Hin2. unfold planRoutes in Hp. unfold via_gateway in Hv.
    destruct (List.find (cniDefault wgIndex) have) eqn:Hf1; [done|].
    destruct (List.find installed have) eqn:Hf2; [done|].
    by rewrite (find_none _ _ Hf1 _ Hin2), (find_none _ _ Hf2 _ Hin2) in Hv.
Qed.

Section pass.
Context (wgIndex : Z) (cidrs : list Prefix) (gw : Addr) (link : Z) (plan : routePlan).
Context (Hc : locals_ok cidrs) (Hwg : wgIndex ≠ 0) (Hgw : pl_Gw plan = gw) (Hlink : pl_GwLink plan = link).
Context (Hlocal : ∀ p, p ∈ cidrs → v4_route (local_route gw link p)) (Hvalid : addr_IsValid gw = true).
Context (Hstale : ∀ d, d ∈ pl_Stale plan → v4_route d ∧ isStale wgIndex cidrs d = true).

(** What the pass does to the main IPv4 table. *)
Definition local_op (o : NOp) : Prop := ∃ p, p ∈ cidrs ∧ o = RouteReplace (localRoute plan p).
Definition later_op (o : NOp) : Prop :=
  o = RouteReplace (wgDefault wgIndex) ∨ (∃ d, d ∈ pl_Stale plan ∧ o = RouteDel (deletion d)) ∨ v6_op o.

(** The table is well formed and holds no other gateway. *)
Definition kept (T : list route) : Prop :=
  table_ok T ∧ ∀ r, r ∈ T → via_gateway wgIndex r = true → rt_Gw r = gw ∧ rt_LinkIndex r = link.

Lemma kept_subset T T' : T' ⊆ T → kept T → kept T'.
Proof. intros Hs [HT Hv]. split; [by eapply table_ok_subset|]. intros r Hr. by apply Hv, Hs. Qed.

Lemma wg_not_via : via_gateway wgIndex (wg_default wgIndex) = false.
Proof. unfold via_gateway, cniDefault, installed. cbn. by rewrite andb_false_r. Qed.

Lemma local_via p : via_gateway wgIndex (local_route gw link p) = true.
Proof. unfold via_gateway, installed. cbn. by rewrite Hvalid, orb_true_r. Qed.

Lemma local_to p : p ∈ cidrs → toRoute (localRoute plan p) = local_route gw link p.
Proof.
  intros Hp. pose proof (Hlocal p Hp) as Hv. rewrite toRoute_local; [by rewrite Hgw, Hlink|apply (v4_dst _ Hv)|].
  rewrite Hgw. apply (v4_gw _ Hv).
Qed.

Lemma local_step p x T T' :
  p ∈ cidrs → kept T → main_step T (ev (RouteReplace (localRoute plan p)) x) = Some T' →
  kept T' ∧ (∀ q, q ∈ cidrs → local_route gw link q ∈ T → local_route gw link q ∈ T') ∧
  (x = None → local_route gw link p ∈ T') ∧ (gateway_ok wgIndex gw link T → gateway_ok wgIndex gw link T').
Proof.
  intros Hp HK Hs. destruct x as [e|]; [injection Hs as <-; done|].
  pose proof (λ r, replace_elem _ _ r _ Hs) as He. rewrite local_to in He by done.
  specialize (λ r, He r (v4_dst _ (Hlocal p Hp))).
  assert (kept T') as HK'.
  { destruct HK as [HT Hv]. split.
    - eapply replace_ok; [done| |done]. rewrite local_to by done. by apply Hlocal.
    - intros r [->|[Hr _]]%He; [done|by apply Hv]. }
  split_and!; [done| |intros _; apply He; by left|].
  - intros q Hq HqT. apply He. destruct (decide (q = p)) as [->|Hne]; [by left|]. right. split; [done|]. by intros [=].
  - intros _. split; [|apply HK']. exists (local_route gw link p). split; [apply He; by left|apply local_via].
Qed.

Lemma later_step q e T T' :
  q ∈ cidrs → later_op (projT1 e) → kept T ∧ local_route gw link q ∈ T → main_step T e = Some T' →
  kept T' ∧ local_route gw link q ∈ T'.
Proof.
  intros Hq He [HK HqT] Hs. unfold locals_ok in Hc. rewrite Forall_forall in Hc. destruct (Hc q Hq) as [Hq4 Hqb].
  destruct He as [Ho|[(d & Hd & Ho)|H6]]; [destruct e as [o x]; cbn in Ho; subst o..|apply v6_step in Hs as ->; done].
  - destruct x as [e|]; [by injection Hs as <-|].
    assert (v4_route (wg_default wgIndex)) as Hw by (split; [by exists 0, 0|by left|done|done]).
    pose proof (λ r, replace_elem _ _ r _ Hs) as He. rewrite toRoute_wg in He. specialize (λ r, He r (v4_dst _ Hw)).
    split; [split|].
    + by eapply replace_ok; [done| |apply HK].
    + intros r [->|[Hr _]]%He Hv; [by rewrite wg_not_via in Hv|by apply HK].
    + apply He. right. split; [done|]. intros [=Hq0]. by rewrite Hq0, Bits_prefix4 in Hqb.
  - destruct (Hstale d Hd) as [Hd4 Hds]. destruct (delete_elem _ _ _ _ Hs Hd4 (proj1 HK)) as (Hsub & Hgone & _).
    split; [by eapply kept_subset|]. destruct (decide (local_route gw link q ∈ T')) as [|Hn]; [done|].
    specialize (Hgone _ HqT Hn). apply (del_matches_stale wgIndex cidrs) in Hgone; [|by apply Hd4|done].
    by rewrite local_route_fresh in Hgone.
Qed.

Lemma locals_keep t T T' :
  Forall (λ e : event NRes, local_op (projT1 e)) t → kept T ∧ gateway_ok wgIndex gw link T →
  replay main_step T t = Some T' → kept T' ∧ gateway_ok wgIndex gw link T'.
Proof.
  rewrite Forall_forall. intros Ht. apply (replay_inv main_step (λ U, kept U ∧ gateway_ok wgIndex gw link U)).
  intros [o x] T1 T2 He [HK HG] Hs.
  destruct (Ht _ He) as (p & Hp & Ho). cbn in Ho. subst o.
  destruct (local_step p x T1 T2 Hp HK Hs) as (HK' & _ & _ & HG'). auto.
Qed.

Lemma locals_present q t T T' :
  Forall (λ e : event NRes, local_op (projT1 e)) t → q ∈ cidrs → ev (RouteReplace (localRoute plan q)) None ∈ t →
  kept T → replay main_step T t = Some T' → kept T' ∧ local_route gw link q ∈ T'.
Proof.
  intros Ht Hq (t1 & t2 & ->)%list_elem_of_split HK Hs. apply Forall_app in Ht as [Ht1 [_ Ht2]%Forall_cons].
  rewrite Forall_forall in Ht1, Ht2.
  apply replay_app_Some in Hs as (T1 & Hs1 & Hs). rewrite replay_cons in Hs. apply bind_Some in Hs as (T2 & Hs2 & Hs).
  assert (kept T1) as HK1.
  { eapply (replay_inv main_step kept); [|exact HK|exact Hs1]. intros [o x] U U' He HU HU'.
    destruct (Ht1 _ He) as (p & Hp & Ho). cbn in Ho. subst o. by apply (local_step p x U U'). }
  destruct (local_step q None T1 T2 Hq HK1 Hs2) as (HK2 & _ & Hin & _).
  eapply (replay_inv main_step (λ U, kept U ∧ local_route gw link q ∈ U)); [|by split; [|apply Hin]|exact Hs].
  intros [o x] U U' He [HU HqU] HU'. destruct (Ht2 _ He) as (p & Hp & Ho). cbn in Ho. subst o.
  destruct (local_step p x U U' Hp HU HU') as (HK' & Hkeep & _). auto.
Qed.

Lemma later_keep q t T T' :
  Forall (λ e : event NRes, later_op (projT1 e)) t → q ∈ cidrs → kept T ∧ local_route gw link q ∈ T →
  replay main_step T t = Some T' → kept T' ∧ local_route gw link q ∈ T'.
Proof.
  rewrite Forall_forall. intros Ht Hq. apply (replay_inv main_step (λ U, kept U ∧ local_route gw link q ∈ U)).
  intros e U U' He HU Hs.
  by apply (later_step q e U U' Hq); [apply Ht|..].
Qed.

Lemma present_gateway q T : kept T → local_route gw link q ∈ T → gateway_ok wgIndex gw link T.
Proof. intros [_ Hv] Hq. split; [|done]. exists (local_route gw link q). split; [done|apply local_via]. Qed.

(** After any part of the operations of a pass. *)
Lemma pass_keep tA tB t1 t2 T T1 :
  Forall (λ e : event NRes, local_op (projT1 e)) tA → Forall (λ e : event NRes, later_op (projT1 e)) tB →
  cidrs ≠ [] → (tB = [] ∨ ∀ p, p ∈ cidrs → ev (RouteReplace (localRoute plan p)) None ∈ tA) →
  tA ++ tB = t1 ++ t2 → kept T ∧ gateway_ok wgIndex gw link T → replay main_step T t1 = Some T1 →
  table_ok T1 ∧ gateway_ok wgIndex gw link T1.
Proof.
  intros HA HB Hne Hall Heq HT Hs.
  assert (kept T1 ∧ gateway_ok wgIndex gw link T1) as [[? _] ?]; [|done].
  apply app_eq_app in Heq as (t & [[-> ->]|[-> ->]]).
  - apply Forall_app in HA as [HA _]. by eapply locals_keep.
  - apply replay_app_Some in Hs as (TA & HsA & Hs). apply Forall_app in HB as [HB _].
    destruct Hall as [[-> ->]%app_eq_nil|Hall]; [injection Hs as <-; by eapply locals_keep|].
    assert (∃ q, q ∈ cidrs) as [q Hq] by (destruct cidrs as [|q l]; [done|exists q; left]).
    destruct (later_keep q t TA T1) as [HK Hin]; [done|done| |done|].
    + eapply locals_present; [done|done|by apply Hall|apply HT|done].
    + split; [done|by eapply present_gateway].
Qed.
End pass.

(** The operations of a pass, whatever it returns. *)
Lemma replaceLocals_all plan l tr p :
  exec (replaceLocals plan l) tr (Ok ()) → p ∈ l → ev (RouteReplace (localRoute plan p)) None ∈ tr.
Proof.
  unfold replaceLocals. revert tr. induction l as [|q l IH]; intros tr Hex Hp; [by apply not_elem_of_nil in Hp|].
  cbn [loopE] in Hex. inv_node. apply elem_of_cons in Hp as [->|Hp]; [left|right; by apply IH].
Qed.

Lemma ensureRoutes_ops wgIndex cidrs tr r :
  exec (ensureRoutes wgIndex cidrs) tr r →
  ∃ listed tr', tr = ev (RouteListMain false) listed :: tr' ∧
    (tr' = [] ∨ ∃ l plan t1 t2, listed = Ok l ∧ planRoutes (toRoute <$> l) wgIndex cidrs = Ok plan ∧ tr' = t1 ++ t2 ∧
       Forall (λ e : event NRes, local_op cidrs plan (projT1 e)) t1 ∧
       Forall (λ e : event NRes, later_op wgIndex plan (projT1 e)) t2 ∧
       (t2 = [] ∨ ∀ p, p ∈ cidrs → ev (RouteReplace (localRoute plan p)) None ∈ t1)).
Proof.
  unfold ensureRoutes. intros Hex. inv_exec. exists a, t0. split; [done|].
  destruct a as [l|e]; [|inv_exec; by left]. destruct (planRoutes _ _ _) as [plan|e] eqn:Hp; [|inv_exec; by left].
  right. pose proof (planRoutes_Ok _ _ _ _ Hp) as (Hloc & _). rewrite Hloc in Hex.
  apply exec_bind in Hex as (x & t1 & t2 & -> & Hl & Hex). exists l, plan, t1, t2. split_and!; [done..| | |].
  - eapply (emits_loopE_elem (local_op cidrs plan)), Hl. intros u p Hin.
    apply emits_check_wrapped. refine (emits_perform _ (RouteReplace _) _). by exists p.
  - destruct x as [[]|e]; [|destruct Hex as [-> _]; constructor]. revert t2 r Hex.
    match goal with |- ∀ t2 r, exec ?p t2 r → _ => change (emits (later_op wgIndex plan) p) end.
    apply emits_bindE; [|intros _; apply emits_bindE; [|intros _]].
    + apply emits_check_wrapped. refine (emits_perform _ (RouteReplace _) _). by left.
    + apply emits_loopE_elem. intros u d Hd. apply emits_bind; [|solve_emits]. refine (emits_perform _ (RouteDel _) _). right. left. by exists d.
    + eapply emits_mono; [|apply emits_deleteIPv6Defaults]. intros o Ho. by right; right.
  - destruct x as [[]|e]; [|left; by destruct Hex]. right. intros p. by apply replaceLocals_all.
Qed.

(** C13: The gateway is never lost. At every moment of a pass, one that fails or is cut off
    included, a table that had the CNI's gateway and no other still has it: whatever
    local networks the next pass is given, it finds the same gateway over the same
    link. The local networks must not be empty, and [desiredTunnel] waits for one. *)
Theorem ensureRoutes_recoverable wgIndex cidrs gw link tr r t1 t2 T T1 :
  exec (ensureRoutes wgIndex cidrs) tr r → tr = t1 ++ t2 → replay main_step T t1 = Some T1 →
  table_ok T → gateway_ok wgIndex gw link T → wgIndex ≠ 0 → locals_ok cidrs → cidrs ≠ [] →
  table_ok T1 ∧ gateway_ok wgIndex gw link T1 ∧
  ∀ have cidrs', same_routes have T1 →
    ∃ plan, planRoutes have wgIndex cidrs' = Ok plan ∧ pl_Gw plan = gw ∧ pl_GwLink plan = link.
Proof.
  intros Hex Htr Hs HT HG Hwg Hc Hne.
  assert (table_ok T1 ∧ gateway_ok wgIndex gw link T1) as [? ?];
    [|split_and!; [done..|]; intros; by eapply gateway_plan].
  apply ensureRoutes_ops in Hex as (listed & tr' & -> & Hops).
  destruct t1 as [|e t1]; [injection Hs as <-; done|]. injection Htr as <- ->.
  rewrite replay_cons in Hs. apply bind_Some in Hs as (T0 & Hs0 & Hs).
  destruct Hops as [[-> ->]%app_eq_nil|(l & plan & tA & tB & -> & Hp & Heq & HA & HB & Hall)].
  { injection Hs as <-. destruct listed; cbn in Hs0; [case_decide; [|done]|]; injection Hs0 as <-; done. }
  cbn [main_step] in Hs0. case_decide as Hsame; [|done]. injection Hs0 as <-.
  apply planRoutes_Ok in Hp as (_ & Hst & x & Hx & Hv & Hgw & Hlink).
  destruct Hsame as [Hin _]. rewrite Forall_forall in Hin.
  assert (rt_Gw x = gw ∧ rt_LinkIndex x = link) as [<- <-] by by apply HG, Hv; apply Hin.
  apply (pass_keep wgIndex cidrs _ _ plan Hc Hwg Hgw Hlink) with tA tB t1 t2 T; try done.
  - intros p Hp. eapply local_route_v4; [done|by apply Hin|]. unfold locals_ok in Hc. rewrite Forall_forall in Hc. by apply Hc.
  - by apply via_gateway_valid in Hv.
  - intros d [Hd Hds]%Hst. split; [apply (table_v4 _ HT), Hin, Hd|done].
  - split; [split; [done|apply HG]|done].
Qed.
End routes.

(** ** A pod's main table *)

Module RefRoutes.
#[export] Existing Instances Reference.wgtypes.

Definition cni : Addr := addr4 183762945.  (* 10.244.0.1 *)

(** The CNI's default route over eth0, its subnet's route, and a route the client has left
    from an earlier set of local networks. *)
Definition table : list route :=
  [{| rt_Dst := prefix4 0 0; rt_Gw := cni; rt_LinkIndex := 2; rt_Priority := 0; rt_Protocol := 3; rt_Scope := 0 |};
   {| rt_Dst := prefix4 183762944 24; rt_Gw := zeroAddr; rt_LinkIndex := 2; rt_Priority := 0; rt_Protocol := 2; rt_Scope := 253 |};
   local_route cni 2 (prefix4 3232235520 16)].

Definition cidrs : list Prefix := [prefix4 174063616 12; prefix4 183762944 16].  (* 10.96.0.0/12, 10.244.0.0/16 *)

Definition listed6 : list Route :=
  [{| r_Dst := None; r_Gw := mkAddr (z6 "") 338288524927261089654018896841347694593; r_LinkIndex := 2; r_Priority := 1024;
      r_Protocol := 3; r_Scope := 0; r_Table := RT_TABLE_MAIN; r_Type := 1 |}].

(** The kernel's answers; a link that is down refuses the default route. *)
Definition netns (up : bool) : handler NRes (list route) :=
  λ o T,
    let after x := default T (main_step T (existT o x)) in
    match o return (NRes o → list route) → NRes o * list route with
    | RouteListMain false => λ _, (Ok (deletion <$> T), T)
    | RouteListMain true => λ _, (Ok listed6, T)
    | RouteReplace r =>
        let x := if isDefault (toRoute r) && negb up then Some (errors_New "network is down") else None in
        λ after, (x, after x)
    | RouteDel d =>
        let x := match victim (toRoute d) T with
                 | None => if Is4 (p_ip (rt_Dst (toRoute d))) then Some (MkError "no such process" [ESRCH]) else None
                 | Some _ => None
                 end in
        λ after, (x, after x)
    | o => λ _, ((RefNode.node o 0).1, T)
    end after.

Definition passed := run (netns true) (ensureRoutes 5 cidrs) table.
Definition cut_off := run (netns false) (ensureRoutes 5 cidrs) table.

Lemma passed_exec : exec (ensureRoutes 5 cidrs) passed.1.1 (Ok ()).
Proof. assert (passed.1.2 = Ok ()) as <- by (vm_compute; reflexivity). apply run_is_exec. Qed.

Lemma table_is_ok : table_ok table.
Proof.
  split.
  - intros r Hr. unfold table in Hr. rewrite !elem_of_cons, elem_of_nil in Hr.
    destruct Hr as [->|[->|[->|[]]]]; 
      (split; cbn; [by eexists _, _|first [by left|right; by eexists]|done|done]).
  - intros r r' Hr Hr'. unfold table in Hr, Hr'. rewrite !elem_of_cons, elem_of_nil in Hr, Hr'.
    destruct Hr as [->|[->|[->|[]]]], Hr' as [->|[->|[->|[]]]]; done.
Qed.

Lemma cidrs_are_ok : locals_ok cidrs.
Proof.
  unfold locals_ok, cidrs. apply Forall_cons. split; [|apply Forall_singleton];
    (split; [by eexists _, _|done]).
Qed.

Lemma gateway_is_ok : gateway_ok 5 cni 2 table.
Proof.
  split; [exists (hd (wg_default 5) table); split; [left|reflexivity]|].
  intros r Hr. unfold table in Hr. rewrite !elem_of_cons, elem_of_nil in Hr. by destruct Hr as [->|[->|[->|[]]]].
Qed.
End RefRoutes.

#[local] Existing Instances Reference.wgtypes.

Lemma ensureRoutes_tunnels_witness :
  ∃ r T', r ∈ RefRoutes.table ∧ tunnelled 5 RefRoutes.cidrs (rt_Gw r) (rt_LinkIndex r) RefRoutes.table T' ∧
    no_default6 RefRoutes.passed.1.1 ∧ length T' = 4%nat.
Proof.
  assert (∃ T', replay main_step RefRoutes.table RefRoutes.passed.1.1 = Some T' ∧ length T' = 4%nat) as (T' & Hs & Hlen)
    by (eexists; split; [vm_compute; reflexivity|reflexivity]).
  destruct (ensureRoutes_tunnels 5 RefRoutes.cidrs _ _ _ RefRoutes.passed_exec Hs RefRoutes.table_is_ok ltac:(done)
    RefRoutes.cidrs_are_ok) as [(r & Hr & _ & Ht) H6].
  exists r, T'. exact (conj Hr (conj Ht (conj H6 Hlen))).
Defined.

(** The pass that fails at the default route. *)
Lemma ensureRoutes_recoverable_witness :
  ∃ T1, replay main_step RefRoutes.table RefRoutes.cut_off.1.1 = Some T1 ∧ T1 ≠ RefRoutes.table ∧
    gateway_ok 5 RefRoutes.cni 2 T1.
Proof.
  assert (∃ T1, replay main_step RefRoutes.table RefRoutes.cut_off.1.1 = Some T1 ∧ T1 ≠ RefRoutes.table) as (T1 & Hs & Hne)
    by (eexists; split; [vm_compute; reflexivity|done]).
  destruct (ensureRoutes_recoverable 5 RefRoutes.cidrs RefRoutes.cni 2 _ _ RefRoutes.cut_off.1.1 [] _ T1
    (run_is_exec (RefRoutes.netns false) (ensureRoutes 5 RefRoutes.cidrs) RefRoutes.table) (eq_sym (app_nil_r _)) Hs
    RefRoutes.table_is_ok RefRoutes.gateway_is_ok ltac:(done) RefRoutes.cidrs_are_ok ltac:(done)) as (_ & Hg & _).
  exists T1. exact (conj Hs (conj Hne Hg)).
Defined.
