(* ===== verification/SidecarFacts.v ===== *)
(** * The client sidecar: correctness of its passes

    That a live tunnel is not reset and the routes never run ahead of it, and that no
    change of the pod's peer is missed. *)

From stdpp Require Import relations.
From S2P Require Import Prelude GoStd Netip NetipFacts Effects Api External Resources Node WgServer ReferenceCluster WgServerFacts SidecarPeer SidecarTunnel RoutesFacts Sidecar.

(** ** Wake-ups *)

Section wakeups.
Import watch.

Definition reachable : state → Prop := rtc (λ s s', ∃ l, step l s s') init.

(** What happens without a new change and before the ticker fires. *)
Definition driven (s s' : state) : Prop := ∃ l, l ≠ Change ∧ l ≠ Tick ∧ step l s s'.

(** A version the last pass has not read is about to be read, or announced, or to be. *)
Definition pending (s : state) : Prop :=
  at_ s = Starting ∨ kick s = true ∨ undelivered s ≠ 0%nat ∨ seen s = cached s.

Lemma reachable_pending s : reachable s → pending s.
Proof.
  unfold reachable. intros Hr. refine (rtc_ind_r pending init _ _ s Hr); [by left|].
  intros s1 s2 _ [l Hst] IH. unfold pending in *. destruct Hst; cbn; intuition congruence.
Qed.

Lemma driven_reachable s s' : reachable s → rtc driven s s' → reachable s'.
Proof.
  unfold reachable. intros Hr Hd. etransitivity; [exact Hr|]. eapply rtc_subrel; [|exact Hd].
  intros x y (l & _ & _ & Hst). by exists l.
Qed.

Ltac drive st := eapply rtc_l; [eexists; split_and!; [..|by apply st]; done|].

(** The pass under way ends. *)
Lemma settle s : ∃ s', rtc driven s s' ∧ at_ s' = Idle ∧ cached s' = cached s ∧ (at_ s = Starting → seen s' = cached s) ∧
  undelivered s' = undelivered s ∧ kick s' = kick s.
Proof.
  destruct s as [c u k [] v].
  - eexists. split; [apply rtc_refl|]. by split_and!.
  - eexists. split; [drive read; drive finish; apply rtc_refl|]. by split_and!.
  - eexists. split; [drive finish; apply rtc_refl|]. by split_and!.
Qed.

(** The handlers run. *)
Lemma deliver s : ∃ s', rtc driven s s' ∧ at_ s' = at_ s ∧ cached s' = cached s ∧ undelivered s' = 0%nat.
Proof.
  destruct s as [c u k p v]. revert k. induction u as [|u IH]; intros k.
  - eexists. split; [apply rtc_refl|]. done.
  - destruct (IH true) as (s' & Hr & Hs'). exists s'. split; [|exact Hs']. by drive notify.
Qed.

(** C29: No change of the pod's WireguardPeer is missed. Whatever order changes, notifications,
    wake-ups and passes come in, a client that waits with an empty channel and no
    notification under way has read the cache's last version; and from every state the
    notifications and passes under way, without the ticker and without another change,
    lead to such a state. *)
Theorem no_lost_wakeup s :
  reachable s →
  (at_ s = Idle → kick s = false → undelivered s = 0%nat → seen s = cached s) ∧
  ∃ s', rtc driven s s' ∧ at_ s' = Idle ∧ kick s' = false ∧ undelivered s' = 0%nat ∧
    cached s' = cached s ∧ seen s' = cached s.
Proof.
  intros Hr. assert (∀ s, reachable s → at_ s = Idle → kick s = false → undelivered s = 0%nat → seen s = cached s) as Hidle.
  { intros x Hx%reachable_pending. unfold pending in Hx. intuition congruence. }
  split; [by apply Hidle|].
  destruct (settle s) as (s1 & Hd1 & Ha1 & Hc1 & _). destruct (deliver s1) as (s2 & Hd2 & Ha2 & Hc2 & Hu2).
  assert (rtc driven s s2) as Hd by by etransitivity. destruct (kick s2) eqn:Hk.
  - exists (Build_state (cached s) 0 false Idle (cached s)). split; [|done]. etransitivity; [exact Hd|].
    rewrite Ha1 in Ha2. rewrite Hc1 in Hc2. destruct s2 as [c u k p v]. cbn in *. subst.
    drive receive. drive read. drive finish. apply rtc_refl.
  - exists s2. split_and!; [done|congruence|done|done|congruence|].
    rewrite <- Hc1, <- Hc2. apply Hidle; [by eapply driven_reachable|congruence|done|done].
Qed.
End wakeups.

Lemma no_lost_wakeup_witness :
  ∃ s, reachable s ∧ watch.seen s ≠ watch.cached s ∧
    ∃ s', rtc driven s s' ∧ watch.at_ s' = watch.Idle ∧ watch.seen s' = watch.cached s.
Proof.
  set (s := watch.Build_state 1 1 false watch.Passing 0).
  assert (reachable s) as Hr.
  { eapply rtc_l; [exists watch.Read; by apply watch.read|]. eapply rtc_l; [exists watch.Change; apply watch.change|].
    apply rtc_refl. }
  destruct (no_lost_wakeup s Hr) as (_ & s' & Hd & Ha & _ & _ & _ & Hs).
  exists s. exact (conj Hr (conj (O_S 0) (ex_intro _ s' (conj Hd (conj Ha Hs))))).
Defined.

(** ** The device and the routes *)

Section apply.
Context `{WgTypes}.
#[local] Abbreviation ev := (@existT NOp NRes).

(** The device carries the tunnel: the key, the server as its only peer, with its endpoint
    and keepalive, and everything allowed through it. *)
Definition carries (key : Key) (t : Tunnel) (dev : Device) : Prop :=
  dev_PrivateKey dev = key ∧
  ∃ p ap n, dev_Peers dev = [p] ∧ wgp_PublicKey p = tn_ServerKey t ∧ wgp_Keepalive p = Keepalive ∧
    wgp_Endpoint p = Some ap ∧ mkAddrPort (Unmap (ap_addr ap)) (ap_port ap) = tn_Endpoint t ∧
    wgp_AllowedIPs p = [n] ∧ ipnet_String n = "0.0.0.0/0".

Lemma deviceMatches_carries dev key t : deviceMatches (Some dev) key t default4 = true ↔ carries key t dev.
Proof.
  unfold deviceMatches, carries. split.
  - destruct (dev_Peers dev) as [|p [|]]; [done| |done]. rewrite !andb_true_iff, !bool_decide_eq_true, Z.eqb_eq.
    destruct (wgp_Endpoint p) as [ap|] eqn:Hep; [|by intros [[_ ?] _]].
    destruct (wgp_AllowedIPs p) as [|n [|]] eqn:Ha; [by intros [_ ?]| |by intros [_ ?]].
    rewrite !bool_decide_eq_true. intros ((((? & ?) & ?) & ?) & ?). split; [done|]. by exists p, ap, n.
  - intros (-> & p & ap & n & -> & -> & -> & -> & -> & -> & Hn). by rewrite !bool_decide_eq_true_2, Z.eqb_refl.
Qed.

(** What [Apply] configures. *)
Definition tunnelConfig (key : Key) (t : Tunnel) : DeviceConfig :=
  {| dc_PrivateKey := Some key; dc_ListenPort := None; dc_ReplacePeers := true;
     dc_Peers := [{| pc_PublicKey := tn_ServerKey t; pc_Remove := false; pc_UpdateOnly := false;
                     pc_Endpoint := Some (tn_Endpoint t); pc_Keepalive := Some Keepalive;
                     pc_ReplaceAllowedIPs := true; pc_AllowedIPs := [default4] |}] |}.

(** What the kernel reports of a device whose key and peers [cfg] has replaced: addresses
    may come in another form, and the handshakes are its own. *)
Definition reads_back (cfg : DeviceConfig) (dev : Device) : Prop :=
  Some (dev_PrivateKey dev) = dc_PrivateKey cfg ∧
  Forall2 (λ c p, wgp_PublicKey p = pc_PublicKey c ∧ Some (wgp_Keepalive p) = pc_Keepalive c ∧
             (λ ap, (Unmap (ap_addr ap), ap_port ap)) <$> wgp_Endpoint p =
               (λ ap, (Unmap (ap_addr ap), ap_port ap)) <$> pc_Endpoint c ∧
             ipnet_String <$> wgp_AllowedIPs p = ipnet_String <$> pc_AllowedIPs c) (dc_Peers cfg) (dev_Peers dev).

Lemma reads_back_carries key t dev :
  Unmap (ap_addr (tn_Endpoint t)) = ap_addr (tn_Endpoint t) → reads_back (tunnelConfig key t) dev → carries key t dev.
Proof.
  intros Hun [Hk Hp]. cbn in Hk, Hp. injection Hk as Hk. split; [done|].
  apply list.Forall2_cons_inv_l in Hp as (p & l & (Hpk & Hka & Hep & Hip) & Hl & Hdev).
  apply list.Forall2_nil_inv_l in Hl as ->. cbn in *. injection Hka as Hka.
  destruct (wgp_Endpoint p) as [ap|] eqn:He; [|done]. cbn in Hep. injection Hep as Ha Hport.
  destruct (wgp_AllowedIPs p) as [|n [|]] eqn:Hn; [done| |done]. injection Hip as Hip.
  exists p, ap, n. split_and!; [done..| |done|done]. rewrite Ha, Hun, Hport. by destruct (tn_Endpoint t).
Qed.

Definition changes_route (o : NOp) : Prop :=
  match o with RouteAdd _ | RouteReplace _ | RouteDel _ => True | _ => False end.

(** After the device is right, its configuration is left alone. *)
Definition after_device (o : NOp) : Prop := match o with ConfigureDevice _ _ | WgDevice _ => False | _ => True end.

Lemma exec_wrapped {A} pre (p : prog NRes (result A)) tr r :
  exec (wrapped pre p) tr r ↔ ∃ r0, exec p tr r0 ∧ r = match r0 with Ok a => Ok a | Err e => Err (wrapf pre e) end.
Proof.
  unfold wrapped. split.
  - intros (r0 & t1 & t2 & -> & Hp & Hr)%exec_bind. exists r0.
    destruct r0; destruct Hr as [-> ->]; by rewrite app_nil_r.
  - intros (r0 & Hp & ->). apply exec_bind. exists r0, tr, []. rewrite app_nil_r.
    split_and!; [done|done|]. by destruct r0.
Qed.

Lemma emits_wrapped {A} K pre (p : prog NRes (result A)) : emits K p → emits K (wrapped pre p).
Proof. intros Hp. unfold wrapped. solve_emits. Qed.

Lemma emits_ensureRoutes wgIndex cidrs : emits after_device (ensureRoutes wgIndex cidrs).
Proof.
  unfold ensureRoutes, replaceLocals, deleteStale, deleteIPv6Defaults. quietly.
Qed.

Lemma withClient_trace body tr r :
  exec (withClient body) tr r →
  (∃ e, tr = [ev WgNew (Some e)]) ∨ ∃ tb rb c, tr = ev WgNew None :: tb ++ [ev WgClose c] ∧ exec body tb rb.
Proof.
  unfold withClient. intros Hex. inv_exec. destruct a as [e|]; inv_exec; [left; by eexists|].
  right. eexists _, _, a0. split; [|eassumption]. destruct a0; inv_exec; done.
Qed.

(** What happens to the device and after it, [None] for nothing. *)
Inductive device_trace (key : Key) (t : Tunnel) : list (event NRes) → Prop :=
  | untouched tr : Forall (λ e : event NRes, link_op (projT1 e)) tr → device_trace key t tr
  | unread t0 e t1 :
      Forall (λ e : event NRes, link_op (projT1 e)) t0 → Forall (λ e : event NRes, link_op (projT1 e)) t1 →
      device_trace key t (t0 ++ ev (WgDevice WgInterface) (Err e) :: t1)
  | right_already t0 dev t1 :
      Forall (λ e : event NRes, link_op (projT1 e)) t0 → Forall (λ e : event NRes, after_device (projT1 e)) t1 →
      carries key t dev → device_trace key t (t0 ++ ev (WgDevice WgInterface) (Ok dev) :: t1)
  | configured t0 dev t1 :
      Forall (λ e : event NRes, link_op (projT1 e)) t0 → Forall (λ e : event NRes, after_device (projT1 e)) t1 →
      ¬ carries key t dev →
      device_trace key t (t0 ++ ev (WgDevice WgInterface) (Ok dev) ::
                            ev (ConfigureDevice WgInterface (tunnelConfig key t)) None :: t1)
  | unconfigured t0 dev e t1 :
      Forall (λ e : event NRes, link_op (projT1 e)) t0 → Forall (λ e : event NRes, link_op (projT1 e)) t1 →
      ¬ carries key t dev →
      device_trace key t (t0 ++ ev (WgDevice WgInterface) (Ok dev) ::
                            ev (ConfigureDevice WgInterface (tunnelConfig key t)) (Some e) :: t1).

Lemma device_trace_cons key t tr0 tr :
  Forall (λ e : event NRes, link_op (projT1 e)) tr0 → device_trace key t tr → device_trace key t (tr0 ++ tr).
Proof.
  intros H0 [tr' ?|t0 e t1 ? ?|t0 dev t1 ? ? ?|t0 dev t1 ? ? ?|t0 dev e t1 ? ? ?]; rewrite ?app_assoc;
    by constructor; try apply Forall_app.
Qed.

(** The rest of [Apply], once the device is right. *)
Definition applyRoutes (t : Tunnel) : prog NRes (result ()) :=
  bindE (wrapped ("look up " +:+ WgInterface +:+ ": ") (perform (LinkByName WgInterface)))
    (λ link, wrapped "routes: " (ensureRoutes (l_Index link) (tn_LocalCIDRs t))).

Lemma emits_applyRoutes t : emits after_device (applyRoutes t).
Proof.
  unfold applyRoutes. apply emits_bindE.
  - apply emits_wrapped. by refine (emits_perform _ (LinkByName _) _).
  - intros l. apply emits_wrapped, emits_ensureRoutes.
Qed.

Lemma Apply_trace key t tr r : exec (Apply key t) tr r → device_trace key t tr.
Proof.
  unfold Apply. intros (r1 & t1 & t2 & -> & Hl & Hex)%exec_bind.
  apply (emits_wrapped link_op) in Hl; [|apply emits_SyncLink]. apply device_trace_cons; [done|].
  destruct r1 as [[]|e]; [|destruct Hex as [-> _]; by apply untouched].
  apply exec_bind in Hex as (r2 & t3 & t4 & -> & Ha & Hex).
  apply (emits_wrapped link_op) in Ha; [|apply emits_SyncAddress]. apply device_trace_cons; [done|].
  destruct r2 as [[]|e]; [|destruct Hex as [-> _]; by apply untouched].
  apply withClient_trace in Hex as [[e ->]|(tb & rb & c & -> & Hex)]; [apply untouched; by apply Forall_singleton|].
  apply (device_trace_cons key t [ev WgNew None]); [by apply Forall_singleton|].
  apply exec_bind in Hex as (d & t5 & t6 & -> & Hd & Hex). apply exec_wrapped in Hd as (d0 & Hd & ->).
  destruct Hd as (? & ? & -> & -> & <-). rewrite <- app_assoc.
  assert (Forall (λ e : event NRes, link_op (projT1 e)) [ev WgClose c]) as Hclose by by apply Forall_singleton.
  destruct d0 as [dev|e]; [|destruct Hex as [-> _]; by apply (unread key t [])].
  assert (∀ t, Forall (λ e : event NRes, after_device (projT1 e)) t →
    Forall (λ e : event NRes, after_device (projT1 e)) (t ++ [ev WgClose c])) as Happ.
  { intros u Hu. apply Forall_app. split; [done|by apply Forall_singleton]. }
  unfold deviceConfig in Hex. destruct (deviceMatches _ _ _ _) eqn:Hm.
  - apply deviceMatches_carries in Hm. apply (right_already key t []); [done| |done]. apply Happ.
    by eapply (emits_applyRoutes t).
  - assert (¬ carries key t dev) as Hnc by (rewrite <- deviceMatches_carries, Hm; done).
    apply exec_bind in Hex as (r3 & t7 & t8 & -> & Hc & Hex). unfold check_wrapped in Hc. inv_exec.
    destruct a as [e|]; inv_exec; [apply (unconfigured key t [] dev e [ev WgClose c]); [done|by apply Forall_singleton|done]|].
    apply (configured key t []); [done| |done]. apply Happ. by eapply (emits_applyRoutes t).
Qed.

(** Before the first change of a route. *)
Lemma before_route (A B pre post : list (event NRes)) e :
  A ++ B = pre ++ e :: post → changes_route (projT1 e) → Forall (λ e : event NRes, ¬ changes_route (projT1 e)) A → A ⊆ pre.
Proof.
  intros (l & [[-> Hl]|[-> Hl]])%app_eq_app He HA.
  - destruct l as [|e' l]; [rewrite app_nil_r; done|]. injection Hl as <- _.
    apply Forall_app in HA as [_ [? _]%Forall_cons]. done.
  - intros x Hx. apply elem_of_app. by left.
Qed.

(** An event of a trace by the parts of the trace. *)
Ltac where_in He :=
  repeat match type of He with
  | _ ∈ _ ++ _ => apply elem_of_app in He as [He|He]
  | _ ∈ _ :: _ => apply elem_of_cons in He as [He|He]
  | _ ∈ [] => by apply not_elem_of_nil in He
  end.

Lemma device_trace_configures key t tr i cfg x :
  device_trace key t tr → ev (ConfigureDevice i cfg) x ∈ tr →
  i = WgInterface ∧ cfg = tunnelConfig key t ∧
  ∃ dev, ev (WgDevice WgInterface) (Ok dev) ∈ tr ∧ ¬ carries key t dev.
Proof.
  intros Hd He. destruct Hd as [tr Htr|t0 e t1 H0 H1|t0 dev t1 H0 H1 Hc|t0 dev t1 H0 H1 Hc|t0 dev e t1 H0 H1 Hc];
    where_in He; try (rewrite Forall_forall in H0; by apply H0 in He);
    try (rewrite Forall_forall in H1; by apply H1 in He); try (rewrite Forall_forall in Htr; by apply Htr in He);
    try (apply (f_equal (@projT1 _ _)) in He; by cbn in He).
  all: apply (f_equal (@projT1 _ _)) in He; cbn in He; injection He as -> ->; split_and!; [done..|];
    exists dev; split; [apply elem_of_app; right; left|done].
Qed.

Lemma device_trace_routes key t tr pre e post :
  device_trace key t tr → tr = pre ++ e :: post → changes_route (projT1 e) →
  ∃ dev, ev (WgDevice WgInterface) (Ok dev) ∈ pre ∧
    (carries key t dev ∨ ev (ConfigureDevice WgInterface (tunnelConfig key t)) None ∈ pre).
Proof.
  intros Hd Htr He. assert (e ∈ tr) as Hin by (rewrite Htr; apply elem_of_app; right; left).
  assert (∀ l, Forall (λ e : event NRes, link_op (projT1 e)) l → Forall (λ e : event NRes, ¬ changes_route (projT1 e)) l) as Hlink.
  { intros l Hl. eapply Forall_impl; [exact Hl|]. intros [[] ?]; cbn; tauto. }
  assert (∀ l, Forall (λ e : event NRes, link_op (projT1 e)) l → e ∈ l → False) as Hno.
  { intros l Hl%Hlink. rewrite Forall_forall in Hl. intros Hel. by apply (Hl e Hel). }
  destruct Hd as [tr Hl|t0 e' t1 H0 H1|t0 dev t1 H0 H1 Hc|t0 dev t1 H0 H1 Hc|t0 dev e' t1 H0 H1 Hc].
  - by destruct (Hno tr).
  - where_in Hin; [by destruct (Hno t0)|by subst|by destruct (Hno t1)].
  - assert ((t0 ++ [ev (WgDevice WgInterface) (Ok dev)]) ++ t1 = pre ++ e :: post) as Hb by by rewrite <- app_assoc.
    apply before_route in Hb; [|done|].
    + exists dev. split; [|by left]. apply Hb, elem_of_app. right. left.
    + apply Forall_app. split; [by apply Hlink|]. apply Forall_singleton. tauto.
  - assert ((t0 ++ [ev (WgDevice WgInterface) (Ok dev); ev (ConfigureDevice WgInterface (tunnelConfig key t)) None]) ++ t1 =
      pre ++ e :: post) as Hb by by rewrite <- app_assoc.
    apply before_route in Hb; [|done|].
    + exists dev. split; [|right]; apply Hb, elem_of_app; right; [left|right; left].
    + apply Forall_app. split; [by apply Hlink|]. repeat constructor; tauto.
  - where_in Hin; [by destruct (Hno t0)|by subst|by subst|by destruct (Hno t1)].
Qed.

(** A pass of the client configures wg0 only when the device it read does not carry the
    tunnel, and then with the client's key and the gateway as its only peer; a device that
    reads back what was configured carries the tunnel, so that a live session is not
    reset by the next pass. No route is changed before the device is read and found
    to carry the tunnel or configured to. *)
Lemma Apply_device key t tr r :
  exec (Apply key t) tr r →
  (∀ i cfg x, ev (ConfigureDevice i cfg) x ∈ tr →
     i = WgInterface ∧ cfg = tunnelConfig key t ∧
     ∃ dev, ev (WgDevice WgInterface) (Ok dev) ∈ tr ∧ ¬ carries key t dev) ∧
  (∀ dev, Unmap (ap_addr (tn_Endpoint t)) = ap_addr (tn_Endpoint t) → reads_back (tunnelConfig key t) dev →
     carries key t dev) ∧
  (∀ pre e post, tr = pre ++ e :: post → changes_route (projT1 e) →
     ∃ dev, ev (WgDevice WgInterface) (Ok dev) ∈ pre ∧
       (carries key t dev ∨ ev (ConfigureDevice WgInterface (tunnelConfig key t)) None ∈ pre)).
Proof.
  intros Hd%Apply_trace. split_and!.
  - intros i cfg x. by apply device_trace_configures.
  - intros dev. apply reads_back_carries.
  - intros pre e post. by apply device_trace_routes.
Qed.
End apply.

Module RefApply.
#[export] Existing Instances Reference.wgtypes.

Definition tunnel : Tunnel :=
  {| tn_Address := prefix4 168296450 32; tn_ServerKey := RefNode.key RefCluster.keyS;
     tn_Endpoint := mkAddrPort (addr4 3405803777) 51820; tn_LocalCIDRs := RefRoutes.cidrs |}.

Definition applied := run (RefRoutes.netns true) (Apply (RefNode.key RefCluster.keyB) tunnel) RefRoutes.table.

Lemma applied_exec : exec (Apply (RefNode.key RefCluster.keyB) tunnel) applied.1.1 applied.1.2.
Proof. apply run_is_exec. Qed.

Lemma configures : ∃ i cfg x, existT (ConfigureDevice i cfg) x ∈ applied.1.1.
Proof.
  assert (∃ e : event NRes, e ∈ applied.1.1 ∧
    match e with existT (ConfigureDevice _ _) _ => true | _ => false end = true) as ([[] x] & He & Hc); [|try done..].
  - apply Exists_exists. by_evaluation.
  - by eexists _, _, _.
Qed.
End RefApply.

#[local] Existing Instances Reference.wgtypes.

Lemma Apply_device_witness :
  ∃ dev x, ¬ carries (RefNode.key RefCluster.keyB) RefApply.tunnel dev ∧
    existT (ConfigureDevice WgInterface (tunnelConfig (RefNode.key RefCluster.keyB) RefApply.tunnel)) x ∈ RefApply.applied.1.1.
Proof.
  destruct RefApply.configures as (i & cfg & x & He).
  destruct (Apply_device _ _ _ _ RefApply.applied_exec) as [Hc _].
  destruct (Hc i cfg x He) as (Hi & Hcfg & dev & _ & Hn). subst i cfg. exists dev, x. exact (conj Hn He).
Defined.
