(* ===== verification/ClientFacts.v ===== *)
(** * The client sidecar as a whole ([runClient], [Run], [loop], [step], [Check])

    Nothing of the pod's network is changed but by a pass for a peer that is the pod's own,
    from its status and the client's key, and never in the network of the node; and
    what the startup check accepts. *)

From S2P Require Import Prelude GoStd GoFlag Netip Effects Api External Resources ReferenceCluster Node WgServer WgServerFacts SidecarPeer SidecarTunnel Sidecar SidecarPeerFacts RoutesFacts SidecarFacts.

#[local] Open Scope prog_scope.

Section client.
Context `{WgTypes, MetaLib, ConditionLib}.
#[local] Abbreviation ev := (@existT NOp NRes).

(** An operation that changes the network of the pod. *)
Definition alters (o : NOp) : bool :=
  match o with
  | LinkAdd _ _ _ | LinkSetMTU _ _ | LinkSetUp _ | AddrDel _ _ | AddrAdd _ _ | RouteAdd _ | RouteReplace _
  | RouteDel _ | RuleDel _ | RuleAdd _ | ConfigureDevice _ _ | StartProcess _ _ | RunCommand _ _ => true
  | _ => false
  end.

Definition inert (o : NOp) : Prop := alters o = false.

(** What changes something comes after an inert part that succeeds. *)
Lemma bindE_alters {A B} (p : prog NRes (result A)) (k : A → prog NRes (result B)) tr r e :
  emits inert p → exec (bindE p k) tr r → e ∈ tr → alters (projT1 e) = true →
  ∃ a t1 t2, tr = t1 ++ t2 ∧ exec p t1 (Ok a) ∧ exec (k a) t2 r ∧ e ∈ t2.
Proof.
  intros Hp Hex He Ha. apply exec_bind in Hex as (a & t1 & t2 & -> & Hpa & Hex).
  apply elem_of_app in He as [He|He].
  { pose proof (Hp _ _ Hpa) as Hq. rewrite Forall_forall in Hq. by destruct (eq_true_false_abs _ Ha (Hq e He)). }
  destruct a as [a|err]; [|destruct Hex as [-> _]; by apply not_elem_of_nil in He]. eauto 10.
Qed.

Lemma emits_LoadOrCreateKey path : emits inert (LoadOrCreateKey path).
Proof. unfold LoadOrCreateKey, createKey. quietly. Qed.

Lemma emits_startWatch cfg : emits inert (startWatch cfg).
Proof. unfold startWatch, check_wrapped. quietly. Qed.

Lemma emits_ensurePeer cfg pk : emits inert (ensurePeer cfg pk).
Proof. unfold ensurePeer, createPeer. quietly. Qed.

Lemma emits_Check iface : emits inert (Check iface).
Proof. unfold Check, withClient, wrapped, routesVia. quietly. Qed.

(** The key the client has, by what it read or stored. *)
Definition holds_key (tr : list (event NRes)) (key : Key) : Prop :=
  (∃ text, ev (ReadFile DefaultKeyPath) (Ok text) ∈ tr ∧ ParseKey (TrimSpace text) = Ok key) ∨
  (ev GenerateKey (Ok key) ∈ tr ∧ ev (OpenExclusive DefaultKeyPath) None ∈ tr ∧
   ev (WriteString (Key_String key)) None ∈ tr).

Lemma holds_key_incl tr tr' key : tr ⊆ tr' → holds_key tr key → holds_key tr' key.
Proof. intros Hsub [(text & ? & ?)|(? & ? & ?)]; [left; exists text|right]; auto. Qed.

Lemma LoadOrCreateKey_holds tr key : exec (LoadOrCreateKey DefaultKeyPath) tr (Ok key) → holds_key tr key.
Proof.
  unfold LoadOrCreateKey, createKey. intros Hex. inv_exec. destruct a as [text|e].
  - destruct (ParseKey _) as [k|] eqn:Hk; inv_exec. left. exists text. split; [left|done].
  - destruct (negb _); inv_exec. destruct a as [k|]; inv_exec. destruct a as [?|]; inv_exec.
    right. destruct a as [?|], a0 as [?|]; [by destruct Hex..|]. destruct Hex as [-> [= ->]].
    split_and!; set_solver.
Qed.

(** The pass an event of the loop belongs to. *)
Lemma loop_passes cfg key passes tr l e :
  exec (loop cfg key passes) tr l → e ∈ tr → ∃ t r, t ⊆ tr ∧ exec (step cfg key) t r ∧ e ∈ t.
Proof.
  revert tr l. induction passes as [|w passes IH]; intros tr l Hex He; [destruct Hex as [-> _]; by apply not_elem_of_nil in He|].
  apply exec_bind in Hex as (r & t1 & t2 & -> & Hs & Hex). apply exec_bind in Hex as (l' & t3 & t4 & -> & Hl & [-> _]).
  rewrite app_nil_r in *. apply elem_of_app in He as [He|He]; [exists t1, r; set_solver|].
  destruct (IH _ _ Hl He) as (t & r' & Ht & ? & ?). exists t, r'. set_solver.
Qed.

(** A pass that changes something is one for the pod's own peer. *)
Lemma step_alters cfg key tr r e :
  exec (step cfg key) tr r → e ∈ tr → alters (projT1 e) = true →
  ∃ peer t t1 t2, tr = t1 ++ t2 ∧ ev (GetPeer (podKey cfg)) (Ok peer) ∈ t1 ∧
    owned cfg (Key_String (Key_PublicKey key)) peer ∧ desiredTunnel peer = Ok t ∧ exec (Apply key t) t2 r ∧ e ∈ t2.
Proof.
  intros Hex He Ha.
  destruct (bindE_alters _ _ _ _ _ (emits_ensurePeer _ _) Hex He Ha) as ([peer|] & t1 & t2 & -> & Hp & Hex' & He');
    [|destruct Hex' as [-> _]; by apply not_elem_of_nil in He'].
  destruct (desiredTunnel peer) as [t|err] eqn:Ht; [|destruct Hex' as [-> _]; by apply not_elem_of_nil in He'].
  apply ensurePeer_paths in Hp. inversion Hp; subst; try (by exfalso; eapply created_None).
  exists peer, t. eexists _, t2. split_and!; [done|by left|done..].
Qed.

(** The passes of a run of the client. *)
Lemma Run_alters cfg passes tr r e :
  cf_KeyPath cfg = DefaultKeyPath → exec (Run cfg passes) tr r → e ∈ tr → alters (projT1 e) = true →
  ∃ key t r', holds_key tr key ∧ t ⊆ tr ∧ exec (step cfg key) t r' ∧ e ∈ t.
Proof.
  intros Hpath Hex He Ha. unfold Run in Hex. rewrite Hpath in Hex.
  destruct (bindE_alters _ _ _ _ _ (emits_wrapped _ _ _ (emits_LoadOrCreateKey _)) Hex He Ha)
    as (key & t1 & tr1 & -> & Hk & Hex1 & He1).
  apply exec_wrapped in Hk as ([k|] & Hk & [= ->]). apply LoadOrCreateKey_holds in Hk.
  eapply bindE_alters in Hex1 as (? & ? & ? & -> & _ & Hex2 & He2); [|quietly|exact He1|exact Ha].
  eapply bindE_alters in Hex2 as (? & ? & ? & -> & _ & Hex3 & He3); [|quietly|exact He2|exact Ha].
  eapply bindE_alters in Hex3 as (? & ? & ? & -> & _ & Hex4 & He4); [|quietly|exact He3|exact Ha].
  eapply bindE_alters in Hex4 as (synced & ? & ? & -> & _ & Hex5 & Hin);
    [|apply emits_wrapped, emits_startWatch|exact He4|exact Ha].
  destruct synced; [|destruct Hex5 as [-> _]; by apply not_elem_of_nil in Hin].
  apply exec_bind in Hex5 as (l & t2 & ? & -> & Hl & [-> _]). rewrite app_nil_r in *.
  destruct (loop_passes _ _ _ _ _ _ Hl Hin) as (t & r' & Ht & Hs & Het). exists k, t, r'.
  split_and!; [| |done|done].
  - eapply holds_key_incl; [|exact Hk]. by apply list_subseteq_app_l.
  - etrans; [exact Ht|]. by do 5 apply list_subseteq_app_r.
Qed.

Lemma ConfigFromEnv_guards w path getenv cfg :
  ConfigFromEnv w path getenv = Ok cfg → cf_KeyPath cfg = path ∧ getenv "POD_IP" ≠ getenv "HOST_IP".
Proof.
  unfold ConfigFromEnv. case_decide; [done|]. destruct (parseWireguard w) as [[n ns]|]; [|done].
  case_decide; [done|]. case_decide; [done|]. by intros [= <-].
Qed.

(** C8: The client changes the network only of a pod with a network of its own, and only
    for a peer that is its own. When any run of [agent client] changes a link, an
    address, a route or the device, then POD_IP is not HOST_IP, the run is not the startup
    check, its key is the one it read from the key file or stored there, and the change is
    part of applying the tunnel of a WireguardPeer the run read under the pod's name,
    which this pod controls and which carries the key's public key; the device is given
    nothing but that key and that tunnel. *)
Theorem client_changes_own_network args getenv passes tr code e :
  exec (runClient args getenv passes) tr code → e ∈ tr → alters (projT1 e) = true →
  ∃ w cfg key peer t,
    clientFlags args = Some (w, false) ∧ ConfigFromEnv w DefaultKeyPath getenv = Ok cfg ∧ getenv "POD_IP" ≠ getenv "HOST_IP" ∧
    holds_key tr key ∧ ev (GetPeer (podKey cfg)) (Ok peer) ∈ tr ∧
    owned cfg (Key_String (Key_PublicKey key)) peer ∧ desiredTunnel peer = Ok t ∧
    (∃ t' r', t' ⊆ tr ∧ exec (Apply key t) t' r' ∧ e ∈ t') ∧
    ∀ i c, projT1 e = ConfigureDevice i c → i = WgInterface ∧ c = tunnelConfig key t.
Proof.
  intros Hex He Ha. unfold runClient in Hex. destruct (clientFlags args) as [[w [|]]|].
  - apply exec_bind in Hex as (r & t1 & t2 & -> & Hc & Hex). exfalso.
    assert (t2 = []) as -> by (destruct r; by destruct Hex). rewrite app_nil_r in He.
    apply emits_Check in Hc. rewrite Forall_forall in Hc. by destruct (eq_true_false_abs _ Ha (Hc e He)).
  - destruct (ConfigFromEnv w DefaultKeyPath getenv) as [cfg|] eqn:Hcfg; [|destruct Hex as [-> _]; by apply not_elem_of_nil in He].
    destruct (ConfigFromEnv_guards _ _ _ _ Hcfg) as [Hpath Hip].
    apply exec_bind in Hex as (r & t1 & t2 & -> & Hr & Hex).
    assert (t2 = []) as -> by (destruct r; by destruct Hex). rewrite app_nil_r in *.
    destruct (Run_alters _ _ _ _ _ Hpath Hr He Ha) as (key & t0 & r' & Hk & Ht & Hs & He').
    destruct (step_alters _ _ _ _ _ Hs He' Ha) as (peer & t & t3 & t4 & -> & Hp & Ho & Hd & Hap & He4).
    exists w, cfg, key, peer, t. split_and!; try done.
    { apply Ht, elem_of_app. by left. }
    { exists t4, r'. split_and!; [|done..]. etrans; [|exact Ht]. by apply list_subseteq_app_r. }
    intros i c Hop. destruct e as [o x]. cbn in Hop. subst o.
    by destruct (device_trace_configures _ _ _ _ _ _ (Apply_trace _ _ _ _ Hap) He4) as (? & ? & _).
  - destruct Hex as [-> _]. by apply not_elem_of_nil in He.
Qed.

Lemma withClient_Ok body tr :
  exec (withClient body) tr (Ok ()) ↔ ∃ tb, tr = ev WgNew None :: tb ++ [ev WgClose None] ∧ exec body tb (Ok ()).
Proof.
  unfold withClient. split.
  - intros Hex. inv_exec. destruct a as [e|]; inv_exec. destruct a0 as [e|]; inv_exec. by eexists.
  - intros (tb & -> & Hb). eexists _, _. split; [done|]. cbn. apply exec_bind. exists (Ok ()), tb, [ev WgClose None].
    split_and!; [done|done|]. by eexists _, _.
Qed.

Lemma checkDevice_None dev now :
  checkDevice dev now = None ↔
  ∃ p, dev_Peers dev = [p] ∧ wgp_LastHandshakeTime p ≠ 0 ∧ now - wgp_LastHandshakeTime p < handshakeMaxAge.
Proof.
  unfold checkDevice. split.
  - destruct (dev_Peers dev) as [|p [|]]; [done| |done]. destruct (Z.eqb_spec (wgp_LastHandshakeTime p) 0); [done|].
    cbv zeta. destruct (Z.leb_spec handshakeMaxAge (now - wgp_LastHandshakeTime p)); [done|]. by exists p.
  - intros (p & -> & Hz & Ha). rewrite (proj2 (Z.eqb_neq _ _) Hz). cbv zeta.
    by rewrite (proj2 (Z.leb_gt _ _) Ha).
Qed.

(** The startup check, [agent client --check], succeeds, with exit code 0, exactly when the device has one peer,
    with a handshake less than 180 s old, and the kernel's route to the internet
    address leaves through the device's link; and it only reads. *)
Lemma check_accepts getenv passes tr :
  exec (runClient ["--check"] getenv passes) tr 0 ↔
  ∃ dev p now link r rest,
    dev_Peers dev = [p] ∧ wgp_LastHandshakeTime p ≠ 0 ∧ now - wgp_LastHandshakeTime p < handshakeMaxAge ∧
    r_LinkIndex r = l_Index link ∧
    tr = [ev WgNew None; ev (WgDevice WgInterface) (Ok dev); ev TimeNow now; ev (LinkByName WgInterface) (Ok link);
          ev (RouteGet probeAddress4) (Ok (r :: rest)); ev WgClose None].
Proof.
  change (runClient ["--check"] getenv passes) with
    (r <- Check WgInterface ;; match r with Err _ => Ret 1 | Ok _ => Ret 0 end : prog NRes Z). split.
  - intros (c & t1 & t2 & -> & Hex & Hc)%exec_bind. destruct c as [[]|e]; destruct Hc as [-> Hc]; [clear Hc|done].
    rewrite app_nil_r. apply withClient_Ok in Hex as (tb & -> & Hex).
    apply exec_bindE_Ok in Hex as (dev & ? & ? & -> & Hd & Hex).
    apply exec_wrapped in Hd as ([d|] & (? & ? & -> & -> & <-) & [= ->]).
    apply exec_bind in Hex as (now & ? & ? & -> & (? & ? & -> & -> & <-) & Hex).
    destruct (checkDevice d now) eqn:Hc; [by destruct Hex|]. apply checkDevice_None in Hc as (p & Hp & Hz & Ha).
    apply exec_bindE_Ok in Hex as (link & ? & ? & -> & Hl & Hex).
    apply exec_wrapped in Hl as ([l|] & (? & ? & -> & -> & <-) & [= ->]).
    apply exec_bindE_Ok in Hex as (via & ? & ? & -> & Hv & Hex). unfold routesVia in Hv. inv_exec.
    destruct a as [[|r rest]|]; inv_exec.
    destruct (Z.eqb_spec (r_LinkIndex r) (l_Index l)); [|by destruct Hex]. destruct Hex as [-> _].
    exists d, p, now, l, r, rest. by split_and!.
  - intros (dev & p & now & link & r & rest & Hp & Hz & Ha & Hr & ->). apply exec_bind. exists (Ok ()). eexists _, [].
    split_and!; [by rewrite app_nil_r| |done]. apply withClient_Ok. eexists [_; _; _; _]. split; [done|].
    assert (checkDevice dev now = None) as Hc by (apply checkDevice_None; eauto).
    do 2 (eexists _, _; split; [done|]). cbn. rewrite Hc. do 2 (eexists _, _; split; [done|]). cbn.
    by rewrite Hr, Z.eqb_refl.
Qed.
End client.

Module RefSidecar.
#[export] Existing Instances Reference.wgtypes Reference.metalib Reference.conditions.

(** The pod's peer once the operator has published the gateway. *)
Definition published : WireguardPeer :=
  {| wp_meta := wp_meta (desiredPeer RefClient.cfg RefCluster.keyB);
     wp_Spec := wp_Spec (desiredPeer RefClient.cfg RefCluster.keyB);
     wp_Status := {| ps_Status := "ready"; ps_Message := ""; ps_Address := "10.8.0.2"; ps_Endpoint := "10.96.0.10:51820";
                     ps_ServerPublicKey := RefCluster.keyS; ps_LocalCIDRs := ["10.96.0.0/12"; "10.244.0.0/16"];
                     ps_Conditions := [] |} |}.

(** A pod that is restarted: it has its key file and its peer. *)
Definition pod : handler NRes (list route) :=
  λ o T, match o with
         | ReadFile _ => (Ok RefCluster.keyB, T)
         | GetPeer _ => (Ok published, T)
         | o => RefRoutes.netns true o T
         end.

Definition env (n : string) : string :=
  if decide (n = "POD_NAME") then "app" else if decide (n = "POD_NAMESPACE") then "apps"
  else if decide (n = "POD_UID") then "pod-uid" else if decide (n = "POD_IP") then "10.244.0.7"
  else if decide (n = "HOST_IP") then "192.168.0.1" else "".

Definition ran := run pod (runClient ["--wireguard"; "vpn/gw"] env [Start; Kick]) RefRoutes.table.

Lemma ran_exec : exec (runClient ["--wireguard"; "vpn/gw"] env [Start; Kick]) ran.1.1 ran.1.2.
Proof. apply run_is_exec. Qed.

Lemma configures_device : ∃ i c x, existT (ConfigureDevice i c) x ∈ ran.1.1.
Proof.
  assert (∃ e : event NRes, e ∈ ran.1.1 ∧
    match e with existT (ConfigureDevice _ _) _ => true | _ => false end = true) as ([[] x] & He & Hc); [|try done..].
  - apply Exists_exists. by_evaluation.
  - by eexists _, _, _.
Qed.
End RefSidecar.

#[local] Existing Instances Reference.wgtypes Reference.metalib Reference.conditions.

Lemma client_changes_own_network_witness :
  ∃ cfg key peer t x, ConfigFromEnv "vpn/gw" DefaultKeyPath RefSidecar.env = Ok cfg ∧
    owned cfg (Key_String (Key_PublicKey key)) peer ∧ desiredTunnel peer = Ok t ∧
    existT (ConfigureDevice WgInterface (tunnelConfig key t)) x ∈ RefSidecar.ran.1.1.
Proof.
  destruct RefSidecar.configures_device as (i & c & x & He).
  destruct (client_changes_own_network _ _ _ _ _ _ RefSidecar.ran_exec He eq_refl)
    as (w & cfg & key & peer & t & Hw & Hcfg & _ & _ & _ & Ho & Ht & _ & Hc).
  destruct (Hc i c eq_refl). assert (w = "vpn/gw") as -> by (vm_compute in Hw; congruence). subst i c. exists cfg, key, peer, t, x.
  exact (conj Hcfg (conj Ho (conj Ht He))).
Defined.
