(* ===== verification/Rbac.v ===== *)
(** * The client role binding ([internal/controller/injection_rbac.go])

    The reconciler that binds the client ClusterRole in the namespaces with injected pods,
    and what it does to the binding. *)

From S2P Require Import Prelude GoStd Effects Api Resources Gateway Controller.

#[local] Open Scope prog_scope.

Definition excludedNamespace : string := "kube-system".

(** [rbacv1.RoleBinding]; the API group of the role and of the subjects is the RBAC one. *)
Record RoleRef := { rr_Kind : string; rr_Name : string }.
Record Subject := { su_Kind : string; su_Name : string }.
Record RoleBinding := { rb_meta : ObjectMeta; rb_RoleRef : RoleRef; rb_Subjects : list Subject }.

#[export] Instance RoleRef_eq_dec : EqDecision RoleRef.
Proof. solve_decision. Defined.
#[export] Instance Subject_eq_dec : EqDecision Subject.
Proof. solve_decision. Defined.
#[export] Instance RoleBinding_eq_dec : EqDecision RoleBinding.
Proof. solve_decision. Defined.

(** [needsClientRoleBinding] *)
Definition needsClientRoleBinding (ns : string) (pods : list Pod) : bool :=
  negb (bool_decide (ns = excludedNamespace)) &&
  existsb (λ p, negb (bool_decide (is_Some (Labels (pod_meta p) !! LabelComponent)))) pods.

(** [roleBindingAction] *)
Inductive roleBindingAction := actionNone | actionApply | actionDelete | actionRefuse.

(** Whether [existing] carries the operator's label. *)
Definition ours (existing : option RoleBinding) : bool :=
  match existing with
  | Some rb => bool_decide (Labels (rb_meta rb) !! LabelManagedBy = Some ManagedByValue)
  | None => false
  end.

Definition absent (existing : option RoleBinding) : bool := match existing with None => true | Some _ => false end.

(** [clientRoleBindingAction] *)
Definition clientRoleBindingAction (needed : bool) (existing : option RoleBinding) : roleBindingAction :=
  if needed && (absent existing || ours existing) then actionApply
  else if needed then actionRefuse
  else if ours existing then actionDelete
  else actionNone.

(** [desiredClientRoleBinding] *)
Definition desiredClientRoleBinding (ns : string) : RoleBinding := {|
  rb_meta := {| Name := ClientRoleName; Namespace := ns; UID := ""; ResourceVersion := ""; Generation := 0;
                CreationTimestamp := 0; Labels := {[LabelManagedBy := ManagedByValue]}; Annotations := ∅;
                OwnerReferences := [] |};
  rb_RoleRef := {| rr_Kind := "ClusterRole"; rr_Name := ClientRoleName |};
  rb_Subjects := [{| su_Kind := "Group"; su_Name := "system:serviceaccounts:" +:+ ns |}];
|}.

Inductive ROp : Type :=
  | ListLabelledPods (namespace : string) (labels : gmap string string)
  | GetRoleBinding (k : NamespacedName)
  | ConvertRoleBinding (rb : RoleBinding)  (* to unstructured form *)
  | ApplyRoleBinding (rb : RoleBinding) (fieldOwner : string) (force : bool)
  | DeleteRoleBinding (rb : RoleBinding) (uid : string)
  | LogRefusal (namespace : string).

Definition RRes (o : ROp) : Type :=
  match o with
  | ListLabelledPods _ _ => result (list Pod)
  | GetRoleBinding _ => result RoleBinding
  | LogRefusal _ => unit
  | _ => option error
  end.

#[local] Abbreviation R := (prog RRes).

(** [applyForced] of a RoleBinding *)
Definition applyForcedRoleBinding (rb : RoleBinding) : R (result unit) :=
  a <- perform (ApplyRoleBinding rb FieldManager true) ;;
  match a with
  | Some e => Ret (Err (wrapf ("apply RoleBinding " +:+ Namespace (rb_meta rb) +:+ "/" +:+ Name (rb_meta rb) +:+ ": ") e))
  | None => Ret (Ok ())
  end.

(** What [Reconcile] does of its action. [refused] are the namespaces whose refusal is
    logged already. *)
Definition act (ns : string) (refused : gset string) (needed : bool) (existing : option RoleBinding)
    : R (result unit * gset string) :=
  let action := clientRoleBindingAction needed existing in
  let refused := match action with actionRefuse => refused | _ => refused ∖ {[ns]} end in
  match action, existing with
  | actionApply, _ =>
      c <- perform (ConvertRoleBinding (desiredClientRoleBinding ns)) ;;
      match c with
      | Some e => Ret (Err (wrapf "convert RoleBinding: " e), refused)
      | None => r <- applyForcedRoleBinding (desiredClientRoleBinding ns) ;; Ret (r, refused)
      end
  | actionDelete, Some rb =>
      d <- perform (DeleteRoleBinding rb (UID (rb_meta rb))) ;;
      match d with
      | Some e =>
          if errors_Is e NotFound then Ret (Ok (), refused)
          else Ret (Err (wrapf ("delete RoleBinding " +:+ ns +:+ "/" +:+ ClientRoleName +:+ ": ") e), refused)
      | None => Ret (Ok (), refused)
      end
  | actionRefuse, _ =>
      if decide (ns ∈ refused) then Ret (Ok (), refused)
      else _ <- perform (LogRefusal ns) ;; Ret (Ok (), refused ∪ {[ns]})
  | _, _ => Ret (Ok (), refused)
  end.

(** [ClientRoleBindingReconciler.Reconcile] of the namespace [ns] *)
Definition Reconcile (ns : string) (refused : gset string) : R (result unit * gset string) :=
  l <- perform (ListLabelledPods ns {[LabelEnabled := "true"]}) ;;
  match l with
  | Err e => Ret (Err (wrapf ("list labelled pods in " +:+ ns +:+ ": ") e), refused)
  | Ok pods =>
      g <- perform (GetRoleBinding (NN ns ClientRoleName)) ;;
      match g with
      | Ok found => act ns refused (needsClientRoleBinding ns pods) (Some found)
      | Err e =>
          if errors_Is e NotFound then act ns refused (needsClientRoleBinding ns pods) None
          else Ret (Err (wrapf ("get RoleBinding " +:+ ns +:+ "/" +:+ ClientRoleName +:+ ": ") e), refused)
      end
  end.

(** ** Correctness *)

#[local] Abbreviation ev := (@existT ROp RRes).

(** The RoleBinding of the client's name in [ns], as the server keeps it: an apply leaves the
    role and the subjects applied, and keeps the labels applied. *)
Class BindingStore := {
  applied : option RoleBinding → RoleBinding → RoleBinding;
  applied_role : ∀ s rb, rb_RoleRef (applied s rb) = rb_RoleRef rb;
  applied_subjects : ∀ s rb, rb_Subjects (applied s rb) = rb_Subjects rb;
  applied_labels : ∀ s rb, Labels (rb_meta rb) ⊆ Labels (rb_meta (applied s rb));
}.

Section facts.
Context `{BindingStore}.

Definition binding_step (s : option RoleBinding) (e : event RRes) : option (option RoleBinding) :=
  match e with
  | existT (GetRoleBinding _) (Ok rb) => if decide (s = Some rb) then Some s else None
  | existT (GetRoleBinding _) (Err e) =>
      if errors_Is e NotFound then if decide (s = None) then Some s else None else Some s
  | existT (ApplyRoleBinding rb _ _) None => Some (Some (applied s rb))
  | existT (DeleteRoleBinding _ uid) None => if decide (UID ∘ rb_meta <$> s = Some uid) then Some None else None
  | existT (DeleteRoleBinding _ _) (Some e) =>
      if errors_Is e NotFound then if decide (s = None) then Some s else None else Some s
  | _ => Some s
  end.

(** The client ClusterRole, for the ServiceAccounts of [ns] and of no other namespace. *)
Definition grants (ns : string) (rb : RoleBinding) : Prop :=
  rb_RoleRef rb = {| rr_Kind := "ClusterRole"; rr_Name := ClientRoleName |} ∧
  rb_Subjects rb = [{| su_Kind := "Group"; su_Name := "system:serviceaccounts:" +:+ ns |}] ∧
  ours (Some rb) = true.

(** What the store holds after a pass that returns without error. *)
Definition bound (ns : string) (needed : bool) (s s' : option RoleBinding) : Prop :=
  if absent s || ours s
  then if needed then ∃ rb, s' = Some rb ∧ grants ns rb else s' = None
  else s' = s.

Lemma applied_grants ns s : grants ns (applied s (desiredClientRoleBinding ns)).
Proof.
  split_and!; [apply applied_role|apply applied_subjects|]. apply bool_decide_eq_true.
  eapply lookup_weaken; [|apply applied_labels]. apply lookup_singleton_eq.
Qed.

(** An injected pod: one that is not an operator component, outside the excluded namespace. *)
Lemma needsClientRoleBinding_spec ns pods :
  needsClientRoleBinding ns pods = true ↔
  ns ≠ excludedNamespace ∧ ∃ p, p ∈ pods ∧ Labels (pod_meta p) !! LabelComponent = None.
Proof.
  unfold needsClientRoleBinding. rewrite andb_true_iff, negb_true_iff, bool_decide_eq_false, existsb_exists.
  setoid_rewrite list_elem_of_In. setoid_rewrite negb_true_iff. setoid_rewrite bool_decide_eq_false.
  by setoid_rewrite <- eq_None_not_Some.
Qed.

(** The namespaces the operator declines to bind in. *)
Definition refuses (needed : bool) (s : option RoleBinding) : bool :=
  needed && negb (absent s) && negb (ours s).

Lemma applyForced_exec rb tr r :
  exec (applyForcedRoleBinding rb) tr r →
  ∃ x, tr = [ev (ApplyRoleBinding rb FieldManager true) x] ∧ (r = Ok () ↔ x = None).
Proof.
  unfold applyForcedRoleBinding. intros Hex. inv_exec. exists a. destruct a as [e|]; inv_exec; by split.
Qed.

Definition no_log (o : ROp) : Prop := match o with LogRefusal _ => False | _ => True end.

Lemma unlogged ns tr : Forall (λ e : event RRes, no_log (projT1 e)) tr → ev (LogRefusal ns) () ∉ tr.
Proof. rewrite Forall_forall. intros Hall Hin. by apply (Hall _ Hin). Qed.

(** A pass that binds or unbinds takes [ns] out of the refused. *)
Lemma settles ns (refused : gset string) (A P Q : Prop) tr :
  Forall (λ e : event RRes, no_log (projT1 e)) tr → (A → P) → Q →
  (A → P ∧ (ns ∈ refused ∖ {[ns]} ↔ false = true)) ∧ Q ∧
  (ev (LogRefusal ns) () ∈ tr → (ns ∉ refused) ∧ ns ∈ refused ∖ {[ns]}) ∧
  (∀ ns', ns' ≠ ns → ns' ∈ refused ∖ {[ns]} ↔ ns' ∈ refused).
Proof. intros Htr%(unlogged ns) HP HQ. split_and!; [set_solver|done|done|set_solver]. Qed.

Lemma bind_exec ns (refused : gset string) tr r refused' :
  exec (c <- perform (ConvertRoleBinding (desiredClientRoleBinding ns)) ;;
        match c with
        | Some e => Ret (Err (wrapf "convert RoleBinding: " e), refused)
        | None => r <- applyForcedRoleBinding (desiredClientRoleBinding ns) ;; Ret (r, refused)
        end) tr (r, refused') →
  refused' = refused ∧ Forall (λ e : event RRes, no_log (projT1 e)) tr ∧
  (r = Ok () → tr = [ev (ConvertRoleBinding (desiredClientRoleBinding ns)) None;
                     ev (ApplyRoleBinding (desiredClientRoleBinding ns) FieldManager true) None]).
Proof.
  intros Hex. inv_exec. destruct a as [e|]; inv_exec; [split_and!; [done|by repeat constructor|done]|].
  match goal with H' : exec (applyForcedRoleBinding _) _ _ |- _ => apply applyForced_exec in H' as (x & -> & Hx) end.
  split_and!; [done|by repeat constructor|]. intros ->. by rewrite (proj1 Hx).
Qed.

Lemma act_paths ns refused needed s tr r refused' s' :
  exec (act ns refused needed s) tr (r, refused') → replay binding_step s tr = Some s' →
  (r = Ok () → bound ns needed s s' ∧ (ns ∈ refused' ↔ refuses needed s = true)) ∧
  (s ≠ None → ours s = false → s' = s) ∧
  (ev (LogRefusal ns) () ∈ tr → (ns ∉ refused) ∧ ns ∈ refused') ∧
  (∀ ns', ns' ≠ ns → ns' ∈ refused' ↔ ns' ∈ refused).
Proof.
  unfold act, clientRoleBindingAction, bound, refuses. intros Hex Hs.
  destruct needed, s as [rb|]; [destruct (ours (Some rb)) eqn:Ho| |destruct (ours (Some rb)) eqn:Ho|];
    cbn [orb andb negb absent ours] in *.
  - apply bind_exec in Hex as (-> & Hl & Hr). apply settles; [done| |done]. intros ->. rewrite Hr in Hs by done.
    injection Hs as <-. eexists. split; [done|apply applied_grants].
  - case_decide; inv_exec; injection Hs as <-; (split_and!; [intros _; split; [done|set_solver]|done| |set_solver]).
    + intros Hin. by apply not_elem_of_nil in Hin.
    + intros _. split; [done|set_solver].
  - apply bind_exec in Hex as (-> & Hl & Hr). apply settles; [done| |done]. intros ->. rewrite Hr in Hs by done.
    injection Hs as <-. eexists. split; [done|apply applied_grants].
  - inv_exec. cbn [app] in Hs. rewrite replay_cons in Hs. cbn [binding_step] in Hs.
    destruct a as [e|]; [destruct (errors_Is e NotFound) eqn:He|]; inv_exec; rewrite ?He in Hs;
      (apply settles; [by repeat constructor| |done]); intros Hr; try done.
    rewrite decide_True in Hs by done. by injection Hs.
  - inv_exec. injection Hs as <-. by apply settles.
  - inv_exec. injection Hs as <-. by apply settles.
Qed.

End facts.

(** ** A cluster *)

Module RefRbac.
#[export] Instance bindings : BindingStore.
Proof. by refine {| applied _ rb := rb |}. Defined.

Definition pod : Pod :=
  {| pod_meta := {| Name := "app"; Namespace := "apps"; UID := "u"; ResourceVersion := "1"; Generation := 1;
                    CreationTimestamp := 0; Labels := {[LabelEnabled := "true"]}; Annotations := ∅; OwnerReferences := [] |} |}.

(** The namespace with one labelled pod and no binding. *)
Definition server : handler RRes () :=
  λ o s, (match o return RRes o with
          | ListLabelledPods _ _ => Ok [pod]
          | GetRoleBinding _ => Err (MkError "not found" [NotFound])
          | LogRefusal _ => ()
          | _ => None
          end, s).

Definition passed := run server (Reconcile "apps" ∅) ().
End RefRbac.

#[local] Existing Instances RefRbac.bindings.

