(* ===== verification/Injection.v ===== *)
(** * The injection policies ([internal/controller/injection.go], [operatorNamespace] of
    [cmd/manager/main.go])

    The admission policy that inserts the client into labelled pods, rendered for the
    default gateway, and the reconciler that keeps it. *)

From S2P Require Import Prelude GoStd Effects Api Resources Gateway Controller Rbac.

#[local] Open Scope prog_scope.

(** ** The operator's namespace *)

(** [operatorNamespace] of [cmd/manager/main.go] *)
Definition operatorNamespace (getenv : string → string) : result string :=
  let ns := getenv "POD_NAMESPACE" in
  if decide (ns = "") then
    Err (errors_New "POD_NAMESPACE is required: the operator selects the default gateway from its own namespace")
  else Ok ns.

(** ** The default gateway *)

Definition injectPolicyName : string := "tunnel-operator-inject".
Definition admissionGroup : string := "admissionregistration.k8s.io".
Definition inClusterConfigDir : string := "/var/run/secrets/kubernetes.io/serviceaccount".

(** The names [defaultGateway] collects. *)
Definition isDefaultGateway (operatorNS : string) (wg : Wireguard) : Prop :=
  default "" (Annotations (wg_meta wg) !! AnnotationDefault) = "true" ∧ Namespace (wg_meta wg) = operatorNS.

#[export] Instance isDefaultGateway_dec operatorNS wg : Decision (isDefaultGateway operatorNS wg).
Proof. unfold isDefaultGateway. apply _. Defined.

(** [defaultGateway] *)
Definition defaultGateway (list : list Wireguard) (operatorNS : string) : result NamespacedName :=
  let defaults := (λ wg, Name (wg_meta wg)) <$> filter (isDefaultGateway operatorNS) list in
  match defaults with
  | [] => Err (errors_New ("no Wireguard in namespace " +:+ operatorNS +:+ " is annotated " +:+ AnnotationDefault +:+ "=true"))
  | [name] => Ok (NN operatorNS name)
  | _ =>
      Err (errors_New (Itoa (Z.of_nat (length defaults)) +:+ " Wireguards in namespace " +:+ operatorNS +:+
        " are annotated " +:+ AnnotationDefault +:+ "=true: " +:+ join ", " (merge_sort string_le defaults)))
  end.

(** ** The sidecar *)

Definition downward (name field : string) : EnvVar := {| ev_Name := name; ev_Value := ""; ev_FieldRef := Some field |}.

(** [injectedSidecar] *)
Definition injectedSidecar (image gateway : string) : Container * list Volume :=
  ({| co_Name := SidecarContainer;
      co_Image := image;
      co_ImagePullPolicy := "";
      co_RestartPolicy := Some "Always";
      co_Command := [];
      co_Args := ["client"; "--wireguard"; gateway];
      co_Env := [downward "POD_NAME" "metadata.name"; downward "POD_NAMESPACE" "metadata.namespace";
                 downward "POD_UID" "metadata.uid"; downward "POD_IP" "status.podIP";
                 downward "HOST_IP" "status.hostIP"];
      co_EnvFrom := [];
      co_Resources := noResources;
      co_Ports := [];
      co_VolumeMounts := [{| vm_Name := VolumeKey; vm_MountPath := "/var/run/wireguard"; vm_ReadOnly := false |};
                          {| vm_Name := VolumeToken; vm_MountPath := inClusterConfigDir; vm_ReadOnly := true |}];
      co_SecurityContext := {| sc_Privileged := None; sc_ReadOnlyRootFilesystem := None;
                               sc_AllowPrivilegeEscalation := None; sc_CapabilitiesAdd := ["NET_ADMIN"] |};
      co_ReadinessProbe := None;
      co_LivenessProbe := None;
      co_StartupProbe := Some {| pr_Handler := Exec ["agent"; "client"; "--check"]; pr_TimeoutSeconds := 0;
                                 pr_PeriodSeconds := 2; pr_FailureThreshold := 90 |};
      co_PostStart := None |},
   [{| v_Name := VolumeKey; v_Source := EmptyDir "Memory" |};
    {| v_Name := VolumeToken;
       v_Source := Projected [ProjectedToken "token"; ProjectedConfigMap "kube-root-ca.crt" "ca.crt" "ca.crt";
                              ProjectedDownward "namespace" "metadata.namespace"] |}]).

(** ** CEL *)

(** Decoded JSON, of type [any]; the objects rendered hold whole numbers only. *)
Inductive json :=
  | JNull
  | JBool (b : bool)
  | JNum (n : Z)
  | JStr (s : string)
  | JArr (l : list json)
  | JObj (m : list (string * json)).

Definition pair_le {A} (a b : string * A) : Prop := string_le a.1 b.1.

#[export] Instance pair_le_dec {A} : RelDecision (@pair_le A).
Proof. intros a b. unfold pair_le. apply _. Defined.

(** A member of a map literal. *)
Definition celMember (kv : string * string) : string := Quote kv.1 +:+ ": dyn(" +:+ kv.2 +:+ ")".

(** [celLiteral] *)
Fixpoint celLiteral (v : json) : string :=
  match v with
  | JObj m =>
      "{" +:+ join ", " (map celMember (merge_sort pair_le (map (λ kv, (kv.1, celLiteral kv.2)) m))) +:+ "}"
  | JArr l => "[" +:+ join ", " (map (λ e, "dyn(" +:+ celLiteral e +:+ ")") l) +:+ "]"
  | JStr s => Quote s
  | JNum n => Itoa n
  | JBool b => if b then "true" else "false"
  | JNull => "<nil>"
  end.

(** [admissionregistrationv1.MatchResources], as [injectMatchResources] fills it. *)
Record LabelSelectorRequirement := { ls_Key : string; ls_Operator : string; ls_Values : list string }.
Record LabelSelector := { ls_MatchLabels : gmap string string; ls_MatchExpressions : list LabelSelectorRequirement }.
Record MatchResources := { mr_ObjectSelector : LabelSelector; mr_NamespaceSelector : LabelSelector }.

(** The selectors of [injectMatchResources]. *)
Definition injectSelectors : MatchResources :=
  {| mr_ObjectSelector :=
       {| ls_MatchLabels := {[LabelEnabled := "true"]};
          ls_MatchExpressions := [{| ls_Key := LabelComponent; ls_Operator := "DoesNotExist"; ls_Values := [] |}] |};
     mr_NamespaceSelector :=
       {| ls_MatchLabels := ∅;
          ls_MatchExpressions := [{| ls_Key := "kubernetes.io/metadata.name"; ls_Operator := "NotIn";
                                     ls_Values := [excludedNamespace] |}] |} |}.

(** [encoding/json] and [runtime.DefaultUnstructuredConverter] on the API types. *)
Class JsonLib := {
  container_JSON : Container → result json;
  volumes_JSON : list Volume → result json;
  matchResources_JSON : MatchResources → result json;
}.

Section injection.
Context `{JsonLib}.

(** [celOf] of an object with that JSON form *)
Definition celOf (marshalled : result json) : result string :=
  match marshalled with Ok decoded => Ok (celLiteral decoded) | Err e => Err e end.

(** [injectMatchResources] *)
Definition injectMatchResources : result json := matchResources_JSON injectSelectors.

Definition policyMeta : json :=
  JObj [("name", JStr injectPolicyName); ("labels", JObj [(LabelManagedBy, JStr ManagedByValue)])].

(** The match condition and the mutation, CEL texts. *)
Definition notYetInjected : string :=
  "!has(object.spec.initContainers) || !object.spec.initContainers.exists(c, c.name == " +:+ Quote SidecarContainer +:+ ")".

Definition mutation : string :=
  let q := Quote in
  join (str1 (chr 10))
    ["(has(object.spec.volumes)";
     "  ? variables.volumes.map(v, JSONPatch{op: " +:+ q "add" +:+ ", path: " +:+ q "/spec/volumes/-" +:+ ", value: v})";
     "  : [JSONPatch{op: " +:+ q "add" +:+ ", path: " +:+ q "/spec/volumes" +:+ ", value: variables.volumes}]) +";
     "(has(object.spec.initContainers)";
     "  ? [JSONPatch{op: " +:+ q "add" +:+ ", path: " +:+ q "/spec/initContainers/0" +:+ ", value: variables.sidecar}]";
     "  : [JSONPatch{op: " +:+ q "add" +:+ ", path: " +:+ q "/spec/initContainers" +:+ ", value: [variables.sidecar]}])"].

Definition policyObject (version sidecarCEL volumesCEL : string) : json :=
  JObj [("apiVersion", JStr (admissionGroup +:+ "/" +:+ version));
        ("kind", JStr "MutatingAdmissionPolicy");
        ("metadata", policyMeta);
        ("spec", JObj [
          ("failurePolicy", JStr "Fail");
          ("reinvocationPolicy", JStr "IfNeeded");
          ("matchConstraints", JObj [("resourceRules", JArr [JObj [
            ("apiGroups", JArr [JStr ""]); ("apiVersions", JArr [JStr "v1"]); ("operations", JArr [JStr "CREATE"]);
            ("resources", JArr [JStr "pods"])]])]);
          ("matchConditions", JArr [JObj [("name", JStr "not-yet-injected"); ("expression", JStr notYetInjected)]]);
          ("variables", JArr [
            JObj [("name", JStr "sidecar"); ("expression", JStr ("dyn(" +:+ sidecarCEL +:+ ")"))];
            JObj [("name", JStr "volumes"); ("expression", JStr ("dyn(" +:+ volumesCEL +:+ ")"))]]);
          ("mutations", JArr [JObj [("patchType", JStr "JSONPatch");
                                    ("jsonPatch", JObj [("expression", JStr mutation)])]])])].

Definition bindingObject (version : string) (match_ : json) : json :=
  JObj [("apiVersion", JStr (admissionGroup +:+ "/" +:+ version));
        ("kind", JStr "MutatingAdmissionPolicyBinding");
        ("metadata", policyMeta);
        ("spec", JObj [("policyName", JStr injectPolicyName); ("matchResources", match_)])].

(** [renderInjectPolicy] *)
Definition renderInjectPolicy (version : string) (sidecar : Container) (volumes : list Volume) : result (json * json) :=
  match celOf (container_JSON sidecar) with
  | Err e => Err (wrapf "render the sidecar: " e)
  | Ok sidecarCEL =>
      match celOf (volumes_JSON volumes) with
      | Err e => Err (wrapf "render the volumes: " e)
      | Ok volumesCEL =>
          match injectMatchResources with
          | Err e => Err (wrapf "render the pod selectors: " e)
          | Ok match_ => Ok (policyObject version sidecarCEL volumesCEL, bindingObject version match_)
          end
      end
  end.

(** ** The reconciler *)

Inductive IOp : Type :=
  | ServerResourcesForGroupVersion (groupVersion : string)  (* the names of the resources *)
  | ListWireguards
  | ApplyObject (obj : json) (fieldOwner : string) (force : bool)
  | DeleteObject (kind version name : string).

Definition IRes (o : IOp) : Type :=
  match o with
  | ServerResourcesForGroupVersion _ => result (list string)
  | ListWireguards => result (list Wireguard)
  | _ => option error
  end.

#[local] Abbreviation I := (prog IRes).

(** The loop of [servedPolicyVersion]. *)
Fixpoint servedPolicyVersion_loop (versions : list string) : I (result string) :=
  match versions with
  | [] => Ret (Ok "")
  | version :: versions =>
      l <- perform (ServerResourcesForGroupVersion (admissionGroup +:+ "/" +:+ version)) ;;
      match l with
      | Err e =>
          if errors_Is e NotFound then servedPolicyVersion_loop versions
          else Ret (Err (wrapf ("discover " +:+ admissionGroup +:+ "/" +:+ version +:+ ": ") e))
      | Ok names =>
          if decide ("mutatingadmissionpolicies" ∈ names) then Ret (Ok version)
          else servedPolicyVersion_loop versions
      end
  end.

(** [servedPolicyVersion] *)
Definition servedPolicyVersion : I (result string) := servedPolicyVersion_loop ["v1"; "v1beta1"].

(** [obj.GetKind()] and [obj.GetName()] *)
Definition field (k : string) (m : json) : option json :=
  match m with JObj l => snd <$> List.find (λ kv, bool_decide (kv.1 = k)) l | _ => None end.

Definition string_of (v : option json) : string := match v with Some (JStr s) => s | _ => "" end.

Definition kind_of (obj : json) : string := string_of (field "kind" obj).
Definition name_of (obj : json) : string := string_of (field "metadata" obj ≫= field "name").

(** [applyForced] of a cluster-scoped object *)
Definition applyForced (obj : json) : I (result unit) :=
  a <- perform (ApplyObject obj FieldManager true) ;;
  match a with
  | Some e => Ret (Err (wrapf ("apply " +:+ kind_of obj +:+ " /" +:+ name_of obj +:+ ": ") e))
  | None => Ret (Ok ())
  end.

Definition policyRecheck : Z := 10 * 60 * 1000000000.

(** [deleteInjectPolicy]: one of the objects, and the binding before the policy. *)
Definition deleteObject (version kind : string) : I (result unit) :=
  d <- perform (DeleteObject kind version injectPolicyName) ;;
  match d with
  | Some e =>
      if errors_Is e NotFound then Ret (Ok ())
      else Ret (Err (wrapf ("delete " +:+ kind +:+ " " +:+ injectPolicyName +:+ ": ") e))
  | None => Ret (Ok ())
  end.

Definition deleteInjectPolicy (version : string) : I (result unit) :=
  loopE (λ _ kind, deleteObject version kind) ["MutatingAdmissionPolicyBinding"; "MutatingAdmissionPolicy"] ().

(** [InjectionPolicyReconciler]: its fields, and its [Reconcile]: [RequeueAfter], or the error. *)
Record InjectionPolicyReconciler := { ir_Image : string; ir_OperatorNamespace : string }.

Definition Reconcile (r : InjectionPolicyReconciler) : I (result Z) :=
  version <-? servedPolicyVersion ;;
  if decide (version = "") then Ret (Ok policyRecheck)
  else
    l <- perform ListWireguards ;;
    match l with
    | Err e => Ret (Err (wrapf "list Wireguards: " e))
    | Ok wgs =>
        match defaultGateway wgs (ir_OperatorNamespace r) with
        | Err _ => _ <-? deleteInjectPolicy version ;; Ret (Ok 0)
        | Ok gateway =>
            let '(container, volumes) := injectedSidecar (ir_Image r) (nn_String gateway) in
            match renderInjectPolicy version container volumes with
            | Err e => Ret (Err e)
            | Ok (policy, binding) =>
                _ <-? loopE (λ _ obj, applyForced obj) [policy; binding] () ;;
                Ret (Ok 0)
            end
        end
    end.
End injection.
