(* ===== verification/InjectionFacts.v ===== *)
(** * The injection policies: correctness

    Which gateway the policy injects, that it is in place or removed whole and in an order
    that never leaves a binding without its policy, that the client it injects starts,
    and that its CEL denotes the objects it was rendered from. *)

From S2P Require Import Prelude GoStd Netip Effects Api Resources Gateway Controller ReferenceCluster Rbac Injection.

Section reconcile.
Context `{JsonLib}.
#[local] Abbreviation ev := (@existT IOp IRes).

(** ** The default gateway *)

Lemma defaultGateway_Ok l operatorNS gateway :
  defaultGateway l operatorNS = Ok gateway ↔
  ∃ wg, filter (isDefaultGateway operatorNS) l = [wg] ∧ gateway = NN operatorNS (Name (wg_meta wg)).
Proof.
  unfold defaultGateway. destruct (filter _ l) as [|wg [|wg' rest]]; cbn; split; try naive_solver.
  all: by intros (? & [=] & _) || done.
Qed.

(** The answer does not depend on the order of the list. *)
#[export] Instance defaultGateway_proper : Proper ((≡ₚ) ==> (=) ==> (=)) defaultGateway.
Proof.
  intros l l' Hl ns ? <-. unfold defaultGateway.
  assert ((λ wg, Name (wg_meta wg)) <$> filter (isDefaultGateway ns) l ≡ₚ
    (λ wg, Name (wg_meta wg)) <$> filter (isDefaultGateway ns) l') as Hn by by rewrite Hl.
  assert (∀ n n' : list string, n ≡ₚ n' → merge_sort string_le n = merge_sort string_le n') as Hsort.
  { intros n n' Hnn. apply (StronglySorted_unique string_le); [apply (StronglySorted_merge_sort _)..|].
    by rewrite !merge_sort_Permutation. }
  set (n := _ <$> filter _ l) in *. set (n' := _ <$> filter _ l') in *. clearbody n n'. pose proof (Permutation_length Hn) as Hlen. pose proof (Hsort _ _ Hn) as Hm.
  destruct n as [|a [|b n]], n' as [|a' [|b' n']]; try done.
  - by apply Permutation_singleton_inj in Hn as ->.
  - by rewrite Hlen, Hm.
Qed.

(** ** The reconciler *)

Definition policyKind : string := "MutatingAdmissionPolicy".
Definition bindingKind : string := "MutatingAdmissionPolicyBinding".

(** The policy and the binding of the operator's name. *)
Definition policy_step (s : option json * option json) (e : event IRes) : option (option json * option json) :=
  match e with
  | existT (ApplyObject obj _ _) None =>
      if decide (kind_of obj = policyKind) then Some (Some obj, s.2)
      else if decide (kind_of obj = bindingKind) then Some (s.1, Some obj) else Some s
  | existT (DeleteObject kind _ _) None =>
      if decide (kind = policyKind) then if decide (s.1 = None) then None else Some (None, s.2)
      else if decide (kind = bindingKind) then if decide (s.2 = None) then None else Some (s.1, None) else Some s
  | existT (DeleteObject kind _ _) (Some e) =>
      if errors_Is e NotFound then
        if decide (kind = policyKind) then if decide (s.1 = None) then Some s else None
        else if decide (kind = bindingKind) then if decide (s.2 = None) then Some s else None else Some s
      else Some s
  | _ => Some s
  end.

Definition discovery (o : IOp) : Prop := match o with ServerResourcesForGroupVersion _ => True | _ => False end.

Lemma emits_servedPolicyVersion versions : emits discovery (servedPolicyVersion_loop versions).
Proof. induction versions; cbn [servedPolicyVersion_loop]; solve_emits. Qed.

Lemma discovery_idle tr e s :
  Forall (λ e : event IRes, discovery (projT1 e)) tr → e ∈ tr → policy_step s e = Some s.
Proof. rewrite Forall_forall. intros Htr He. specialize (Htr e He). by destruct e as [[] ?]. Qed.

(** What a delete that does not fail the pass returns. *)
Definition gone (x : option error) : Prop := match x with Some e => errors_Is e NotFound = true | None => True end.

(** A pass over a served version, after the discovery. *)
Inductive pass (r : InjectionPolicyReconciler) (version : string) : list (event IRes) → result Z → Prop :=
  | pass_unlisted e e' : pass r version [ev ListWireguards (Err e)] (Err e')
  | pass_unrendered wgs e : pass r version [ev ListWireguards (Ok wgs)] (Err e)
  | pass_off_failed wgs e e' :
      pass r version [ev ListWireguards (Ok wgs); ev (DeleteObject bindingKind version injectPolicyName) (Some e)] (Err e')
  | pass_off wgs x y res :
      (∀ wg, filter (isDefaultGateway (ir_OperatorNamespace r)) wgs ≠ [wg]) → gone x →
      (res = Ok 0 ∧ gone y ∨ ∃ e, res = Err e ∧ y ≠ None) →
      pass r version [ev ListWireguards (Ok wgs); ev (DeleteObject bindingKind version injectPolicyName) x;
                      ev (DeleteObject policyKind version injectPolicyName) y] res
  | pass_on_failed wgs policy e e' : kind_of policy = policyKind →
      pass r version [ev ListWireguards (Ok wgs); ev (ApplyObject policy FieldManager true) (Some e)] (Err e')
  | pass_on wgs wg policy binding y res :
      filter (isDefaultGateway (ir_OperatorNamespace r)) wgs = [wg] →
      renderInjectPolicy version (injectedSidecar (ir_Image r) (nn_String (key_of (wg_meta wg)))).1
        (injectedSidecar (ir_Image r) (nn_String (key_of (wg_meta wg)))).2 = Ok (policy, binding) →
      kind_of policy = policyKind → kind_of binding = bindingKind →
      (res = Ok 0 ∧ y = None ∨ ∃ e, res = Err e ∧ y ≠ None) →
      pass r version [ev ListWireguards (Ok wgs); ev (ApplyObject policy FieldManager true) None;
                      ev (ApplyObject binding FieldManager true) y] res.

Lemma render_kinds version c v policy binding :
  renderInjectPolicy version c v = Ok (policy, binding) → kind_of policy = policyKind ∧ kind_of binding = bindingKind.
Proof.
  unfold renderInjectPolicy. repeat case_match; try done. by intros [= <- <-].
Qed.

Lemma deleteObject_exec version kind tr res :
  exec (deleteObject version kind) tr res →
  ∃ x, tr = [ev (DeleteObject kind version injectPolicyName) x] ∧ (res = Ok () ∧ gone x ∨ ∃ e, res = Err e ∧ x ≠ None).
Proof.
  unfold deleteObject, gone. intros Hex. inv_exec. exists a.
  destruct a as [e|]; [destruct (errors_Is e NotFound) eqn:He|]; inv_exec; (split; [done|]); [by left|right; by eexists|by left].
Qed.

Lemma applyObject_exec obj tr res :
  exec (applyForced obj) tr res →
  ∃ x, tr = [ev (ApplyObject obj FieldManager true) x] ∧ (res = Ok () ∧ x = None ∨ ∃ e, res = Err e ∧ x ≠ None).
Proof.
  unfold applyForced. intros Hex. inv_exec. exists a.
  destruct a as [e|]; inv_exec; (split; [done|]); [right; by eexists|by left].
Qed.

(** Two steps of a loop, the second after the first has succeeded. *)
Lemma loopE_two {A} (body : () → A → prog IRes (result ())) a b tr res :
  exec (loopE body [a; b] ()) tr res →
  (∃ e, exec (body () a) tr (Err e) ∧ res = Err e) ∨
  ∃ t1 t2, tr = t1 ++ t2 ∧ exec (body () a) t1 (Ok ()) ∧ exec (body () b) t2 res.
Proof.
  cbn [loopE]. unfold bindE. intros (ra & t1 & t2 & -> & Ha & Hex)%exec_bind. destruct ra as [[]|e].
  - right. exists t1, t2. split_and!; [done..|]. apply exec_bind in Hex as (rb & t3 & t4 & -> & Hb & Hex).
    destruct rb as [[]|e]; destruct Hex as [-> ->]; by rewrite app_nil_r.
  - destruct Hex as [-> ->]. left. exists e. by rewrite app_nil_r.
Qed.

Lemma on_paths r version wgs wg policy binding tr res :
  filter (isDefaultGateway (ir_OperatorNamespace r)) wgs = [wg] →
  renderInjectPolicy version (injectedSidecar (ir_Image r) (nn_String (key_of (wg_meta wg)))).1
    (injectedSidecar (ir_Image r) (nn_String (key_of (wg_meta wg)))).2 = Ok (policy, binding) →
  exec (bindE (loopE (λ _ obj, applyForced obj) [policy; binding] ()) (λ _, Ret (Ok 0))) tr res →
  pass r version (ev ListWireguards (Ok wgs) :: tr) res.
Proof.
  intros Hf Hr (ra & t3 & t4 & -> & Ha & Hex)%exec_bind. destruct (render_kinds _ _ _ _ _ Hr) as [Hk1 Hk2].
  apply loopE_two in Ha as [(e & Ha & ->)|(t5 & t6 & -> & Ha & Hb)].
  - apply applyObject_exec in Ha as (x & -> & [[? _]|(e' & _ & Hx)]); [done|]. destruct x as [x|]; [|done].
    destruct Hex as [-> ->]. by apply pass_on_failed.
  - apply applyObject_exec in Ha as (x & -> & [[_ ->]|(e' & ? & _)]); [|done].
    apply applyObject_exec in Hb as (y & -> & Hy).
    assert (t4 = [] ∧ (res = Ok 0 ∧ y = None ∨ ∃ e, res = Err e ∧ y ≠ None)) as [-> Hres].
    { destruct ra as [[]|e]; destruct Hex as [-> ->]; naive_solver. }
    by apply pass_on with wg.
Qed.

Lemma off_paths r version wgs tr res :
  (∀ wg, filter (isDefaultGateway (ir_OperatorNamespace r)) wgs ≠ [wg]) →
  exec (bindE (deleteInjectPolicy version) (λ _, Ret (Ok 0))) tr res →
  pass r version (ev ListWireguards (Ok wgs) :: tr) res.
Proof.
  intros Hf (ra & t3 & t4 & -> & Ha & Hex)%exec_bind.
  apply loopE_two in Ha as [(e' & Ha & ->)|(t5 & t6 & -> & Ha & Hb)].
  - apply deleteObject_exec in Ha as (x & -> & [[? _]|(e'' & _ & Hx)]); [done|]. destruct x as [x|]; [|done].
    destruct Hex as [-> ->]. apply pass_off_failed.
  - apply deleteObject_exec in Ha as (x & -> & [[_ Hx]|(e'' & ? & _)]); [|done].
    apply deleteObject_exec in Hb as (y & -> & Hy).
    assert (t4 = [] ∧ (res = Ok 0 ∧ gone y ∨ ∃ e, res = Err e ∧ y ≠ None)) as [-> Hres].
    { destruct ra as [[]|e']; destruct Hex as [-> ->]; naive_solver. }
    by apply pass_off.
Qed.

Lemma Reconcile_paths r tr res :
  exec (Reconcile r) tr res →
  ∃ t1 t2, tr = t1 ++ t2 ∧ Forall (λ e : event IRes, discovery (projT1 e)) t1 ∧
    (t2 = [] ∧ (res = Ok policyRecheck ∨ ∃ e, res = Err e) ∨ ∃ version, pass r version t2 res).
Proof.
  unfold Reconcile. intros (v & t1 & t2 & -> & Hv & Hex)%exec_bind. exists t1, t2. split; [done|].
  split; [by eapply emits_servedPolicyVersion|]. destruct v as [version|e]; [|destruct Hex as [-> ->]; eauto].
  case_decide as Hne; [destruct Hex as [-> ->]; eauto|]. right. exists version. clear Hv.
  inv_exec. destruct a as [wgs|e]; [|inv_exec; apply pass_unlisted].
  destruct (defaultGateway wgs (ir_OperatorNamespace r)) as [gateway|e] eqn:Hd.
  - apply defaultGateway_Ok in Hd as (wg & Hf & ->).
    assert (wg ∈ filter (isDefaultGateway (ir_OperatorNamespace r)) wgs) as [[_ Hns] _]%list_elem_of_filter
      by (rewrite Hf; left).
    destruct (injectedSidecar _ _) as [c vs] eqn:Hi.
    destruct (renderInjectPolicy version c vs) as [[policy binding]|e] eqn:Hr; [|inv_exec; apply pass_unrendered].
    eapply on_paths; [done| |done]. unfold key_of. by rewrite Hns, Hi.
  - apply off_paths; [|done]. intros wg Hf.
    assert (defaultGateway wgs (ir_OperatorNamespace r) = Ok (NN (ir_OperatorNamespace r) (Name (wg_meta wg)))) as Hok
      by (apply defaultGateway_Ok; eauto). congruence.
Qed.

(** A binding never stands without its policy. *)
Definition backed (s : option json * option json) : Prop := s.2 ≠ None → s.1 ≠ None.

Lemma step_apply_policy obj o f s s' :
  kind_of obj = policyKind → policy_step s (ev (ApplyObject obj o f) None) = Some s' → s' = (Some obj, s.2).
Proof. intros Hk. cbn [policy_step]. rewrite decide_True by done. congruence. Qed.

Lemma step_apply_binding obj o f s s' :
  kind_of obj = bindingKind → policy_step s (ev (ApplyObject obj o f) None) = Some s' → s' = (s.1, Some obj).
Proof. intros Hk. cbn [policy_step]. rewrite decide_False, decide_True by (rewrite ?Hk; done). congruence. Qed.

Lemma step_delete_binding version n x s s' :
  policy_step s (ev (DeleteObject bindingKind version n) x) = Some s' →
  s'.1 = s.1 ∧ (s'.2 = None ∨ s' = s) ∧ (gone x → s'.2 = None).
Proof.
  cbn [policy_step]. rewrite decide_False, decide_True by done. unfold gone.
  destruct x as [e|]; [destruct (errors_Is e NotFound)|]; repeat case_decide; naive_solver.
Qed.

Lemma step_delete_policy version n x s s' :
  policy_step s (ev (DeleteObject policyKind version n) x) = Some s' →
  s'.2 = s.2 ∧ (gone x → s'.1 = None).
Proof.
  cbn [policy_step]. rewrite decide_True by done. unfold gone.
  destruct x as [e|]; [destruct (errors_Is e NotFound)|]; repeat case_decide; naive_solver.
Qed.

Lemma pass_along r version tr res s : pass r version tr res → backed s → along policy_step backed s tr.
Proof.
  intros Hp Hs. destruct Hp as [| |wgs e e'|wgs x y res _ Hx _|wgs policy e e' Hk|wgs wg policy binding y res _ _ Hk Hk' _];
    (split; [done|]); intros s1 [= <-]; [done..| | | |].
  - split; [done|]. intros s2 (H1 & [H2|H2] & _)%step_delete_binding; unfold backed in *; cbn; naive_solver congruence.
  - split; [done|]. intros s2 (H1 & _ & H2)%step_delete_binding. specialize (H2 Hx).
    split; [unfold backed; congruence|]. intros s3 [H3 _]%step_delete_policy.
    split; [unfold backed; congruence|done].
  - split; [done|]. by intros s2 [= <-].
  - split; [done|]. intros s2 ->%step_apply_policy; [|done]. split; [done|]. intros s3 Hy.
    split; [|done]. destruct y; [by injection Hy as <-|]. by apply step_apply_binding in Hy as ->.
Qed.

(** What the pass leaves when it returns without error, by the gateways [wgs]. *)
Definition injects (r : InjectionPolicyReconciler) (version : string) (wgs : list Wireguard)
    (s : option json * option json) : Prop :=
  match filter (isDefaultGateway (ir_OperatorNamespace r)) wgs with
  | [wg] =>
      ∃ policy binding, s = (Some policy, Some binding) ∧
        renderInjectPolicy version (injectedSidecar (ir_Image r) (nn_String (key_of (wg_meta wg)))).1
          (injectedSidecar (ir_Image r) (nn_String (key_of (wg_meta wg)))).2 = Ok (policy, binding)
  | _ => s = (None, None)
  end.

Lemma pass_injects r version tr after s s' :
  pass r version tr (Ok after) → replay policy_step s tr = Some s' →
  after = 0 ∧ ∃ wgs, ev ListWireguards (Ok wgs) ∈ tr ∧ injects r version wgs s'.
Proof.
  intros Hp Hs. inversion Hp as [| | |wgs x y res Hf Hx Hy|
    |wgs wg policy binding y res Hf Hr Hk Hk' Hy]; subst; rewrite replay_cons in Hs; cbn [policy_step mbind option_bind] in Hs.
  - destruct Hy as [[[= ->] Hy]|(e & ? & _)]; [|done]. split; [done|]. exists wgs. split; [left|].
    rewrite replay_cons in Hs. apply bind_Some in Hs as (s1 & (_ & _ & H1)%step_delete_binding & Hs).
    rewrite replay_cons in Hs. apply bind_Some in Hs as (s2 & (H2 & H3)%step_delete_policy & Hs). injection Hs as <-.
    assert (s2 = (None, None)) as -> by (destruct s2; cbn in *; f_equal; [auto|rewrite H2; auto]).
    unfold injects. destruct (filter _ wgs) as [|wg []] eqn:Hfl; [done| |done]. by destruct (Hf wg).
  - destruct Hy as [[[= ->] ->]|(e & ? & _)]; [|done]. split; [done|]. exists wgs. split; [left|].
    rewrite replay_cons in Hs. apply bind_Some in Hs as (s1 & ->%step_apply_policy & Hs); [|done].
    rewrite replay_cons in Hs. apply bind_Some in Hs as (s2 & ->%step_apply_binding & Hs); [|done]. injection Hs as <-.
    unfold injects. rewrite Hf. by exists policy, binding.
Qed.

End reconcile.

(** ** A cluster with one default gateway *)

Module RefInjection.
#[export] Instance jsonlib : JsonLib :=
  {| container_JSON c := Ok (JObj ([("args", JArr (JStr <$> co_Args c)); ("image", JStr (co_Image c)); ("name", JStr (co_Name c))] ++
       option_list ((λ p, ("restartPolicy", JStr p)) <$> co_RestartPolicy c)));
     volumes_JSON l := Ok (JArr ((λ v, JObj [("name", JStr (v_Name v))]) <$> l));
     matchResources_JSON _ := Ok (JObj []) |}.

Definition gateway (ns name value : string) : Wireguard :=
  let wg := RefCluster.gw in
  {| wg_meta := {| Name := name; Namespace := ns; UID := ""; ResourceVersion := ""; Generation := 1; CreationTimestamp := 0;
                   Labels := ∅; Annotations := {[AnnotationDefault := value]}; OwnerReferences := [] |};
     wg_Spec := wg_Spec wg; wg_Status := wg_Status wg |}.

(** A tenant has annotated a gateway of its own. *)
Definition server : handler IRes () :=
  λ o s, (match o return IRes o with
          | ServerResourcesForGroupVersion _ => Ok ["validatingadmissionpolicies"; "mutatingadmissionpolicies"]
          | ListWireguards => Ok [gateway "tenant" "gw" "true"; gateway "vpn" "gw" "true"; gateway "vpn" "old" "false"]
          | _ => None
          end, s).

Definition reconciler : InjectionPolicyReconciler := {| ir_Image := "agent:1"; ir_OperatorNamespace := "vpn" |}.
Definition passed := run server (Reconcile reconciler) ().
End RefInjection.

#[local] Existing Instances RefInjection.jsonlib.

