(* ===== verification/CelFacts.v ===== *)
(** * CEL literals: correctness

    A reader of the CEL literals that [celLiteral] writes, by the CEL grammar, and that the
    text of an object denotes that object: no name, image or key can end a string
    early and become part of the policy's expression. *)

From S2P Require Import Prelude GoStd Api Resources Gateway Injection.

(** ** The reader *)

Definition hex_val (c : char) : Z := if is_digit c then digit_val c else code c - 87.

(** The character of a one-letter escape. *)
Definition unescape (e : char) : option char :=
  let n := code e in
  if n =? 34 then Some (chr 34)
  else if n =? 92 then Some (chr 92)
  else if n =? 97 then Some (chr 7)
  else if n =? 98 then Some (chr 8)
  else if n =? 102 then Some (chr 12)
  else if n =? 110 then Some (chr 10)
  else if n =? 114 then Some (chr 13)
  else if n =? 116 then Some (chr 9)
  else if n =? 118 then Some (chr 11)
  else None.

(** A string literal after its opening quote, and what follows it. *)
Fixpoint unquote (s : string) : option (string * string) :=
  match s with
  | EmptyString => None
  | String c s' =>
      if code c =? 34 then Some (EmptyString, s')
      else if code c =? 92 then
        match s' with
        | EmptyString => None
        | String e s'' =>
            match unescape e with
            | Some d => '(a, b) ← unquote s''; Some (String d a, b)
            | None =>
                if code e =? 120 then
                  match s'' with
                  | String h (String l s3) =>
                      '(a, b) ← unquote s3; Some (String (chr (16 * hex_val h + hex_val l)) a, b)
                  | _ => None
                  end
                else None
            end
        end
      else '(a, b) ← unquote s'; Some (String c a, b)
  end.

(** The text after [p]. *)
Fixpoint strip (p s : string) : option string :=
  match p, s with
  | EmptyString, _ => Some s
  | String c p', String d s' => if decide (c = d) then strip p' s' else None
  | _, EmptyString => None
  end.

(** The leading digits, and what follows them. *)
Fixpoint span_digits (s : string) : string * string :=
  match s with
  | EmptyString => (EmptyString, EmptyString)
  | String c s' => if is_digit c then let '(a, b) := span_digits s' in (String c a, b) else (EmptyString, s)
  end.

(** What follows a member or an element: another one, or the end. *)
Definition more (close : string) (s : string) : option (bool * string) :=
  match strip ", " s with
  | Some s' => Some (true, s')
  | None => (λ s', (false, s')) <$> strip close s
  end.

(** [fuel] bounds the number of values read. *)
Fixpoint read (fuel : nat) (s : string) {struct fuel} : option (json * string) :=
  match fuel with
  | O => None
  | S fuel =>
      match s with
      | EmptyString => None
      | String c s' =>
          if code c =? 34 then '(a, b) ← unquote s'; Some (JStr a, b)
          else if code c =? 123 then
            match strip "}" s' with
            | Some b => Some (JObj [], b)
            | None => '(m, b) ← read_members fuel s'; Some (JObj m, b)
            end
          else if code c =? 91 then
            match strip "]" s' with
            | Some b => Some (JArr [], b)
            | None => '(l, b) ← read_items fuel s'; Some (JArr l, b)
            end
          else if is_digit c then
            let '(a, b) := span_digits s in n ← decimal 0 a; Some (JNum n, b)
          else match strip "true" s with
               | Some b => Some (JBool true, b)
               | None => (λ b, (JBool false, b)) <$> strip "false" s
               end
      end
  end
with read_items (fuel : nat) (s : string) {struct fuel} : option (list json * string) :=
  match fuel with
  | O => None
  | S fuel =>
      s ← strip "dyn(" s;
      '(v, s) ← read fuel s;
      s ← strip ")" s;
      '(again, s) ← more "]" s;
      if (again : bool) then '(l, s) ← read_items fuel s; Some (v :: l, s) else Some ([v], s)
  end
with read_members (fuel : nat) (s : string) {struct fuel} : option (list (string * json) * string) :=
  match fuel with
  | O => None
  | S fuel =>
      s ← strip (str1 dquote) s;
      '(k, s) ← unquote s;
      s ← strip ": dyn(" s;
      '(v, s) ← read fuel s;
      s ← strip ")" s;
      '(again, s) ← more "}" s;
      if (again : bool) then '(m, s) ← read_members fuel s; Some ((k, v) :: m, s) else Some ([(k, v)], s)
  end.

(** ** Decoded JSON *)

Section json_ind.
Context (P : json → Prop).
Context (Hnull : P JNull) (Hbool : ∀ b, P (JBool b)) (Hnum : ∀ n, P (JNum n)) (Hstr : ∀ s, P (JStr s)).
Context (Harr : ∀ l, Forall P l → P (JArr l)) (Hobj : ∀ m, Forall (λ kv, P kv.2) m → P (JObj m)).

Fixpoint json_nested (v : json) : P v :=
  match v with
  | JNull => Hnull
  | JBool b => Hbool b
  | JNum n => Hnum n
  | JStr s => Hstr s
  | JArr l =>
      Harr l ((fix go (l : list json) : Forall P l :=
                 match l with [] => Forall_nil_2 P | v :: l => Forall_cons_2 P v l (json_nested v) (go l) end) l)
  | JObj m =>
      Hobj m ((fix go (m : list (string * json)) : Forall (λ kv, P kv.2) m :=
                 match m with
                 | [] => Forall_nil_2 _
                 | kv :: m => Forall_cons_2 (λ kv, P kv.2) kv m (json_nested kv.2) (go m)
                 end) m)
  end.
End json_ind.

(** The number of values, with one for every member. *)
Fixpoint size (v : json) : nat :=
  match v with
  | JArr l => S (sum_list_with (λ v, S (size v)) l)
  | JObj m => S (sum_list_with (λ kv, S (size kv.2)) m)
  | _ => 1
  end.

(** What [json.Unmarshal] gives of the marshalled objects: no null, whole numbers, the
    members of a map in order, each key once. *)
Fixpoint plain (v : json) : Prop :=
  match v with
  | JNull => False
  | JBool _ | JStr _ => True
  | JNum n => 0 <= n
  | JArr l => foldr (λ v P, plain v ∧ P) True l
  | JObj m => foldr (λ kv P, plain kv.2 ∧ P) True m ∧
              StronglySorted (λ a b, compare_string a.1 b.1 = Lt) m
  end.

(** ** Reading back *)

Lemma strip_app p s : strip p (p +:+ s) = Some s.
Proof. induction p as [|c p IH]; [done|]. rewrite str_app_cons. cbn [strip]. by rewrite decide_True. Qed.

Lemma unquote_byte c t : unquote (quote_byte c +:+ t) = '(a, b) ← unquote t; Some (String c a, b).
Proof. destruct c as [[] [] [] [] [] [] [] []]; reflexivity. Qed.

Lemma unquote_quote s rest : unquote (quote_bytes s +:+ String dquote rest) = Some (s, rest).
Proof.
  induction s as [|c s IH]; [done|]. cbn [quote_bytes]. rewrite str_app_assoc, unquote_byte, IH. done.
Qed.

Lemma Quote_text s rest : Quote s +:+ rest = String dquote (quote_bytes s +:+ String dquote rest).
Proof. unfold Quote, str1. by rewrite !str_app_cons, str_app_nil_l, str_app_assoc. Qed.

Definition no_digit (s : string) : Prop := match s with String c _ => is_digit c = false | EmptyString => True end.

Lemma span_digits_app a rest : all_digits a = true → no_digit rest → span_digits (a +:+ rest) = (a, rest).
Proof.
  intros Ha Hr. induction a as [|c a IH].
  - rewrite str_app_nil_l. destruct rest as [|c rest]; [done|]. cbn [no_digit span_digits] in *. by rewrite Hr.
  - cbn [all_digits] in Ha. apply andb_true_iff in Ha as [Hc Ha]. rewrite str_app_cons. cbn [span_digits].
    by rewrite Hc, IH.
Qed.

#[local] Instance pair_le_trans {A} : Transitive (@pair_le A).
Proof. intros a b c. apply string_le_trans. Qed.

#[local] Instance pair_le_total {A} : Total (@pair_le A).
Proof. intros a b. apply string_le_total. Qed.

Lemma sorted_elem {A} (R : A → A → Prop) l x y :
  StronglySorted R l → x ∈ l → y ∈ l → x = y ∨ R x y ∨ R y x.
Proof.
  intros Hs. induction Hs as [|a l Hs IH Hall]; [by intros ?%not_elem_of_nil|]. rewrite Forall_forall in Hall.
  intros [->|Hx]%elem_of_cons [->|Hy]%elem_of_cons; auto.
Qed.

(** A map whose keys are in order is rendered in that order. *)
Lemma sorted_members (m : list (string * json)) :
  StronglySorted (λ a b, compare_string a.1 b.1 = Lt) m →
  merge_sort pair_le (map (λ kv, (kv.1, celLiteral kv.2)) m) = map (λ kv, (kv.1, celLiteral kv.2)) m.
Proof.
  intros Hs. apply (StronglySorted_unique_strong pair_le).
  - intros x y Hx Hy Hxy Hyx. rewrite merge_sort_Permutation in Hx.
    apply list_elem_of_In, in_map_iff in Hx as (kx & <- & Hx), Hy as (ky & <- & Hy).
    apply list_elem_of_In in Hx, Hy. unfold pair_le, string_le in Hxy, Hyx. cbn in Hxy, Hyx.
    destruct (sorted_elem _ _ _ _ Hs Hx Hy) as [->|[Hlt|Hlt]]; [done|..];
      rewrite compare_string_antisym, Hlt in Hxy || rewrite compare_string_antisym, Hlt in Hyx; done.
  - apply (StronglySorted_merge_sort _).
  - apply (StronglySorted_fmap (λ kv : string * json, (kv.1, celLiteral kv.2)) (λ a b, compare_string a.1 b.1 = Lt)); [|done].
    intros a b Hab. unfold pair_le, string_le. cbn. by rewrite Hab.
  - apply merge_sort_Permutation.
Qed.

(** ** The round trip *)

Definition reads (v : json) : Prop :=
  ∀ fuel rest, (size v <= fuel)%nat → plain v → no_digit rest → read fuel (celLiteral v +:+ rest) = Some (v, rest).

Lemma more_again close s : more close (", " +:+ s) = Some (true, s).
Proof. unfold more. by rewrite strip_app. Qed.

Definition dyn (v : json) : string := "dyn(" +:+ celLiteral v +:+ ")".

Lemma read_items_ok l fuel rest :
  Forall reads l → l ≠ [] → (sum_list_with (λ v, S (size v)) l <= fuel)%nat → foldr (λ v P, plain v ∧ P) True l →
  read_items fuel (join ", " (map dyn l) +:+ "]" +:+ rest) = Some (l, rest).
Proof.
  intros Hall. revert fuel. induction Hall as [|v l Hv Hall IH]; [done|]. intros fuel _ Hf [Hp Hps]. cbn in Hf.
  destruct fuel as [|fuel]; [lia|]. cbn [read_items].
  assert (∀ tail, no_digit tail → dyn v +:+ tail = "dyn(" +:+ celLiteral v +:+ ")" +:+ tail) as Hdyn.
  { intros tail _. unfold dyn. by rewrite !str_app_assoc. }
  destruct l as [|w l].
  - cbn [map join]. rewrite Hdyn by done. rewrite strip_app. cbn [mbind option_bind].
    rewrite Hv by (done || lia). cbn [mbind option_bind]. rewrite strip_app. done.
  - change (join ", " (map dyn (v :: w :: l))) with (dyn v +:+ ", " +:+ join ", " (map dyn (w :: l))).
    rewrite !(str_app_assoc (dyn v)), str_app_assoc, Hdyn by done. rewrite strip_app. cbn [mbind option_bind].
    rewrite Hv by (done || lia). cbn [mbind option_bind]. rewrite strip_app. cbn [mbind option_bind].
    rewrite more_again. cbn [mbind option_bind]. rewrite IH; [done|done|lia|done].
Qed.

Lemma read_members_ok m fuel rest :
  Forall (λ kv, reads kv.2) m → m ≠ [] → (sum_list_with (λ kv, S (size kv.2)) m <= fuel)%nat →
  foldr (λ kv P, plain kv.2 ∧ P) True m →
  read_members fuel (join ", " (map celMember (map (λ kv, (kv.1, celLiteral kv.2)) m)) +:+ "}" +:+ rest) = Some (m, rest).
Proof.
  intros Hall. revert fuel. induction Hall as [|[k v] m Hv Hall IH]; [done|]. intros fuel _ Hf [Hp Hps]. cbn in Hf, Hv, Hp.
  destruct fuel as [|fuel]; [lia|]. cbn [read_members].
  assert (∀ tail, celMember (k, celLiteral v) +:+ tail =
    str1 dquote +:+ quote_bytes k +:+ String dquote (": dyn(" +:+ celLiteral v +:+ ")" +:+ tail)) as Hmem.
  { intros tail. unfold celMember. cbn [fst snd]. rewrite str_app_assoc, Quote_text, !str_app_assoc. reflexivity. }
  destruct m as [|w m].
  - cbn [map join fst snd]. rewrite Hmem. rewrite strip_app. cbn [mbind option_bind]. rewrite unquote_quote.
    cbn [mbind option_bind]. rewrite strip_app. cbn [mbind option_bind].
    rewrite Hv by (done || lia). cbn [mbind option_bind]. rewrite strip_app. done.
  - remember (w :: m) as m' eqn:Hm'. assert (m' ≠ []) as Hne by by subst.
    assert (join ", " (map celMember (map (λ kv, (kv.1, celLiteral kv.2)) ((k, v) :: m'))) =
      celMember (k, celLiteral v) +:+ ", " +:+ join ", " (map celMember (map (λ kv, (kv.1, celLiteral kv.2)) m'))) as ->
      by by subst.
    rewrite !str_app_assoc, Hmem. rewrite strip_app. cbn [mbind option_bind]. rewrite unquote_quote.
    cbn [mbind option_bind]. rewrite strip_app. cbn [mbind option_bind].
    rewrite Hv by (done || lia). cbn [mbind option_bind]. rewrite strip_app. cbn [mbind option_bind].
    rewrite more_again. cbn [mbind option_bind]. rewrite IH; [done|done|lia|done].
Qed.

Lemma read_number n fuel rest : 0 <= n → no_digit rest → read (S fuel) (Itoa n +:+ rest) = Some (JNum n, rest).
Proof.
  intros Hn Hr. pose proof (Itoa_digits n Hn) as Hd. pose proof (decimal_Itoa n Hn) as Hdec.
  destruct (Itoa n) as [|c t] eqn:Hi; [by destruct (Itoa_ne n)|].
  pose proof (span_digits_app _ _ Hd Hr) as Hspan. cbn [all_digits] in Hd. apply andb_true_iff in Hd as [Hc _].
  rewrite str_app_cons in *. cbn [read]. pose proof (proj1 (is_digit_range c) Hc).
  destruct (Z.eqb_spec (code c) 34), (Z.eqb_spec (code c) 123), (Z.eqb_spec (code c) 91); try lia.
  by rewrite Hc, Hspan, Hdec.
Qed.

Lemma celLiteral_reads v : reads v.
Proof.
  induction v as [|b|n|s|l Hl|m Hm] using json_nested; intros fuel rest Hf Hp Hr; (destruct fuel as [|fuel]; [cbn in Hf; lia|]).
  - done.
  - destruct b; cbn [celLiteral]; [|]; cbn [read]; done.
  - by apply read_number.
  - cbn [celLiteral]. rewrite Quote_text. cbn [read]. change (code dquote =? 34) with true. cbv iota.
    by rewrite unquote_quote.
  - cbn [celLiteral]. change (map (λ e, "dyn(" +:+ celLiteral e +:+ ")") l) with (map dyn l). cbn [plain size] in *.
    rewrite !str_app_assoc. change ("[" +:+ ?x) with (String "["%char x). cbn [read].
    destruct l as [|v l]; [done|].
    assert (strip "]" (join ", " (map dyn (v :: l)) +:+ "]" +:+ rest) = None) as ->.
    { destruct l; reflexivity. }
    change (code "["%char =? 34) with false. change (code "["%char =? 123) with false.
    change (code "["%char =? 91) with true. cbv iota. rewrite read_items_ok; [done|done|done|lia|done].
  - destruct Hp as [Hp Hs]. cbn [celLiteral]. rewrite sorted_members by done. cbn [size] in Hf.
    rewrite !str_app_assoc. change ("{" +:+ ?x) with (String "{"%char x). cbn [read].
    destruct m as [|[k v] m]; [done|].
    assert (strip "}" (join ", " (map celMember (map (λ kv, (kv.1, celLiteral kv.2)) ((k, v) :: m))) +:+ "}" +:+ rest) = None) as ->.
    { destruct m; reflexivity. }
    change (code "{"%char =? 34) with false. change (code "{"%char =? 123) with true. cbv iota.
    rewrite read_members_ok; [done|done|done|lia|done].
Qed.


(** A container whose image holds quotes, a backslash and a newline. *)
Definition sample : json :=
  JObj [("args", JArr [JStr "client"; JStr "--wireguard"; JStr "vpn/gw"]);
        ("image", JStr ("a" +:+ String dquote (String (chr 92) (String (chr 10) ") + dyn("))));
        ("restartable", JBool true);
        ("startupProbe", JObj [("periodSeconds", JNum 2)])].

