(* ===== verification/PodFacts.v ===== *)
(** * The pods the operator renders

    The gateway's Deployment, Service and Secret fit each other and the agent that runs in
    the pod; gluetun runs with the variables the routing depends on; a pod is injected
    exactly where the client role is bound; and the client the policy injects attaches
    its pod to the default gateway. *)

From S2P Require Import Prelude GoStd GoFlag Netip NetipFacts Effects Api External AgentState Peers Resources Gateway Controller ReferenceCluster GatewayFacts Node WgServer Datapath Agent SidecarPeer SidecarTunnel Sidecar AgentFacts AgentMain SidecarPeerFacts Rbac Injection InjectionFacts.

#[local] Open Scope prog_scope.

(** ** The gateway *)

Definition containers (d : Deployment) : list Container :=
  po_InitContainers (ds_Template (dep_Spec d)) ++ po_Containers (ds_Template (dep_Spec d)).

Definition volumes (d : Deployment) : list Volume := po_Volumes (ds_Template (dep_Spec d)).

(** The three objects form one gateway: they are in one namespace; the Deployment and the
    Service select the pods of the template; no two containers, volumes or ports of the
    pod collide; every mount names a volume and every Secret volume the Secret; the
    Service's ports are ports of a container; and one pod runs at a time. *)
Record fits (dep : Deployment) (svc : Service) (sec : Secret) : Prop := {
  fit_namespace : Namespace (svc_meta svc) = Namespace (dep_meta dep) ∧ Namespace (sec_meta sec) = Namespace (dep_meta dep);
  fit_selectors : ds_Selector (dep_Spec dep) ⊆ ds_TemplateLabels (dep_Spec dep) ∧
    svc_Selector svc ⊆ ds_TemplateLabels (dep_Spec dep);
  fit_containers : NoDup (co_Name <$> containers dep);
  fit_volumes : NoDup (v_Name <$> volumes dep);
  fit_mounts : ∀ c m, c ∈ containers dep → m ∈ co_VolumeMounts c → vm_Name m ∈ v_Name <$> volumes dep;
  fit_secrets : ∀ v n, v ∈ volumes dep → v_Source v = SecretVolume n → n = Name (sec_meta sec);
  fit_ports : NoDup ((λ p, (cp_ContainerPort p, cp_Protocol p)) <$> (containers dep ≫= co_Ports));
  fit_targets : ∀ p, p ∈ svc_Ports svc → ∃ c cp, c ∈ po_Containers (ds_Template (dep_Spec dep)) ∧ cp ∈ co_Ports c ∧
    cp_ContainerPort cp = sp_TargetPort p ∧ cp_Protocol cp = sp_Protocol p;
  fit_single : ds_Replicas (dep_Spec dep) = Some 1 ∧ ds_StrategyType (dep_Spec dep) = "Recreate";
}.

(** The port a probe connects to. *)
Definition probe_port (p : Resources.Probe) : option Z :=
  match pr_Handler p with Resources.HTTPGet port _ | TCPSocket port => Some port | Exec _ => None end.

(** A container of the pod runs the agent as a server, on its command line: for the device
    the datapath is built on, at the port the Service sends packets to, with a key of the
    mounted Secret as its state; and the kubelet probes the port it listens on. *)
Definition runs_agent (dep : Deployment) (svc : Service) (sec : Secret) : Prop :=
  ∃ c args f, c ∈ po_Containers (ds_Template (dep_Spec dep)) ∧ co_Command c = "agent" :: args ∧ co_Args c = [] ∧
    head args ≠ Some "client" ∧ mainFlags args = inl f ∧ f_iface f = WgInterface ∧
    (∀ p, p ∈ svc_Ports svc → sp_TargetPort p = f_listenPort f) ∧
    (∃ m v key, m ∈ co_VolumeMounts c ∧ v ∈ volumes dep ∧ vm_Name m = v_Name v ∧
       v_Source v = SecretVolume (Name (sec_meta sec)) ∧ key ∈ dom (sec_Data sec) ∧ f_state f = vm_MountPath m +:+ key) ∧
    (∀ p, p ∈ [co_ReadinessProbe c; co_LivenessProbe c] → ∃ port, p ≫= probe_port = Some port ∧
       ":" +:+ Itoa port = healthAddr).

Section gateway.
Context `{OwnerLib}.

Lemma SetOwnerReference_Ok o m m' :
  SetOwnerReference o m = Ok m' → Name m' = Name m ∧ Namespace m' = Namespace m ∧ Labels m' = Labels m.
Proof. unfold SetOwnerReference. destruct (SetControllerReference o m); [|done]. by intros [= <-]. Qed.

(** C18: The objects rendered for a gateway make one gateway, and the pod they describe runs the agent
    on them: the Service's packets reach the port the agent's device listens on, the
    Secret's state is the file it reads, its probes reach its health server, and no
    two containers, volumes or ports collide. *)
Theorem gateway_fits img pull wg state priv pub dep svc sec :
  deployment_ForWireguard img pull wg = Ok dep → service_ForWireguard wg = Ok svc →
  secret_ForWireguard wg state priv pub = Ok sec →
  fits dep svc sec ∧ runs_agent dep svc sec.
Proof.
  unfold deployment_ForWireguard, service_ForWireguard, secret_ForWireguard. cbv zeta.
  destruct (SetOwnerReference _ _) as [md|] eqn:Hd; [|done]. intros [= <-].
  destruct (SetOwnerReference _ (labelled_meta (_ +:+ "-svc") _ _)) as [ms|] eqn:Hs; [|done]. intros [= <-].
  destruct (SetOwnerReference _ (labelled_meta (Name _) _ _)) as [mc|] eqn:Hc; [|done]. intros [= <-].
  apply SetOwnerReference_Ok in Hd as (_ & Hd & _), Hs as (_ & Hs & _), Hc as (Hn & Hc & _). cbn in Hd, Hs, Hn, Hc.
  split.
  - split; cbn [dep_Spec dep_meta svc_meta sec_meta svc_Selector svc_Ports ds_Selector ds_TemplateLabels ds_Replicas ds_StrategyType].
    + by rewrite Hd, Hs, Hc.
    + split; (apply insert_subseteq; unfold LabelsForWireguard; by rewrite !lookup_insert_ne).
    + by_evaluation.
    + by_evaluation.
    + cbn. intros c m. rewrite !elem_of_cons, elem_of_nil. intros [->|[->|[->|[]]]]; cbn; rewrite ?elem_of_cons, ?elem_of_nil;
        [tauto| |tauto]. intros [->|[->|[]]]; cbn; tauto.
    + cbn. intros v n. rewrite !elem_of_cons, elem_of_nil. intros [->|[->|[]]]; cbn; [done|]. intros [= <-]. by rewrite Hn.
    + by_evaluation.
    + intros p ->%list_elem_of_singleton. eexists _, _. split; [left|]. split; [left|]. done.
    + done.
  - exists (agentContainer img pull wg true false). eexists. eexists. cbn [dep_Spec ds_Template po_Containers svc_Ports sec_meta].
    split; [left|]. split; [reflexivity|]. split; [done|]. split; [done|]. split; [vm_compute; reflexivity|].
    split; [done|]. split; [|split].
    + by intros p ->%list_elem_of_singleton.
    + eexists _, _, "state.json". split; [right; left|]. split; [right; left|]. cbn. split_and!; [done|by rewrite Hn| |done].
      unfold data. set_solver.
    + intros p [->| ->%list_elem_of_singleton]%elem_of_cons; eexists; (split; [reflexivity|]); by vm_compute.
Qed.
End gateway.

(** ** The environment of a container *)

(** What the kubelet gives a container for [n]: the last entry of [env] with the name, a
    field of the pod where it refers to one, and otherwise what [envFrom] has. *)
Definition env_of (field : string → string) (from : string → option string) (c : Container) (n : string) : option string :=
  match List.find (λ e, bool_decide (ev_Name e = n)) (reverse (co_Env c)) with
  | Some e => Some (match ev_FieldRef e with Some f => field f | None => ev_Value e end)
  | None => from n
  end.

Lemma find_reverse_app {A} (p : A → bool) l k :
  List.find p (reverse (l ++ k)) = match List.find p (reverse k) with Some x => Some x | None => List.find p (reverse l) end.
Proof. rewrite reverse_app. induction (reverse k) as [|x r IH]; [done|]. cbn. by destruct (p x). Qed.

Lemma reservedInEnv_empty l : reservedInEnv l = "" → Forall (λ e, ev_Name e = "" ∨ isReservedGluetunEnv (ev_Name e) = false) l.
Proof.
  induction l as [|e l IH]; cbn [reservedInEnv]; [constructor|].
  destruct (isReservedGluetunEnv (ev_Name e)) eqn:He; intros Hr; [|constructor; auto].
  rewrite Hr in He. by vm_compute in He.
Qed.

Lemma reserved_names locals : ev_Name <$> ReservedGluetunEnv locals = ev_Name <$> ReservedGluetunEnv [].
Proof. done. Qed.

Lemma contains_byte_join c sep l :
  contains_byte c sep = false → Forall (λ s, contains_byte c s = false) l → contains_byte c (join sep l) = false.
Proof.
  intros Hs. induction 1 as [|s l Hc Hl IH]; [done|]. destruct l as [|s' l]; [done|].
  cbn [join] in IH |- *. by rewrite !contains_byte_app, Hc, Hs, IH.
Qed.

Lemma contains_byte_digits c s : all_digits s = true → is_digit c = false → contains_byte c s = false.
Proof.
  induction s as [|d s IH]; intros Hd Hc; [done|]. cbn [all_digits contains_byte] in *.
  apply andb_true_iff in Hd as [Hd Hs]. rewrite IH, orb_false_r by done. apply bool_decide_eq_false_2. intros ->. congruence.
Qed.

Lemma canonical_no_byte c s v b :
  canonical s v b → is_digit c = false → c ≠ "."%char → c ≠ "/"%char → contains_byte c s = false.
Proof.
  intros (-> & Hv & Hb & _) Hd H1 H2. unfold text4. rewrite !contains_byte_app, string4_no_byte by done.
  rewrite (contains_byte_digits c (Itoa b)) by (try apply Itoa_digits; try done; lia). cbn. by rewrite bool_decide_eq_false_2.
Qed.

(** C19: gluetun runs with the operator's settings. In the container rendered for a spec that passed
    its checks, each variable the gateway's routing depends on has the operator's value,
    whatever the spec's variables, the Secrets and the ConfigMaps it refers to set, and the
    value is literal: it refers to no other variable. *)
Theorem gluetun_env_reserved wg field from e :
  specProblem_pure wg = None → e ∈ ReservedGluetunEnv (LocalCIDRs (wg_Spec wg)) →
  env_of field from (gluetunContainer wg) (ev_Name e) = Some (ev_Value e) ∧ contains_byte "$"%char (ev_Value e) = false.
Proof.
  intros Hsp He. pose proof (specProblem_networks _ Hsp) as [_ Hl _].
  apply specProblem_pure_None in Hsp as (_ & _ & _ & _ & _ & Hr). apply reservedInEnv_empty in Hr.
  split.
  - unfold env_of, gluetunContainer. cbn [co_Env]. rewrite find_reverse_app.
    destruct (List.find _ (reverse (g_Env _))) as [e'|] eqn:Hf.
    + apply List.find_some in Hf as [Hin Hn%bool_decide_eq_true]. exfalso.
      apply list_elem_of_In in Hin. rewrite elem_of_reverse in Hin. rewrite Forall_forall in Hr. destruct (Hr e' Hin) as [Hz|Hnr].
      * rewrite Hn in Hz. clear -He Hz. unfold ReservedGluetunEnv in He. rewrite !elem_of_cons, elem_of_nil in He.
        by repeat destruct He as [->|He].
      * rewrite Hn in Hnr. unfold isReservedGluetunEnv in Hnr. apply list_elem_of_In in He.
        assert (existsb (λ x, bool_decide (ev_Name x = ev_Name e)) (ReservedGluetunEnv []) = true) as Ht; [|congruence].
        apply existsb_exists. assert (ev_Name e ∈ ev_Name <$> ReservedGluetunEnv []) as (x & Hx & Hin')%list_elem_of_fmap.
        { rewrite <- (reserved_names (LocalCIDRs (wg_Spec wg))). apply list_elem_of_fmap_2. by apply list_elem_of_In. }
        exists x. split; [by apply list_elem_of_In|]. by apply bool_decide_eq_true.
    + clear -He. unfold ReservedGluetunEnv in He |- *. rewrite !elem_of_cons, elem_of_nil in He.
      by repeat destruct He as [->|He].
  - unfold ReservedGluetunEnv in He. rewrite !elem_of_cons, elem_of_nil in He. repeat destruct He as [->|He]; try done.
    cbn [env ev_Value]. apply contains_byte_join; [done|]. apply Forall_forall. intros c Hc.
    destruct (Hl c Hc) as (v & b & Hcan & _). by eapply canonical_no_byte.
Qed.

(** ** Which pods are injected *)

(** What Kubernetes documents of label selectors, with the operators the policy uses. *)
Definition meets (labels : gmap string string) (r : LabelSelectorRequirement) : Prop :=
  if decide (ls_Operator r = "DoesNotExist") then labels !! ls_Key r = None
  else if decide (ls_Operator r = "NotIn") then ∀ v, labels !! ls_Key r = Some v → v ∉ ls_Values r
  else False.

Definition selects (s : LabelSelector) (labels : gmap string string) : Prop :=
  ls_MatchLabels s ⊆ labels ∧ Forall (meets labels) (ls_MatchExpressions s).

(** The policy applies to a pod with [labels] in a namespace with [nsLabels]. *)
Definition applies (m : MatchResources) (nsLabels labels : gmap string string) : Prop :=
  selects (mr_ObjectSelector m) labels ∧ selects (mr_NamespaceSelector m) nsLabels.

Lemma injectSelectors_applies ns nsLabels labels :
  nsLabels !! "kubernetes.io/metadata.name" = Some ns →
  applies injectSelectors nsLabels labels ↔
    labels !! LabelEnabled = Some "true" ∧ labels !! LabelComponent = None ∧ ns ≠ excludedNamespace.
Proof.
  intros Hns. unfold applies, selects, injectSelectors.
  cbn [mr_ObjectSelector mr_NamespaceSelector ls_MatchLabels ls_MatchExpressions]. rewrite !Forall_singleton.
  unfold meets. cbn [ls_Operator ls_Key ls_Values].
  rewrite decide_True, decide_False, decide_True, Hns, map_singleton_subseteq_l by done.
  split.
  - intros ((He & Hc) & _ & Hn). split_and!; [done..|]. intros ->. by apply (Hn excludedNamespace eq_refl); left.
  - intros (He & Hc & Hn). split_and!; [done|done|apply map_empty_subseteq|].
    by intros v [= <-] ->%list_elem_of_singleton.
Qed.

(** C24: The client role is bound exactly for pods that are injected. Of the labelled pods of a namespace,
    one makes the operator bind the client role there if and only if the selectors of the
    admission policy match it. *)
Theorem binding_follows_injection ns nsLabels pods :
  nsLabels !! "kubernetes.io/metadata.name" = Some ns →
  Forall (λ p, Labels (pod_meta p) !! LabelEnabled = Some "true") pods →
  needsClientRoleBinding ns pods = true ↔ ∃ p, p ∈ pods ∧ applies injectSelectors nsLabels (Labels (pod_meta p)).
Proof.
  intros Hns Hl. rewrite needsClientRoleBinding_spec. rewrite Forall_forall in Hl. split.
  - intros (Hn & p & Hp & Hc). exists p. split; [done|]. apply (injectSelectors_applies ns); auto.
  - intros (p & Hp & Ha). apply (injectSelectors_applies ns) in Ha as (_ & Hc & Hn); [|done]. eauto.
Qed.

(** The pods of a gateway are never injected. *)
Lemma gateway_not_injected `{OwnerLib} img pull wg dep nsLabels :
  deployment_ForWireguard img pull wg = Ok dep →
  ¬ applies injectSelectors nsLabels (ds_TemplateLabels (dep_Spec dep)).
Proof.
  unfold deployment_ForWireguard. cbv zeta. destruct (SetOwnerReference _ _); [|done]. intros [= <-].
  intros [[_ [Hm _]%Forall_cons] _]. unfold meets in Hm. cbn in Hm. by rewrite lookup_insert_eq in Hm.
Qed.

(** ** The injected client *)

(** A name Kubernetes accepts holds no slash. *)
Definition named (s : string) : Prop := s ≠ "" ∧ contains_byte "/"%char s = false.

Section client.
Context `{WgTypes, MetaLib, ConditionLib, !agent.StateCodec, !Sha256}.

(** The environment the kubelet gives [c] in a pod with the fields [field]. *)
Definition getenv_of (field : string → string) (c : Container) (n : string) : string :=
  default "" (env_of field (λ _, None) c n).

Definition podFields : list string := ["metadata.name"; "metadata.namespace"; "metadata.uid"; "status.podIP"; "status.hostIP"].

Lemma injected_config image gw field :
  named (nn_Namespace gw) → named (nn_Name gw) → Forall (λ f, field f ≠ "") podFields →
  field "status.podIP" ≠ field "status.hostIP" →
  ConfigFromEnv (nn_String gw) DefaultKeyPath (getenv_of field (injectedSidecar image (nn_String gw)).1) =
    Ok {| cf_Wireguard := nn_Name gw; cf_WireguardNamespace := nn_Namespace gw; cf_KeyPath := DefaultKeyPath;
          cf_PodName := field "metadata.name"; cf_PodNamespace := field "metadata.namespace";
          cf_PodUID := field "metadata.uid" |}.
Proof.
  intros [Hns Hnss] [Hn Hnns] Hf Hip. apply ConfigFromEnv_accepts. exists (nn_Name gw), (nn_Namespace gw).
  split_and!; [by right| |exact Hip|done].
  unfold podFields in Hf. rewrite !Forall_cons in Hf. destruct Hf as (? & ? & ? & ? & ? & _).
  unfold podEnv. repeat (apply Forall_cons; split; [done|]). constructor.
Qed.

(** C17: The client the policy injects attaches its pod to the gateway it was rendered for. On the
    container's command line and environment the agent runs the client, with a
    configuration under which the peer it registers has the pod's name and the pod as its
    controller and refers to the gateway; the startup probe asks whether the tunnel is up;
    and the private key is kept in memory. *)
Theorem injected_client_attaches image gw field passes l :
  named (nn_Namespace gw) → named (nn_Name gw) → Forall (λ f, field f ≠ "") podFields →
  field "status.podIP" ≠ field "status.hostIP" →
  let '(c, vols) := injectedSidecar image (nn_String gw) in
  let getenv := getenv_of field c in
  ∃ cfg,
    agentMain ("agent" :: co_Args c) getenv passes l =
      (r <- Run cfg passes ;; match r with Err _ => Ret 1 | Ok _ => Ret 0 end) ∧
    (∀ publicKey, let peer := desiredPeer cfg publicKey in
       gatewayKey peer = gw ∧ PublicKey (wp_Spec peer) = publicKey ∧
       Namespace (wp_meta peer) = field "metadata.namespace" ∧ Name (wp_meta peer) = field "metadata.name" ∧
       ∃ o, GetControllerOf (wp_meta peer) = Some o ∧ or_Kind o = "Pod" ∧ or_UID o = field "metadata.uid") ∧
    (∃ p argv, co_StartupProbe c = Some p ∧ pr_Handler p = Exec argv ∧
       agentMain argv getenv passes l =
         (r <- Check WgInterface ;; match r with Err _ => Ret 1 | Ok _ => Ret 0 end)) ∧
    (∃ m v file, m ∈ co_VolumeMounts c ∧ v ∈ vols ∧ vm_Name m = v_Name v ∧ v_Source v = EmptyDir "Memory" ∧
       cf_KeyPath cfg = vm_MountPath m +:+ "/" +:+ file).
Proof.
  intros Hns Hn Hf Hip. destruct (injectedSidecar image (nn_String gw)) as [c vols] eqn:Hc. cbv zeta.
  pose proof (injected_config image gw field Hns Hn Hf Hip) as Hcfg. rewrite Hc in Hcfg. cbn [fst] in Hcfg.
  set (cfg := {| cf_Wireguard := nn_Name gw |}) in Hcfg. exists cfg.
  unfold injectedSidecar in Hc. injection Hc as Hc <-.
  assert (co_Args c = ["client"; "--wireguard"; nn_String gw]) as -> by by rewrite <- Hc.
  split_and!.
  - cbn [agentMain]. unfold runClient.
    assert (clientFlags ["--wireguard"; nn_String gw] = Some (nn_String gw, false)) as -> by reflexivity. by rewrite Hcfg.
  - intros pk. split_and!; [|done..|].
    + destruct gw as [ns n], Hns as [Hns _]. unfold gatewayKey, cfg. cbn in *. by destruct ns.
    + eexists. rewrite GetControllerOf_spec. by split_and!.
  - rewrite <- Hc. eexists _, _. split; [reflexivity|]. split; [reflexivity|]. reflexivity.
  - rewrite <- Hc. eexists _, _, _. split; [left|]. split; [left|]. done.
Qed.
End client.

(** ** Witnesses *)

#[local] Existing Instances Reference.wgtypes Reference.metalib Reference.conditions RefCluster.owners RefCluster.codec RefAgent.sha.

Lemma gateway_fits_witness :
  ∃ dep svc sec, deployment_ForWireguard "agent:1" "" RefCluster.gw = Ok dep ∧
    service_ForWireguard RefCluster.gw = Ok svc ∧ secret_ForWireguard RefCluster.gw "{}" "priv" "pub" = Ok sec ∧
    fits dep svc sec ∧ runs_agent dep svc sec.
Proof.
  eexists _, _, _. split; [reflexivity|]. split; [reflexivity|]. split; [reflexivity|].
  apply (gateway_fits "agent:1" "" RefCluster.gw "{}" "priv" "pub"); reflexivity.
Defined.

Lemma gluetun_env_reserved_witness :
  env_of id (λ _, Some "leak") (gluetunContainer RefCluster.gw) "FIREWALL_OUTBOUND_SUBNETS" = Some "10.96.0.0/12".
Proof.
  destruct (gluetun_env_reserved RefCluster.gw id (λ _, Some "leak") (env "FIREWALL_OUTBOUND_SUBNETS" "10.96.0.0/12")) as [H _];
    [by vm_compute| |exact H].
  unfold ReservedGluetunEnv. rewrite !elem_of_cons. vm_compute. tauto.
Defined.

Module RefPods.
Definition pod (labels : gmap string string) : Pod :=
  {| pod_meta := {| Name := "app"; Namespace := "apps"; UID := "u1"; ResourceVersion := "1"; Generation := 0;
                    CreationTimestamp := 0; Labels := labels; Annotations := ∅; OwnerReferences := [] |} |}.

Definition pods : list Pod :=
  [pod {[ LabelEnabled := "true"; LabelComponent := "wireguard" ]}; pod {[ LabelEnabled := "true" ]}].

Definition field (f : string) : string :=
  if bool_decide (f = "status.podIP") then "10.1.0.7" else if bool_decide (f = "status.hostIP") then "192.168.0.2" else "app".
End RefPods.

Lemma binding_follows_injection_witness :
  ∃ p, p ∈ RefPods.pods ∧ applies injectSelectors {[ "kubernetes.io/metadata.name" := "apps" ]} (Labels (pod_meta p)).
Proof.
  apply (binding_follows_injection "apps"); [reflexivity| |reflexivity].
  repeat (apply Forall_cons; split; [reflexivity|]). constructor.
Defined.

Lemma injected_client_attaches_witness :
  ∃ cfg, gatewayKey (desiredPeer cfg "pk") = NN "vpn" "gw" ∧
    Name (wp_meta (desiredPeer cfg "pk")) = "app".
Proof.
  destruct (injected_client_attaches "agent:1" (NN "vpn" "gw") RefPods.field [] []) as (cfg & _ & Hp & _).
  - by split.
  - by split.
  - repeat (apply Forall_cons; split; [done|]). constructor.
  - done.
  - exists cfg. destruct (Hp "pk") as (Hg & _ & _ & Hn & _). exact (conj Hg Hn).
Defined.
