(* ===== verification/Watches.v ===== *)
(** * What makes the controllers run ([SetupWithManager] of [internal/controller],
    [wireguardForPeer] of [peers.go], [CacheOptions] of [injection_rbac.go])

    The watches of the three controllers, as the requests a change in the cluster makes, and
    the selectors of the cache they are made through. A controller is a queue of requests:
    changes add to it, passes take from it. For each controller, a key that has no request in
    the queue was last passed over when the cluster was, for what that pass reads, as it
    is now. *)

From S2P Require Import Prelude GoStd Effects Api External Peers Resources Gateway Controller ReferenceCluster Rbac Injection InjectionFacts.

(** ** The cluster *)

(** The objects the controllers watch. *)
Inductive object :=
  | OWireguard (w : Wireguard)
  | OPeer (p : WireguardPeer)
  | OService (s : Service)
  | ODeployment (d : Deployment)
  | OSecret (s : Secret)
  | OPod (p : Pod)
  | ORoleBinding (b : RoleBinding).

Inductive kind := KWireguard | KPeer | KService | KDeployment | KSecret | KPod | KRoleBinding.

#[export] Instance kind_eq_dec : EqDecision kind.
Proof. solve_decision. Defined.

#[export] Instance kind_countable : Countable kind.
Proof.
  refine (inj_countable' (λ k, match k with KWireguard => 0 | KPeer => 1 | KService => 2 | KDeployment => 3
      | KSecret => 4 | KPod => 5 | KRoleBinding => 6 end%nat)
    (λ n, match n with 0 => KWireguard | 1 => KPeer | 2 => KService | 3 => KDeployment | 4 => KSecret | 5 => KPod
      | _ => KRoleBinding end%nat) _).
  by intros [].
Defined.

Definition kind_of (o : object) : kind :=
  match o with
  | OWireguard _ => KWireguard | OPeer _ => KPeer | OService _ => KService | ODeployment _ => KDeployment
  | OSecret _ => KSecret | OPod _ => KPod | ORoleBinding _ => KRoleBinding
  end.

Definition meta_of (o : object) : ObjectMeta :=
  match o with
  | OWireguard w => wg_meta w | OPeer p => wp_meta p | OService s => svc_meta s | ODeployment d => dep_meta d
  | OSecret s => sec_meta s | OPod p => pod_meta p | ORoleBinding b => rb_meta b
  end.

Definition id_of (o : object) : kind * NamespacedName := (kind_of o, key_of (meta_of o)).

Abbreviation cluster := (gmap (kind * NamespacedName) object).

(** A change to an object, as a watch reports it. *)
Inductive change := Created (o : object) | Updated (old new : object) | Deleted (o : object).

Definition objects (c : change) : list object :=
  match c with Created o | Deleted o => [o] | Updated o n => [o; n] end.

Definition latest (c : change) : object := match c with Created o | Deleted o | Updated _ o => o end.

Definition olds (c : change) : list object := match c with Created _ => [] | Updated o _ | Deleted o => [o] end.
Definition news (c : change) : list object := match c with Deleted _ => [] | Updated _ n | Created n => [n] end.

Inductive happens : change → cluster → cluster → Prop :=
  | happens_create o s : s !! id_of o = None → happens (Created o) s (<[id_of o := o]> s)
  | happens_update o n s : s !! id_of o = Some o → id_of n = id_of o → happens (Updated o n) s (<[id_of n := n]> s)
  | happens_delete o s : s !! id_of o = Some o → happens (Deleted o) s (delete (id_of o) s).

Definition contents (s : cluster) : list object := (map_to_list s).*2.

Definition as_wireguard (o : object) : option Wireguard := match o with OWireguard w => Some w | _ => None end.
Definition as_peer (o : object) : option WireguardPeer := match o with OPeer p => Some p | _ => None end.
Definition as_pod (o : object) : option Pod := match o with OPod p => Some p | _ => None end.

(** What listing the Wireguards, the peers, or the labelled pods of a namespace gives. *)
Definition wireguards (s : cluster) : list Wireguard := omap as_wireguard (contents s).
Definition peers (s : cluster) : list WireguardPeer := omap as_peer (contents s).

Definition labelled (ns : string) (p : Pod) : Prop :=
  Namespace (pod_meta p) = ns ∧ Labels (pod_meta p) !! LabelEnabled = Some "true".

#[export] Instance labelled_dec ns p : Decision (labelled ns p).
Proof. unfold labelled. apply _. Defined.

Definition labelledPods (ns : string) (s : cluster) : list Pod := filter (labelled ns) (omap as_pod (contents s)).

Lemma happens_contents c s s' :
  happens c s s' → ∃ rest, contents s ≡ₚ olds c ++ rest ∧ contents s' ≡ₚ news c ++ rest.
Proof.
  assert (∀ (m : cluster) i o, m !! i = None → contents (<[i:=o]> m) ≡ₚ o :: contents m) as Hins.
  { intros m i o Hi. unfold contents. apply (fmap_Permutation snd _ _ (map_to_list_insert m i o Hi)). }
  assert (∀ (m : cluster) i o, m !! i = Some o → contents m ≡ₚ o :: contents (delete i m)) as Hdel.
  { intros m i o Hi. rewrite <- (insert_delete_id m i o Hi) at 1. apply Hins, lookup_delete_eq. }
  intros [o s0 Hn|o n s0 Ho Hid|o s0 Ho]; cbn [olds news].
  - exists (contents s0). auto.
  - exists (contents (delete (id_of o) s0)). split; [by apply Hdel|].
    rewrite Hid, <- insert_delete_eq. apply Hins, lookup_delete_eq.
  - exists (contents (delete (id_of o) s0)). split; [by apply Hdel|done].
Qed.

Lemma happens_elsewhere c s s' i : happens c s s' → i ≠ id_of (latest c) → s' !! i = s !! i.
Proof. intros [] Hi; cbn in Hi; [by rewrite lookup_insert_ne..|by rewrite lookup_delete_ne]. Qed.

(** Both objects of an update are one kind and have one key. *)
Lemma happens_id c s s' o : happens c s s' → o ∈ objects c → id_of o = id_of (latest c).
Proof.
  intros [] Ho; cbn in *; rewrite !elem_of_cons, elem_of_nil in Ho; [by destruct Ho as [->|[]]| |by destruct Ho as [->|[]]].
  by destruct Ho as [->|[->|[]]].
Qed.

Lemma latest_objects c : latest c ∈ objects c.
Proof. destruct c; [left|right; left|left]. Qed.
Lemma olds_objects c o : o ∈ olds c → o ∈ objects c.
Proof. destruct c; cbn; rewrite ?elem_of_cons, ?elem_of_nil; tauto. Qed.
Lemma news_objects c o : o ∈ news c → o ∈ objects c.
Proof. destruct c; cbn; rewrite ?elem_of_cons, ?elem_of_nil; tauto. Qed.

Lemma happens_untouched c s s' i o : happens c s s' → o ∉ objects c → s !! i = Some o ↔ s' !! i = Some o.
Proof.
  intros [x s0 Hx|x n s0 Hx Hid|x s0 Hx] Ho; cbn in Ho; rewrite !not_elem_of_cons in Ho.
  - rewrite lookup_insert_Some. destruct Ho as [Ho _]. split; [|by intros [[_ <-]|[_ ?]]].
    intros Hi. right. split; [intros <-; congruence|done].
  - rewrite lookup_insert_Some. destruct Ho as (Ho & Hn & _). split; [|by intros [[_ <-]|[_ ?]]].
    intros Hi. right. split; [intros <-; congruence|done].
  - rewrite lookup_delete_Some. destruct Ho as [Ho _]. split; [|by intros [_ ?]].
    intros Hi. split; [intros <-; congruence|done].
Qed.

(** ** controller-runtime *)

(** The group of [APIVersion]: [schema.ParseGroupVersion]. *)
Definition group_of (apiVersion : string) : string :=
  match cut "/"%char apiVersion with Some (g, _) => g | None => "" end.

Section runtime.
Context `{MetaLib}.

(** The object of [group] and [kind] that controls [o], in the namespace of [o]. *)
Definition controller_of (group kind : string) (o : object) : option NamespacedName :=
  match GetControllerOf (meta_of o) with
  | Some r => if decide (or_Kind r = kind ∧ group_of (or_APIVersion r) = group)
              then Some (NN (Namespace (meta_of o)) (or_Name r)) else None
  | None => None
  end.

(** Handlers and predicates of [sigs.k8s.io/controller-runtime], with what their
    documentation says: a handler that maps objects maps the old and the new one of an
    update, and the predicate passes an update exactly when the annotations changed. *)
Class ControllerRuntime := {
  EnqueueRequestForObject : change → list NamespacedName;
  EnqueueRequestForOwner : string → string → change → list NamespacedName;
  EnqueueRequestsFromMapFunc : (object → list NamespacedName) → change → list NamespacedName;
  AnnotationChangedPredicate : change → bool;
  EnqueueRequestForObject_spec : ∀ c k, k ∈ EnqueueRequestForObject c ↔ k = key_of (meta_of (latest c));
  EnqueueRequestForOwner_spec : ∀ group kind c k,
    k ∈ EnqueueRequestForOwner group kind c ↔ ∃ o, o ∈ objects c ∧ controller_of group kind o = Some k;
  EnqueueRequestsFromMapFunc_spec : ∀ f c k,
    k ∈ EnqueueRequestsFromMapFunc f c ↔ ∃ o, o ∈ objects c ∧ k ∈ f o;
  AnnotationChangedPredicate_spec : ∀ c, AnnotationChangedPredicate c =
    match c with
    | Updated o n => negb (bool_decide (Annotations (meta_of n) = Annotations (meta_of o)))
    | _ => true
    end;
}.
End runtime.

(** A watch: the kind of object, the handler and the predicates; and what a controller is
    built of, with the requests its raw sources add at the start. *)
Record watch := { on : kind; enqueue : change → list NamespacedName; passing : change → bool }.
Record setup := { watches : list watch; kick : list NamespacedName }.

Definition Watches (k : kind) (h : change → list NamespacedName) (p : change → bool) : watch :=
  {| on := k; enqueue := h; passing := p |}.

Definition everything (c : change) : bool := true.

(** The requests a change that reaches the cache makes. *)
Definition enqueued (st : setup) (c : change) : list NamespacedName :=
  watches st ≫= λ w, if bool_decide (on w = kind_of (latest c)) && passing w c then enqueue w c else [].

Lemma elem_of_enqueued st c k :
  k ∈ enqueued st c ↔ ∃ w, w ∈ watches st ∧ on w = kind_of (latest c) ∧ passing w c = true ∧ k ∈ enqueue w c.
Proof.
  unfold enqueued. rewrite list_elem_of_bind. split.
  - intros (w & Hk & Hw). exists w. destruct (bool_decide_reflect (on w = kind_of (latest c))), (passing w c) eqn:Hp; cbn in Hk;
      first [by apply not_elem_of_nil in Hk|by split_and!].
  - intros (w & Hw & Hon & Hp & Hk). exists w. by rewrite Hp, bool_decide_eq_true_2.
Qed.

(** ** The cache *)

(** [cache.ByObject]: labels and a field an object has to have to be cached. *)
Record ByObject := { by_Label : gmap string string; by_Name : option string }.

(** [CacheOptions] *)
Definition CacheOptions (k : kind) : ByObject :=
  match k with
  | KPod => {| by_Label := {[ LabelEnabled := "true" ]}; by_Name := None |}
  | KRoleBinding => {| by_Label := ∅; by_Name := Some ClientRoleName |}
  | _ => {| by_Label := ∅; by_Name := None |}
  end.

Definition cached (o : object) : bool :=
  let b := CacheOptions (kind_of o) in
  forallb (λ kv, bool_decide (Labels (meta_of o) !! kv.1 = Some kv.2)) (map_to_list (by_Label b)) &&
  match by_Name b with Some n => bool_decide (Name (meta_of o) = n) | None => true end.

(** A change as a watch with the cache's selectors reports it: an object that comes to match is
    created, one that ceases to is deleted. *)
Definition observed (c : change) : option change :=
  match c with
  | Created o | Deleted o => if cached o then Some c else None
  | Updated o n =>
      if cached o then Some (if cached n then c else Deleted o)
      else if cached n then Some (Created n) else None
  end.

(** The requests a change in the cluster makes. *)
Definition requests (st : setup) (c : change) : list NamespacedName := from_option (enqueued st) [] (observed c).

Lemma cached_pod p : cached (OPod p) = bool_decide (Labels (pod_meta p) !! LabelEnabled = Some "true").
Proof. unfold cached. cbn [kind_of CacheOptions by_Label by_Name]. rewrite map_to_list_singleton. cbn. by rewrite !andb_true_r. Qed.

Lemma cached_binding b : cached (ORoleBinding b) = bool_decide (Name (rb_meta b) = ClientRoleName).
Proof. done. Qed.

(** Every other kind is cached whole. *)
Lemma requests_whole st c :
  kind_of (latest c) ∉ [KPod; KRoleBinding] → (∀ o, o ∈ objects c → kind_of o = kind_of (latest c)) →
  requests st c = enqueued st c.
Proof.
  intros Hk Ho. assert (∀ o, kind_of o ∉ [KPod; KRoleBinding] → cached o = true) as Hc.
  { intros []; cbn; rewrite ?elem_of_cons; intros ?; try done; tauto. }
  unfold requests, observed. destruct c as [o|o n|o]; cbn in *; rewrite ?(Hc o), ?(Hc n); try done.
  rewrite (Ho o) by left. done.
Qed.

(** ** The controllers *)

(** The group of the operator's own kinds. *)
Definition Group : string := GroupVersion.1.

(** [wireguardForPeer] *)
Definition wireguardForPeer (obj : object) : list NamespacedName :=
  match obj with
  | OPeer peer => if decide (WireguardRef (wp_Spec peer) = "") then [] else [gatewayKey peer]
  | _ => []
  end.

(** The singleton key of the injection controller. *)
Definition injectionKey : NamespacedName := NN "injection" "policy".

(** The request for the namespace of an object. *)
Definition namespaceOf (obj : object) : list NamespacedName := [NN "" (Namespace (meta_of obj))].

(** [predicate.Funcs] with an [UpdateFunc] that is never true *)
Definition noUpdates (c : change) : bool := match c with Updated _ _ => false | _ => true end.

Section setups.
Context `{ControllerRuntime}.

Definition For (k : kind) : watch := Watches k EnqueueRequestForObject everything.
Definition Owns (k : kind) : watch := Watches k (EnqueueRequestForOwner Group "Wireguard") everything.

(** [WireguardReconciler.SetupWithManager] *)
Definition WireguardReconciler_SetupWithManager : setup := {|
  watches := [For KWireguard;
              Watches KPeer (EnqueueRequestsFromMapFunc wireguardForPeer) everything;
              Owns KService; Owns KDeployment; Owns KSecret];
  kick := [];
|}.

(** [InjectionPolicyReconciler.SetupWithManager] *)
Definition InjectionPolicyReconciler_SetupWithManager : setup := {|
  watches := [Watches KWireguard (EnqueueRequestsFromMapFunc (λ _, [injectionKey])) AnnotationChangedPredicate];
  kick := [injectionKey];
|}.

(** [ClientRoleBindingReconciler.SetupWithManager] *)
Definition ClientRoleBindingReconciler_SetupWithManager : setup := {|
  watches := [Watches KPod (EnqueueRequestsFromMapFunc namespaceOf) noUpdates;
              Watches KRoleBinding (EnqueueRequestsFromMapFunc namespaceOf) everything];
  kick := [];
|}.
End setups.

(** ** The queue *)

(** A controller: the cluster as it is, the requests that wait, and for each key the cluster as it
    was when its last pass began. *)
Record state := { now : cluster; queue : gset NamespacedName; began : gmap NamespacedName cluster }.

(** What a controller with [st] does while only changes in [allowed] happen: a change adds its
    requests, a pass takes one, and a pass that failed or asked for it, adds its own again. *)
Inductive step (st : setup) (allowed : change → Prop) : state → state → Prop :=
  | step_change c s σ : happens c (now σ) s → allowed c →
      step st allowed σ {| now := s; queue := queue σ ∪ list_to_set (requests st c); began := began σ |}
  | step_begin k σ : k ∈ queue σ →
      step st allowed σ {| now := now σ; queue := queue σ ∖ {[ k ]}; began := <[k := now σ]> (began σ) |}
  | step_again k σ : step st allowed σ {| now := now σ; queue := queue σ ∪ {[ k ]}; began := began σ |}.

(** At the start the objects that exist are yet to be reported, each as created. *)
Definition start (st : setup) : state := {| now := ∅; queue := list_to_set (kick st); began := ∅ |}.

(** [st] reports every change to what [agree] compares of two clusters to the key [k]. *)
Class Covers (st : setup) (allowed : change → Prop) (k : NamespacedName) (agree : relation cluster) := {
  covers_preorder :: (PreOrder agree);
  covers : ∀ c s s', happens c s s' → allowed c → k ∉ requests st c → agree s s';
}.

(** The last pass over [k] began with a cluster that agrees with the present one; or there was no pass,
    and it agrees with the empty one. *)
Definition up_to_date (st : setup) (agree : relation cluster) (k : NamespacedName) (σ : state) : Prop :=
  match began σ !! k with
  | Some s => agree s (now σ)
  | None => (k ∉ kick st) ∧ agree ∅ (now σ)
  end.

Lemma level_triggered st allowed k agree `{!Covers st allowed k agree} σ :
  rtc (step st allowed) (start st) σ → k ∉ queue σ → up_to_date st agree k σ.
Proof.
  intros Hr. assert (k ∈ queue σ ∨ up_to_date st agree k σ) as [?|?]; [|done|done].
  revert σ Hr. apply rtc_ind_r.
  - unfold up_to_date, start. cbn. rewrite lookup_empty, elem_of_list_to_set.
    destruct (decide (k ∈ kick st)); [by left|]. right. by split.
  - intros σ σ' _ Hstep IH. destruct Hstep as [c s σ Hh Ha|k' σ Hk|k' σ]; cbn.
    + rewrite elem_of_union, elem_of_list_to_set. destruct IH as [?|IH]; [by (left; left)|].
      destruct (decide (k ∈ requests st c)) as [?|Hn]; [by (left; right)|]. right.
      pose proof (covers c _ _ Hh Ha Hn) as Hag. unfold up_to_date in *. cbn.
      destruct (began σ !! k); [by etrans|]. split; [apply IH|]. etrans; [apply IH|done].
    + destruct (decide (k' = k)) as [->|Hne].
      * right. unfold up_to_date. cbn. by rewrite lookup_insert_eq.
      * destruct IH as [?|IH]; [left; set_solver|right]. unfold up_to_date in *. cbn. by rewrite lookup_insert_ne.
    + destruct IH as [?|IH]; [left; set_solver|by right].
Qed.

(** ** The Wireguard controller *)

Section wireguard.
Context `{ControllerRuntime}.

Definition ownedKinds : list kind := [KService; KDeployment; KSecret].

(** What a pass over the gateway [k] reads through the cache. *)
Record same_gateway (k : NamespacedName) (s s' : cluster) : Prop := {
  same_wireguard : s' !! (KWireguard, k) = s !! (KWireguard, k);
  same_peers : filter (λ p, gatewayKey p = k) (peers s) ≡ₚ filter (λ p, gatewayKey p = k) (peers s');
  same_owned : ∀ i o, kind_of o ∈ ownedKinds → controller_of Group "Wireguard" o = Some k →
    s !! i = Some o ↔ s' !! i = Some o;
}.

#[export] Instance same_gateway_preorder k : PreOrder (same_gateway k).
Proof.
  split; [by split|]. intros s1 s2 s3 [? ? H12] [? ? H23]. split; [congruence|by etrans|].
  intros i o Hk Hc. by rewrite (H12 i o Hk Hc), (H23 i o Hk Hc).
Qed.

Lemma omap_filter_nil {A B} (f : A → option B) (P : B → Prop) `{∀ x, Decision (P x)} l :
  (∀ x y, x ∈ l → f x = Some y → ¬ P y) → filter P (omap f l) = [].
Proof.
  induction l as [|x l IH]; intros Hl; [done|]. cbn. destruct (f x) as [y|] eqn:Hf.
  - rewrite filter_cons_False by (apply (Hl x); [left|done]). apply IH. intros z y' Hz. apply Hl. by right.
  - apply IH. intros z y' Hz. apply Hl. by right.
Qed.

(** A list the objects of a change do not count for is the same before and after. *)
Lemma filter_unchanged {B} (f : object → option B) (P : B → Prop) `{∀ x, Decision (P x)} c s s' :
  happens c s s' → (∀ o y, o ∈ objects c → f o = Some y → ¬ P y) →
  filter P (omap f (contents s)) ≡ₚ filter P (omap f (contents s')).
Proof.
  intros Hh Ho. destruct (happens_contents _ _ _ Hh) as (rest & Hs & Hs').
  rewrite Hs, Hs', !omap_app, !filter_app, (omap_filter_nil f P (olds c)), (omap_filter_nil f P (news c)); [done|..].
  - intros o y Hin. apply Ho. by apply news_objects.
  - intros o y Hin. apply Ho. by apply olds_objects.
Qed.

Lemma wireguard_requests c s s' w :
  happens c s s' → w ∈ watches WireguardReconciler_SetupWithManager →
  on w = kind_of (latest c) → passing w c = true → ∀ k, k ∈ enqueue w c → k ∈ requests WireguardReconciler_SetupWithManager c.
Proof.
  intros Hh Hw Hon Hp k Hin. rewrite requests_whole.
  - apply elem_of_enqueued. eauto.
  - rewrite <- Hon. cbn in Hw. rewrite !elem_of_cons, elem_of_nil in Hw. destruct Hw as [->|[->|[->|[->|[->|[]]]]]]; by_evaluation.
  - intros o Ho. pose proof (happens_id _ _ _ _ Hh Ho) as Hid. by injection Hid.
Qed.

Lemma WireguardReconciler_covers k : nn_Name k ≠ "" →
  Covers WireguardReconciler_SetupWithManager (λ _, True) k (same_gateway k).
Proof.
  intros Hname. split; [apply _|]. intros c s s' Hh _ Hk. split.
  - apply (happens_elsewhere _ _ _ _ Hh). intros Hid. apply Hk. injection Hid as Hkind Hkey.
    eapply (wireguard_requests _ _ _ (For KWireguard)); [done|left|done|done|].
    by apply EnqueueRequestForObject_spec.
  - apply (filter_unchanged _ _ _ _ _ Hh). intros o p Ho Hp Hg. destruct o; try done. injection Hp as ->. apply Hk.
    pose proof (happens_id _ _ _ _ Hh Ho) as Hid. injection Hid as Hkind _. cbn in Hkind.
    eapply (wireguard_requests _ _ _ (Watches KPeer _ _)); [done|right; left|done|done|].
    apply EnqueueRequestsFromMapFunc_spec. exists (OPeer p). split; [done|]. unfold wireguardForPeer.
    rewrite decide_False; [rewrite Hg; left|]. intros He. apply Hname. by rewrite <- Hg.
  - intros i o Hok Hc. assert (o ∉ objects c) as Hno.
    { intros Ho. apply Hk. pose proof (happens_id _ _ _ _ Hh Ho) as Hid. injection Hid as Hkind _.
      eapply (wireguard_requests _ _ _ (Owns (kind_of o))); [done| |done|done|].
      - unfold ownedKinds in Hok. rewrite !elem_of_cons, elem_of_nil in Hok. cbn. rewrite !elem_of_cons.
        destruct Hok as [->|[->|[->|[]]]]; tauto.
      - apply EnqueueRequestForOwner_spec. eauto. }
    by apply (happens_untouched _ _ _ _ _ Hh).
Qed.
End wireguard.

(** ** The injection controller *)

Section injection.
Context `{ControllerRuntime}.

(** What a pass reads of the Wireguards: the default gateway, or that there is none. *)
Definition same_default (s s' : cluster) : Prop :=
  ∀ operatorNS, defaultGateway (wireguards s) operatorNS = defaultGateway (wireguards s') operatorNS.

#[export] Instance same_default_preorder : PreOrder same_default.
Proof. split; [done|]. intros s1 s2 s3 H1 H2 ns. etrans; [apply H1|apply H2]. Qed.

(** An update that keeps the annotations of a Wireguard keeps the answer. *)
Lemma defaultGateway_annotations o n l ns :
  Annotations (wg_meta n) = Annotations (wg_meta o) → key_of (wg_meta n) = key_of (wg_meta o) →
  defaultGateway (o :: l) ns = defaultGateway (n :: l) ns.
Proof.
  intros Ha Hk. injection Hk as Hns Hn. unfold defaultGateway.
  assert ((λ wg, Name (wg_meta wg)) <$> filter (isDefaultGateway ns) (o :: l) =
    (λ wg, Name (wg_meta wg)) <$> filter (isDefaultGateway ns) (n :: l)) as ->; [|done].
  assert (isDefaultGateway ns o ↔ isDefaultGateway ns n) as Hd by (unfold isDefaultGateway; by rewrite Ha, Hns).
  rewrite !filter_cons. do 2 case_decide; try tauto. cbn. by rewrite Hn.
Qed.

Lemma InjectionPolicyReconciler_covers :
  Covers InjectionPolicyReconciler_SetupWithManager (λ _, True) injectionKey same_default.
Proof.
  split; [apply _|]. intros c s s' Hh _ Hk ns. unfold wireguards.
  destruct (happens_contents _ _ _ Hh) as (rest & Hs & Hs'). rewrite Hs, Hs', !omap_app.
  destruct (decide (kind_of (latest c) = KWireguard)) as [Hw|Hw].
  - rewrite requests_whole in Hk; [|by rewrite Hw; by_evaluation|].
    2:{ intros o Ho. pose proof (happens_id _ _ _ _ Hh Ho) as Hid. by injection Hid. }
    assert (AnnotationChangedPredicate c = false) as Hp.
    { destruct (AnnotationChangedPredicate c) eqn:Hp; [|done]. exfalso. apply Hk, elem_of_enqueued.
      eexists. split; [left|]. split_and!; [done|done|]. apply EnqueueRequestsFromMapFunc_spec. exists (latest c).
      split; [apply latest_objects|left]. }
    rewrite AnnotationChangedPredicate_spec in Hp. destruct Hh as [| o n s0 Ho Hid|]; try done. cbn in Hw.
    apply negb_false_iff, bool_decide_eq_true in Hp. destruct n as [n| | | | | |]; try done. injection Hid as Hid Hns Hname.
    destruct o as [o| | | | | |]; try done. apply defaultGateway_annotations; [done|]. cbn in Hns, Hname. unfold key_of. congruence.
  - assert (∀ l, (∀ o, o ∈ l → o ∈ objects c) → omap as_wireguard l = []) as Hnil.
    { intros l Hl. induction l as [|o l IH]; [done|]. cbn. pose proof (happens_id _ _ _ o Hh (Hl o ltac:(left))) as Hid.
      injection Hid as Hid _. destruct o; [by rewrite <- Hid in Hw|..]; apply IH; intros ? ?; apply Hl; by right. }
    by rewrite (Hnil (olds c) (olds_objects c)), (Hnil (news c) (news_objects c)).
Qed.
End injection.

(** ** The RBAC controller *)

Section binding.
Context `{ControllerRuntime}.

(** Whether the namespace [ns] needs the client's RoleBinding. *)
Definition needs (ns : string) (s : cluster) : bool := needsClientRoleBinding ns (labelledPods ns s).

(** What a pass over [ns] reads. *)
Record same_binding (ns : string) (s s' : cluster) : Prop := {
  same_needs : needs ns s = needs ns s';
  same_rolebinding : s' !! (KRoleBinding, NN ns ClientRoleName) = s !! (KRoleBinding, NN ns ClientRoleName);
}.

#[export] Instance same_binding_preorder ns : PreOrder (same_binding ns).
Proof. split; [by split|]. intros s1 s2 s3 [] []. split; congruence. Qed.

(** A change that does not give a pod the operator's component label, or take it away. *)
Definition keeps_component (c : change) : Prop :=
  match c with
  | Updated (OPod o) (OPod n) => Labels (pod_meta o) !! LabelComponent = None ↔ Labels (pod_meta n) !! LabelComponent = None
  | _ => True
  end.

#[export] Instance needsClientRoleBinding_proper ns : Proper ((≡ₚ) ==> (=)) (needsClientRoleBinding ns).
Proof.
  intros l l' Hl. apply eq_true_iff_eq. rewrite !needsClientRoleBinding_spec. by setoid_rewrite Hl.
Qed.

Lemma needs_app ns l l' : needsClientRoleBinding ns (l ++ l') = needsClientRoleBinding ns l || needsClientRoleBinding ns l'.
Proof. unfold needsClientRoleBinding. rewrite existsb_app. by destruct (negb (bool_decide (ns = _))). Qed.

Lemma needs_nil ns : needsClientRoleBinding ns [] = false.
Proof. unfold needsClientRoleBinding. cbn. by rewrite andb_false_r. Qed.

(** A labelled pod that comes or goes makes a request for its namespace. *)
Lemma pod_requests c ns p :
  labelled ns p → observed c ∈ [Some (Created (OPod p)); Some (Deleted (OPod p))] →
  NN "" ns ∈ requests ClientRoleBindingReconciler_SetupWithManager c.
Proof.
  intros [<- _] Ho. rewrite !elem_of_cons, elem_of_nil in Ho. unfold requests.
  assert (∃ c', observed c = Some c' ∧ objects c' = [OPod p] ∧ latest c' = OPod p ∧ noUpdates c' = true) as (c' & -> & Hc & Hl & Hn).
  { destruct Ho as [->|[->|[]]]; by eexists. }
  cbn [from_option]. apply elem_of_enqueued. eexists. split; [left|]. rewrite Hl. split_and!; [done|done|].
  apply EnqueueRequestsFromMapFunc_spec. exists (OPod p). rewrite Hc. split; left.
Qed.

Lemma labelled_cached ns p : labelled ns p → cached (OPod p) = true.
Proof. intros [_ Hl]. rewrite cached_pod. by apply bool_decide_eq_true. Qed.

(** The labelled pods of [ns] among some objects. *)
Definition among (ns : string) (l : list object) : list Pod := filter (labelled ns) (omap as_pod l).

Lemma among_nil ns o : (∀ p, o = OPod p → ¬ labelled ns p) → among ns [o] = [].
Proof.
  intros Ho. apply omap_filter_nil. intros x p ->%list_elem_of_singleton Hp. destruct o; try done. injection Hp as ->. auto.
Qed.

(** An update that makes no request keeps whether the pod counts. *)
Lemma needs_update ns o n :
  id_of n = id_of o → keeps_component (Updated o n) →
  NN "" ns ∉ requests ClientRoleBindingReconciler_SetupWithManager (Updated o n) →
  needsClientRoleBinding ns (among ns [o]) = needsClientRoleBinding ns (among ns [n]).
Proof.
  intros Hid Hc Hk. injection Hid as Hkind Hns _.
  destruct (decide (kind_of n = KPod)) as [Hp|Hp].
  2:{ rewrite !among_nil; [done|..]; by intros ? ->. }
  destruct n as [| | | | |n|], o as [| | | | |o|]; try done. cbn in Hns, Hc.
  destruct (decide (Namespace (pod_meta n) = ns)) as [Hn|Hn].
  2:{ rewrite !among_nil; [done|..]; intros ? [= <-] [Hl _]; congruence. }
  destruct (decide (labelled ns o)) as [Ho|Ho], (decide (labelled ns n)) as [Hl|Hl].
  - change (needsClientRoleBinding ns (filter (labelled ns) [o]) = needsClientRoleBinding ns (filter (labelled ns) [n])).
    rewrite !filter_cons_True, !filter_nil by done. apply eq_true_iff_eq.
    rewrite !needsClientRoleBinding_spec. setoid_rewrite list_elem_of_singleton.
    split; intros (Hex & p & -> & Hl'); (split; [done|]); eexists; (split; [done|]); tauto.
  - exfalso. apply Hk, (pod_requests _ _ o Ho). cbn. rewrite (labelled_cached _ _ Ho), cached_pod, bool_decide_eq_false_2; [set_solver|].
    intros Hl'. by apply Hl.
  - exfalso. apply Hk, (pod_requests _ _ n Hl). cbn. rewrite (labelled_cached _ _ Hl), cached_pod, bool_decide_eq_false_2; [set_solver|].
    intros Hl'. apply Ho. by split; [congruence|].
  - rewrite !among_nil; [done|..]; by intros ? [= <-].
Qed.

Lemma needs_unchanged ns c s s' :
  happens c s s' → keeps_component c → NN "" ns ∉ requests ClientRoleBindingReconciler_SetupWithManager c →
  needs ns s = needs ns s'.
Proof.
  intros Hh Hc Hk. unfold needs, labelledPods. destruct (happens_contents _ _ _ Hh) as (rest & Hs & Hs').
  rewrite Hs, Hs', !omap_app, !filter_app, !needs_app. f_equal. fold (among ns (olds c)) (among ns (news c)).
  destruct Hh as [o s0 Hn|o n s0 Ho Hid|o s0 Ho]; cbn [olds news].
  - rewrite (among_nil _ o); [done|]. intros p -> Hl. apply Hk, (pod_requests _ _ p Hl). cbn. rewrite (labelled_cached _ _ Hl). left.
  - by apply needs_update.
  - rewrite (among_nil _ o); [done|]. intros p -> Hl. apply Hk, (pod_requests _ _ p Hl). cbn. rewrite (labelled_cached _ _ Hl). right. left.
Qed.

Lemma ClientRoleBindingReconciler_covers ns :
  Covers ClientRoleBindingReconciler_SetupWithManager keeps_component (NN "" ns) (same_binding ns).
Proof.
  split; [apply _|]. intros c s s' Hh Hc Hk. split; [by eapply needs_unchanged|].
  apply (happens_elsewhere _ _ _ _ Hh). intros Hid. apply Hk.
  assert (∀ o, o ∈ objects c → cached o = true) as Hcached.
  { intros o Ho. pose proof (happens_id _ _ _ _ Hh Ho) as Hio. rewrite <- Hid in Hio. injection Hio as Hkind _ Hname.
    destruct o; try done. rewrite cached_binding. by apply bool_decide_eq_true. }
  assert (observed c = Some c) as Hobs.
  { destruct c as [o|o n|o]; cbn in *; rewrite ?(Hcached o), ?(Hcached n) by (repeat constructor || left); done. }
  unfold requests. rewrite Hobs. cbn [from_option]. apply elem_of_enqueued. injection Hid as Hkind Hns _.
  eexists. split; [right; left|]. split_and!; [done|done|]. apply EnqueueRequestsFromMapFunc_spec.
  exists (latest c). split; [apply latest_objects|]. unfold namespaceOf. rewrite <- Hns. left.
Qed.
End binding.

(** ** No pass is missed *)

Section current.
Context `{ControllerRuntime}.

(** C14: The operator misses no change to a gateway. Whatever happens in the cluster and however passes
    interleave with it, a gateway with no request in the queue was last passed over when
    its Wireguard, the peers that refer to it and the objects it controls were as they are now;
    and if it was never passed over there are none of these. *)
Theorem gateway_passes_are_current k σ :
  nn_Name k ≠ "" →
  rtc (step WireguardReconciler_SetupWithManager (λ _, True)) (start WireguardReconciler_SetupWithManager) σ →
  k ∉ queue σ → same_gateway k (default ∅ (began σ !! k)) (now σ).
Proof.
  intros Hk Hr Hq. pose proof (WireguardReconciler_covers k Hk) as Hc.
  pose proof (level_triggered _ _ _ _ _ Hr Hq) as Hu. unfold up_to_date in Hu. by destruct (began σ !! k); [|destruct Hu].
Qed.

(** C25: The injected gateway follows the annotations. When the injection controller has no request in
    its queue it has passed at least once, and the Wireguards its last pass saw give the default
    gateway of the ones that exist, although it is not told of changes to their
    spec or status. *)
Theorem injection_passes_are_current σ :
  rtc (step InjectionPolicyReconciler_SetupWithManager (λ _, True)) (start InjectionPolicyReconciler_SetupWithManager) σ →
  injectionKey ∉ queue σ → ∃ s, began σ !! injectionKey = Some s ∧ same_default s (now σ).
Proof.
  intros Hr Hq. pose proof InjectionPolicyReconciler_covers as Hc.
  pose proof (level_triggered _ _ _ _ _ Hr Hq) as Hu. unfold up_to_date in Hu.
  destruct (began σ !! injectionKey); [by eauto|]. destruct Hu as [Hu _]. destruct Hu. left.
Qed.

(** C26: The client role follows the labelled pods. While no update gives a pod the operator's component
    label or takes it away, a namespace with no request in the queue was last passed over
    when it needed the RoleBinding as it does now, and the binding was as it is now,
    although the cache drops the other pods and bindings and pod updates are not watched. *)
Theorem binding_passes_are_current ns σ :
  rtc (step ClientRoleBindingReconciler_SetupWithManager keeps_component)
    (start ClientRoleBindingReconciler_SetupWithManager) σ →
  NN "" ns ∉ queue σ → same_binding ns (default ∅ (began σ !! NN "" ns)) (now σ).
Proof.
  intros Hr Hq. pose proof (ClientRoleBindingReconciler_covers ns) as Hc.
  pose proof (level_triggered _ _ _ _ _ Hr Hq) as Hu. unfold up_to_date in Hu. by destruct (began σ !! NN "" ns); [|destruct Hu].
Qed.

(** The condition on the label is needed: an update that takes the component label off a labelled
    pod makes the namespace need the binding, and no request. *)
Lemma component_update_unnoticed o n ns :
  labelled ns o → labelled ns n → ns ≠ excludedNamespace →
  is_Some (Labels (pod_meta o) !! LabelComponent) → Labels (pod_meta n) !! LabelComponent = None →
  needsClientRoleBinding ns [o] = false ∧ needsClientRoleBinding ns [n] = true ∧
  requests ClientRoleBindingReconciler_SetupWithManager (Updated (OPod o) (OPod n)) = [].
Proof.
  intros Ho Hn Hns Hco Hcn. split_and!.
  - apply not_true_iff_false. rewrite needsClientRoleBinding_spec. intros (_ & p & ->%list_elem_of_singleton & Hc).
    rewrite Hc in Hco. by destruct Hco.
  - apply needsClientRoleBinding_spec. split; [done|]. exists n. split; [left|done].
  - unfold requests. cbn. by rewrite (labelled_cached _ _ Ho), (labelled_cached _ _ Hn).
Qed.
End current.

(** ** Witnesses *)

Module RefRuntime.
#[export] Existing Instances Reference.metalib.

Definition dedup (l : list NamespacedName) : list NamespacedName := remove_dups l.

#[local] Instance runtime : ControllerRuntime.
Proof.
  refine {| EnqueueRequestForObject c := [key_of (meta_of (latest c))];
            EnqueueRequestForOwner group kind c := dedup (omap (controller_of group kind) (objects c));
            EnqueueRequestsFromMapFunc f c := dedup (objects c ≫= f);
            AnnotationChangedPredicate c :=
              match c with
              | Updated o n => negb (bool_decide (Annotations (meta_of n) = Annotations (meta_of o)))
              | _ => true
              end |}.
  - intros c k. apply list_elem_of_singleton.
  - intros group kind c k. unfold dedup. rewrite elem_of_remove_dups. apply list_elem_of_omap.
  - intros f c k. unfold dedup. rewrite elem_of_remove_dups, list_elem_of_bind. naive_solver.
  - done.
Defined.

(** The controller's state after an object is created, and after a pass begins. *)
Definition created (st : setup) (o : object) (σ : state) : state :=
  {| now := <[id_of o := o]> (now σ); queue := queue σ ∪ list_to_set (requests st (Created o)); began := began σ |}.

Definition begun (k : NamespacedName) (σ : state) : state :=
  {| now := now σ; queue := queue σ ∖ {[ k ]}; began := <[k := now σ]> (began σ) |}.

Lemma created_step st allowed o σ :
  now σ !! id_of o = None → allowed (Created o) → step st allowed σ (created st o σ).
Proof. intros Hn Ha. by apply (step_change st allowed (Created o)); [constructor|]. Qed.

Lemma begun_step st allowed k σ : k ∈ queue σ → step st allowed σ (begun k σ).
Proof. apply step_begin. Qed.

Definition key : NamespacedName := NN "vpn" "gw".

(** A gateway and its peer are created, the gateway is passed over, and a peer of
    another gateway is created. *)
Definition other : WireguardPeer := RefCluster.peer "dave" "apps" 50 RefCluster.keyC "apps" "" "".

Definition passed : state :=
  let st := WireguardReconciler_SetupWithManager in
  created st (OPeer other) (begun key (created st (OPeer RefCluster.bob) (created st (OWireguard RefCluster.gw) (start st)))).

(** A gateway is created and the controller passes. *)
Definition injected : state :=
  let st := InjectionPolicyReconciler_SetupWithManager in
  begun injectionKey (created st (OWireguard RefCluster.gw) (start st)).

(** A labelled pod is created and its namespace passed over. *)
Definition pod : Pod :=
  {| pod_meta := {| Name := "app"; Namespace := "apps"; UID := "u1"; ResourceVersion := "1"; Generation := 0;
                    CreationTimestamp := 0; Labels := {[ LabelEnabled := "true" ]}; Annotations := ∅; OwnerReferences := [] |} |}.

Definition bound : state :=
  let st := ClientRoleBindingReconciler_SetupWithManager in
  begun (NN "" "apps") (created st (OPod pod) (start st)).
End RefRuntime.

#[local] Existing Instances Reference.metalib RefRuntime.runtime.

Ltac history :=
  repeat (eapply rtc_r; [|first [apply RefRuntime.created_step; [reflexivity|exact I]
                                |apply RefRuntime.begun_step; by_evaluation]]);
  apply rtc_refl.

Lemma gateway_passes_are_current_witness :
  filter (λ p, gatewayKey p = RefRuntime.key) (peers (now RefRuntime.passed)) = [RefCluster.bob] ∧
  same_gateway RefRuntime.key (default ∅ (began RefRuntime.passed !! RefRuntime.key)) (now RefRuntime.passed).
Proof.
  split; [vm_compute; reflexivity|]. apply gateway_passes_are_current; [done|history|by_evaluation].
Defined.

Lemma injection_passes_are_current_witness :
  ∃ s, began RefRuntime.injected !! injectionKey = Some s ∧ same_default s (now RefRuntime.injected).
Proof. apply injection_passes_are_current; [history|by_evaluation]. Defined.

Lemma binding_passes_are_current_witness :
  needs "apps" (now RefRuntime.bound) = true ∧
  same_binding "apps" (default ∅ (began RefRuntime.bound !! NN "" "apps")) (now RefRuntime.bound).
Proof. split; [vm_compute; reflexivity|]. apply binding_passes_are_current; [history|by_evaluation]. Defined.
