(* ===== verification/Manager.v ===== *)
(** * The operator's process ([main] of [cmd/manager/main.go])

    The flags, the environment and the order in which the process sets up its manager, its three
    controllers and its health checks before it starts them. What the manager of
    controller-runtime answers is in the trace. *)

From S2P Require Import Prelude GoStd GoFlag Effects Api External Resources Controller Rbac Injection Watches.

#[local] Open Scope prog_scope.

(** ** Flags *)

(** The flags of [main]. *)
Definition managerFlagSet : FlagSet :=
  {[ "metrics-bind-address" := VString ":8080"; "health-probe-bind-address" := VString ":8081";
     "agent-image" := VString ""; "leader-elect" := VBool false;
     "agent-image-pull-policy" := VString "IfNotPresent"; "leader-election-namespace" := VString "" ]}.

Record ManagerFlags := {
  mf_metricsAddr : string;
  mf_probeAddr : string;
  mf_wgImage : string;
  mf_enableLeaderElection : bool;
  mf_agentImagePullPolicy : string;
  mf_leaderElectionNamespace : string;
}.

Definition managerFlagsOf (fs : FlagSet) : ManagerFlags := {|
  mf_metricsAddr := string_flag fs "metrics-bind-address";
  mf_probeAddr := string_flag fs "health-probe-bind-address";
  mf_wgImage := string_flag fs "agent-image";
  mf_enableLeaderElection := bool_flag fs "leader-elect";
  mf_agentImagePullPolicy := string_flag fs "agent-image-pull-policy";
  mf_leaderElectionNamespace := string_flag fs "leader-election-namespace";
|}.

(** [flag.Parse] in [main], with the flags [bound] that the logger and the client
    configuration define; the exit code where it ends the process. *)
Definition managerFlags (bound : FlagSet) (args : list string) : ManagerFlags + Z :=
  match Parse (managerFlagSet ∪ bound) args with
  | Parsed fs _ => inl (managerFlagsOf fs)
  | Help => inr 0
  | GoFlag.Failed _ => inr 2
  end.

(** ** The manager *)

(** [ctrl.Options], with the metrics address and whether metrics are authorized. *)
Record Options := {
  op_MetricsAddr : string;
  op_MetricsAuthorized : bool;
  op_Cache : kind → ByObject;
  op_HealthProbeBindAddress : string;
  op_LeaderElection : bool;
  op_LeaderElectionID : string;
  op_LeaderElectionNamespace : string;
}.

(** The reconcilers [main] makes, with their settings. *)
Inductive reconciler :=
  | WireguardReconciler (AgentImage AgentImagePullPolicy : string)
  | ClientRoleBindingReconciler
  | InjectionPolicyReconciler_ (r : InjectionPolicyReconciler).

(** The calls into controller-runtime and client-go. [Complete] builds a controller for its
    reconciler from its watches. *)
Inductive MOp :=
  | GetConfig
  | NewManager (o : Options)
  | Complete (r : reconciler) (st : setup)
  | NewDiscoveryClientForConfig
  | AddHealthzCheck (name : string)
  | AddReadyzCheck (name : string)
  | Start.

Definition MRes (o : MOp) : Type := option error.

#[local] Abbreviation ev := (@existT MOp MRes).

Section manager.
Context `{ControllerRuntime}.
#[local] Abbreviation M := (prog MRes).

(** A call whose error ends the process with exit code 1, logged. *)
Definition orExit (o : MOp) (k : M Z) : M Z :=
  e <- perform o ;;
  match (e : option error) with Some _ => Ret 1 | None => k end.

(** The [SetupWithManager] of each reconciler. *)
Definition SetupWithManager (r : reconciler) : MOp :=
  Complete r
    match r with
    | WireguardReconciler _ _ => WireguardReconciler_SetupWithManager
    | ClientRoleBindingReconciler => ClientRoleBindingReconciler_SetupWithManager
    | InjectionPolicyReconciler_ _ => InjectionPolicyReconciler_SetupWithManager
    end.

Definition managerOptions (f : ManagerFlags) (podNamespace : string) : Options := {|
  op_MetricsAddr := mf_metricsAddr f;
  op_MetricsAuthorized := true;
  op_Cache := CacheOptions;
  op_HealthProbeBindAddress := mf_probeAddr f;
  op_LeaderElection := mf_enableLeaderElection f;
  op_LeaderElectionID := "a6d3bffc.tunnel-operator.io";
  op_LeaderElectionNamespace := cmp_Or_string (mf_leaderElectionNamespace f) podNamespace;
|}.

(** [main]: the exit code, on the arguments after the program's name. *)
Definition managerMain (bound : FlagSet) (args : list string) (getenv : string → string) : M Z :=
  match managerFlags bound args with
  | inr code => Ret code
  | inl f =>
      match operatorNamespace getenv with
      | Err _ => Ret 1
      | Ok podNamespace =>
          orExit GetConfig
          (orExit (NewManager (managerOptions f podNamespace))
          (if decide (mf_wgImage f = "") then Ret 1 else
           orExit (SetupWithManager (WireguardReconciler (mf_wgImage f) (mf_agentImagePullPolicy f)))
          (orExit (SetupWithManager ClientRoleBindingReconciler)
          (orExit NewDiscoveryClientForConfig
          (orExit (SetupWithManager (InjectionPolicyReconciler_
                     {| ir_Image := mf_wgImage f; ir_OperatorNamespace := podNamespace |}))
          (orExit (AddHealthzCheck "healthz")
          (orExit (AddReadyzCheck "readyz")
          (orExit Start (Ret 0)))))))))
      end
  end.

(** The calls [main] makes before [Start], in order. *)
Definition preparation (f : ManagerFlags) (podNamespace : string) : list MOp :=
  [GetConfig; NewManager (managerOptions f podNamespace);
   SetupWithManager (WireguardReconciler (mf_wgImage f) (mf_agentImagePullPolicy f));
   SetupWithManager ClientRoleBindingReconciler;
   NewDiscoveryClientForConfig;
   SetupWithManager (InjectionPolicyReconciler_ {| ir_Image := mf_wgImage f; ir_OperatorNamespace := podNamespace |});
   AddHealthzCheck "healthz"; AddReadyzCheck "readyz"].

(** ** Theorems *)

Lemma exec_orExit o k tr code :
  exec (orExit o k) tr code →
  (∃ e, tr = [ev o (Some e)] ∧ code = 1) ∨ (∃ tr', tr = ev o None :: tr' ∧ exec k tr' code).
Proof.
  unfold orExit. intros Hx. apply exec_bind in Hx as (r & t1 & t2 & -> & Hp & Hx). destruct Hp as (? & ? & -> & -> & <-).
  destruct r as [e|]; [|by eauto]. apply exec_ret in Hx as [-> ->]. eauto.
Qed.

Lemma preparation_no_start f ns : Start ∉ preparation f ns.
Proof. unfold preparation. rewrite !not_elem_of_cons. by split_and!; [..|intros ?%not_elem_of_nil]. Qed.

(** The manager was not started, and the process failed. *)
Definition failed (tr : list (event MRes)) (code : Z) : Prop := (Start ∉ projT1 <$> tr) ∧ code = 1.

Lemma exec_inOrder ops k tr code :
  Start ∉ ops → exec (foldr orExit k ops) tr code →
  failed tr code ∨ ∃ tr', tr = ((λ o, ev o None) <$> ops) ++ tr' ∧ exec k tr' code.
Proof.
  revert tr. induction ops as [|o ops IH]; intros tr Hn Hx; [right; by exists tr|].
  apply not_elem_of_cons in Hn as [Ho Hn]. cbn [foldr] in Hx. apply exec_orExit in Hx as [(e & -> & ->)|(t & -> & Hx)].
  - left. split; [|done]. cbn. by intros ?%list_elem_of_singleton.
  - destruct (IH t Hn Hx) as [[Hs ->]|(t' & -> & Hk)]; [left|right; by exists t'].
    split; [|done]. cbn. by rewrite not_elem_of_cons.
Qed.

Lemma failed_after ops tr code : Start ∉ ops → failed tr code → failed (((λ o, ev o None) <$> ops) ++ tr) code.
Proof.
  intros Hn [Ht Hc]. split; [|done]. rewrite fmap_app, elem_of_app, <- list_fmap_compose, list_fmap_id. tauto.
Qed.

(** C35: The operator starts its controllers only when it can run them. The process starts the manager only
    with its namespace and the agent's image given, after it built the three
    controllers, each from its own watches, with that image for the gateways and the injected
    clients, over the cache whose selectors they rely on, and with both health checks. A
    process that does not start the manager fails, or was asked for help. *)
Theorem manager_starts bound args getenv tr code :
  exec (managerMain bound args getenv) tr code →
  (∃ f r, managerFlags bound args = inl f ∧ getenv "POD_NAMESPACE" ≠ "" ∧ mf_wgImage f ≠ "" ∧
     tr = ((λ o, ev o None) <$> preparation f (getenv "POD_NAMESPACE")) ++ [ev Start r] ∧
     code = match r with None => 0 | Some _ => 1 end) ∨
  ((Start ∉ projT1 <$> tr) ∧ (code ≠ 0 ∨ managerFlags bound args = inr 0)).
Proof.
  unfold managerMain, operatorNamespace. destruct (managerFlags bound args) as [f|c] eqn:Hf.
  2:{ intros [-> ->]%exec_ret. right. split; [by intros ?%not_elem_of_nil|]. destruct (decide (c = 0)) as [->|]; auto. }
  cbv zeta. case_decide as Hns; [intros [-> ->]%exec_ret; right; split; [by intros ?%not_elem_of_nil|by left]|].
  intros Hx.
  assert (failed tr code ∨ mf_wgImage f ≠ "" ∧ ∃ r,
    tr = ((λ o, ev o None) <$> preparation f (getenv "POD_NAMESPACE")) ++ [ev Start r] ∧
    code = match r with None => 0 | Some _ => 1 end) as [[Hs ->]|(Hi & r & -> & ->)].
  3:{ left. exists f, r. by split_and!. }
  2:{ right. split; [done|by left]. }
  change (exec (foldr orExit (if decide (mf_wgImage f = "") then Ret 1 else
    foldr orExit (orExit Start (Ret 0)) (drop 2 (preparation f (getenv "POD_NAMESPACE"))))
    (take 2 (preparation f (getenv "POD_NAMESPACE")))) tr code) in Hx.
  pose proof (preparation_no_start f (getenv "POD_NAMESPACE")) as Hns'. rewrite <- (take_drop 2 (preparation _ _)) in Hns'.
  apply not_elem_of_app in Hns' as [H1 H2].
  apply exec_inOrder in Hx as [?|(t1 & -> & Hx)]; [by left| |done]. case_decide as Hi.
  { apply exec_ret in Hx as [-> ->]. left. apply failed_after; [done|]. split; [by intros ?%not_elem_of_nil|done]. }
  apply exec_inOrder in Hx as [?|(t2 & -> & Hx)]; [left; by apply failed_after| |done].
  right. split; [done|]. apply exec_orExit in Hx as [(e & -> & ->)|(t & -> & [-> ->]%exec_ret)]; eexists; by split.
Qed.
End manager.

(** ** Witnesses *)

Module RefManager.
#[export] Existing Instances Reference.metalib.
#[local] Existing Instances RefRuntime.runtime.

(** The arguments of the release, in the namespace it installs. *)
Definition args : list string :=
  ["--health-probe-bind-address=:8081"; "--metrics-bind-address=:8080"; "--leader-elect"; "--agent-image=agent:latest"].
Definition getenv (n : string) : string := if bool_decide (n = "POD_NAMESPACE") then "tunnel-operator-system" else "".

Definition ran := run (λ (o : MOp) (s : unit), ((None : MRes o), s)) (managerMain ∅ args getenv) ().

Lemma started : Start ∈ projT1 <$> ran.1.1.
Proof. apply list_elem_of_lookup. exists 8%nat. reflexivity. Qed.
End RefManager.

#[local] Existing Instances Reference.metalib RefRuntime.runtime.

Lemma manager_starts_witness :
  ∃ f, managerFlags ∅ RefManager.args = inl f ∧ mf_wgImage f = "agent:latest" ∧ mf_enableLeaderElection f = true ∧
    RefManager.ran.1.1 = ((λ o, ev o None) <$> preparation f "tunnel-operator-system") ++ [ev Start None].
Proof.
  destruct (manager_starts ∅ RefManager.args RefManager.getenv RefManager.ran.1.1 RefManager.ran.1.2)
    as [(f & r & Hf & _ & _ & Ht & Hr)|[Hs _]].
  - apply run_is_exec.
  - exists f. assert (r = None) as -> by (destruct r; [by vm_compute in Hr|done]).
    split; [exact Hf|]. assert (inl f = managerFlags ∅ RefManager.args) as He by (by rewrite Hf).
    vm_compute in He. injection He as ->. split; [reflexivity|]. split; [reflexivity|exact Ht].
  - by destruct (Hs RefManager.started).
Defined.
