(* ===== verification/Roles.v ===== *)
(** * What the programs may ask of the API server ([config/rbac/role.yaml],
    [config/rbac/client_clusterrole.yaml], the RBAC markers of [internal/controller])

    The operator's role and the client's role as data, with the meaning Kubernetes documents for
    them. Every request of the three controllers and every watch they set up is one the
    operator's role allows; every request of the client is one its role allows
    in the pod's own namespace; and the role is the one the markers in the code declare. *)

From S2P Require Import Prelude GoStd GoFlag Netip Effects Api External Ipam AgentState Peers Resources Gateway Controller ReferenceCluster ControllerEffects Node WgServer SidecarPeer SidecarTunnel Sidecar SidecarPeerFacts ClientFacts Rbac Injection InjectionFacts Watches.

(** ** Rules *)

(** A rule of a role; with [ru_Names], it is for objects of these names only. *)
Record PolicyRule := {
  ru_Groups : list string;
  ru_Resources : list string;
  ru_Names : list string;
  ru_Verbs : list string;
}.

Definition policyRule (groups resources names verbs : list string) : PolicyRule :=
  {| ru_Groups := groups; ru_Resources := resources; ru_Names := names; ru_Verbs := verbs |}.

(** A request: the group, the resource, the verb and the name of the object, empty where the request has none. *)
Record Access := { ac_Group : string; ac_Resource : string; ac_Verb : string; ac_Name : string }.

Definition covered (a : Access) (r : PolicyRule) : bool :=
  bool_decide (ac_Group a ∈ ru_Groups r) && bool_decide (ac_Resource a ∈ ru_Resources r) &&
  bool_decide (ac_Verb a ∈ ru_Verbs r) && (bool_decide (ru_Names r = []) || bool_decide (ac_Name a ∈ ru_Names r)).

(** A role allows a request that one of its rules covers. *)
Definition allows (role : list PolicyRule) (a : Access) : bool := existsb (covered a) role.

(** ** The roles *)

Definition allVerbs : list string := ["create"; "delete"; "get"; "list"; "patch"; "update"; "watch"].

(** [config/rbac/role.yaml] *)
Definition managerRole : list PolicyRule := [
  policyRule [""] ["pods"; "secrets"; "services"] [] allVerbs;
  policyRule ["admissionregistration.k8s.io"] ["mutatingadmissionpolicies"; "mutatingadmissionpolicybindings"]
    ["tunnel-operator-inject"] ["create"; "delete"; "patch"];
  policyRule ["apps"] ["deployments"; "pods"] [] allVerbs;
  policyRule ["authentication.k8s.io"] ["tokenreviews"] [] ["create"];
  policyRule ["authorization.k8s.io"] ["subjectaccessreviews"] [] ["create"];
  policyRule ["rbac.authorization.k8s.io"] ["clusterroles"] ["tunnel-operator-client"] ["bind"];
  policyRule ["rbac.authorization.k8s.io"] ["rolebindings"] ["tunnel-operator-client"]
    ["create"; "delete"; "get"; "list"; "patch"; "watch"];
  policyRule ["vpn.tunnel-operator.io"] ["wireguardpeers"] [] ["get"; "list"; "watch"];
  policyRule ["vpn.tunnel-operator.io"] ["wireguardpeers/status"; "wireguards/status"] [] ["get"; "patch"; "update"];
  policyRule ["vpn.tunnel-operator.io"] ["wireguards"] [] allVerbs;
  policyRule ["vpn.tunnel-operator.io"] ["wireguards/finalizers"] [] ["update"]
].

(** The markers above [WireguardReconciler.Reconcile] *)
Definition wireguardMarkers : list PolicyRule :=
  let verbs := ["get"; "list"; "watch"; "create"; "update"; "patch"; "delete"] in [
  policyRule ["vpn.tunnel-operator.io"] ["wireguards"] [] verbs;
  policyRule ["vpn.tunnel-operator.io"] ["wireguards/status"] [] ["get"; "update"; "patch"];
  policyRule ["vpn.tunnel-operator.io"] ["wireguards/finalizers"] [] ["update"];
  policyRule ["vpn.tunnel-operator.io"] ["wireguardpeers"] [] ["get"; "list"; "watch"];
  policyRule ["vpn.tunnel-operator.io"] ["wireguardpeers/status"] [] ["get"; "update"; "patch"];
  policyRule [""] ["secrets"] [] verbs;
  policyRule [""] ["services"] [] verbs;
  policyRule ["apps"] ["deployments"] [] verbs;
  policyRule [""] ["pods"] [] verbs;
  policyRule ["apps"] ["pods"] [] verbs;
  policyRule ["authentication.k8s.io"] ["tokenreviews"] [] ["create"];
  policyRule ["authorization.k8s.io"] ["subjectaccessreviews"] [] ["create"]
].

(** The marker above [InjectionPolicyReconciler.Reconcile] *)
Definition injectionMarkers : list PolicyRule := [
  policyRule ["admissionregistration.k8s.io"] ["mutatingadmissionpolicies"; "mutatingadmissionpolicybindings"]
    ["tunnel-operator-inject"] ["create"; "patch"; "delete"]
].

(** The markers above [ClientRoleBindingReconciler.Reconcile] *)
Definition bindingMarkers : list PolicyRule := [
  policyRule [""] ["pods"] [] ["get"; "list"; "watch"];
  policyRule ["rbac.authorization.k8s.io"] ["rolebindings"] ["tunnel-operator-client"]
    ["get"; "list"; "watch"; "create"; "patch"; "delete"];
  policyRule ["rbac.authorization.k8s.io"] ["clusterroles"] ["tunnel-operator-client"] ["bind"]
].

(** [config/rbac/client_clusterrole.yaml]; its name with the prefix of [config/default]. *)
Definition clientRole : list PolicyRule :=
  [policyRule ["vpn.tunnel-operator.io"] ["wireguardpeers"] [] ["create"; "delete"; "get"; "list"; "watch"]].

Definition clientRoleName : string := "tunnel-" +:+ "operator-client".

(** ** The role is the declared one *)

(** A rule as the pairs it is made of. *)
Definition atoms (role : list PolicyRule) : list (string * string * string * list string) :=
  r ← role; g ← ru_Groups r; x ← ru_Resources r; v ← ru_Verbs r; [(g, x, v, ru_Names r)].

Lemma allows_atoms role a :
  allows role a = true ↔ ∃ names, (ac_Group a, ac_Resource a, ac_Verb a, names) ∈ atoms role ∧
    (names = [] ∨ ac_Name a ∈ names).
Proof.
  unfold allows, atoms. rewrite existsb_exists. split.
  - intros (r & Hr%list_elem_of_In & Hc). unfold covered in Hc. rewrite !andb_true_iff, orb_true_iff, !bool_decide_eq_true in Hc.
    destruct Hc as (((Hg & Hx) & Hv) & Hn). exists (ru_Names r). split; [|done].
    apply list_elem_of_bind. exists r. split; [|done]. apply list_elem_of_bind. exists (ac_Group a). split; [|done].
    apply list_elem_of_bind. exists (ac_Resource a). split; [|done].
    apply list_elem_of_bind. exists (ac_Verb a). split; [by left|done].
  - intros (names & Hin & Hn). apply list_elem_of_bind in Hin as (r & Hin & Hr). exists r. split; [by apply list_elem_of_In|].
    apply list_elem_of_bind in Hin as (g & Hin & Hg). apply list_elem_of_bind in Hin as (x & Hin & Hx).
    apply list_elem_of_bind in Hin as (v & Hin & Hv). apply list_elem_of_singleton in Hin. simplify_eq.
    unfold covered. rewrite !andb_true_iff, orb_true_iff, !bool_decide_eq_true. done.
Qed.

(** The checked-in role grants exactly what the code's markers declare: it allows a request if and only
    if a marker of one of the three reconcilers does. *)
Lemma role_is_declared a :
  allows managerRole a = allows (wireguardMarkers ++ injectionMarkers ++ bindingMarkers) a.
Proof.
  apply eq_true_iff_eq. rewrite !allows_atoms.
  assert (∀ x, x ∈ atoms managerRole ↔ x ∈ atoms (wireguardMarkers ++ injectionMarkers ++ bindingMarkers)) as Heq.
  { assert (atoms managerRole ⊆ atoms (wireguardMarkers ++ injectionMarkers ++ bindingMarkers)) as H1 by by_evaluation.
    assert (atoms (wireguardMarkers ++ injectionMarkers ++ bindingMarkers) ⊆ atoms managerRole) as H2 by by_evaluation.
    intros x. split; auto. }
  by setoid_rewrite Heq.
Qed.

(** ** The operator *)

Definition access (group resource verb name : string) : Access :=
  {| ac_Group := group; ac_Resource := resource; ac_Verb := verb; ac_Name := name |}.

(** What reading objects takes, from the server or through the cache. *)
Definition reads (group resource name : string) : list Access :=
  [access group resource "get" name; access group resource "list" name; access group resource "watch" name].

(** What applying an object takes, whether or not it exists. *)
Definition applies_to (group resource name : string) : list Access :=
  [access group resource "patch" name; access group resource "create" name].

(** The group and the resource of a kind. *)
Definition resource_of (kind : string) : string * string :=
  if decide (kind = "Service") then ("", "services")
  else if decide (kind = "Deployment") then ("apps", "deployments")
  else if decide (kind = policyKind) then ("admissionregistration.k8s.io", "mutatingadmissionpolicies")
  else if decide (kind = bindingKind) then ("admissionregistration.k8s.io", "mutatingadmissionpolicybindings")
  else ("", kind).

Definition watched_resource (k : kind) : string * string :=
  match k with
  | KWireguard => (Group, "wireguards") | KPeer => (Group, "wireguardpeers") | KService => ("", "services")
  | KDeployment => ("apps", "deployments") | KSecret => ("", "secrets") | KPod => ("", "pods")
  | KRoleBinding => ("rbac.authorization.k8s.io", "rolebindings")
  end.

(** The requests an operation makes of the server. *)
Class Asks (Op : Type) := asks : Op → list Access.

Definition authorized {Op} `{!Asks Op} (role : list PolicyRule) (o : Op) : Prop := forallb (allows role) (asks o) = true.

(** What a watch takes; the name the cache selects is in its list and watch requests. *)
Definition watch_asks (k : kind) : list Access :=
  let '(g, r) := watched_resource k in
  let n := default "" (by_Name (CacheOptions k)) in [access g r "list" n; access g r "watch" n].

#[export] Instance rbac_asks : Asks ROp := λ o,
  match o with
  | ListLabelledPods _ _ => reads "" "pods" ""
  | GetRoleBinding k => reads "rbac.authorization.k8s.io" "rolebindings" (nn_Name k)
  | ApplyRoleBinding rb _ _ =>
      access "rbac.authorization.k8s.io" "clusterroles" "bind" (rr_Name (rb_RoleRef rb)) ::
      applies_to "rbac.authorization.k8s.io" "rolebindings" (Name (rb_meta rb))
  | DeleteRoleBinding rb _ => [access "rbac.authorization.k8s.io" "rolebindings" "delete" (Name (rb_meta rb))]
  | ConvertRoleBinding _ | LogRefusal _ => []
  end.

#[export] Instance injection_asks : Asks IOp := λ o,
  match o with
  | ServerResourcesForGroupVersion _ => []  (* discovery is open to every account *)
  | ListWireguards => reads Group "wireguards" ""
  | ApplyObject obj _ _ => let '(g, r) := resource_of (Injection.kind_of obj) in applies_to g r (name_of obj)
  | DeleteObject kind _ name => let '(g, r) := resource_of kind in [access g r "delete" name]
  end.

Section controller.
Context `{WgTypes, ConditionLib, Ipnetgen, OwnerLib, ApplyLib}.
Context `{!OwnedObject Service, !OwnedObject Deployment, !agent.StateCodec}.

(** An object that is patched or applied without its kind in the request is a Service or a Deployment. *)
Definition owned_resources : list (string * string) := [("", "services"); ("apps", "deployments")].

#[export] Instance controller_asks : Asks KOp := λ o,
  match o with
  | GetWireguard _ => reads Group "wireguards" ""
  | GetSecret _ => reads "" "secrets" ""
  | GetDeployment _ => reads "apps" "deployments" ""
  | GetLive kind _ => let '(g, r) := resource_of kind in reads g r ""
  | ListPeers => reads Group "wireguardpeers" ""
  | UpdatePeerStatus _ => [access Group "wireguardpeers/status" "update" ""]
  | UpdateWireguardStatus _ => [access Group "wireguards/status" "update" ""]
  | UpdateSecret _ => [access "" "secrets" "update" ""]
  | CreateSecret _ => [access "" "secrets" "create" ""; access Group "wireguards/finalizers" "update" ""]
  | ListPods _ _ => reads "" "pods" ""
  | UpdatePod _ => [access "" "pods" "update" ""]
  | PatchLive _ _ => (λ '(g, r), access g r "patch" "") <$> owned_resources
  | PatchDeployment _ _ => [access "apps" "deployments" "patch" ""]
  | Controller.Apply _ _ _ => access Group "wireguards/finalizers" "update" "" :: (owned_resources ≫= λ '(g, r), applies_to g r "")
  | GeneratePrivateKey | Now | NowFormat _ => []
  end.

(** The operator applies Services and Deployments only. *)
Definition owned_apply (o : KOp) : Prop :=
  match o with
  | Controller.Apply u _ _ => (∃ s : Service, ToUnstructured s = Ok u) ∨ (∃ d : Deployment, ToUnstructured d = Ok u)
  | _ => True
  end.

Definition permitted (o : KOp) : Prop := authorized managerRole o ∧ owned_apply o.

Hypothesis Service_kind : ∀ (s : Service) k, GVKForObject s = Ok k → k = "Service".
Hypothesis Deployment_kind : ∀ (d : Deployment) k, GVKForObject d = Ok k → k = "Deployment".

Lemma permitted_unowned o : may [Reads; WritesPeer; WritesStatus; WritesSecret; WritesPod] o → permitted o.
Proof. destruct o; by try (intros; split; [vm_compute|]). Qed.

Lemma emits_permitted {A} (p : prog KRes A) :
  emits (may [Reads; WritesPeer; WritesStatus; WritesSecret; WritesPod]) p → emits permitted p.
Proof. apply emits_mono, permitted_unowned. Qed.

#[local] Hint Extern 1 (emits permitted _) =>
  (apply emits_permitted; eapply emits_may; [solve [auto with emits_base nocore]|reflexivity]) : emits.

Lemma emits_applied {T} `{!OwnedObject T} (x : T) :
  (∀ k, GVKForObject x = Ok k → k = "Service" ∨ k = "Deployment") →
  (∀ u, ToUnstructured x = Ok u → owned_apply (Controller.Apply u FieldManager true)) → emits permitted (applyOwned x).
Proof.
  intros Hk Hu. unfold applyOwned. destruct (GVKForObject x) as [k|] eqn:Hg; [|apply emits_ret]. cbv zeta.
  apply emits_bindE.
  - apply emits_bind.
    + refine (emits_perform _ (GetLive _ _) _). split; [|done]. destruct (Hk k eq_refl) as [->| ->]; by vm_compute.
    + intros r. solve_emits.
  - intros _. destruct (ToUnstructured x) as [u|] eqn:Hx; [|apply emits_ret]. apply emits_bind.
    + refine (emits_perform _ (Controller.Apply _ _ _) _). split; [by vm_compute|by apply Hu].
    + intros a. solve_emits.
Qed.

Lemma emits_applied_service (s : Service) : emits permitted (applyOwned s).
Proof. apply emits_applied; [intros k ->%Service_kind; by left|]. intros u Hu. left. eauto. Qed.

Lemma emits_applied_deployment (d : Deployment) : emits permitted (applyOwned d).
Proof. apply emits_applied; [intros k ->%Deployment_kind; by right|]. intros u Hu. right. eauto. Qed.

#[local] Hint Resolve emits_applied_service emits_applied_deployment : emits.

Lemma Reconcile_permitted img pull req : emits permitted (Controller.Reconcile img pull req).
Proof.
  unfold Controller.Reconcile, reconcileService, reconcileSecret, reconcileDeployment, applyDeployment. solve_emits.
Qed.
End controller.

(** The server gives the RoleBinding that was asked for. *)
Definition binding_answer (e : event RRes) : Prop :=
  match e with existT (GetRoleBinding k) (Ok rb) => key_of (rb_meta rb) = k | _ => True end.

Lemma rbac_permitted ns refused tr r :
  exec (Rbac.Reconcile ns refused) tr r → Forall binding_answer tr → Forall (λ e : event RRes, authorized managerRole (projT1 e)) tr.
Proof.
  unfold Rbac.Reconcile. intros Hex Ha.
  assert (∀ needed existing, (∀ rb, existing = Some rb → Name (rb_meta rb) = ClientRoleName) →
    emits (authorized managerRole) (act ns refused needed existing)) as Hact.
  { intros needed existing He. unfold act, applyForcedRoleBinding. cbv zeta.
    destruct (clientRoleBindingAction _ _), existing as [rb|]; try (solve_emits; done).
    apply emits_bind; [|solve_emits]. refine (emits_perform _ (DeleteRoleBinding _ _) _).
    unfold authorized. cbn. by rewrite (He rb eq_refl). }
  inv_exec. apply Forall_cons. split; [done|]. destruct a as [pods|e]; inv_exec; [|done].
  apply Forall_cons. split; [done|]. destruct a as [rb|e].
  - eapply (Hact _ (Some rb)); [|done]. intros rb' [= <-].
    match goal with Hb : binding_answer (existT (GetRoleBinding _) _) |- _ => by injection Hb end.
  - destruct (errors_Is e NotFound); [|by inv_exec]. by eapply (Hact _ None).
Qed.

Lemma render_names `{JsonLib} version c v policy binding :
  renderInjectPolicy version c v = Ok (policy, binding) → name_of policy = injectPolicyName ∧ name_of binding = injectPolicyName.
Proof. unfold renderInjectPolicy. repeat case_match; try done. by intros [= <- <-]. Qed.

Lemma injection_permitted `{JsonLib} r : emits (authorized managerRole) (Injection.Reconcile r).
Proof.
  unfold Injection.Reconcile, deleteInjectPolicy, deleteObject. apply emits_bindE.
  { eapply emits_mono; [|apply emits_servedPolicyVersion]. by intros []. }
  intros version. case_decide; [apply emits_ret|]. apply emits_bind; [by refine (emits_perform _ ListWireguards _)|].
  intros [wgs|e]; [|apply emits_ret]. destruct (defaultGateway _ _) as [gw|e].
  - destruct (injectedSidecar _ _) as [c v]. destruct (renderInjectPolicy version c v) as [[policy binding]|e] eqn:Hr; [|apply emits_ret].
    destruct (render_kinds _ _ _ _ _ Hr) as [Hk1 Hk2], (render_names _ _ _ _ _ Hr) as [Hn1 Hn2].
    apply emits_bindE; [|solve_emits]. apply emits_loopE_elem. intros _ obj Hobj. unfold applyForced.
    apply emits_bind; [|solve_emits]. refine (emits_perform _ (ApplyObject _ _ _) _). unfold authorized. cbn.
    rewrite !elem_of_cons, elem_of_nil in Hobj. destruct Hobj as [->|[->|[]]]; rewrite ?Hk1, ?Hn1, ?Hk2, ?Hn2; by vm_compute.
  - apply emits_bindE; [|solve_emits]. apply emits_loopE_elem. intros _ kind Hkind.
    apply emits_bind; [|solve_emits]. refine (emits_perform _ (DeleteObject _ _ _) _). unfold authorized. cbn.
    rewrite !elem_of_cons, elem_of_nil in Hkind. destruct Hkind as [->|[->|[]]]; by vm_compute.
Qed.

Section operator.
Context `{WgTypes, ConditionLib, Ipnetgen, OwnerLib, ApplyLib}.
Context `{!OwnedObject Service, !OwnedObject Deployment, !agent.StateCodec, !JsonLib, !MetaLib, !ControllerRuntime}.

(** C15: The operator's role is enough. Every request a pass of any of its three controllers makes, on
    every path, is one the role allows, the binding of the client's role and the owner references
    included; what the operator applies are Services and Deployments; and the role allows
    every watch the controllers set up, with the selectors of the cache. *)
Theorem operator_is_authorized :
  (∀ (s : Service) k, GVKForObject s = Ok k → k = "Service") →
  (∀ (d : Deployment) k, GVKForObject d = Ok k → k = "Deployment") →
  (∀ img pull req tr r, exec (Controller.Reconcile img pull req) tr r → Forall (λ e : event KRes, permitted (projT1 e)) tr) ∧
  (∀ ns refused tr r, exec (Rbac.Reconcile ns refused) tr r → Forall binding_answer tr →
     Forall (λ e : event RRes, authorized managerRole (projT1 e)) tr) ∧
  (∀ rec tr r, exec (Injection.Reconcile rec) tr r → Forall (λ e : event IRes, authorized managerRole (projT1 e)) tr) ∧
  (∀ w, w ∈ watches WireguardReconciler_SetupWithManager ++ watches ClientRoleBindingReconciler_SetupWithManager ++
            watches InjectionPolicyReconciler_SetupWithManager → forallb (allows managerRole) (watch_asks (on w)) = true).
Proof.
  intros Hs Hd. split_and!.
  - intros img pull req. by apply Reconcile_permitted.
  - apply rbac_permitted.
  - apply injection_permitted.
  - intros w Hw. cbn in Hw. rewrite !elem_of_cons, elem_of_nil in Hw. by repeat destruct Hw as [->|Hw].
Qed.
End operator.

(** ** The client *)

Section client.
Context `{WgTypes, MetaLib, ConditionLib}.

(** Requests the client's role allows in [ns], where it is bound. *)
Definition client_may (ns : string) (o : NOp) : Prop :=
  match o with
  | GetPeer k => nn_Namespace k = ns ∧ forallb (allows clientRole) (reads Group "wireguardpeers" (nn_Name k)) = true
  | CreatePeer p => Namespace (wp_meta p) = ns ∧ allows clientRole (access Group "wireguardpeers" "create" "") = true
  | DeletePeer p _ => Namespace (wp_meta p) = ns ∧ allows clientRole (access Group "wireguardpeers" "delete" (Name (wp_meta p))) = true
  | NewCache k =>
      nn_Namespace k = ns ∧ allows clientRole (access Group "wireguardpeers" "list" (nn_Name k)) = true ∧
      allows clientRole (access Group "wireguardpeers" "watch" (nn_Name k)) = true
  | _ => True
  end.

(** The server gives the peer that was asked for. *)
Definition peer_answer (e : event NRes) : Prop :=
  match e with existT (GetPeer k) (Ok p) => key_of (wp_meta p) = k | _ => True end.

#[export] Instance peer_answer_dec e : Decision (peer_answer e).
Proof. destruct e as [[] x]; try (left; exact I). destruct x as [p|]; [|left; exact I]. cbn. apply _. Defined.

(** [p] makes only requests of [K] where the answers are honest. *)
Definition asks_only {A} (K : NOp → Prop) (p : prog NRes A) : Prop :=
  ∀ tr a, exec p tr a → Forall peer_answer tr → Forall (λ e : event NRes, K (projT1 e)) tr.

Lemma asks_only_emits {A} K (p : prog NRes A) : emits K p → asks_only K p.
Proof. intros Hp tr a Hx _. by eapply Hp. Qed.

Lemma asks_only_bind {A B} K (p : prog NRes A) (f : A → prog NRes B) :
  asks_only K p → (∀ a, asks_only K (f a)) → asks_only K (pbind p f).
Proof.
  intros Hp Hf tr b (a & t1 & t2 & -> & Hx1 & Hx2)%exec_bind [Ha1 Ha2]%Forall_app. apply Forall_app.
  split; [by eapply Hp|by eapply Hf].
Qed.

Lemma asks_only_bindE {A B} K (p : prog NRes (result A)) (f : A → prog NRes (result B)) :
  asks_only K p → (∀ a, asks_only K (f a)) → asks_only K (bindE p f).
Proof. intros Hp Hf. apply asks_only_bind; [done|]. intros [a|e]; [done|]. apply asks_only_emits, emits_ret. Qed.

Lemma asks_waitForLink ns fuel iface deadline : emits (client_may ns) (waitForLink_loop fuel iface deadline).
Proof. induction fuel as [|fuel IH]; cbn [waitForLink_loop]; solve_emits. Qed.
#[local] Hint Resolve asks_waitForLink : emits.

Lemma asks_Apply ns key t : emits (client_may ns) (SidecarTunnel.Apply key t).
Proof.
  unfold SidecarTunnel.Apply, withClient, wrapped, SyncLink, createLink, createLinkUsingKernelModule,
    createLinkUsingUserspaceImpl, waitForLink, SyncAddress, ensureRoutes, replaceLocals, deleteStale, deleteIPv6Defaults.
  quietly.
Qed.

Lemma asks_ensurePeer cfg pk : asks_only (client_may (cf_PodNamespace cfg)) (ensurePeer cfg pk).
Proof.
  intros tr r Hp%ensurePeer_paths Ha.
  assert (∀ p, key_of (wp_meta p) = podKey cfg → Namespace (wp_meta p) = cf_PodNamespace cfg) as Hns by (intros p Hk; by injection Hk).
  destruct Hp; apply Forall_cons in Ha as [Hg _]; repeat (apply Forall_cons; split); try done; (split; [by apply Hns|done]).
Qed.

Lemma asks_Run cfg passes : asks_only (client_may (cf_PodNamespace cfg)) (Run cfg passes).
Proof.
  assert (∀ key, asks_only (client_may (cf_PodNamespace cfg)) (loop cfg key passes)) as Hloop.
  { intros key. induction passes as [|w passes IH]; cbn [loop]; [apply asks_only_emits, emits_ret|].
    apply asks_only_bind; [|intros r; apply asks_only_bind; [done|intros l; apply asks_only_emits, emits_ret]].
    unfold Sidecar.step. apply asks_only_bindE; [apply asks_ensurePeer|]. intros [p|]; [|apply asks_only_emits, emits_ret].
    apply asks_only_emits. destruct (desiredTunnel p); [apply asks_Apply|apply emits_ret]. }
  unfold Run. apply asks_only_bindE; [apply asks_only_emits; unfold wrapped, LoadOrCreateKey, createKey; quietly|intros key].
  do 3 (apply asks_only_bindE; [apply asks_only_emits; quietly|intros _]).
  apply asks_only_bindE; [apply asks_only_emits; unfold wrapped, startWatch; quietly|intros []].
  - apply asks_only_bind; [apply Hloop|]. intros. apply asks_only_emits, emits_ret.
  - apply asks_only_emits, emits_ret.
Qed.

(** C27: The client's role is enough, and the operator binds it. Whatever its arguments and however its
    passes go, every request the client makes of the API server is one its role allows, in
    the pod's own namespace; and the RoleBinding the operator writes there refers
    to that role, for the accounts of that namespace. *)
Theorem client_is_authorized args getenv passes tr code :
  exec (runClient args getenv passes) tr code → Forall peer_answer tr →
  let ns := getenv "POD_NAMESPACE" in
  Forall (λ e : event NRes, client_may ns (projT1 e)) tr ∧
  rb_RoleRef (desiredClientRoleBinding ns) = {| rr_Kind := "ClusterRole"; rr_Name := clientRoleName |} ∧
  Namespace (rb_meta (desiredClientRoleBinding ns)) = ns ∧
  rb_Subjects (desiredClientRoleBinding ns) = [{| su_Kind := "Group"; su_Name := "system:serviceaccounts:" +:+ ns |}].
Proof.
  intros Hx Ha. cbv zeta. split_and!; [|done..]. revert tr code Hx Ha.
  change (asks_only (client_may (getenv "POD_NAMESPACE")) (runClient args getenv passes)).
  unfold runClient. destruct (clientFlags args) as [[w []]|]; [| |apply asks_only_emits, emits_ret].
  - apply asks_only_emits. unfold Check, withClient, wrapped, routesVia. quietly.
  - destruct (ConfigFromEnv w DefaultKeyPath getenv) as [cfg|] eqn:Hc; [|apply asks_only_emits, emits_ret].
    apply asks_only_bind; [|intros []; apply asks_only_emits, emits_ret].
    apply ConfigFromEnv_accepts in Hc as (n & m & _ & _ & _ & ->). apply asks_Run.
Qed.
End client.

(** ** Witnesses *)

#[local] Existing Instances Reference.wgtypes Reference.metalib Reference.conditions Reference.ipnetgen RefCluster.owners RefCluster.applylib RefCluster.owned_service RefCluster.owned_deployment RefCluster.codec RefInjection.jsonlib RefRuntime.runtime.

Lemma operator_is_authorized_witness : Forall (λ e : event KRes, permitted (projT1 e)) RefCluster.trace.
Proof.
  destruct operator_is_authorized as (Hk & _); [by intros s k [= <-]|by intros d k [= <-]|].
  eapply Hk. apply run_is_exec.
Defined.

Lemma client_is_authorized_witness :
  Forall (λ e : event NRes, client_may (RefSidecar.env "POD_NAMESPACE") (projT1 e)) RefSidecar.ran.1.1.
Proof.
  destruct (client_is_authorized _ _ _ _ _ RefSidecar.ran_exec) as [H _]; [|exact H].
  by_evaluation.
Defined.
