(* ===== verification/Memory.v ===== *)
(** * Memory: what Go values share

    A heap of cells, the slices, maps and pointers that refer to them, and what a deep copy is: a
    value that denotes the same and reaches only cells that are new. The copies of slices,
    maps and pointers that generated code makes are proved to be such copies, from
    their elements'. *)

From S2P Require Import Prelude.

Definition loc := positive.

(** A slice of [A], nil or an array; a map; a pointer to an [A]. *)
Record slice (A : Type) := Slice { arr : option loc }.
Record gomap := Map { tbl : option loc }.
Record ref (A : Type) := Ref { ptr : option loc }.
Arguments Slice {A} _.
Arguments arr {A} _.
Arguments Ref {A} _.
Arguments ptr {A} _.

(** Fields that hold no references. *)
Record plain (A : Type) := Plain { the : A }.
Arguments Plain {A} _.
Arguments the {A} _.


Section memory.
Context {Obj : Type}.

Abbreviation heap := (gmap loc Obj).

(** Cells that hold an [A]. *)
Class Cell (A : Type) := { put : A → Obj; get : Obj → option A; get_put : ∀ a, get (put a) = Some a }.

Definition load {A} `{!Cell A} (h : heap) (l : loc) : option A := h !! l ≫= get.

(** [new] and [make]: a fresh cell. *)
Definition alloc {A} `{!Cell A} (a : A) (h : heap) : loc * heap :=
  let l := fresh (dom h) in (l, <[l := put a]> h).

Lemma load_put {A} `{!Cell A} (a : A) h l : load (<[l := put a]> h) l = Some a.
Proof. unfold load. rewrite lookup_insert_eq. cbn. apply get_put. Qed.

Lemma load_eq {A} `{!Cell A} (h h' : heap) l : h' !! l = h !! l → load (A := A) h' l = load h l.
Proof. unfold load. by intros ->. Qed.

Lemma load_dom {A} `{!Cell A} (h : heap) l (a : A) : load h l = Some a → l ∈ dom h.
Proof. unfold load. intros Hl. apply elem_of_dom. destruct (h !! l); [by eexists|done]. Qed.

Lemma load_mono {A} `{!Cell A} (h h' : heap) l (a : A) : h ⊆ h' → load h l = Some a → load h' l = Some a.
Proof.
  intros Hs Hl. rewrite <- Hl. apply load_eq. apply load_dom, elem_of_dom in Hl as [o Ho].
  rewrite Ho. by eapply lookup_weaken.
Qed.

Lemma insert_fresh_subseteq (h h' : heap) l o : l ∉ dom h → h ⊆ h' → h ⊆ <[l := o]> h'.
Proof. intros Hl Hs. apply insert_subseteq_r; [by apply not_elem_of_dom|done]. Qed.

(** ** Deep copies *)

(** Values of [R] in memory, denoting the values of [V]: the cells they reach, and the copy of one. *)
Class Deep (R V : Type) := {
  zero : R;
  refs : heap → R → gset loc;
  denotes : heap → R → V → Prop;
  DeepCopyInto : R → heap → R * heap;
  deep_refs : ∀ h x v, denotes h x v → refs h x ⊆ dom h;
  deep_frame : ∀ h h' x v, denotes h x v → (∀ l, l ∈ refs h x → h' !! l = h !! l) → denotes h' x v ∧ refs h' x = refs h x;
  deep_copy : ∀ h x v, denotes h x v →
    h ⊆ (DeepCopyInto x h).2 ∧ denotes (DeepCopyInto x h).2 (DeepCopyInto x h).1 v ∧
    refs (DeepCopyInto x h).2 (DeepCopyInto x h).1 ## dom h;
}.

(** [y] in [h] denotes [v], and shares no cell of [D]. *)
Definition apart `{Deep R V} (D : gset loc) (h : heap) (y : R) (v : V) : Prop := denotes h y v ∧ refs h y ## D.

Lemma deep_mono `{Deep R V} (h h' : heap) x v : h ⊆ h' → denotes h x v → denotes h' x v ∧ refs h' x = refs h x.
Proof.
  intros Hs Hd. apply (deep_frame h); [done|]. intros l Hl. apply (deep_refs _ _ _ Hd), elem_of_dom in Hl as [o Ho].
  rewrite Ho. by eapply lookup_weaken.
Qed.

Lemma apart_mono `{Deep R V} D (h h' : heap) (y : R) (v : V) : h ⊆ h' → apart D h y v → apart D h' y v.
Proof. intros Hs [Hd Hr]. destruct (deep_mono _ _ _ _ Hs Hd) as [Hd' He]. split; [done|by rewrite He]. Qed.

(** A copy made later, when [h] has grown to [h1]. *)
Lemma copy_apart `{Deep R V} (h h1 : heap) (x : R) (v : V) y h2 :
  h ⊆ h1 → denotes h x v → DeepCopyInto x h1 = (y, h2) → h1 ⊆ h2 ∧ apart (dom h) h2 y v.
Proof.
  intros Hs Hd Hc. destruct (deep_mono _ _ _ _ Hs Hd) as [Hd1 _]. destruct (deep_copy _ _ _ Hd1) as (H1 & H2 & H3).
  rewrite Hc in *. cbn in *. split; [done|]. split; [done|]. apply subseteq_dom in Hs. set_solver.
Qed.

Lemma apart_write `{Deep R V} (D : gset loc) (h : heap) (y : R) (v : V) l o :
  l ∈ D → apart D h y v → apart D (<[l := o]> h) y v.
Proof.
  intros Hl [Hd Hr]. destruct (deep_frame h (<[l := o]> h) y v Hd) as [Hd' He].
  - intros k Hk. apply lookup_insert_ne. set_solver.
  - split; [done|by rewrite He].
Qed.

Lemma apart_weaken `{Deep R V} (D D' : gset loc) (h : heap) (y : R) (v : V) : D' ⊆ D → apart D h y v → apart D' h y v.
Proof. intros Hs [Hd Hr]. split; [done|set_solver]. Qed.

(** ** Slices whose elements are copied in a loop *)

Section slices.
Context `{Deep R V, !Cell (list R)}.

(** The loop from index [i], over [n] more elements of the array at [l] into the array at [l']. *)
Fixpoint copyElements (l l' : loc) (i n : nat) (h : heap) : heap :=
  match n with
  | 0%nat => h
  | S n =>
      match load (A := list R) h l ≫= (.!! i) with
      | None => h
      | Some x =>
          let '(y, h) := DeepCopyInto x h in
          match load (A := list R) h l' with
          | None => h
          | Some ys => copyElements l l' (S i) n (<[l' := put (<[i := y]> ys)]> h)
          end
      end
  end.

(** [if in.F != nil { out.F = make(...); for i := range in.F { ... } }] *)
Definition copySlice (s : slice R) (h : heap) : slice R * heap :=
  match arr s with
  | None => (s, h)
  | Some l =>
      match load (A := list R) h l with
      | None => (s, h)
      | Some xs =>
          let '(l', h) := alloc (replicate (length xs) zero) h in
          (Slice (Some l'), copyElements l l' 0 (length xs) h)
      end
  end.

Definition slice_refs (h : heap) (s : slice R) : gset loc :=
  match arr s with
  | None => ∅
  | Some l => {[ l ]} ∪ ⋃ (refs h <$> default [] (load h l))
  end.

Definition slice_denotes (h : heap) (s : slice R) (vs : list V) : Prop :=
  match arr s with
  | None => vs = []
  | Some l => ∃ xs, load h l = Some xs ∧ Forall2 (denotes h) xs vs
  end.

Lemma elem_of_slice_refs h l xs k :
  load h l = Some xs → k ∈ slice_refs h (Slice (Some l)) ↔ k = l ∨ ∃ x, x ∈ xs ∧ k ∈ refs h x.
Proof.
  intros Hl. unfold slice_refs. cbn. rewrite Hl. cbn. rewrite elem_of_union, elem_of_singleton, elem_of_union_list.
  setoid_rewrite list_elem_of_fmap. naive_solver.
Qed.

Lemma Forall2_denotes_mono (h h' : heap) xs vs :
  (∀ x, x ∈ xs → ∀ k, k ∈ refs h x → h' !! k = h !! k) → Forall2 (denotes h) xs vs →
  Forall2 (denotes h') xs vs ∧ ∀ x, x ∈ xs → refs h' x = refs h x.
Proof.
  intros Hk Hf. induction Hf as [|x v xs vs Hd Hf IH]; [split; [done|by intros ? ?%not_elem_of_nil]|].
  destruct (deep_frame h h' x v Hd) as [Hd' Hr]; [intros k; apply Hk; left|].
  destruct IH as [IH1 IH2]; [intros y Hy; apply Hk; by right|]. split; [by constructor|].
  intros y [->|Hy]%elem_of_cons; auto.
Qed.

Lemma copyElements_apart (h0 : heap) l l' xs vs :
  load h0 l = Some xs → Forall2 (denotes h0) xs vs → l' ∉ dom h0 →
  ∀ n i h ys, h0 ⊆ h → (i + n)%nat = length xs → load h l' = Some (ys ++ replicate n zero) → length ys = i →
    Forall2 (apart (dom h0 ∪ {[ l' ]}) h) ys (take i vs) →
    h0 ⊆ copyElements l l' i n h ∧
    ∃ ys', load (copyElements l l' i n h) l' = Some ys' ∧ Forall2 (apart (dom h0 ∪ {[ l' ]}) (copyElements l l' i n h)) ys' vs.
Proof.
  intros Hl Hxs Hl'. pose proof (Forall2_length _ _ _ Hxs) as Hlen. induction n as [|n IH]; intros i h ys Hs Hn Hys Hi Hap.
  - split; [done|]. exists ys. rewrite app_nil_r in Hys. rewrite take_ge in Hap by lia. done.
  - destruct (lookup_lt_is_Some_2 xs i) as [x Hx]; [lia|]. destruct (Forall2_lookup_l _ _ _ _ _ Hxs Hx) as (v & Hv & Hd).
    cbn [copyElements]. rewrite (load_mono _ _ _ _ Hs Hl). cbn. rewrite Hx.
    destruct (DeepCopyInto x h) as [y h1] eqn:Hc. destruct (copy_apart h h x v y h1) as [Hs1 Hy]; [done| |done|].
    { by apply (deep_mono h0). }
    rewrite (load_mono _ _ _ _ Hs1 Hys), insert_app_r_alt, Hi, Nat.sub_diag by lia. cbn [replicate insert list_insert].
    assert (dom h0 ∪ {[ l' ]} ⊆ dom h) as HD.
    { apply load_dom in Hys. apply subseteq_dom in Hs. set_solver. }
    apply IH with (ys := ys ++ [y]).
    + apply insert_fresh_subseteq; [done|]. by etrans; [|exact Hs1].
    + lia.
    + rewrite load_put. by rewrite <- app_assoc.
    + rewrite length_app. cbn. lia.
    + rewrite (take_S_r _ _ v Hv). apply Forall2_app.
      * eapply Forall2_impl; [exact Hap|]. intros y' v' Hy'. apply apart_write; [set_solver|]. by eapply apart_mono.
      * constructor; [|done]. apply apart_write; [set_solver|]. by eapply apart_weaken.
Qed.

#[export] Instance slice_deep : Deep (slice R) (list V).
Proof.
  refine {| zero := Slice None; refs := slice_refs; denotes := slice_denotes; DeepCopyInto := copySlice |}.
  - intros h [[l|]] vs; cbn; [|set_solver]. intros (xs & Hl & Hxs) k Hk. apply (elem_of_slice_refs _ _ _ _ Hl) in Hk.
    destruct Hk as [->|(x & Hx & Hk)]; [by eapply load_dom|].
    apply list_elem_of_lookup in Hx as (i & Hx). destruct (Forall2_lookup_l _ _ _ _ _ Hxs Hx) as (v & _ & Hd). by eapply deep_refs.
  - intros h h' [[l|]] vs; [|done]. intros (xs & Hl & Hxs) Hk.
    destruct (Forall2_denotes_mono h h' xs vs) as [Hxs' Hr]; [|done|].
    { intros x Hx k Hkx. apply Hk, (elem_of_slice_refs _ _ _ _ Hl). eauto. }
    assert (load h' l = Some xs) as Hl'.
    { rewrite <- Hl. apply load_eq, Hk, (elem_of_slice_refs _ _ _ _ Hl). by left. }
    split; [by exists xs|]. apply set_eq. intros k. rewrite (elem_of_slice_refs _ _ _ _ Hl), (elem_of_slice_refs _ _ _ _ Hl').
    split; (intros [->|(x & Hx & Hkx)]; [by left|right; exists x; split; [done|]]); [by rewrite <- Hr|by rewrite Hr].
  - intros h [[l|]] vs; cbn; [|by intros ->; split_and!; [| |set_solver]]. intros (xs & Hl & Hxs). unfold copySlice. cbn. rewrite Hl.
    unfold alloc. cbv zeta. set (l' := fresh (dom h)). assert (l' ∉ dom h) as Hl' by apply is_fresh. cbn [fst snd].
    destruct (copyElements_apart h l l' xs vs Hl Hxs Hl' (length xs) 0 (<[l' := put (replicate (length xs) zero)]> h) [])
      as (Hs & ys & Hys & Hap); [by apply insert_fresh_subseteq|done|apply load_put|done|constructor|].
    split_and!; [done| |].
    + exists ys. split; [done|]. eapply Forall2_impl; [exact Hap|]. by intros y v [].
    + intros k Hk Hd. apply (elem_of_slice_refs _ _ _ _ Hys) in Hk as [->|(y & Hy & Hk)]; [done|].
      apply list_elem_of_lookup in Hy as (i & Hy). destruct (Forall2_lookup_l _ _ _ _ _ Hap Hy) as (v & _ & _ & Hr). set_solver.
Defined.
End slices.

(** ** Cells that hold no references *)

(** What reaches one cell, with plain contents: the copy is of the contents, into a new cell. *)
Definition cell_refs (p : option loc) : gset loc := match p with None => ∅ | Some l => {[ l ]} end.

Definition cell_denotes {A} `{!Cell A} (none : A) (h : heap) (p : option loc) (a : A) : Prop :=
  match p with None => a = none | Some l => load h l = Some a end.

Lemma cell_refs_dom {A} `{!Cell A} (none : A) h p a : cell_denotes none h p a → cell_refs p ⊆ dom h.
Proof. destruct p as [l|]; cbn; [|set_solver]. intros Hl%load_dom. set_solver. Qed.

Lemma cell_frame {A} `{!Cell A} (none : A) h h' p a :
  cell_denotes none h p a → (∀ l, l ∈ cell_refs p → h' !! l = h !! l) → cell_denotes none h' p a.
Proof. destruct p as [l|]; cbn; [|done]. intros <- Hk. apply load_eq, Hk. set_solver. Qed.

(** [p'] refers to a cell that is new in [h'] and holds what the one of [p] does. *)
Lemma cell_copied {A} `{!Cell A} (none : A) (h h' : heap) l l' a :
  cell_denotes none h (Some l) a → l' ∉ dom h → h ⊆ h' → load h' l' = Some a →
  h ⊆ h' ∧ cell_denotes none h' (Some l') a ∧ cell_refs (Some l') ## dom h.
Proof. intros Hl Hl' Hs Ha. split_and!; [done|done|]. cbn. set_solver. Qed.

(** [if in.F != nil { out.F = make([]string, len(in.F)); copy(out.F, in.F) }] *)
Definition copyStrings `{!Cell (list string)} (s : slice string) (h : heap) : slice string * heap :=
  match arr s with
  | None => (s, h)
  | Some l =>
      match load (A := list string) h l with
      | None => (s, h)
      | Some xs =>
          let '(l', h) := alloc (replicate (length xs) EmptyString) h in
          (Slice (Some l'), <[l' := put xs]> h)
      end
  end.

#[export] Instance strings_deep `{!Cell (list string)} : Deep (slice string) (list string).
Proof.
  refine {| zero := Slice None; refs h s := cell_refs (arr s); denotes h s := cell_denotes [] h (arr s); DeepCopyInto := copyStrings |}.
  - intros h s v. apply cell_refs_dom.
  - intros h h' s v Hd Hk. split; [by eapply cell_frame|done].
  - intros h [[l|]] v; [|cbn; intros ->; split_and!; [done|done|set_solver]]. cbn [arr]. intros Hd. pose proof Hd as Hl. cbn in Hl.
    unfold copyStrings. cbn [arr]. rewrite Hl. unfold alloc. cbv zeta. cbn [fst snd arr]. rewrite insert_insert_eq.
    eapply cell_copied; [exact Hd|apply is_fresh|apply insert_fresh_subseteq; [apply is_fresh|done]|apply load_put].
Defined.

(** The loop over a map's entries. *)
Fixpoint copyEntries `{!Cell (gmap string string)} (l' : loc) (kvs : list (string * string)) (h : heap) : heap :=
  match kvs with
  | [] => h
  | (k, v) :: kvs =>
      match load (A := gmap string string) h l' with
      | None => h
      | Some m => copyEntries l' kvs (<[l' := put (<[k := v]> m)]> h)
      end
  end.

Lemma copyEntries_load `{!Cell (gmap string string)} l' kvs h m (h0 : heap) :
  load h l' = Some m → l' ∉ dom h0 → h0 ⊆ h →
  h0 ⊆ copyEntries l' kvs h ∧ load (copyEntries l' kvs h) l' = Some (list_to_map (reverse kvs) ∪ m).
Proof.
  intros Hm Hl'. revert h m Hm. induction kvs as [|[k v] kvs IH]; intros h m Hm Hs.
  - split; [done|]. cbn [copyEntries]. by rewrite Hm, reverse_nil, list_to_map_nil, map_empty_union.
  - cbn [copyEntries]. rewrite Hm. destruct (IH (<[l' := put (<[k := v]> m)]> h) (<[k := v]> m)) as [Hs' Hl].
    + apply load_put.
    + by apply insert_fresh_subseteq.
    + split; [done|]. rewrite Hl, reverse_cons, list_to_map_app. cbn.
      rewrite <- (assoc_L (∪)). do 2 f_equal. by rewrite (insert_union_singleton_l m), insert_empty.
Qed.

(** [if in.F != nil { out.F = make(map[string]string, len(in.F)); for key, val := range in.F { out.F[key] = val } }] *)
Definition copyMap `{!Cell (gmap string string)} (s : gomap) (h : heap) : gomap * heap :=
  match tbl s with
  | None => (s, h)
  | Some l =>
      match load (A := gmap string string) h l with
      | None => (s, h)
      | Some m =>
          let '(l', h) := alloc (∅ : gmap string string) h in
          (Map (Some l'), copyEntries l' (map_to_list m) h)
      end
  end.

#[export] Instance map_deep `{!Cell (gmap string string)} : Deep gomap (gmap string string).
Proof.
  refine {| zero := Map None; refs h s := cell_refs (tbl s); denotes h s := cell_denotes ∅ h (tbl s); DeepCopyInto := copyMap |}.
  - intros h s v. apply cell_refs_dom.
  - intros h h' s v Hd Hk. split; [by eapply cell_frame|done].
  - intros h [[l|]] m; [|cbn; intros ->; split_and!; [done|done|set_solver]]. cbn [tbl]. intros Hd. pose proof Hd as Hl. cbn in Hl.
    unfold copyMap. cbn [tbl]. rewrite Hl. unfold alloc. cbv zeta. cbn [fst snd tbl].
    destruct (copyEntries_load (fresh (dom h)) (map_to_list m) (<[fresh (dom h) := put ∅]> h) ∅ h) as [Hs Hm].
    + apply load_put.
    + apply is_fresh.
    + apply insert_fresh_subseteq; [apply is_fresh|done].
    + eapply cell_copied; [exact Hd|apply is_fresh|done|]. rewrite Hm, map_union_empty. f_equal.
      rewrite <- (list_to_map_to_list m) at 2. apply list_to_map_proper; [|by rewrite reverse_Permutation].
      rewrite reverse_Permutation. apply NoDup_fst_map_to_list.
Defined.

(** [if in.F != nil { out.F = new(T); **out = **in }], where a [T] holds no references. *)
Definition copyPointer {A} `{!Inhabited A, !Cell A} (p : ref A) (h : heap) : ref A * heap :=
  match ptr p with
  | None => (p, h)
  | Some l =>
      match load (A := A) h l with
      | None => (p, h)
      | Some a => let '(l', h) := alloc (inhabitant : A) h in (Ref (Some l'), <[l' := put a]> h)
      end
  end.

#[export] Instance pointer_deep {A} `{!Inhabited A, !Cell A} : Deep (ref A) (option A).
Proof.
  refine {| zero := Ref None; refs h p := cell_refs (ptr p); DeepCopyInto := copyPointer;
            denotes h p v := match ptr p with None => v = None | Some l => ∃ a, load h l = Some a ∧ v = Some a end |}.
  - intros h [[l|]] v; cbn; [|set_solver]. intros (a & Hl%load_dom & _). set_solver.
  - intros h h' [[l|]] v; cbn; [|done]. intros (a & Hl & ->) Hk. split; [|done]. exists a. split; [|done].
    rewrite <- Hl. apply load_eq, Hk. set_solver.
  - intros h [[l|]] v; [|cbn; intros ->; split_and!; [done|done|set_solver]]. intros (a & Hl & ->). unfold copyPointer. cbn [ptr].
    rewrite Hl. unfold alloc. cbv zeta. cbn [fst snd ptr]. rewrite insert_insert_eq.
    destruct (cell_copied a h (<[fresh (dom h) := put a]> h) l (fresh (dom h)) a) as (Hs & Hd & Hr);
      [done|apply is_fresh|apply insert_fresh_subseteq; [apply is_fresh|done]|apply load_put|].
    split_and!; [done|by exists a|done].
Defined.

(** ** Structs

    A struct is copied field by field, in the order of its code; [*out = *in] copies the fields
    that hold no references. *)

#[export] Instance plain_deep {A} `{!Inhabited A} : Deep (plain A) A.
Proof.
  refine {| zero := Plain inhabitant; refs _ _ := ∅; denotes _ x v := the x = v; DeepCopyInto x h := (x, h) |};
    [set_solver|done|]. intros h x v <-. split_and!; [done|done|set_solver].
Defined.

#[export] Instance pair_deep `{Deep R1 V, Deep R2 W} : Deep (R1 * R2) (V * W).
Proof.
  refine {| zero := (zero, zero); refs h x := refs h x.1 ∪ refs h x.2; denotes h x v := denotes h x.1 v.1 ∧ denotes h x.2 v.2;
            DeepCopyInto x h := let '(a, h) := DeepCopyInto x.1 h in let '(b, h) := DeepCopyInto x.2 h in ((a, b), h) |}.
  - intros h [a b] [v w] [Ha Hb]. cbn in *. apply union_least; by eapply deep_refs.
  - intros h h' [a b] [v w] [Ha Hb] Hk. cbn in *.
    destruct (deep_frame h h' a v Ha) as [Ha' ->]; [set_solver|]. destruct (deep_frame h h' b w Hb) as [Hb' ->]; [set_solver|]. done.
  - intros h [a b] [v w] [Ha Hb]. cbn in *. destruct (DeepCopyInto a h) as [a' h1] eqn:Hca.
    destruct (copy_apart h h a v a' h1) as [Hs1 Ha']; [done..|]. destruct (DeepCopyInto b h1) as [b' h2] eqn:Hcb.
    destruct (copy_apart h h1 b w b' h2) as [Hs2 Hb']; [done..|]. apply (apart_mono _ h1 h2) in Ha'; [|done].
    destruct Ha', Hb'. cbn. split_and!; [by etrans|done|done|set_solver].
Defined.

(** A struct with the fields [to] lists, denoting a value with the fields [val] lists, is copied by
    [copy] if that copies the fields. *)
Definition struct_deep `{Deep P W} {R V} (z : R) (to : R → P) (val : V → W) (copy : R → heap → R * heap)
    (Hcopy : ∀ x h, (to (copy x h).1, (copy x h).2) = DeepCopyInto (to x) h) : Deep R V.
Proof.
  refine {| zero := z; refs h x := refs h (to x); denotes h x v := denotes h (to x) (val v); DeepCopyInto := copy |}.
  - intros h x v. apply deep_refs.
  - intros h h' x v. apply deep_frame.
  - intros h x v Hd%deep_copy. by rewrite <- Hcopy in Hd.
Defined.

(** ** [DeepCopy] *)

(** [if in == nil { return nil }; out := new(T); in.DeepCopyInto(out); return out] *)
Definition DeepCopy `{Deep R V, !Cell R} (p : ref R) (h : heap) : ref R * heap :=
  match ptr p with
  | None => (Ref None, h)
  | Some l =>
      match load (A := R) h l with
      | None => (Ref None, h)
      | Some x =>
          let '(l', h) := alloc (zero : R) h in
          let '(y, h) := DeepCopyInto x h in
          (Ref (Some l'), <[l' := put y]> h)
      end
  end.

(** A pointer to a value that denotes [v], and what is reached through it. *)
Definition points_to `{Deep R V, !Cell R} (h : heap) (p : ref R) (v : V) : Prop :=
  ∃ l x, ptr p = Some l ∧ load h l = Some x ∧ denotes h x v.

Definition reaches `{Deep R V, !Cell R} (h : heap) (p : ref R) : gset loc :=
  match ptr p with
  | None => ∅
  | Some l => {[ l ]} ∪ match load (A := R) h l with Some x => refs h x | None => ∅ end
  end.

(** [copy] makes independent copies: of nil it is nil; otherwise the copy denotes what the original does,
    no cell that existed is changed, the copy reaches only new cells, and so whatever is
    then written through the copy, the original still denotes what it did. *)
Definition independent `{Deep R V, !Cell R} (copy : ref R → heap → ref R * heap) : Prop :=
  (∀ h, copy (Ref None) h = (Ref None, h)) ∧
  ∀ h p v, points_to h p v →
    let '(q, h') := copy p h in
    points_to h' q v ∧ h ⊆ h' ∧ reaches h' q ## dom h ∧
    ∀ h'', (∀ l, l ∉ reaches h' q → h'' !! l = h' !! l) → points_to h'' p v.

Lemma points_to_frame `{Deep R V, !Cell R} (h h' : heap) p v :
  points_to h p v → (∀ l, l ∈ dom h → h' !! l = h !! l) → points_to h' p v.
Proof.
  intros (l & x & Hp & Hl & Hd) Hk. exists l, x. split_and!; [done| |].
  - rewrite <- Hl. apply load_eq, Hk. by eapply load_dom.
  - destruct (deep_frame h h' x v Hd) as [? _]; [|done]. intros k Hkx. by eapply Hk, deep_refs.
Qed.

Lemma DeepCopy_independent `{Deep R V, !Cell R} : independent (DeepCopy (R := R)).
Proof.
  split; [done|]. intros h p v Hp. pose proof Hp as (l & x & Hpl & Hl & Hd). unfold DeepCopy. rewrite Hpl, Hl. unfold alloc. cbv zeta.
  set (l' := fresh (dom h)). assert (l' ∉ dom h) as Hl' by apply is_fresh.
  set (h1 := <[l' := put zero]> h). assert (h ⊆ h1) as Hs1 by by apply insert_fresh_subseteq.
  destruct (DeepCopyInto x h1) as [y h2] eqn:Hc. destruct (deep_mono _ _ _ _ Hs1 Hd) as [Hd1 _].
  destruct (copy_apart h1 h1 x v y h2) as [Hs2 Hy]; [done..|].
  apply (apart_write (dom h1) h2 y v l' (put y)) in Hy as [Hdy Hry]; [|unfold h1; set_solver].
  set (h3 := <[l' := put y]> h2) in *. assert (h ⊆ h3) as Hs3 by (apply insert_fresh_subseteq; [done|by etrans]).
  assert (reaches h3 (Ref (Some l') : ref R) ## dom h) as Hfresh.
  { unfold reaches. cbn. unfold h3 at 1. rewrite load_put. unfold h1 in Hry. set_solver. }
  split_and!; [|done|done|].
  - exists l', y. split_and!; [done|apply load_put|done].
  - intros h'' Hk. apply (points_to_frame h); [done|]. intros k Hkd. rewrite Hk by set_solver.
    apply elem_of_dom in Hkd as [o Ho]. rewrite Ho. by eapply lookup_weaken.
Qed.
End memory.

Arguments Cell : clear implicits.
Arguments Deep : clear implicits.
