(* ===== verification/DeepCopy.v ===== *)
(** * The generated copies and the registration of the API types ([api/v1alpha1])

    The types of the API as they are in memory, with the slices, maps and pointers of their fields, and
    [zz_generated.deepcopy.go] on them. Each copy denotes the same value as the original, in the
    terms of the other files, and shares no memory with it: that is what makes values a
    sound model of the objects the controllers get from the cache and copy. *)

From S2P Require Import Prelude Api Memory.

(** [metav1.TypeMeta] *)
Record TypeMeta := { tm_Kind : string; tm_APIVersion : string }.

#[export] Instance TypeMeta_inhabited : Inhabited TypeMeta := populate {| tm_Kind := ""; tm_APIVersion := "" |}.
#[export] Instance AllowedNamespaces_inhabited : Inhabited AllowedNamespaces := populate {| From_ := "" |}.
#[export] Instance WireguardPeerSpec_inhabited : Inhabited WireguardPeerSpec :=
  populate {| PublicKey := ""; WireguardRef := ""; WireguardNamespace := "" |}.

(** The types of other packages as they are in memory, the cells they use, and the values of [metav1.ListMeta]. *)
Class Foreign := {
  EnvVarR : Type;
  EnvFromSourceR : Type;
  ResourceRequirementsR : Type;
  TolerationR : Type;
  ConditionR : Type;
  ObjectMetaR : Type;
  ListMetaR : Type;
  ListMeta : Type;
  OtherCell : Type;
}.

(** ** The types in memory *)

Module mem.
Section types.
Context `{Foreign}.

Record GluetunSpec := { Env : slice EnvVarR; EnvFrom : slice EnvFromSourceR; Resources : ResourceRequirementsR }.

Record WireguardPodSpec := { PodResources : ResourceRequirementsR }.

Record WireguardSpec := {
  PeerCIDR : string;
  LocalCIDRs : slice string;
  Gluetun : GluetunSpec;
  NodeSelector : gomap;
  Tolerations : slice TolerationR;
  Agent : WireguardPodSpec;
  AllowedNamespaces_ : ref AllowedNamespaces;
}.

Record WireguardStatus := {
  Status_ : string;
  Message : string;
  Endpoint : string;
  PublicKey : string;
  Conditions : slice ConditionR;
}.

Record Wireguard := {
  TypeMeta_ : TypeMeta;
  ObjectMeta_ : ObjectMetaR;
  Spec : WireguardSpec;
  Status : WireguardStatus;
}.

Record WireguardList := { ListTypeMeta : TypeMeta; ListMeta_ : ListMetaR; Items : slice Wireguard }.

Record WireguardPeerStatus := {
  PeerStatus_ : string;
  PeerMessage : string;
  PeerAddress : string;
  PeerEndpoint : string;
  PeerServerPublicKey : string;
  PeerLocalCIDRs : slice string;
  PeerConditions : slice ConditionR;
}.

Record WireguardPeer := {
  PeerTypeMeta : TypeMeta;
  PeerObjectMeta : ObjectMetaR;
  PeerSpec : WireguardPeerSpec;
  PeerStatus : WireguardPeerStatus;
}.

Record WireguardPeerList := { PeerListTypeMeta : TypeMeta; PeerListMeta : ListMetaR; PeerItems : slice WireguardPeer }.

(** What a cell holds. *)
Inductive object :=
  | OStrings (l : list string)
  | OStringMap (m : gmap string string)
  | OEnvVars (l : list EnvVarR)
  | OEnvFromSources (l : list EnvFromSourceR)
  | OTolerations (l : list TolerationR)
  | OConditions (l : list ConditionR)
  | OWireguards (l : list Wireguard)
  | OWireguardPeers (l : list WireguardPeer)
  | OAllowedNamespaces (x : AllowedNamespaces)
  | OGluetunSpec (x : GluetunSpec)
  | OWireguardPodSpec (x : WireguardPodSpec)
  | OWireguardSpec (x : WireguardSpec)
  | OWireguardStatus (x : WireguardStatus)
  | OWireguard (x : Wireguard)
  | OWireguardList (x : WireguardList)
  | OWireguardPeerSpec (x : WireguardPeerSpec)
  | OWireguardPeerStatus (x : WireguardPeerStatus)
  | OWireguardPeer (x : WireguardPeer)
  | OWireguardPeerList (x : WireguardPeerList)
  | OOther (x : OtherCell).
End types.
End mem.

Section cells.
Context `{Foreign}.

#[export] Instance strings_cell : Cell mem.object (list string).
Proof. by refine {| put := mem.OStrings; get o := match o with mem.OStrings x => Some x | _ => None end |}. Defined.
#[export] Instance map_cell : Cell mem.object (gmap string string).
Proof. by refine {| put := mem.OStringMap; get o := match o with mem.OStringMap x => Some x | _ => None end |}. Defined.
#[export] Instance envvars_cell : Cell mem.object (list EnvVarR).
Proof. by refine {| put := mem.OEnvVars; get o := match o with mem.OEnvVars x => Some x | _ => None end |}. Defined.
#[export] Instance envfroms_cell : Cell mem.object (list EnvFromSourceR).
Proof. by refine {| put := mem.OEnvFromSources; get o := match o with mem.OEnvFromSources x => Some x | _ => None end |}. Defined.
#[export] Instance tolerations_cell : Cell mem.object (list TolerationR).
Proof. by refine {| put := mem.OTolerations; get o := match o with mem.OTolerations x => Some x | _ => None end |}. Defined.
#[export] Instance conditions_cell : Cell mem.object (list ConditionR).
Proof. by refine {| put := mem.OConditions; get o := match o with mem.OConditions x => Some x | _ => None end |}. Defined.
#[export] Instance wireguards_cell : Cell mem.object (list mem.Wireguard).
Proof. by refine {| put := mem.OWireguards; get o := match o with mem.OWireguards x => Some x | _ => None end |}. Defined.
#[export] Instance peers_cell : Cell mem.object (list mem.WireguardPeer).
Proof. by refine {| put := mem.OWireguardPeers; get o := match o with mem.OWireguardPeers x => Some x | _ => None end |}. Defined.
#[export] Instance allowed_cell : Cell mem.object AllowedNamespaces.
Proof. by refine {| put := mem.OAllowedNamespaces; get o := match o with mem.OAllowedNamespaces x => Some x | _ => None end |}. Defined.
#[export] Instance gluetun_cell : Cell mem.object mem.GluetunSpec.
Proof. by refine {| put := mem.OGluetunSpec; get o := match o with mem.OGluetunSpec x => Some x | _ => None end |}. Defined.
#[export] Instance podspec_cell : Cell mem.object mem.WireguardPodSpec.
Proof. by refine {| put := mem.OWireguardPodSpec; get o := match o with mem.OWireguardPodSpec x => Some x | _ => None end |}. Defined.
#[export] Instance spec_cell : Cell mem.object mem.WireguardSpec.
Proof. by refine {| put := mem.OWireguardSpec; get o := match o with mem.OWireguardSpec x => Some x | _ => None end |}. Defined.
#[export] Instance status_cell : Cell mem.object mem.WireguardStatus.
Proof. by refine {| put := mem.OWireguardStatus; get o := match o with mem.OWireguardStatus x => Some x | _ => None end |}. Defined.
#[export] Instance wireguard_cell : Cell mem.object mem.Wireguard.
Proof. by refine {| put := mem.OWireguard; get o := match o with mem.OWireguard x => Some x | _ => None end |}. Defined.
#[export] Instance wireguardlist_cell : Cell mem.object mem.WireguardList.
Proof. by refine {| put := mem.OWireguardList; get o := match o with mem.OWireguardList x => Some x | _ => None end |}. Defined.
#[export] Instance peerspec_cell : Cell mem.object WireguardPeerSpec.
Proof. by refine {| put := mem.OWireguardPeerSpec; get o := match o with mem.OWireguardPeerSpec x => Some x | _ => None end |}. Defined.
#[export] Instance peerstatus_cell : Cell mem.object mem.WireguardPeerStatus.
Proof. by refine {| put := mem.OWireguardPeerStatus; get o := match o with mem.OWireguardPeerStatus x => Some x | _ => None end |}. Defined.
#[export] Instance peer_cell : Cell mem.object mem.WireguardPeer.
Proof. by refine {| put := mem.OWireguardPeer; get o := match o with mem.OWireguardPeer x => Some x | _ => None end |}. Defined.
#[export] Instance peerlist_cell : Cell mem.object mem.WireguardPeerList.
Proof. by refine {| put := mem.OWireguardPeerList; get o := match o with mem.OWireguardPeerList x => Some x | _ => None end |}. Defined.
End cells.

(** Shows that a copy copies the fields. *)
Ltac fieldwise copy :=
  intros x h; unfold copy; cbn; repeat (case_match; simplify_eq/=); done.

Section copies.
Context `{Foreign}.

Abbreviation heap := (gmap loc mem.object).

(** The copies of other packages. *)
Context `{!Deep mem.object EnvVarR EnvVar, !Deep mem.object EnvFromSourceR EnvFromSource,
          !Deep mem.object ResourceRequirementsR ResourceRequirements, !Deep mem.object TolerationR Toleration,
          !Deep mem.object ConditionR Condition, !Deep mem.object ObjectMetaR ObjectMeta, !Deep mem.object ListMetaR ListMeta}.

(** ** [AllowedNamespaces] and [WireguardPeerSpec]: no references *)

Definition AllowedNamespaces_DeepCopyInto (in_ : AllowedNamespaces) (h : heap) : AllowedNamespaces * heap := (in_, h).

#[export] Instance AllowedNamespaces_deep : Deep mem.object AllowedNamespaces AllowedNamespaces.
Proof. by refine (struct_deep inhabitant Plain id AllowedNamespaces_DeepCopyInto _). Defined.

Definition WireguardPeerSpec_DeepCopyInto (in_ : WireguardPeerSpec) (h : heap) : WireguardPeerSpec * heap := (in_, h).

#[export] Instance WireguardPeerSpec_deep : Deep mem.object WireguardPeerSpec WireguardPeerSpec.
Proof. by refine (struct_deep inhabitant Plain id WireguardPeerSpec_DeepCopyInto _). Defined.

(** ** [GluetunSpec] *)

Definition GluetunSpec_DeepCopyInto (in_ : mem.GluetunSpec) (h : heap) : mem.GluetunSpec * heap :=
  let '(env, h) := copySlice (mem.Env in_) h in
  let '(envFrom, h) := copySlice (mem.EnvFrom in_) h in
  let '(resources, h) := DeepCopyInto (mem.Resources in_) h in
  ({| mem.Env := env; mem.EnvFrom := envFrom; mem.Resources := resources |}, h).

#[export] Instance GluetunSpec_deep : Deep mem.object mem.GluetunSpec GluetunSpec.
Proof.
  refine (struct_deep {| mem.Env := zero; mem.EnvFrom := zero; mem.Resources := zero |}
    (λ x, (mem.Env x, (mem.EnvFrom x, mem.Resources x))) (λ v, (g_Env v, (g_EnvFrom v, g_Resources v)))
    GluetunSpec_DeepCopyInto _).
  fieldwise GluetunSpec_DeepCopyInto.
Defined.

(** ** [WireguardPodSpec] *)

Definition WireguardPodSpec_DeepCopyInto (in_ : mem.WireguardPodSpec) (h : heap) : mem.WireguardPodSpec * heap :=
  let '(resources, h) := DeepCopyInto (mem.PodResources in_) h in
  ({| mem.PodResources := resources |}, h).

#[export] Instance WireguardPodSpec_deep : Deep mem.object mem.WireguardPodSpec ResourceRequirements.
Proof.
  refine (struct_deep {| mem.PodResources := zero |} mem.PodResources id WireguardPodSpec_DeepCopyInto _).
  fieldwise WireguardPodSpec_DeepCopyInto.
Defined.

(** ** [WireguardSpec] *)

Definition WireguardSpec_DeepCopyInto (in_ : mem.WireguardSpec) (h : heap) : mem.WireguardSpec * heap :=
  let '(localCIDRs, h) := copyStrings (mem.LocalCIDRs in_) h in
  let '(gluetun, h) := GluetunSpec_DeepCopyInto (mem.Gluetun in_) h in
  let '(nodeSelector, h) := copyMap (mem.NodeSelector in_) h in
  let '(tolerations, h) := copySlice (mem.Tolerations in_) h in
  let '(agent, h) := WireguardPodSpec_DeepCopyInto (mem.Agent in_) h in
  let '(allowedNamespaces, h) := copyPointer (mem.AllowedNamespaces_ in_) h in
  ({| mem.PeerCIDR := mem.PeerCIDR in_; mem.LocalCIDRs := localCIDRs; mem.Gluetun := gluetun;
      mem.NodeSelector := nodeSelector; mem.Tolerations := tolerations; mem.Agent := agent;
      mem.AllowedNamespaces_ := allowedNamespaces |}, h).

#[export] Instance WireguardSpec_deep : Deep mem.object mem.WireguardSpec WireguardSpec.
Proof.
  refine (struct_deep
    {| mem.PeerCIDR := ""; mem.LocalCIDRs := zero; mem.Gluetun := zero; mem.NodeSelector := zero; mem.Tolerations := zero;
       mem.Agent := zero; mem.AllowedNamespaces_ := zero |}
    (λ x, (Plain (mem.PeerCIDR x), (mem.LocalCIDRs x, (mem.Gluetun x, (mem.NodeSelector x, (mem.Tolerations x,
          (mem.Agent x, mem.AllowedNamespaces_ x)))))))
    (λ v, (PeerCIDR v, (LocalCIDRs v, (Gluetun v, (NodeSelector v, (Tolerations v, (Agent v, AllowedNamespaces_ v)))))))
    WireguardSpec_DeepCopyInto _).
  fieldwise WireguardSpec_DeepCopyInto.
Defined.

(** ** [WireguardStatus] *)

Definition WireguardStatus_DeepCopyInto (in_ : mem.WireguardStatus) (h : heap) : mem.WireguardStatus * heap :=
  let '(conditions, h) := copySlice (mem.Conditions in_) h in
  ({| mem.Status_ := mem.Status_ in_; mem.Message := mem.Message in_; mem.Endpoint := mem.Endpoint in_;
      mem.PublicKey := mem.PublicKey in_; mem.Conditions := conditions |}, h).

#[export] Instance WireguardStatus_deep : Deep mem.object mem.WireguardStatus WireguardStatus.
Proof.
  refine (struct_deep
    {| mem.Status_ := ""; mem.Message := ""; mem.Endpoint := ""; mem.PublicKey := ""; mem.Conditions := zero |}
    (λ x, (Plain (mem.Status_ x, mem.Message x, mem.Endpoint x, mem.PublicKey x), mem.Conditions x))
    (λ v, ((ws_Status v, ws_Message v, ws_Endpoint v, ws_PublicKey v), ws_Conditions v))
    WireguardStatus_DeepCopyInto _).
  fieldwise WireguardStatus_DeepCopyInto.
Defined.

(** ** [Wireguard] and [WireguardList] *)

Definition Wireguard_DeepCopyInto (in_ : mem.Wireguard) (h : heap) : mem.Wireguard * heap :=
  let '(objectMeta, h) := DeepCopyInto (mem.ObjectMeta_ in_) h in
  let '(spec, h) := WireguardSpec_DeepCopyInto (mem.Spec in_) h in
  let '(status, h) := WireguardStatus_DeepCopyInto (mem.Status in_) h in
  ({| mem.TypeMeta_ := mem.TypeMeta_ in_; mem.ObjectMeta_ := objectMeta; mem.Spec := spec; mem.Status := status |}, h).

#[export] Instance Wireguard_deep : Deep mem.object mem.Wireguard (TypeMeta * Wireguard).
Proof.
  refine (struct_deep
    {| mem.TypeMeta_ := inhabitant; mem.ObjectMeta_ := zero; mem.Spec := zero; mem.Status := zero |}
    (λ x, (Plain (mem.TypeMeta_ x), (mem.ObjectMeta_ x, (mem.Spec x, mem.Status x))))
    (λ v, (v.1, (wg_meta v.2, (wg_Spec v.2, wg_Status v.2))))
    Wireguard_DeepCopyInto _).
  fieldwise Wireguard_DeepCopyInto.
Defined.

Definition WireguardList_DeepCopyInto (in_ : mem.WireguardList) (h : heap) : mem.WireguardList * heap :=
  let '(listMeta, h) := DeepCopyInto (mem.ListMeta_ in_) h in
  let '(items, h) := copySlice (mem.Items in_) h in
  ({| mem.ListTypeMeta := mem.ListTypeMeta in_; mem.ListMeta_ := listMeta; mem.Items := items |}, h).

#[export] Instance WireguardList_deep : Deep mem.object mem.WireguardList (TypeMeta * ListMeta * list (TypeMeta * Wireguard)).
Proof.
  refine (struct_deep
    {| mem.ListTypeMeta := inhabitant; mem.ListMeta_ := zero; mem.Items := zero |}
    (λ x, (Plain (mem.ListTypeMeta x), (mem.ListMeta_ x, mem.Items x))) (λ v, (v.1.1, (v.1.2, v.2)))
    WireguardList_DeepCopyInto _).
  fieldwise WireguardList_DeepCopyInto.
Defined.

(** ** [WireguardPeerStatus], [WireguardPeer] and [WireguardPeerList] *)

Definition WireguardPeerStatus_DeepCopyInto (in_ : mem.WireguardPeerStatus) (h : heap) : mem.WireguardPeerStatus * heap :=
  let '(localCIDRs, h) := copyStrings (mem.PeerLocalCIDRs in_) h in
  let '(conditions, h) := copySlice (mem.PeerConditions in_) h in
  ({| mem.PeerStatus_ := mem.PeerStatus_ in_; mem.PeerMessage := mem.PeerMessage in_; mem.PeerAddress := mem.PeerAddress in_;
      mem.PeerEndpoint := mem.PeerEndpoint in_; mem.PeerServerPublicKey := mem.PeerServerPublicKey in_;
      mem.PeerLocalCIDRs := localCIDRs; mem.PeerConditions := conditions |}, h).

#[export] Instance WireguardPeerStatus_deep : Deep mem.object mem.WireguardPeerStatus WireguardPeerStatus.
Proof.
  refine (struct_deep
    {| mem.PeerStatus_ := ""; mem.PeerMessage := ""; mem.PeerAddress := ""; mem.PeerEndpoint := "";
       mem.PeerServerPublicKey := ""; mem.PeerLocalCIDRs := zero; mem.PeerConditions := zero |}
    (λ x, (Plain (mem.PeerStatus_ x, mem.PeerMessage x, mem.PeerAddress x, mem.PeerEndpoint x, mem.PeerServerPublicKey x),
           (mem.PeerLocalCIDRs x, mem.PeerConditions x)))
    (λ v, ((ps_Status v, ps_Message v, ps_Address v, ps_Endpoint v, ps_ServerPublicKey v), (ps_LocalCIDRs v, ps_Conditions v)))
    WireguardPeerStatus_DeepCopyInto _).
  fieldwise WireguardPeerStatus_DeepCopyInto.
Defined.

Definition WireguardPeer_DeepCopyInto (in_ : mem.WireguardPeer) (h : heap) : mem.WireguardPeer * heap :=
  let '(objectMeta, h) := DeepCopyInto (mem.PeerObjectMeta in_) h in
  let '(status, h) := WireguardPeerStatus_DeepCopyInto (mem.PeerStatus in_) h in
  ({| mem.PeerTypeMeta := mem.PeerTypeMeta in_; mem.PeerObjectMeta := objectMeta; mem.PeerSpec := mem.PeerSpec in_;
      mem.PeerStatus := status |}, h).

#[export] Instance WireguardPeer_deep : Deep mem.object mem.WireguardPeer (TypeMeta * WireguardPeer).
Proof.
  refine (struct_deep
    {| mem.PeerTypeMeta := inhabitant; mem.PeerObjectMeta := zero; mem.PeerSpec := inhabitant; mem.PeerStatus := zero |}
    (λ x, (Plain (mem.PeerTypeMeta x, mem.PeerSpec x), (mem.PeerObjectMeta x, mem.PeerStatus x)))
    (λ v, ((v.1, wp_Spec v.2), (wp_meta v.2, wp_Status v.2)))
    WireguardPeer_DeepCopyInto _).
  fieldwise WireguardPeer_DeepCopyInto.
Defined.

Definition WireguardPeerList_DeepCopyInto (in_ : mem.WireguardPeerList) (h : heap) : mem.WireguardPeerList * heap :=
  let '(listMeta, h) := DeepCopyInto (mem.PeerListMeta in_) h in
  let '(items, h) := copySlice (mem.PeerItems in_) h in
  ({| mem.PeerListTypeMeta := mem.PeerListTypeMeta in_; mem.PeerListMeta := listMeta; mem.PeerItems := items |}, h).

#[export] Instance WireguardPeerList_deep :
  Deep mem.object mem.WireguardPeerList (TypeMeta * ListMeta * list (TypeMeta * WireguardPeer)).
Proof.
  refine (struct_deep
    {| mem.PeerListTypeMeta := inhabitant; mem.PeerListMeta := zero; mem.PeerItems := zero |}
    (λ x, (Plain (mem.PeerListTypeMeta x), (mem.PeerListMeta x, mem.PeerItems x))) (λ v, (v.1.1, (v.1.2, v.2)))
    WireguardPeerList_DeepCopyInto _).
  fieldwise WireguardPeerList_DeepCopyInto.
Defined.
(** ** [DeepCopy] and [DeepCopyObject] *)

Definition AllowedNamespaces_DeepCopy (in_ : ref AllowedNamespaces) (h : heap) : ref AllowedNamespaces * heap := DeepCopy in_ h.
Definition GluetunSpec_DeepCopy (in_ : ref mem.GluetunSpec) (h : heap) : ref mem.GluetunSpec * heap := DeepCopy in_ h.
Definition Wireguard_DeepCopy (in_ : ref mem.Wireguard) (h : heap) : ref mem.Wireguard * heap := DeepCopy in_ h.
Definition WireguardList_DeepCopy (in_ : ref mem.WireguardList) (h : heap) : ref mem.WireguardList * heap := DeepCopy in_ h.
Definition WireguardPeer_DeepCopy (in_ : ref mem.WireguardPeer) (h : heap) : ref mem.WireguardPeer * heap := DeepCopy in_ h.
Definition WireguardPeerList_DeepCopy (in_ : ref mem.WireguardPeerList) (h : heap) : ref mem.WireguardPeerList * heap := DeepCopy in_ h.
Definition WireguardPeerSpec_DeepCopy (in_ : ref WireguardPeerSpec) (h : heap) : ref WireguardPeerSpec * heap := DeepCopy in_ h.
Definition WireguardPeerStatus_DeepCopy (in_ : ref mem.WireguardPeerStatus) (h : heap) : ref mem.WireguardPeerStatus * heap := DeepCopy in_ h.
Definition WireguardPodSpec_DeepCopy (in_ : ref mem.WireguardPodSpec) (h : heap) : ref mem.WireguardPodSpec * heap := DeepCopy in_ h.
Definition WireguardSpec_DeepCopy (in_ : ref mem.WireguardSpec) (h : heap) : ref mem.WireguardSpec * heap := DeepCopy in_ h.
Definition WireguardStatus_DeepCopy (in_ : ref mem.WireguardStatus) (h : heap) : ref mem.WireguardStatus * heap := DeepCopy in_ h.

(** [if c := in.DeepCopy(); c != nil { return c }; return nil]: the interface holds the pointer, or is nil. *)
Definition orNil {R} (c : ref R * heap) : ref R * heap :=
  let '(c, h) := c in (match ptr c with Some l => Ref (Some l) | None => Ref None end, h).

Definition Wireguard_DeepCopyObject (in_ : ref mem.Wireguard) (h : heap) : ref mem.Wireguard * heap := orNil (Wireguard_DeepCopy in_ h).
Definition WireguardList_DeepCopyObject (in_ : ref mem.WireguardList) (h : heap) : ref mem.WireguardList * heap := orNil (WireguardList_DeepCopy in_ h).
Definition WireguardPeer_DeepCopyObject (in_ : ref mem.WireguardPeer) (h : heap) : ref mem.WireguardPeer * heap := orNil (WireguardPeer_DeepCopy in_ h).
Definition WireguardPeerList_DeepCopyObject (in_ : ref mem.WireguardPeerList) (h : heap) : ref mem.WireguardPeerList * heap := orNil (WireguardPeerList_DeepCopy in_ h).

Lemma orNil_id {R} (c : ref R * heap) : orNil c = c.
Proof. by destruct c as [[[l|]] h]. Qed.

(** C16: The generated copies are deep. For each type of the API, the copy of nil is nil; the copy of an object
    denotes the same value as the object, changes no cell that existed, and
    reaches only cells that did not; so whatever is written through the copy, the original, which
    other readers of the cache share, still denotes what it did. *)
Theorem copies_are_independent :
  independent AllowedNamespaces_DeepCopy ∧
  independent GluetunSpec_DeepCopy ∧
  independent Wireguard_DeepCopy ∧
  independent WireguardList_DeepCopy ∧
  independent WireguardPeer_DeepCopy ∧
  independent WireguardPeerList_DeepCopy ∧
  independent WireguardPeerSpec_DeepCopy ∧
  independent WireguardPeerStatus_DeepCopy ∧
  independent WireguardPodSpec_DeepCopy ∧
  independent WireguardSpec_DeepCopy ∧
  independent WireguardStatus_DeepCopy ∧
  independent Wireguard_DeepCopyObject ∧
  independent WireguardList_DeepCopyObject ∧
  independent WireguardPeer_DeepCopyObject ∧
  independent WireguardPeerList_DeepCopyObject.
Proof.
  assert (∀ R V (D : Deep mem.object R V) (C : Cell mem.object R), independent (λ (p : ref R) h, orNil (DeepCopy p h))) as Hobj.
  { intros R V D C. destruct (DeepCopy_independent (R := R)) as [Hn Hc]. split; [done|]. intros h p v. rewrite orNil_id. apply Hc. }
  split_and!; first [apply DeepCopy_independent|apply Hobj].
Qed.
End copies.

(** ** Registration *)

(** [runtime.Scheme]: the kinds it knows by group and version. [AddKnownTypes] registers a type under its name;
    [metav1.AddToGroupVersion] adds kinds of its own and forgets none. *)
Class SchemeLib := {
  Scheme : Type;
  known : Scheme → string * string → string → Prop;
  AddKnownTypes : Scheme → string * string → list string → Scheme;
  AddToGroupVersion : Scheme → string * string → Scheme;
  known_AddKnownTypes : ∀ s gv kinds gv' k, known (AddKnownTypes s gv kinds) gv' k ↔ gv' = gv ∧ k ∈ kinds ∨ known s gv' k;
  known_AddToGroupVersion : ∀ s gv gv' k, known s gv' k → known (AddToGroupVersion s gv) gv' k;
}.

(** [addKnownTypes]; it returns no error. *)
Definition addKnownTypes `{SchemeLib} (scheme : Scheme) : Scheme :=
  AddToGroupVersion (AddKnownTypes scheme GroupVersion ["Wireguard"; "WireguardList"; "WireguardPeer"; "WireguardPeerList"])
    GroupVersion.

(** Both kinds are registered with their list kinds, which a client needs to list and watch them. *)
Lemma addKnownTypes_lists `{SchemeLib} scheme k :
  k ∈ ["Wireguard"; "WireguardPeer"] →
  known (addKnownTypes scheme) GroupVersion k ∧ known (addKnownTypes scheme) GroupVersion (k +:+ "List").
Proof.
  intros Hk. split; apply known_AddToGroupVersion, known_AddKnownTypes; left; (split; [done|]);
    rewrite !elem_of_cons, elem_of_nil in Hk; destruct Hk as [->|[->|[]]]; by_evaluation.
Qed.

(** ** Witness *)

(** The other packages' types, with the maps of the metadata in memory. *)
Module RefMemory.
Record ObjectMetaM := { rest : string * string * string * string * Z * Z * list OwnerReference; labels : gomap; annotations : gomap }.

#[local] Instance foreign : Foreign := {|
  EnvVarR := plain EnvVar; EnvFromSourceR := plain EnvFromSource; ResourceRequirementsR := plain ResourceRequirements;
  TolerationR := plain Toleration; ConditionR := plain Condition; ObjectMetaR := ObjectMetaM;
  ListMetaR := plain string; ListMeta := string; OtherCell := unit |}.

#[local] Instance env_inhabited : Inhabited EnvVar := populate {| ev_Name := ""; ev_Value := ""; ev_FieldRef := None |}.
#[local] Instance envfrom_inhabited : Inhabited EnvFromSource :=
  populate {| ef_Prefix := ""; ef_SecretRef := None; ef_ConfigMapRef := None |}.
#[local] Instance resources_inhabited : Inhabited ResourceRequirements := populate noResources.
#[local] Instance toleration_inhabited : Inhabited Toleration :=
  populate {| t_Key := ""; t_Operator := ""; t_Value := ""; t_Effect := ""; t_TolerationSeconds := None |}.
#[local] Instance condition_inhabited : Inhabited Condition :=
  populate {| c_Type := ""; c_Status := ""; c_ObservedGeneration := 0; c_LastTransitionTime := 0; c_Reason := ""; c_Message := "" |}.

#[local] Instance env_deep : Deep mem.object EnvVarR EnvVar := plain_deep.
#[local] Instance envfrom_deep : Deep mem.object EnvFromSourceR EnvFromSource := plain_deep.
#[local] Instance resources_deep : Deep mem.object ResourceRequirementsR ResourceRequirements := plain_deep.
#[local] Instance toleration_deep : Deep mem.object TolerationR Toleration := plain_deep.
#[local] Instance condition_deep : Deep mem.object ConditionR Condition := plain_deep.
#[local] Instance listmeta_deep : Deep mem.object ListMetaR ListMeta := plain_deep.

Definition copyMeta (x : ObjectMetaM) (h : gmap loc mem.object) : ObjectMetaM * gmap loc mem.object :=
  let '(l, h) := copyMap (labels x) h in
  let '(a, h) := copyMap (annotations x) h in ({| rest := rest x; labels := l; annotations := a |}, h).

#[local] Instance meta_deep : Deep mem.object ObjectMetaR ObjectMeta.
Proof.
  refine (struct_deep {| rest := inhabitant; labels := Map None; annotations := Map None |}
    (λ x, (Plain (rest x), (labels x, annotations x)))
    (λ v, ((Name v, Namespace v, UID v, ResourceVersion v, Generation v, CreationTimestamp v, OwnerReferences v),
           (Labels v, Annotations v))) copyMeta _).
  fieldwise copyMeta.
Defined.

(** A peer with a label and two CIDRs. *)
Definition h : gmap loc mem.object :=
  {[ 1%positive := mem.OStringMap {[ "app" := "web" ]};
     2%positive := mem.OStrings ["10.96.0.0/12"; "10.244.0.0/16"];
     3%positive := mem.OWireguardPeer {|
       mem.PeerTypeMeta := {| tm_Kind := "WireguardPeer"; tm_APIVersion := "vpn.tunnel-operator.io/v1alpha1" |};
       mem.PeerObjectMeta := {| rest := ("web", "apps", "u1", "7", 1, 0, []); labels := Map (Some 1%positive); annotations := Map None |};
       mem.PeerSpec := {| PublicKey := "key"; WireguardRef := "gw"; WireguardNamespace := "vpn" |};
       mem.PeerStatus := {| mem.PeerStatus_ := "ready"; mem.PeerMessage := ""; mem.PeerAddress := "10.8.0.2";
                            mem.PeerEndpoint := ""; mem.PeerServerPublicKey := "";
                            mem.PeerLocalCIDRs := Slice (Some 2%positive); mem.PeerConditions := Slice None |} |} ]}.

Definition peer : WireguardPeer :=
  {| wp_meta := {| Name := "web"; Namespace := "apps"; UID := "u1"; ResourceVersion := "7"; Generation := 1;
                   CreationTimestamp := 0; Labels := {[ "app" := "web" ]}; Annotations := ∅; OwnerReferences := [] |};
     wp_Spec := {| PublicKey := "key"; WireguardRef := "gw"; WireguardNamespace := "vpn" |};
     wp_Status := {| ps_Status := "ready"; ps_Message := ""; ps_Address := "10.8.0.2"; ps_Endpoint := "";
                     ps_ServerPublicKey := ""; ps_LocalCIDRs := ["10.96.0.0/12"; "10.244.0.0/16"]; ps_Conditions := [] |} |}.

Definition typed : TypeMeta * WireguardPeer :=
  ({| tm_Kind := "WireguardPeer"; tm_APIVersion := "vpn.tunnel-operator.io/v1alpha1" |}, peer).

Lemma h_peer : points_to h (Ref (Some 3%positive) : ref mem.WireguardPeer) typed.
Proof. eexists _, _. split; [reflexivity|]. split; [reflexivity|]. cbn. split_and!; reflexivity. Qed.
End RefMemory.

#[local] Existing Instances RefMemory.foreign RefMemory.env_deep RefMemory.envfrom_deep RefMemory.resources_deep RefMemory.toleration_deep RefMemory.condition_deep RefMemory.listmeta_deep RefMemory.meta_deep.

Lemma copies_are_independent_witness :
  let '(q, h') := WireguardPeer_DeepCopyObject (Ref (Some 3%positive)) RefMemory.h in
  points_to h' q RefMemory.typed ∧ RefMemory.h ⊆ h' ∧ reaches h' q ## dom RefMemory.h.
Proof.
  destruct copies_are_independent as (_ & _ & _ & _ & _ & _ & _ & _ & _ & _ & _ & _ & _ & [_ Hc] & _).
  specialize (Hc _ _ _ RefMemory.h_peer). destruct (WireguardPeer_DeepCopyObject _ _) as [q h'].
  destruct Hc as (Hp & Hs & Hr & _). exact (conj Hp (conj Hs Hr)).
Defined.
