(* ===== verification/Admission.v ===== *)
(** * Admission: what the policies do to a pod ([config/admission], the policy of [renderInjectPolicy])

    The CEL expressions of the two admission policies as syntax, with their printed text and their
    value, and the JSON patches they make. The expressions here print as the texts of the code
    and of the YAML; their values are what the policies do: a labelled pod gets the client as its
    first init container, once, and without it is refused. *)

From S2P Require Import Prelude GoStd Api Resources Rbac Injection InjectionFacts CelFacts.

(** ** CEL *)

(** The part of CEL the policies use. [Has e f] is [has(e.f)], [Add p e] a JSON patch that adds at [p]. *)
Inductive cel :=
  | Var (x : string)
  | Sel (e : cel) (f : string)
  | Idx (e : cel) (n : Z)
  | Has (e : cel) (f : string)
  | Text (quoted : string → string) (s : string)
  | Num (n : Z)
  | Not (e : cel)
  | And (a b : cel)
  | Or (a b : cel)
  | Eq (a b : cel)
  | Gt (a b : cel)
  | Size (e : cel)
  | Exists (l : cel) (x : string) (e : cel)
  | Map (l : cel) (x : string) (e : cel)
  | Single (e : cel)
  | Add (path : string) (e : cel)
  | Cond (c a b : cel)
  | Plus (a b : cel).

Definition newline : string := str1 (chr 10).

(** A string in single quotes, for texts that need no escape. *)
Definition single_quoted (s : string) : string := "'" +:+ s +:+ "'".

(** The text of an expression, laid out as the sources do. *)
Fixpoint print (e : cel) : string :=
  match e with
  | Var x => x
  | Sel e f => print e +:+ "." +:+ f
  | Idx e n => print e +:+ "[" +:+ Itoa n +:+ "]"
  | Has e f => "has(" +:+ print e +:+ "." +:+ f +:+ ")"
  | Text quoted s => quoted s
  | Num n => Itoa n
  | Not e => "!" +:+ print e
  | And a b => print a +:+ " && " +:+ print b
  | Or a b => print a +:+ " || " +:+ print b
  | Eq a b => print a +:+ " == " +:+ print b
  | Gt a b => print a +:+ " > " +:+ print b
  | Size e => "size(" +:+ print e +:+ ")"
  | Exists l x e => print l +:+ ".exists(" +:+ x +:+ ", " +:+ print e +:+ ")"
  | Map l x e => print l +:+ ".map(" +:+ x +:+ ", " +:+ print e +:+ ")"
  | Single e => "[" +:+ print e +:+ "]"
  | Add path e => "JSONPatch{op: " +:+ Quote "add" +:+ ", path: " +:+ Quote path +:+ ", value: " +:+ print e +:+ "}"
  | Cond c a b => "(" +:+ print c +:+ newline +:+ "  ? " +:+ print a +:+ newline +:+ "  : " +:+ print b +:+ ")"
  | Plus a b => print a +:+ " +" +:+ newline +:+ print b
  end.

(** Values: JSON, a patch that adds a value at a path, and a list of values. *)
Inductive value := J (j : json) | P (path : string) (j : json) | L (l : list value).

Definition items (v : value) : option (list value) :=
  match v with J (JArr l) => Some (J <$> l) | L l => Some l | _ => None end.

Definition to_json (v : value) : option json :=
  match v with
  | J j => Some j
  | L l => JArr <$> mapM (λ v, match v with J j => Some j | _ => None end) l
  | P _ _ => None
  end.

Definition to_bool (v : option value) : option bool := match v with Some (J (JBool b)) => Some b | _ => None end.
Definition of_bool (b : option bool) : option value := J ∘ JBool <$> b.

(** [&&] and [||] take either operand, and an error only counts where the other operand does not decide. *)
Definition cel_or (a b : option bool) : option bool :=
  match a, b with
  | Some true, _ | _, Some true => Some true
  | Some false, Some false => Some false
  | _, _ => None
  end.

Definition cel_and (a b : option bool) : option bool :=
  match a, b with
  | Some false, _ | _, Some false => Some false
  | Some true, Some true => Some true
  | _, _ => None
  end.

Definition equal (a b : value) : option bool :=
  match a, b with J (JStr s), J (JStr t) => Some (bool_decide (s = t)) | _, _ => None end.

Definition env := string → option value.
Definition bind (ρ : env) (x : string) (v : value) : env := λ y, if decide (y = x) then Some v else ρ y.

Definition select (v : value) (f : string) : option value :=
  match v with J j => J <$> field f j | _ => None end.

(** The value of an expression; [None] is an error. *)
Fixpoint eval (ρ : env) (e : cel) : option value :=
  match e with
  | Var x => ρ x
  | Sel e f => v ← eval ρ e; select v f
  | Idx e n => v ← eval ρ e; l ← items v; l !! Z.to_nat n
  | Has e f => v ← eval ρ e; match v with J (JObj _) => Some (J (JBool (bool_decide (is_Some (select v f))))) | _ => None end
  | Text _ s => Some (J (JStr s))
  | Num n => Some (J (JNum n))
  | Not e => of_bool (negb <$> to_bool (eval ρ e))
  | And a b => of_bool (cel_and (to_bool (eval ρ a)) (to_bool (eval ρ b)))
  | Or a b => of_bool (cel_or (to_bool (eval ρ a)) (to_bool (eval ρ b)))
  | Eq a b => x ← eval ρ a; y ← eval ρ b; of_bool (equal x y)
  | Gt a b =>
      x ← eval ρ a; y ← eval ρ b;
      match x, y with J (JNum m), J (JNum n) => Some (J (JBool (n <? m))) | _, _ => None end
  | Size e => v ← eval ρ e; l ← items v; Some (J (JNum (Z.of_nat (length l))))
  | Exists l x e =>
      v ← eval ρ l; l ← items v;
      of_bool (foldr (λ v r, cel_or (to_bool (eval (bind ρ x v) e)) r) (Some false) l)
  | Map l x e => v ← eval ρ l; l ← items v; L <$> mapM (λ v, eval (bind ρ x v) e) l
  | Single e => v ← eval ρ e; Some (L [v])
  | Add path e => v ← eval ρ e; j ← to_json v; Some (P path j)
  | Cond c a b => t ← to_bool (eval ρ c); if (t : bool) then eval ρ a else eval ρ b
  | Plus a b => x ← eval ρ a; y ← eval ρ b; l ← items x; k ← items y; Some (L (l ++ k))
  end.

(** ** JSON patches (RFC 6902, the operation [add]) *)

Fixpoint tokens_from (acc s : string) : list string :=
  match s with
  | EmptyString => [acc]
  | String c s => if decide (c = "/"%char) then acc :: tokens_from "" s else tokens_from (acc +:+ str1 c) s
  end.

(** The reference tokens of a JSON pointer. *)
Definition tokens (path : string) : list string := tail (tokens_from "" path).

Fixpoint set_member (k : string) (v : json) (m : list (string * json)) : list (string * json) :=
  match m with
  | [] => [(k, v)]
  | (k', v') :: m => if decide (k' = k) then (k, v) :: m else (k', v') :: set_member k v m
  end.

Definition index (t : string) : option nat := n ← Atoi t; if decide (0 <= n) then Some (Z.to_nat n) else None.

Fixpoint add_at (ts : list string) (v doc : json) : option json :=
  match ts with
  | [] => Some v
  | t :: ts =>
      match doc with
      | JObj m =>
          match ts with
          | [] => Some (JObj (set_member t v m))
          | _ => d ← field t doc; d ← add_at ts v d; Some (JObj (set_member t d m))
          end
      | JArr l =>
          match ts with
          | [] =>
              if decide (t = "-") then Some (JArr (l ++ [v]))
              else i ← index t; if decide (i <= length l)%nat then Some (JArr (take i l ++ v :: drop i l)) else None
          | _ => i ← index t; d ← l !! i; d ← add_at ts v d; Some (JArr (<[i := d]> l))
          end
      | _ => None
      end
  end.

(** A list of patches, in order. *)
Definition patch (v : value) (doc : json) : option json :=
  match v with
  | L l => foldl (λ doc v, doc ← doc; match v with P path j => add_at (tokens path) j doc | _ => None end) (Some doc) l
  | _ => None
  end.

(** ** The expressions *)

Definition object : cel := Var "object".
Definition spec : cel := Sel object "spec".
Definition variable (x : string) : cel := Sel (Var "variables") x.

(** The match condition of the injection policy. *)
Definition not_yet_injected : cel :=
  Or (Not (Has spec "initContainers"))
     (Not (Exists (Sel spec "initContainers") "c" (Eq (Sel (Var "c") "name") (Text Quote SidecarContainer)))).

(** Its mutation. *)
Definition injection : cel :=
  Plus
    (Cond (Has spec "volumes")
       (Map (variable "volumes") "v" (Add "/spec/volumes/-" (Var "v")))
       (Single (Add "/spec/volumes" (variable "volumes"))))
    (Cond (Has spec "initContainers")
       (Single (Add "/spec/initContainers/0" (variable "sidecar")))
       (Single (Add "/spec/initContainers" (Single (variable "sidecar"))))).

(** The validations of [config/admission/require_injection_policy.yaml]. *)
Definition no_host_network : cel := Or (Not (Has spec "hostNetwork")) (Not (Sel spec "hostNetwork")).

Definition first : cel := Idx (Sel spec "initContainers") 0.

Definition carries_client : cel :=
  And (And (And (And (Has spec "initContainers") (Gt (Size (Sel spec "initContainers")) (Num 0)))
    (Eq (Sel first "name") (Text single_quoted "wg-client")))
    (Has first "restartPolicy"))
    (Eq (Sel first "restartPolicy") (Text single_quoted "Always")).

Definition backstop : list cel := [no_host_network; carries_client].

Definition validations : list string :=
  ["!has(object.spec.hostNetwork) || !object.spec.hostNetwork";
   "has(object.spec.initContainers) && size(object.spec.initContainers) > 0 && " +:+
   "object.spec.initContainers[0].name == 'wg-client' && " +:+
   "has(object.spec.initContainers[0].restartPolicy) && " +:+
   "object.spec.initContainers[0].restartPolicy == 'Always'"].

(** The selectors of [config/admission/require_injection_binding.yaml]. *)
Definition backstopSelectors : MatchResources :=
  {| mr_ObjectSelector :=
       {| ls_MatchLabels := {["tunnel-operator.io/enabled" := "true"]};
          ls_MatchExpressions := [{| ls_Key := "tunnel-operator.io/component"; ls_Operator := "DoesNotExist"; ls_Values := [] |}] |};
     mr_NamespaceSelector :=
       {| ls_MatchLabels := ∅;
          ls_MatchExpressions := [{| ls_Key := "kubernetes.io/metadata.name"; ls_Operator := "NotIn"; ls_Values := ["kube-system"] |}] |} |}.

(** The expressions are the texts. *)
Lemma texts : print not_yet_injected = notYetInjected ∧ print injection = mutation ∧
  print <$> backstop = validations.
Proof. by vm_compute. Qed.

(** ** Pods *)

Definition spec_field (k : string) (pod : json) : option json := field "spec" pod ≫= field k.

(** The list in a field of the spec, empty where the field is absent. *)
Definition list_of (k : string) (pod : json) : option (list json) :=
  match spec_field k pod with None => Some [] | Some (JArr l) => Some l | Some _ => None end.

(** A pod as the server decodes it: a spec whose volumes and init containers are lists, and every container named. *)
Record pod_like (pod : json) (cs vs : list json) : Prop := {
  pl_spec : ∃ m, field "spec" pod = Some (JObj m);
  pl_containers : list_of "initContainers" pod = Some cs;
  pl_volumes : list_of "volumes" pod = Some vs;
  pl_names : Forall (λ c, ∃ n, field "name" c = Some (JStr n)) cs;
  pl_network : spec_field "hostNetwork" pod = None ∨ ∃ b, spec_field "hostNetwork" pod = Some (JBool b);
}.

Definition is_client (c : json) : bool := bool_decide (string_of (field "name" c) = SidecarContainer).

Definition host_network (pod : json) : bool :=
  match spec_field "hostNetwork" pod with Some (JBool b) => b | _ => false end.

(** [pod'] is [pod] with the field [k] of the spec set. *)
Record sets (k : string) (v : json) (pod pod' : json) : Prop := {
  sets_spec : ∃ m, field "spec" pod' = Some (JObj m);
  sets_value : spec_field k pod' = Some v;
  sets_others : ∀ k', k' ≠ k → spec_field k' pod' = spec_field k' pod;
  sets_outside : ∀ f, f ≠ "spec" → field f pod' = field f pod;
}.

Lemma field_set_eq k v m : field k (JObj (set_member k v m)) = Some v.
Proof.
  induction m as [|[k' v'] m IH]; cbn; [by rewrite bool_decide_eq_true_2|].
  case_decide as Hk; cbn; [by rewrite bool_decide_eq_true_2|]. by rewrite bool_decide_eq_false_2.
Qed.

Lemma field_set_ne k k' v m : k' ≠ k → field k' (JObj (set_member k v m)) = field k' (JObj m).
Proof.
  intros Hne. induction m as [|[k1 v1] m IH]; cbn; [by rewrite bool_decide_eq_false_2|].
  case_decide as Hk; cbn; [|by case_bool_decide]. subst. by rewrite !bool_decide_eq_false_2.
Qed.

Lemma field_obj f j v : field f j = Some v → ∃ m, j = JObj m.
Proof. destruct j; try done. eauto. Qed.

Lemma spec_obj k pod v : spec_field k pod = Some v → ∃ m, field "spec" pod = Some (JObj m).
Proof.
  unfold spec_field. destruct (field "spec" pod) as [j|]; [|done]. intros Hk. destruct (field_obj _ _ _ Hk) as [m ->]. by exists m.
Qed.

(** Replacing the spec sets the field that differs. *)
Lemma sets_member k v pod m p :
  pod = JObj p → field "spec" pod = Some (JObj m) → sets k v pod (JObj (set_member "spec" (JObj (set_member k v m)) p)).
Proof.
  intros -> Hs. split.
  - rewrite field_set_eq. by eexists.
  - unfold spec_field. rewrite field_set_eq. cbn [mbind option_bind]. apply field_set_eq.
  - intros k' Hk. unfold spec_field. rewrite field_set_eq, Hs. cbn [mbind option_bind]. by apply field_set_ne.
  - intros f Hf. by apply field_set_ne.
Qed.

Lemma add_field k v pod m :
  field "spec" pod = Some (JObj m) → ∃ pod', add_at ["spec"; k] v pod = Some pod' ∧ sets k v pod pod'.
Proof.
  intros Hs. destruct (field_obj _ _ _ Hs) as [p ->]. eexists. split; [|by apply sets_member].
  cbn [add_at]. rewrite Hs. done.
Qed.

Lemma add_element k t v l l' pod m :
  field "spec" pod = Some (JObj m) → spec_field k pod = Some (JArr l) → add_at [t] v (JArr l) = Some (JArr l') →
  ∃ pod', add_at ["spec"; k; t] v pod = Some pod' ∧ sets k (JArr l') pod pod'.
Proof.
  intros Hs Hk Ha. destruct (field_obj _ _ _ Hs) as [p ->]. eexists. split; [|by apply sets_member].
  unfold spec_field in Hk. rewrite Hs in Hk. cbn [mbind option_bind] in Hk.
  cbn [add_at] in Ha |- *. rewrite Hs. cbn [mbind option_bind]. rewrite Hk. cbn [mbind option_bind]. by rewrite Ha.
Qed.

(** ** The policies on a pod *)

(** What the expressions see: the pod, and the variables of the injection policy. *)
Definition scope (pod sidecar volumes : json) : env :=
  bind (bind (λ _, None) "object" (J pod)) "variables" (J (JObj [("sidecar", sidecar); ("volumes", volumes)])).

#[local] Arguments field : simpl never.

Lemma eval_spec ρ pod : ρ "object" = Some (J pod) → eval ρ spec = J <$> field "spec" pod.
Proof. intros Ho. cbn. by rewrite Ho. Qed.

Lemma eval_field ρ pod k : ρ "object" = Some (J pod) → eval ρ (Sel spec k) = J <$> spec_field k pod.
Proof.
  intros Ho. change (eval ρ spec ≫= (λ v, select v k) = J <$> spec_field k pod).
  rewrite (eval_spec ρ pod) by done. unfold spec_field. by destruct (field "spec" pod).
Qed.

Lemma eval_has ρ pod m k :
  ρ "object" = Some (J pod) → field "spec" pod = Some (JObj m) →
  eval ρ (Has spec k) = Some (J (JBool (bool_decide (is_Some (spec_field k pod))))).
Proof.
  intros Ho Hs. unfold spec_field. cbn [eval]. rewrite (eval_spec ρ pod), Hs by done. cbn. do 3 f_equal.
  apply bool_decide_ext. by rewrite fmap_is_Some.
Qed.

Lemma eval_exists pod sc vl (cs : list json) :
  spec_field "initContainers" pod = Some (JArr cs) → Forall (λ c, ∃ n, field "name" c = Some (JStr n)) cs →
  eval (scope pod sc vl) (Exists (Sel spec "initContainers") "c" (Eq (Sel (Var "c") "name") (Text Quote SidecarContainer))) =
    Some (J (JBool (existsb is_client cs))).
Proof.
  intros Hk Hn.
  trans (of_bool (foldr (λ v r, cel_or (to_bool (eval (bind (scope pod sc vl) "c" v)
    (Eq (Sel (Var "c") "name") (Text Quote SidecarContainer)))) r) (Some false) (J <$> cs))).
  { change (eval (scope pod sc vl) (Exists (Sel spec "initContainers") ?x ?e)) with
      (v ← eval (scope pod sc vl) (Sel spec "initContainers"); l ← items v;
       of_bool (foldr (λ v r, cel_or (to_bool (eval (bind (scope pod sc vl) x v) e)) r) (Some false) l)).
    by rewrite (eval_field _ pod), Hk by done. }
  enough (foldr (λ v r, cel_or (to_bool (eval (bind (scope pod sc vl) "c" v)
    (Eq (Sel (Var "c") "name") (Text Quote SidecarContainer)))) r) (Some false) (J <$> cs) = Some (existsb is_client cs)) as -> by done.
  clear Hk. induction Hn as [|c cs [n Hc] Hn IH]; [done|]. cbn [fmap list_fmap foldr existsb]. rewrite IH.
  assert (is_client c = bool_decide (n = SidecarContainer)) as -> by (unfold is_client; by rewrite Hc).
  assert (eval (bind (scope pod sc vl) "c" (J c)) (Eq (Sel (Var "c") "name") (Text Quote SidecarContainer)) =
    Some (J (JBool (bool_decide (n = SidecarContainer))))) as ->.
  { change ((J <$> field "name" c) ≫= (λ x, of_bool (equal x (J (JStr SidecarContainer)))) =
      Some (J (JBool (bool_decide (n = SidecarContainer))))). by rewrite Hc. }
  cbn [to_bool cel_or]. by destruct (bool_decide _), (existsb is_client cs).
Qed.

(** The condition holds of a pod that has no client yet. *)
Lemma eval_not_yet_injected pod sc vl cs vs :
  pod_like pod cs vs → eval (scope pod sc vl) not_yet_injected = Some (J (JBool (negb (existsb is_client cs)))).
Proof.
  intros [[m Hs] Hc _ Hn _]. unfold not_yet_injected. unfold list_of in Hc.
  change (eval ?ρ (Or (Not ?a) (Not ?b))) with
    (of_bool (cel_or (to_bool (of_bool (negb <$> to_bool (eval ρ a)))) (to_bool (of_bool (negb <$> to_bool (eval ρ b)))))).
  rewrite (eval_has _ pod m) by done.
  destruct (spec_field "initContainers" pod) as [[]|] eqn:Hk; simplify_eq.
  - rewrite (eval_exists _ _ _ cs) by done. by destruct (existsb is_client cs).
  - done.
Qed.

(** The patches the mutation makes. *)
Definition volume_patches (pod : json) (vl : list json) : list value :=
  match spec_field "volumes" pod with
  | Some _ => P "/spec/volumes/-" <$> vl
  | None => [P "/spec/volumes" (JArr vl)]
  end.

Definition container_patches (pod sc : json) : list value :=
  match spec_field "initContainers" pod with
  | Some _ => [P "/spec/initContainers/0" sc]
  | None => [P "/spec/initContainers" (JArr [sc])]
  end.

Lemma eval_injection pod sc vl cs vs :
  pod_like pod cs vs →
  eval (scope pod sc (JArr vl)) injection = Some (L (volume_patches pod vl ++ container_patches pod sc)).
Proof.
  intros [[m Hs] _ _ _ _]. unfold injection, volume_patches, container_patches.
  set (ρ := scope pod sc (JArr vl)).
  change (eval ρ (Plus (Cond ?c ?a ?b) (Cond ?c' ?a' ?b'))) with
    (x ← (t ← to_bool (eval ρ c); if (t : bool) then eval ρ a else eval ρ b);
     y ← (t ← to_bool (eval ρ c'); if (t : bool) then eval ρ a' else eval ρ b');
     l ← items x; k ← items y; Some (L (l ++ k))).
  rewrite !(eval_has ρ pod m) by done.
  assert (eval ρ (Map (variable "volumes") "v" (Add "/spec/volumes/-" (Var "v"))) = Some (L (P "/spec/volumes/-" <$> vl))) as Hmap.
  { change (L <$> mapM (λ v, eval (bind ρ "v" v) (Add "/spec/volumes/-" (Var "v"))) (J <$> vl) =
      Some (L (P "/spec/volumes/-" <$> vl))).
    enough (mapM (λ v, eval (bind ρ "v" v) (Add "/spec/volumes/-" (Var "v"))) (J <$> vl) = Some (P "/spec/volumes/-" <$> vl)) as -> by done.
    apply mapM_Some_2. rewrite Forall2_fmap_l, Forall2_fmap_r. by apply Forall_Forall2_diag, Forall_true. }
  destruct (spec_field "volumes" pod), (spec_field "initContainers" pod); cbn [to_bool bool_decide mbind option_bind];
    rewrite ?bool_decide_eq_true_2, ?bool_decide_eq_false_2 by (by eexists || by intros []); cbn [mbind option_bind];
    rewrite ?Hmap; done.
Qed.

Lemma patch_app a b doc : patch (L (a ++ b)) doc = patch (L a) doc ≫= patch (L b).
Proof.
  cbn [patch]. rewrite foldl_app. destruct (foldl _ (Some doc) a); [done|]. cbn. clear a. by induction b.
Qed.

Lemma sets_trans k v1 v2 a b c : sets k v1 a b → sets k v2 b c → sets k v2 a c.
Proof.
  intros [? ? H1 H2] [? ? H3 H4]. split; [done|done| |]; intros; [rewrite H3, H1 by done|rewrite H4, H2 by done]; done.
Qed.

Lemma append_volumes l vl pod m :
  field "spec" pod = Some (JObj m) → spec_field "volumes" pod = Some (JArr l) →
  ∃ pod', patch (L (P "/spec/volumes/-" <$> vl)) pod = Some pod' ∧ sets "volumes" (JArr (l ++ vl)) pod pod'.
Proof.
  revert l pod m. induction vl as [|v vl IH]; intros l pod m Hs Hv.
  { exists pod. split; [done|]. rewrite app_nil_r. split; eauto. }
  destruct (add_element "volumes" "-" v l (l ++ [v]) pod m Hs Hv eq_refl) as (pod1 & Ha & H1).
  destruct (sets_spec _ _ _ _ H1) as [m1 Hm1].
  destruct (IH (l ++ [v]) pod1 m1 Hm1 (sets_value _ _ _ _ H1)) as (pod2 & Hp & H2).
  exists pod2. split; [|rewrite <- app_assoc in H2; by eapply sets_trans].
  change (P "/spec/volumes/-" <$> v :: vl) with ([P "/spec/volumes/-" v] ++ (P "/spec/volumes/-" <$> vl)).
  rewrite patch_app. change (patch (L [P "/spec/volumes/-" v]) pod) with (add_at ["spec"; "volumes"; "-"] v pod).
  by rewrite Ha.
Qed.

Lemma volumes_patched pod vl cs vs :
  pod_like pod cs vs →
  ∃ pod', patch (L (volume_patches pod vl)) pod = Some pod' ∧ sets "volumes" (JArr (vs ++ vl)) pod pod'.
Proof.
  intros [[m Hs] _ Hv _ _]. unfold list_of in Hv. unfold volume_patches.
  destruct (spec_field "volumes" pod) as [[]|] eqn:Hk; simplify_eq.
  - by eapply append_volumes.
  - destruct (add_field "volumes" (JArr vl) pod m Hs) as (pod' & Ha & H'). by exists pod'.
Qed.

Lemma containers_patched pod sc cs m :
  field "spec" pod = Some (JObj m) → list_of "initContainers" pod = Some cs →
  ∃ pod', patch (L (container_patches pod sc)) pod = Some pod' ∧ sets "initContainers" (JArr (sc :: cs)) pod pod'.
Proof.
  intros Hs Hc. unfold list_of in Hc. unfold container_patches.
  destruct (spec_field "initContainers" pod) as [[]|] eqn:Hk; simplify_eq.
  - destruct (add_element "initContainers" "0" sc cs (sc :: cs) pod m Hs Hk) as (pod' & Ha & H'); [|by exists pod'].
    cbn [add_at]. change (index "0") with (Some 0%nat). cbn [mbind option_bind].
    rewrite decide_False by done. by rewrite decide_True by lia.
  - destruct (add_field "initContainers" (JArr [sc]) pod m Hs) as (pod' & Ha & H'). by exists pod'.
Qed.

(** ** The backstop *)

(** The validating policy accepts [pod]: every validation is true, an error counting as a refusal. *)
Definition accepts (pod : json) : Prop :=
  Forall (λ e, eval (bind (λ _, None) "object" (J pod)) e = Some (J (JBool true))) backstop.

(** The pod has the client first, as a sidecar, and a network of its own. *)
Definition tunnelled (pod : json) : Prop :=
  (∃ c cs, spec_field "initContainers" pod = Some (JArr (c :: cs)) ∧
     field "name" c = Some (JStr SidecarContainer) ∧ field "restartPolicy" c = Some (JStr "Always")) ∧
  (spec_field "hostNetwork" pod = None ∨ spec_field "hostNetwork" pod = Some (JBool false)).

Lemma eval_and ρ a b :
  eval ρ (And a b) = Some (J (JBool true)) ↔ eval ρ a = Some (J (JBool true)) ∧ eval ρ b = Some (J (JBool true)).
Proof.
  change (eval ρ (And a b)) with (of_bool (cel_and (to_bool (eval ρ a)) (to_bool (eval ρ b)))).
  destruct (eval ρ a) as [[[|[]| | | |]| |]|], (eval ρ b) as [[[|[]| | | |]| |]|]; cbn; naive_solver.
Qed.

Lemma or_true a b : of_bool (cel_or a b) = Some (J (JBool true)) ↔ a = Some true ∨ b = Some true.
Proof. destruct a as [[]|], b as [[]|]; cbn; naive_solver. Qed.

Lemma not_true v : to_bool (of_bool (negb <$> to_bool v)) = Some true ↔ v = Some (J (JBool false)).
Proof. destruct v as [[[|[]| | | |]| |]|]; cbn; naive_solver. Qed.

Lemma has_is ρ pod k b :
  ρ "object" = Some (J pod) →
  eval ρ (Has spec k) = Some (J (JBool b)) ↔
  (∃ m, field "spec" pod = Some (JObj m)) ∧ b = bool_decide (is_Some (spec_field k pod)).
Proof.
  intros Ho. split.
  - intros He. assert (∃ m, field "spec" pod = Some (JObj m)) as [m Hm].
    { cbn [eval] in He. rewrite (eval_spec ρ pod) in He by done. destruct (field "spec" pod) as [[]|]; naive_solver. }
    split; [by exists m|]. rewrite (eval_has ρ pod m) in He by done. congruence.
  - intros [[m Hm] ->]. by apply (eval_has ρ pod m).
Qed.

Lemma eval_first ρ pod : ρ "object" = Some (J pod) →
  eval ρ first = v ← J <$> spec_field "initContainers" pod; l ← items v; l !! 0%nat.
Proof.
  intros Ho. change (eval ρ first) with (v ← eval ρ (Sel spec "initContainers"); l ← items v; l !! 0%nat).
  by rewrite (eval_field ρ pod).
Qed.

Lemma first_text ρ pod f q s : ρ "object" = Some (J pod) →
  eval ρ (Eq (Sel first f) (Text q s)) = Some (J (JBool true)) ↔
  ∃ c cs, spec_field "initContainers" pod = Some (JArr (c :: cs)) ∧ field f c = Some (JStr s).
Proof.
  intros Ho.
  change (eval ρ (Eq (Sel first f) (Text q s))) with
    (x ← (v ← eval ρ first; select v f); of_bool (equal x (J (JStr s)))).
  rewrite (eval_first ρ pod) by done. split.
  - destruct (spec_field "initContainers" pod) as [[| | | |[|c cs]|]|]; try done. cbn. intros He. exists c, cs. split; [done|].
    destruct (field f c) as [[]|]; try done. cbn in He. case_bool_decide; naive_solver.
  - intros (c & cs & -> & Hf). cbn. rewrite Hf. cbn. by rewrite bool_decide_eq_true_2.
Qed.

Lemma carries_client_iff ρ pod : ρ "object" = Some (J pod) →
  eval ρ carries_client = Some (J (JBool true)) ↔
  ∃ c cs, spec_field "initContainers" pod = Some (JArr (c :: cs)) ∧
    field "name" c = Some (JStr SidecarContainer) ∧ field "restartPolicy" c = Some (JStr "Always").
Proof.
  intros Ho. unfold carries_client. rewrite !eval_and, !(first_text ρ pod) by done. split.
  { intros [[[_ (c & cs & Hk & Hn)] _] (c' & cs' & Hk' & Hr)]. simplify_eq. eauto 6. }
  intros (c & cs & Hk & Hn & Hr). destruct (spec_obj _ _ _ Hk) as [m Hm]. split_and!; [| |by exists c, cs| |by exists c, cs].
  - rewrite (eval_has ρ pod m) by done. by rewrite Hk.
  - change (eval ρ (Gt (Size ?e) (Num 0))) with
      (x ← (v ← eval ρ e; l ← items v; Some (J (JNum (Z.of_nat (length l)))));
       match x with J (JNum m) => Some (J (JBool (0 <? m))) | _ => None end).
    by rewrite (eval_field ρ pod), Hk by done.
  - change (eval ρ (Has first ?f)) with
      (v ← eval ρ first; match v with J (JObj _) => Some (J (JBool (bool_decide (is_Some (select v f))))) | _ => None end).
    rewrite (eval_first ρ pod), Hk by done. destruct (field_obj _ _ _ Hr) as [mc ->]. cbn. by rewrite Hr.
Qed.

Lemma accepts_iff pod : accepts pod ↔ tunnelled pod.
Proof.
  unfold accepts, backstop, tunnelled. rewrite !Forall_cons, Forall_nil. set (ρ := bind _ _ _).
  rewrite (carries_client_iff ρ pod) by done.
  enough ((∃ m, field "spec" pod = Some (JObj m)) →
    eval ρ no_host_network = Some (J (JBool true)) ↔
    spec_field "hostNetwork" pod = None ∨ spec_field "hostNetwork" pod = Some (JBool false)) as Hh.
  { split.
    - intros (Hn & (c & cs & Hk & Hc) & _). split; [by exists c, cs|]. apply Hh; [|done].
      by eapply spec_obj.
    - intros [(c & cs & Hk & Hc) Hn]. split; [|split; [by exists c, cs|done]]. apply Hh; [|done].
      by eapply spec_obj. }
  intros Hm. unfold no_host_network.
  change (eval ρ (Or (Not ?a) (Not ?b))) with
    (of_bool (cel_or (to_bool (of_bool (negb <$> to_bool (eval ρ a)))) (to_bool (of_bool (negb <$> to_bool (eval ρ b)))))).
  rewrite or_true, !not_true, (has_is ρ pod), (eval_field ρ pod) by done.
  destruct (spec_field "hostNetwork" pod) as [v|]; cbn; naive_solver.
Qed.

(** ** Admission *)

(** [literal] is a CEL literal of [v]. *)
Definition literal_of (literal : string) (v : json) : Prop := ∃ fuel, read fuel literal = Some (v, "").

Definition variable_object (name literal : string) : json :=
  JObj [("name", JStr name); ("expression", JStr ("dyn(" +:+ literal +:+ ")"))].

(** The policy object has these expressions and these values of its variables. *)
Record policy_is (policy : json) (condition mutation : cel) (sidecar volumes : json) : Prop := {
  pi_condition : spec_field "matchConditions" policy =
    Some (JArr [JObj [("name", JStr "not-yet-injected"); ("expression", JStr (print condition))]]);
  pi_mutation : spec_field "mutations" policy =
    Some (JArr [JObj [("patchType", JStr "JSONPatch"); ("jsonPatch", JObj [("expression", JStr (print mutation))])]]);
  pi_variables : ∃ s v, spec_field "variables" policy = Some (JArr [variable_object "sidecar" s; variable_object "volumes" v]) ∧
    literal_of s sidecar ∧ literal_of v volumes;
}.

(** [pod'] is [pod] with the client first among the init containers and its volumes after the pod's own. *)
Record injected (sidecar : json) (volumes : list json) (cs vs : list json) (pod pod' : json) : Prop := {
  in_containers : spec_field "initContainers" pod' = Some (JArr (sidecar :: cs));
  in_volumes : spec_field "volumes" pod' = Some (JArr (vs ++ volumes));
  in_others : ∀ k, k ≠ "initContainers" → k ≠ "volumes" → spec_field k pod' = spec_field k pod;
  in_outside : ∀ f, f ≠ "spec" → field f pod' = field f pod;
}.

Lemma plain_literal v : plain v → literal_of (celLiteral v) v.
Proof.
  intros Hp. exists (size v). pose proof (celLiteral_reads v (size v) "" (Nat.le_refl _) Hp I) as Hr. by rewrite str_app_nil_r in Hr.
Qed.

(** The mutation injects. *)
Lemma injection_patches pod sc vl cs vs :
  pod_like pod cs vs →
  ∃ patches pod', eval (scope pod sc (JArr vl)) injection = Some patches ∧ patch patches pod = Some pod' ∧
    injected sc vl cs vs pod pod' ∧ ∃ m, field "spec" pod' = Some (JObj m).
Proof.
  intros Hpod. destruct (volumes_patched pod vl cs vs Hpod) as (pod1 & Hp1 & [[m1 Hm1] Hv Ho Hf]).
  assert (spec_field "initContainers" pod1 = spec_field "initContainers" pod) as Hi by by apply Ho.
  destruct (containers_patched pod1 sc cs m1 Hm1) as (pod2 & Hp2 & [Hm2 Hc2 Ho2 Hf2]).
  { unfold list_of. rewrite Hi. apply Hpod. }
  exists (L (volume_patches pod vl ++ container_patches pod sc)), pod2. split_and!.
  - by eapply eval_injection.
  - rewrite patch_app, Hp1. cbn [mbind option_bind]. unfold container_patches in *. by rewrite Hi in Hp2.
  - split; [done|by rewrite Ho2 by done| |].
    + intros k Hk1 Hk2. by rewrite Ho2, Ho by done.
    + intros f Hne. by rewrite Hf2, Hf by done.
  - done.
Qed.

Lemma injected_pod_like sc vl cs vs pod pod' n :
  pod_like pod cs vs → injected sc vl cs vs pod pod' → (∃ m, field "spec" pod' = Some (JObj m)) → field "name" sc = Some (JStr n) →
  pod_like pod' (sc :: cs) (vs ++ vl).
Proof.
  intros [_ _ _ Hn Hh] [Hc Hv Ho _] Hm Hs. split; [done|by unfold list_of; rewrite Hc|by unfold list_of; rewrite Hv| |].
  - constructor; [by exists n|done].
  - by rewrite Ho.
Qed.

Lemma injected_accepts sc vl cs vs pod pod' :
  pod_like pod cs vs → injected sc vl cs vs pod pod' →
  field "name" sc = Some (JStr SidecarContainer) → field "restartPolicy" sc = Some (JStr "Always") →
  accepts pod' ↔ host_network pod = false.
Proof.
  intros [_ _ _ _ Hh] [Hc _ Ho _] Hn Hr. rewrite accepts_iff. unfold tunnelled, host_network. rewrite (Ho "hostNetwork") by done. split.
  - by intros [_ [->| ->]].
  - intros Hb. split; [by exists sc, cs|]. destruct Hh as [->|[b Hh]]; [by left|]. rewrite Hh in *. subst. by right.
Qed.

Section admission.
Context `{JsonLib}.

Lemma rendered_policy_is version sidecar volumes sc vl policy binding :
  container_JSON sidecar = Ok sc → plain sc → volumes_JSON volumes = Ok vl → plain vl →
  renderInjectPolicy version sidecar volumes = Ok (policy, binding) →
  policy_is policy not_yet_injected injection sc vl.
Proof.
  intros Hsc Hps Hvl Hpv Hr. unfold renderInjectPolicy in Hr. rewrite Hsc, Hvl in Hr. cbn [celOf] in Hr.
  destruct injectMatchResources as [match_|]; [|done]. injection Hr as <- _. destruct texts as (Hc & Hm & _).
  split; [by rewrite Hc|by rewrite Hm|]. exists (celLiteral sc), (celLiteral vl). split_and!; [done| |]; by apply plain_literal.
Qed.

(** C20: admission, of the injection policy the operator renders for its sidecar and the backstop
    policy shipped beside it. On a pod without the client the condition of the policy holds and its
    mutation succeeds: the client becomes the first init container, its volumes follow the pod's
    own, and the rest of the pod is as it was; the condition then no longer holds, so a pod is never
    injected twice, and the backstop accepts the pod unless it is on the host network. The backstop
    accepts exactly the pods whose first init container is the client, as a sidecar, off the host
    network, and it is bound to the same pods as the injection policy. *)
Theorem labelled_pods_are_tunnelled version image gw policy binding sc vl pod cs vs :
  let c := injectedSidecar image gw in
  container_JSON c.1 = Ok sc → plain sc →
  field "name" sc = Some (JStr (co_Name c.1)) → field "restartPolicy" sc = JStr <$> co_RestartPolicy c.1 →
  volumes_JSON c.2 = Ok (JArr vl) → plain (JArr vl) →
  renderInjectPolicy version c.1 c.2 = Ok (policy, binding) → pod_like pod cs vs →
  (∃ condition mutation, policy_is policy condition mutation sc (JArr vl) ∧
     let ρ p := scope p sc (JArr vl) in
     eval (ρ pod) condition = Some (J (JBool (negb (existsb is_client cs)))) ∧
     ∃ patches pod', eval (ρ pod) mutation = Some patches ∧ patch patches pod = Some pod' ∧
       injected sc vl cs vs pod pod' ∧ eval (ρ pod') condition = Some (J (JBool false)) ∧
       (accepts pod' ↔ host_network pod = false)) ∧
  print <$> backstop = validations ∧ backstopSelectors = injectSelectors ∧ ∀ p, accepts p ↔ tunnelled p.
Proof.
  intros c Hsc Hps Hn Hr Hvl Hpv Hp Hpod. split; [|split_and!; [apply texts|done|apply accepts_iff]].
  exists not_yet_injected, injection. split; [by eapply rendered_policy_is|]. intros ρ. split; [by eapply eval_not_yet_injected|].
  destruct (injection_patches pod sc vl cs vs Hpod) as (patches & pod' & He & Hpa & Hi & Hm).
  exists patches, pod'. split_and!; [done|done|done| |by eapply injected_accepts].
  unfold ρ. rewrite (eval_not_yet_injected pod' sc (JArr vl) (sc :: cs) (vs ++ vl)) by by eapply injected_pod_like.
  cbn [existsb]. unfold is_client at 1. by rewrite Hn.
Qed.
End admission.

(** A pod with an init container and a volume of its own. *)
Module RefAdmission.
Definition pod : json :=
  JObj [("kind", JStr "Pod");
        ("spec", JObj [("initContainers", JArr [JObj [("name", JStr "migrate")]]);
                       ("containers", JArr [JObj [("name", JStr "app")]]);
                       ("volumes", JArr [JObj [("name", JStr "data")]])])].
End RefAdmission.

#[local] Existing Instances RefInjection.jsonlib.

Lemma labelled_pods_are_tunnelled_witness :
  ∃ sc patches pod', patch patches RefAdmission.pod = Some pod' ∧ field "name" sc = Some (JStr "wg-client") ∧
    spec_field "initContainers" pod' = Some (JArr [sc; JObj [("name", JStr "migrate")]]) ∧ accepts pod'.
Proof.
  eassert (pod_like RefAdmission.pod [JObj [("name", JStr "migrate")]] [JObj [("name", JStr "data")]]) as Hpod.
  { split; [by eexists|done|done| |by left]. repeat constructor. by eexists. }
  destruct (renderInjectPolicy "v1" (injectedSidecar "agent:1" "vpn/gw").1 (injectedSidecar "agent:1" "vpn/gw").2)
    as [[policy binding]|] eqn:Hp; [|discriminate Hp].
  edestruct (labelled_pods_are_tunnelled "v1" "agent:1" "vpn/gw" policy binding) as [Ha _];
    [reflexivity| |reflexivity|reflexivity|reflexivity| |exact Hp|exact Hpod|].
  - cbn. split_and!; try done. repeat constructor; done.
  - cbn. split_and!; try done; repeat constructor; done.
  - destruct Ha as (_ & _ & _ & _ & patches & pod' & _ & Hpa & Hi & _ & Hacc). eexists _, patches, pod'.
    split; [exact Hpa|]. split; [|split; [apply (in_containers _ _ _ _ _ _ Hi)|by apply Hacc]]. reflexivity.
Defined.
