(* ===== verification/EndToEnd.v ===== *)
(** * From the operator to the gateway and the client

    The components together: what the operator writes is what the gateway's device is given,
    and what it publishes to a peer is enough for the client's tunnel and cannot loop. *)

From S2P Require Import Prelude GoStd Netip NetipFacts Effects Api External Ipam AgentState Peers Resources Gateway Controller ReferenceCluster ControllerEffects PassFacts GatewayFacts PassOutcomes ReconcileFacts Node WgServer WgServerFacts Datapath DatapathFacts Agent AgentFacts SidecarPeer SidecarTunnel RoutesFacts.

#[local] Abbreviation kev := (@existT KOp KRes).
#[local] Abbreviation nev := (@existT NOp NRes).

(** ** The gateway *)

Section gateway.
Context `{WgTypes, ConditionLib, IpnetgenSpec, OwnerLib, ApplyLib}.
Context `{!OwnedObject Service, !OwnedObject Deployment, !agent.StateCodec, !Sha256, !WgKernel}.

(** What the operator renders is what the agent needs of a state. *)
Lemma servable_state_ok req wg l pk :
  servable req wg l → validatePeerCIDR (effectivePeerCIDR4 wg) = None → state_ok (agent.Peers (desiredState wg pk l)).
Proof.
  intros [_ Hk Ha Hp] (v & b & Hc & Hv & Hb & Hbase)%validatePeerCIDR_None. rewrite Forall_forall in Hp. split.
  - rewrite desiredState_Peers, <- list_fmap_compose. exact Hk.
  - rewrite desiredState_Peers, <- list_fmap_compose. exact Ha.
  - intros q. rewrite desiredState_Peers. intros (p & -> & Hin)%list_elem_of_fmap.
    destruct (Hp p Hin) as (_ & Hadm & Hu). change (peer_Key (renderPeer p)) with (peer_Key p).
    change (peer_Address (renderPeer p)) with (peer_Address p). split_and!; [by eapply admissible_key| |].
    + destruct Hadm as [_ Hadm]. unfold admissionProblem in Hadm. case_decide; [done|].
      destruct (ParseKey (peer_Key p)) as [k|]; [|done]. case_decide; [|done]. by exists k.
    + rewrite Hc in Hu. apply addressUsable_4 in Hu as (k & Hk' & ->); [|done|lia].
      exists (base v b + k). split; [|done].
      pose proof (base_range v b ltac:(lia) Hv). pose proof (base_top v b ltac:(lia) Hv). unfold u32 in *. lia.
Qed.

Lemma wanted_rendered wg l pk :
  NoDup (peer_Key <$> l) → wanted (agent.Peers (desiredState wg pk l)) = wanted l.
Proof.
  intros Hk. unfold wanted. apply list_to_map_proper.
  - rewrite desiredState_Peers, <- !list_fmap_compose. exact Hk.
  - rewrite desiredState_Peers, <- list_fmap_compose. done.
Qed.

(** The Secret an operation writes. *)
Definition written (o : KOp) : option Secret :=
  match o with UpdateSecret s | CreateSecret s => Some s | _ => None end.

Lemma secret_write_renders wg l tr e s :
  secret_write wg l tr e → written (projT1 e) = Some s →
  ∃ pk, agent.Marshal (desiredState wg pk l) = Ok (data s "state.json").
Proof. intros [old s' w _ (_ & Hm & _) _|e' k s' w _ _ _ (_ & Hm & _)] [= <-]; eauto. Qed.

(** C2: What the operator writes is what the gateway does. When the Secret a reconcile wrote is
    the file of an agent that answers its readiness probe with 200, the device has just
    been given, from whatever peers it had, exactly the servable peers of that
    reconcile: each peer's key with its own address alone, and no other key. *)
Theorem secret_reaches_device img pull req tr r e s f ag tr' :
  Forall lawful tr → exec (Reconcile img pull req) tr r → e ∈ tr → written (projT1 e) = Some s →
  (∀ st, agent.Marshal st = Ok (data s "state.json") → agent.transportable st) →
  exec (health f ag) tr' 200 →
  (∀ b, nev (ReadFile (f_state f)) (Ok b) ∈ tr' → b = data s "state.json") →
  (∀ i dev, nev (WgDevice i) (Ok dev) ∈ tr' → device_ok dev) →
  ∃ wg l dev cfg, servable req wg l ∧ Forall (stored tr) l ∧
    nev (WgDevice (f_iface f)) (Ok dev) ∈ tr' ∧
    nev (ConfigureDevice (f_iface f) cfg) None ∈ tr' ∧ dc_ReplacePeers cfg = false ∧
    ∀ order, order ≡ₚ dc_Peers cfg → foldl apply_peer (view dev) order = wanted l.
Proof.
  intros Hlaw Hex He Hw Htr Hh Hfile Hdev.
  destruct (Reconcile_secret_write img pull req tr r e Hlaw Hex He) as (wg & l & _ & Hsp & Hs & Hst & Hsw).
  { unfold may. by destruct (projT1 e). }
  destruct (secret_write_renders _ _ _ _ _ Hsw Hw) as [pk Hm].
  apply health_ok in Hh as (_ & b & state & ts & tp & body & -> & Hu & _ & Hsync & _).
  assert (state = desiredState wg pk l) as ->.
  { rewrite (Hfile b) in Hu by left. rewrite (agent.Unmarshal_Marshal _ _ (Htr _ Hm) Hm) in Hu. congruence. }
  pose proof Hsp as [Hcidr _]%specProblem_pure_None.
  destruct (Sync_serves _ _ _ _ _ Hsync (servable_state_ok _ _ _ _ Hs Hcidr)) as (dev & cfg & Hd & Hc & Hr & Hconv).
  { intros dev Hd. apply (Hdev (f_iface f)). set_solver. }
  exists wg, l, dev, cfg. split_and!; [done|done|set_solver|set_solver|done|].
  intros order Hperm. rewrite <- (wanted_rendered wg l pk) by apply Hs. by apply Hconv.
Qed.
End gateway.

(** ** The client *)

Section client.
Context `{WgTypes, ConditionLib, ApplyLib}.

Lemma ParseAddrPort_joined v port n :
  u32 v → ParseUint port 16 = Some n → port ≠ "" → contains_byte ":"%char port = false →
  ParseAddrPort (JoinHostPort (string4 v) port) = Ok (mkAddrPort (addr4 v) n).
Proof.
  intros Hv Hn Hp Hc. unfold JoinHostPort. rewrite !string4_no_byte by done. cbn [orb].
  unfold ParseAddrPort, splitAddrPort. change (":" +:+ port) with (String ":" port). rewrite cut_last_app by done.
  destruct (string4 v) as [|c t] eqn:Hs.
  { pose proof (ParseAddr_string4 v Hv) as Hpa. by rewrite Hs in Hpa. }
  rewrite bool_decide_eq_false_2 by done. pose proof (string4_no_byte "["%char v) as Hb. rewrite Hs in Hb.
  specialize (Hb eq_refl ltac:(done)). cbn [contains_byte] in Hb. apply orb_false_iff in Hb as [-> _].
  rewrite Hn, <- Hs, ParseAddr_string4 by done. done.
Qed.

(** The prefixes of the local networks of a spec that passed its checks. *)
Lemma parseLocalCIDRs_sound name l :
  (∀ c, c ∈ l → ∃ v b, canonical c v b ∧ 1 <= b) →
  ∃ ps, parseLocalCIDRs_loop name l = Ok ps ∧ locals_ok ps ∧ length ps = length l ∧
    ∀ c v b, c ∈ l → canonical c v b → prefix4 v b ∈ ps.
Proof.
  intros Hl. induction l as [|c l IH].
  - exists []. split_and!; [done|constructor|done|]. by intros c v b ?%not_elem_of_nil.
  - destruct (Hl c) as (v & b & Hc & Hb); [left|]. destruct IH as (ps & Hps & Hok & Hlen & Hin); [intros; apply Hl; by right|].
    pose proof Hc as (-> & Hv & Hb' & Hbase). exists (prefix4 v b :: ps). cbn [parseLocalCIDRs_loop].
    rewrite ParsePrefix_text4, Bits_prefix4 by done. destruct (Z.eqb_spec b 0); [lia|].
    rewrite Hps, Masked_4, Hbase by done. split_and!; [done| |by cbn; f_equal|].
    + apply Forall_cons. split; [|done]. split; [by exists v, b|]. rewrite Bits_prefix4. lia.
    + intros c v' b' [->|Hc']%elem_of_cons Hcan; [|right; by apply (Hin c)].
      pose proof (parsed_canonical _ _ _ Hcan) as [Hq1 _]. pose proof (parsed_canonical _ _ _ Hc) as [Hq2 _].
      rewrite Hq1 in Hq2. injection Hq2 as -> ?. assert (b' = b) as -> by lia. left.
Qed.

Lemma clusterIP_inside name ip locals :
  clusterIPOutside name ip locals = None → (∀ c, c ∈ locals → ∃ v b, canonical c v b ∧ 1 <= b) →
  ∃ vip c v b, u32 vip ∧ ip = string4 vip ∧ c ∈ locals ∧ canonical c v b ∧ inside v b vip.
Proof.
  unfold clusterIPOutside. intros Hin Hl. destruct (ParseAddr ip) as [a|] eqn:Ha; [|done].
  destruct (existsb _ locals) eqn:He; [|done]. clear Hin. apply existsb_exists in He as (c & Hc & Hcon).
  apply list_elem_of_In in Hc. destruct (Hl c Hc) as (v & b & Hcan & _).
  pose proof (parsed_canonical _ _ _ Hcan) as [Hp _]. rewrite Hp in Hcon. pose proof Hcan as (_ & Hv & Hb & Hbase).
  apply Contains_4 in Hcon as [H4 Hr]; [|done]. rewrite Hbase in Hr.
  destruct (ParseAddr_4_canonical _ _ Ha H4) as (Hu & Haa & Hs). exists (a_val a), c, v, b.
  split_and!; [done| |done|done|done]. by rewrite <- Hs, Haa.
Qed.

(** The tunnel [t] is one a client of the gateway at [ip], with the server key [k], can bring up:
    its networks can be routed past it, and the gateway itself is in one of them, so
    the tunnel's own packets do not enter it. *)
Record usable (p : WireguardPeer) (k : Key) (t : Tunnel) : Prop := {
  us_address : ∃ a, ParseAddr (peer_Address p) = Ok a ∧ Is4 a = true ∧ tn_Address t = PrefixFrom a 32;
  us_key : tn_ServerKey t = k;
  us_locals : locals_ok (tn_LocalCIDRs t);
  us_port : ap_port (tn_Endpoint t) = 51820;
  us_gateway : ∃ n, n ∈ tn_LocalCIDRs t ∧ Contains n (ap_addr (tn_Endpoint t)) = true;
}.

Lemma carried_tunnel wg name ip pub k p q cidr :
  specProblem_pure wg = None → clusterIPOutside name ip (LocalCIDRs (wg_Spec wg)) = None →
  addressUsable (peer_Address p) cidr = true → cidr = effectivePeerCIDR4 wg →
  carries wg {| id_Endpoint := JoinHostPort ip (Itoa WireguardPort); id_PublicKey := pub |} q →
  peer_Address q = peer_Address p → ParseKey pub = Ok k → pub ≠ "" →
  ∃ t, desiredTunnel q = Ok t ∧ usable p k t.
Proof.
  intros Hsp Hip Hu -> (Hend & Hpub & Hloc) Ha Hk Hne. cbn [id_Endpoint id_PublicKey] in *.
  pose proof (specProblem_networks _ Hsp) as [(pv & pb & (Hpc & Hpv & Hpb & _) & Hpb' & _) Hl _].
  assert (∀ c, c ∈ LocalCIDRs (wg_Spec wg) → ∃ v b, canonical c v b ∧ 1 <= b) as Hl'.
  { intros c Hc. destruct (Hl c Hc) as (v & b & ? & ? & _). by exists v, b. }
  destruct (clusterIP_inside _ _ _ Hip Hl') as (vip & c & v & b & Hvip & -> & Hc & Hcan & Hin).
  destruct (parseLocalCIDRs_sound (peer_Name q) _ Hl') as (ps & Hps & Hok & _ & Hall).
  rewrite Hpc in Hu. apply addressUsable_4 in Hu as (i & Hi & Haddr); [|done|lia].
  assert (u32 (base pv pb + i)) as Hu32.
  { pose proof (base_range pv pb ltac:(lia) Hpv). pose proof (base_top pv pb ltac:(lia) Hpv). unfold u32 in *. lia. }
  pose proof (ParseAddr_string4 _ Hu32) as Hpa. rewrite <- Haddr in Hpa.
  pose proof (ParseAddrPort_joined vip (Itoa WireguardPort) 51820 Hvip eq_refl ltac:(done) eq_refl) as Hap.
  exists {| tn_Address := PrefixFrom (addr4 (base pv pb + i)) 32; tn_ServerKey := k;
            tn_Endpoint := mkAddrPort (addr4 vip) 51820; tn_LocalCIDRs := ps |}. split.
  - unfold desiredTunnel, parseLocalCIDRs. change (ps_Address (wp_Status q)) with (peer_Address q).
    rewrite Ha, Hend, Hpub, Hloc. rewrite !decide_False, Hpa, Hap, Hk, Hps; [done|..|done| |].
    + intros E. rewrite E in Hc. by apply not_elem_of_nil in Hc.
    + intros E. by rewrite E in Hap.
    + intros E. by rewrite E in Hpa.
  - split; cbn [tn_Address tn_ServerKey tn_LocalCIDRs tn_Endpoint ap_port ap_addr].
    + eexists. by split_and!.
    + done.
    + done.
    + done.
    + exists (prefix4 v b). split; [by eapply Hall|]. pose proof Hcan as (_ & _ & Hb & Hbase).
      apply Contains_4; [done|]. split; [done|]. rewrite Hbase. exact Hin.
Qed.
End client.

(** C4: A gateway shown as ready is one its clients can use. When a reconcile shows a
    Wireguard as ready with a server key, then for every peer it serves the client
    that reads the peer, as it was found or as the reconcile wrote it, computes its
    tunnel without error: at the peer's own address alone, to that key, with local
    networks that can be routed past the tunnel, one of which contains the gateway,
    so the tunnel's own packets never enter it. *)
Theorem ready_peers_can_connect
    `{WgTypes, ConditionLib, IpnetgenSpec, OwnerLib, ApplyLib}
    `{!OwnedObject Service, !OwnedObject Deployment, !agent.StateCodec}
    img pull req tr r w x k :
  Forall lawful tr → exec (Reconcile img pull req) tr r → kev (UpdateWireguardStatus w) x ∈ tr →
  ws_Status (wg_Status w) = v1alpha1.Ready → ws_PublicKey (wg_Status w) = Key_String k →
  ∃ wg l secret, head tr = Some (kev (GetWireguard req) (Ok wg)) ∧ servable req wg l ∧
    state_current wg secret l tr ∧ data secret "publicKey" = Key_String k ∧
    ∀ p, p ∈ l → ∃ q t,
      (q = p ∨ ∃ y, kev (UpdatePeerStatus q) y ∈ tr ∧ ∀ e, y = Err e → skipPeerWrite e = true) ∧
      ident q = ident p ∧ desiredTunnel q = Ok t ∧ usable p k t.
Proof.
  intros Hlaw Hex He Hr Hk.
  destruct (Reconcile_caused img pull req tr r w x Hex He) as (wg & Hh & c & i & latest & Hc & _ & Hw).
  exists wg. destruct Hw as (t & now & now' & ->). cbn [wg_Status] in *.
  destruct Hc as [| |dep rs ms st name ip secret l Hsp Hip (t' & Ht & Hp) _ Hst _ Hsy]; [done|done|].
  exists l, secret. assert (servable req wg l) as Hsv.
  { eapply reconcilePeers_exec; [by apply specProblem_pure_None| |exact Hp]. rewrite Forall_forall in Hlaw |- *. eauto. }
  change (data secret "publicKey" = Key_String k) in Hk. rewrite Hk in Hsy.
  split_and!; [done..|]. intros p Hin. rewrite Forall_forall in Hsy.
  pose proof (sv_peers _ _ _ Hsv) as Hpeers. rewrite Forall_forall in Hpeers. destruct (Hpeers p Hin) as (_ & _ & Hu).
  assert (Key_String k ≠ "") as Hne. { intros E. pose proof (Key_String_len k) as Hlen. by rewrite E in Hlen. }
  destruct (Hsy p Hin) as [Hca|(q & y & Hq & Hid & Hca & Ha & _ & Hy)].
  - destruct (carried_tunnel _ _ _ _ k p p _ Hsp Hip Hu eq_refl Hca eq_refl (ParseKey_String k) Hne) as (t0 & ? & ?).
    exists p, t0. eauto.
  - destruct (carried_tunnel _ _ _ _ k p q _ Hsp Hip Hu eq_refl Hca Ha (ParseKey_String k) Hne) as (t0 & ? & ?).
    exists q, t0. eauto 10.
Qed.

#[local] Existing Instances Reference.wgtypes Reference.conditions Reference.ipnetgen
  Reference.ipnetgen_spec RefCluster.owners RefCluster.applylib RefCluster.owned_service
  RefCluster.owned_deployment RefCluster.codec RefAgent.sha RefNode.kernel.

Lemma trace_written :
  ∃ e s, e ∈ RefCluster.trace ∧ written (projT1 e) = Some s ∧ data s "state.json" = "rendered".
Proof.
  assert (∃ e, e ∈ RefCluster.trace ∧
    match written (projT1 e) with Some s => bool_decide (data s "state.json" = "rendered") | None => false end = true)
    as (e & He & Hw); [apply Exists_exists; by_evaluation|].
  destruct (written (projT1 e)) as [s|] eqn:Hs; [|done]. apply bool_decide_eq_true in Hw. by exists e, s.
Qed.

Lemma secret_reaches_device_witness :
  ∃ wg l dev cfg, servable RefCluster.req wg l ∧
    nev (WgDevice "wg0") (Ok dev) ∈ RefAgent.probed.1.1 ∧ nev (ConfigureDevice "wg0" cfg) None ∈ RefAgent.probed.1.1 ∧
    foldl apply_peer (view dev) (dc_Peers cfg) = wanted l.
Proof.
  destruct trace_written as (e & s & He & Hs & Hr).
  destruct (secret_reaches_device "agent:1" "Always" RefCluster.req RefCluster.trace RefCluster.reconciled.1.2 e s
    RefAgent.flags RefAgent.agent RefAgent.probed.1.1) as (wg & l & dev & cfg & Hsv & _ & Hd & Hc & _ & Hf).
  - apply trace_lawful.
  - apply RefCluster.trace_exec.
  - exact He.
  - exact Hs.
  - rewrite Hr. intros st. cbn. by destruct (decide _).
  - apply RefAgent.probed_exec.
  - intros b [s' Hb]%run_answers. apply (f_equal (λ e : event NRes,
      match e with existT (ReadFile _) (Ok d) => d | _ => data s "state.json" end)) in Hb. cbn in Hb. by rewrite Hb.
  - apply RefAgent.probed_devices.
  - exists wg, l, dev, cfg. exact (conj Hsv (conj Hd (conj Hc (Hf _ (Permutation_refl _))))).
Defined.

Lemma trace_server_key :
  ∃ w x k, kev (UpdateWireguardStatus w) x ∈ RefCluster.trace ∧ ws_Status (wg_Status w) = v1alpha1.Ready ∧
    ws_PublicKey (wg_Status w) = Key_String k.
Proof.
  assert (∃ e : event KRes, e ∈ RefCluster.trace ∧
    match e with
    | existT (UpdateWireguardStatus w) _ => bool_decide (ws_Status (wg_Status w) = v1alpha1.Ready) &&
        bool_decide (ws_PublicKey (wg_Status w) = RefCluster.keyP)
    | _ => false end = true) as ([[] x] & He & Hw); [apply Exists_exists; by_evaluation|try done..].
  apply andb_true_iff in Hw as [Hr%bool_decide_eq_true Hk%bool_decide_eq_true].
  by exists w, x, ((RefCluster.keyP ↾ eq_refl) : Reference.key_text).
Qed.

Lemma ready_peers_can_connect_witness :
  ∃ wg l, head RefCluster.trace = Some (kev (GetWireguard RefCluster.req) (Ok wg)) ∧ servable RefCluster.req wg l ∧
    ∀ p, p ∈ l → ∃ q t k, ident q = ident p ∧ desiredTunnel q = Ok t ∧ usable p k t.
Proof.
  destruct trace_server_key as (w & x & k & He & Hr & Hk).
  destruct (ready_peers_can_connect "agent:1" "Always" RefCluster.req RefCluster.trace RefCluster.reconciled.1.2 w x k
    trace_lawful (RefCluster.trace_exec) He Hr Hk) as (wg & l & secret & Hh & Hs & _ & _ & Hp).
  exists wg, l. split_and!; [exact Hh|exact Hs|]. intros p Hin. destruct (Hp p Hin) as (q & t & _ & Hi & Ht & Hu).
  exists q, t, k. exact (conj Hi (conj Ht Hu)).
Defined.
